(* ===== verification/_CoqProject ===== *)
-Q . S2P
Prelude.v
PyFloat.v
Binary64.v
Civil.v
Hysteresis.v
Volatility.v
Models.v
Database.v
Buckets.v
Ranges.v
Baseline.v
Seasonality.v
Calendar.v
Detector.v
Intervals.v
Supervisor.v
RecoveryPlan.v
Redis.v
Quota.v
Json.v
Text.v
RecoveryStore.v
RecoveryRun.v
RecoverySteps.v
Rollups.v
Streams.v
Persister.v
ExactlyOnce.v
Alerts.v
Keys.v
Pipeline.v
Wire.v
Agreement.v
Provider.v
Rehydrate.v
Lease.v
Fanout.v
Limits.v
Market.v
Chart.v
Snapshot.v
Feed.v
Socket.v
Config.v
Ingestor.v
Beside.v
Readiness.v
RecoveryLoop.v
Leadership.v
Worker.v
Subscription.v
