(* ===== verification/Prelude.v ===== *)
(** * Live forex volatility tracker: a verified model

    ** The program

    Three Python processes around one Redis and one PostgreSQL.  The _ingestor_
    (src/apps/ingestor) holds a lease, reads ticks from a provider, and for every
    tick sends Redis one transaction: the tick's entry in the stream [stream:ticks],
    the caches of quote and open bar, frames for the browsers and, when the tick
    opens a new minute, the sealed bar, the volatility reading, the regime
    detector's snapshot and a transition, if one was committed.  The _worker_
    (src/apps/worker) reads the two streams as a consumer group and persists bars
    and transitions.  The _API_ (src/apps/api) serves history and frames.  The
    arithmetic is a package of its own (src/packages/core).

    ** The library

    Python's exceptions are values of [result]; an operation that mutates and then
    raises returns the mutated state beside the exception.  Integers are [Z],
    datetimes are microseconds of UTC since 1970 in [Z], floats are a type [F] with
    the operations of [PyFloat.v], so that a theorem holds for every arithmetic that
    meets the laws it names; [Binary64.v] is the instance of IEEE double precision,
    computed by the kernel, that the examples and the overflow theorems use, and the
    equivalences that hold only without rounding are stated for exact rationals.

    - [Prelude.v]: results, Python's sort and indexing, datetimes, list lemmas.
    - [PyFloat.v], [Binary64.v]: float operations and their order, IEEE doubles.
    - [Civil.v]: calendar dates and the ISO format ([datetime] of the library).
    - [Text.v], [Json.v]: texts for floats and integers, JSON values.
    - [Redis.v], [Streams.v]: sorted sets and consumer groups, as the classes the
      clients are proved against, each with a concrete instance.

    The core package (src/packages/core/fx_core):

    - [Volatility.v] (volatility/welford.py, ewma.py), [Buckets.v] (buckets.py),
      [Ranges.v] (range_estimators.py), [Models.v] (models.py), [Intervals.v]
      (intervals.py), [Calendar.v] (calendar/fx_sessions.py), [Keys.v] (keys.py);
    - [Baseline.v], [Seasonality.v], [Hysteresis.v], [Detector.v] (alerts/): the
      learnt reference, the hour-of-day profile, the Schmitt trigger, and the
      detector that composes them.

    The ingestor: [Config.v] (config.py: the settings, their validators and what is
    derived from them), [Feed.v] (providers/: the Tiingo adapter, its frames and its
    history), [Pipeline.v] (one tick of pipeline.py: [handle] is the method of that
    name, its helpers those it calls), [Provider.v] (adopt_provider and its script),
    [Rehydrate.v] (restore_detectors and the history loader), [Supervisor.v]
    (supervisor.py and the retry loop and status record of main.py), [Ingestor.v]
    (main.py: the life of the process, a machine that composes the lease's flags,
    the adapter, the pipeline, the watchdog, the retry loop and the heartbeat),
    [Beside.v] (the histories it loads, and their task), [Quota.v] (quota.py),
    [RecoveryPlan.v], [RecoveryStore.v], [RecoveryRun.v] (recovery.py: a run as a
    function of the tables), [RecoverySteps.v] (the run as the sequence of its calls,
    several of them over the same tables under the run lock), [Rollups.v] (the
    staleness query and what a run leaves of the continuous aggregates),
    [RecoveryLoop.v] (the leader's recovery loop and the command).

    [Lease.v] (src/packages/platform/fx_platform/leader.py): every replica and the key
    they share.  [Leadership.v] ties each process of [Ingestor.v] to its replica.

    The worker: [Database.v] (db.py), [Persister.v] (persister.py), [Alerts.v]
    (alerts.py), [Worker.v] (main.py: the process that runs both persisters as a task
    group, its start, its retries and its stop).

    The API: [Fanout.v] (ws/conflator.py, the writer of routers/stream.py, the
    manager's routing), [Subscription.v] (the manager's start, router task and stop:
    the replica's one subscription and its ways back), [Snapshot.v] (the manager's snapshot), [Socket.v]
    (ws/protocol.py and the stream endpoint), [Limits.v] (ratelimit.py,
    ws/tickets.py), [Market.v], [Chart.v] (routers/market.py), [Readiness.v]
    (routers/health.py and the way of a status from the processes to it).

    Composition: [Wire.v] (what the ingestor writes is what the worker's parsers
    read), [ExactlyOnce.v] (the log and the table), [Agreement.v] (the bars the
    ingestor publishes and the rows the worker stores), [Chart.v] (every writer of a
    chart's minutes and what the endpoint serves), [Snapshot.v] (a tick's frame and what a later browser
    is shown), [Socket.v] (Redis, router, session, writer and browser), [Readiness.v]
    and [Leadership.v].

    ** What is shown

    - Estimators: one-pass and two-pass moments agree, merging is concatenation, a
      window of bars has the moments of its ticks, one without a return counting as
      zero ([Volatility], [Buckets], [Ranges]); the EWMA is never poisoned by NaN or infinity, in doubles.
    - The trigger, as a machine fed by samples, gates and failovers: transitions
      alternate and are numbered 1, 2, 3, ...; each rests on a confirmed run;
      escalations are spaced; a steady signal does commit; an unobserved stretch
      clears STRESSED exactly once ([Hysteresis]).  The detector keeps all of it,
      does not learn from what it is measuring while STRESSED, and a NaN bar leaves
      it well-formed ([Detector]).
    - One tick: a committed transition is logged, by the same transaction, as an
      entry the worker parses back to it and the table accepts ([Wire]); bars are
      sealed in order and never early; for ticks in bucket order they are the rows
      the worker stores ([Agreement]).
    - The worker: through crashes, failed commits, lost acknowledgements and restarts
      its table counts each entry of a prefix of the log exactly once and loses nothing
      Redis has dropped, and a start ends, as long as the history is [orderly]: entries
      well formed, its own pending ones found first, none idle for a sweep
      ([ExactlyOnce], whose examples show what happens where it is not); an alert that
      is acknowledged is stored ([Alerts]).  The process is both persisters or none, in
      an orderly history a stop ends its bars' persister after a last flush, and what the process does to a persister is a run of the persister's own machine
      ([Worker]: [worker_is_whole], [stop_ends_bars], [worker_drives_persisters]).
    - Switching providers keeps every provider's past, and a new leader resumes what
      the last one wrote ([Provider], [Rehydrate]).
    - Recovery asks for exactly the missing minutes, never changes a stored row,
      stays within its budget and the provider's quota ([RecoveryPlan],
      [RecoveryRun], [Quota]).  The retry loop is throttled ([Supervisor]).
      Neither the leader's loop nor the command, cut short by an error or not, writes a
      minute whose ticks may still be in the stream ([RecoveryLoop]).  Taken call by call, an undisturbed run is that
      run; overlapping, failing and dying runs keep the record of what was recovered
      true; and the lock keeps runs apart as long as no living run loses it
      ([RecoverySteps]: [undisturbed_run], [records_stay_true], [one_run_at_a_time]).
      After a run the rollups of its window are what the bars give ([Rollups]).
    - The feed: from whatever comes, the adapter yields the quotes, in order, and
      ends for the reasons listed; what a history request keeps are the rows that
      are possible bars, so what recovery stores is possible and is what one of its own
      requests was answered with ([Feed]).
    - Leading: of the replicas that were granted the lease within its time to live there
      is at most one, and a lease that nobody renews goes to the next who asks once that
      time has passed ([Lease]); what the process publishes as the feed's state is the
      feed's state, but for the case below ([Ingestor]), and an API replica that says it is ready
      rests on it ([Readiness]).
    - Browsers: a replica relays what is published, in order and nothing twice,
      between two breaks of its connection ([Subscription]); a session is one mailbox
      per routing key, alerts are never conflated ([Fanout]); a snapshot shows what the
      last frame showed ([Snapshot]); a browser at rest shows what Redis holds, but for
      what a break of the replica's connection lost, however reader, writer, router and
      publisher interleave, and it comes to rest unless an unsubscription makes its
      writer spin ([Socket]); tickets work once ([Limits]); the chart serves the newest
      of what was sealed, seeded and recovered ([Chart]).
    - The roll-up is a group-by ([Intervals]); the market calendar's next opening
      and closing are the next ones ([Calendar]).

    Where the code does not do what it says, a lemma exhibits it:
    - the ingestor: [delay_overflows], [late_tick_disagrees], [half_restored],
      [refused_by_the_lease], [fatal_is_overwritten], [deposed_leader_speaks],
      [regained_lease_says_healthy], [one_lost_packet_ends_leadership],
      [oversized_price_escapes], [nan_close_kept], [naive_date_escapes],
      [heartbeats_yield_nothing], [smallest_price_ends_handle],
      [error_frame_shows_token], [spelling_finds_nothing],
      [failed_refresh_ends_process], [bad_row_ends_start], [lost_lock_aborts_living],
      [failed_run_stays_running], [first_tick_counts_as_zero], [negative_budget_asks];
    - the worker: [malformed_drain_never_ends], [failover_out_of_order_loses],
      [same_batch_collision_silent], [poison_blocks], [slow_flush_counts_twice],
      [lost_sweep_ack_counts_twice], [stop_ignored_without_redis],
      [cancellation_unheard], [poisoned_alert_ends_both], [deposed_worker_flushes];
    - the API: [unsubscribe_spins], [unsubscribe_hangs], [cut_misses_update], [given_up_update_ages], [ewma_request_fails],
      [no_bars_is_all_bars], [late_quote_hides_minute], [update_older_than_snapshot],
      [ready_without_a_feed], [alert_missed_in_outage].

    ** Fuel and bounds

    Recursion that is not structural takes fuel, and a theorem says how much is
    enough: a recovery plan takes as much as the window has minutes, [split_from] as
    many days, the calendar's search at most the eight days its loop allows,
    [chunks] the number of bars.  Loops of the services are runs over a list of
    inputs (a trip to Redis, what fails in it, a crash), so a property of every
    prefix is a property of the loop.

    ** What is not modelled

    - Clocks, random draws, provider replies and the place of each failure are
      inputs.  A transaction is one step; two processes interleave between steps.
    - Redis expiry where no model has it ([Chart.v] has that of the minutes) and
      approximate trimming: a stream that lost entries before the worker read them is outside the theorems
      on counting.  A reply that arrives in part is a failure of the whole trip.
    - The texts Python's [repr], [float] and [int] exchange are parameters with the
      law that reading gives back what was written.  A JSON value of another type
      than the writer's is a [TypeError]; Python would accept a few (an integer for
      a float).
    - A persister's flush timer: a flush is an input.
    - TimescaleDB's own work (materialising a continuous aggregate, retention,
      compression) and PostgreSQL's aggregates: [Rollups.v] takes their documented
      behaviour as a class; the migrations are otherwise its configuration.
    - A step of the ingestor's process runs to its next wait for the socket, for a sleep
      or for the lease: signals, heartbeats and the loss of the lease come between
      steps, not while it waits for Redis inside one.  [RecoveryRun.v] takes a run as one
      step of the tables; [RecoveryLoop.v] lets it end after any number of its calls, and
      that others run between them is the subject of [RecoverySteps.v].
    - A browser's connection is modelled by itself, on Python 3.12: a writer of another
      connection that spins stops it too.
    - Logging, metrics, the command's printed report; the construction of clients and
      of the FastAPI application with its module-level singletons (main.py and deps.py of
      the API, redis_client.py): wiring without a state of its own.
    - The web client, which is not Python. *)
From Stdlib Require Export ZArith Lia.
From stdpp Require Export sorting.
From stdpp Require Export base option gmap strings numbers list.

#[export] Set Default Goal Selector "!".

(* ------------------------------------------------------------------ *)
(** ** Python's exceptions as values *)

(** The exception classes the modelled code raises or catches.  The message of
    an exception is not modelled: no modelled code branches on it. *)
Inductive exn :=
  | ValueError
  | KeyError
  | TypeError
  | IndexError
  | OverflowError
  | ZeroDivisionError
  | AssertionError
  | RuntimeError
  | DatabaseError.

Inductive result (A : Type) :=
  | Ok (a : A)
  | Raise (e : exn).
Arguments Ok {A} a.
Arguments Raise {A} e.

#[export] Instance exn_eq_dec : EqDecision exn.
Proof. solve_decision. Defined.

#[export] Instance result_ret : MRet result := fun _ a => Ok a.
#[export] Instance result_bind : MBind result := fun _ _ k m =>
  match m with Ok a => k a | Raise e => Raise e end.
#[export] Instance result_fmap : FMap result := fun _ _ f m =>
  match m with Ok a => Ok (f a) | Raise e => Raise e end.

Definition is_ok {A} (r : result A) : bool :=
  match r with Ok _ => true | Raise _ => false end.

(** [guard_ b e] is [if not b: raise e]. *)
Definition guard_ (b : bool) (e : exn) : result unit :=
  if b then Ok tt else Raise e.

(** Lifting an operation through a list, stopping at the first exception. *)
Fixpoint mapR {A B} (f : A -> result B) (l : list A) : result (list B) :=
  match l with
  | [] => Ok []
  | a :: l => b ← f a; bs ← mapR f l; Ok (b :: bs)
  end.

Section Result.
Context {A B : Type}.

Lemma bind_ok (m : result A) (k : A -> result B) b :
  (m ≫= k) = Ok b <-> exists a, m = Ok a /\ k a = Ok b.
Proof.
  split.
  - destruct m as [a|e]; [intros H; by exists a | done].
  - by intros (a & -> & H).
Qed.

Lemma bind_raise (m : result A) (k : A -> result B) e :
  (m ≫= k) = Raise e <-> m = Raise e \/ exists a, m = Ok a /\ k a = Raise e.
Proof.
  split.
  - destruct m as [a|e']; cbn; intros H; [right; by exists a | left; congruence].
  - intros [->|(a & -> & H)]; done.
Qed.

Lemma guard_ok b e : guard_ b e = Ok tt <-> b = true.
Proof. unfold guard_. destruct b; split; intros; congruence. Qed.
End Result.

Lemma Forall2_elem_l {A B} (P : A -> B -> Prop) l k a :
  Forall2 P l k -> a ∈ l -> exists b, b ∈ k /\ P a b.
Proof.
  induction 1 as [|x y l k Hxy _ IH]; [by intros ?%elem_of_nil|].
  intros [->|Hin]%elem_of_cons; [exists y|destruct (IH Hin) as (b & ? & ?); exists b]; set_solver.
Qed.

Lemma Forall2_elem_r {A B} (P : A -> B -> Prop) l k b :
  Forall2 P l k -> b ∈ k -> exists a, a ∈ l /\ P a b.
Proof. intros Hl%Forall2_flip. by apply (Forall2_elem_l _ _ _ _ Hl). Qed.

Lemma mapR_Forall2 {A B} (f : A -> result B) l bs :
  mapR f l = Ok bs -> Forall2 (fun a b => f a = Ok b) l bs.
Proof.
  revert bs. induction l as [|a l IH]; intros bs; cbn; [intros [= <-]; constructor|].
  destruct (f a) as [b|] eqn:Hb; [|done]. cbn. destruct (mapR f l) as [bs'|]; [|done].
  intros [= <-]. constructor; [done|by apply IH].
Qed.

Lemma mapR_exists {A B} (f : A -> result B) l :
  (forall a, a ∈ l -> exists b, f a = Ok b) -> exists bs, mapR f l = Ok bs /\ Forall2 (fun a b => f a = Ok b) l bs.
Proof.
  induction l as [|a l IH]; intros Hf; [by exists []|]. cbn.
  destruct (Hf a (list_elem_of_here _ _)) as [b Hb].
  destruct IH as (bs & Hbs & Hall); [intros x Hx; apply Hf; by apply list_elem_of_further|].
  exists (b :: bs). rewrite Hb, Hbs. split; [done|by constructor].
Qed.

Lemma mapR_length {A B} (f : A -> result B) l bs :
  mapR f l = Ok bs -> length bs = length l.
Proof.
  revert bs. induction l as [|a l IH]; intros bs; cbn.
  - by intros [= <-].
  - intros (b & _ & H)%bind_ok. apply bind_ok in H as (bs' & Hbs & [= <-]).
    cbn. by rewrite (IH bs').
Qed.

(* ------------------------------------------------------------------ *)
(** ** Time *)

(** An aware [datetime] is an instant: Python compares, subtracts and shifts
    aware datetimes in whole microseconds.  [datetime] counts microseconds since
    1970-01-01T00:00:00Z and [timedelta] is a signed number of microseconds. *)
Abbreviation datetime := Z (only parsing).
Abbreviation timedelta := Z (only parsing).

Open Scope Z_scope.

Definition MICRO : Z := 1_000_000.
Definition seconds (s : Z) : timedelta := s * MICRO.
Definition minutes (m : Z) : timedelta := seconds (60 * m).
Definition hours (h : Z) : timedelta := minutes (60 * h).
Definition days (d : Z) : timedelta := hours (24 * d).

(** [int(ts.timestamp())]: seconds since the epoch, truncated towards zero. *)
Definition int_timestamp (ts : datetime) : Z := Z.quot ts MICRO.

(** [datetime.fromtimestamp(s, tz=UTC)] for a whole number of seconds. *)
Definition fromtimestamp (s : Z) : datetime := s * MICRO.

(** [ts.hour] of a UTC datetime. *)
Definition utc_hour (ts : datetime) : Z := (ts / hours 1) mod 24.

Lemma utc_hour_bound ts : 0 <= utc_hour ts < 24.
Proof. unfold utc_hour. apply Z.mod_pos_bound. lia. Qed.

Lemma int_timestamp_fromtimestamp s : int_timestamp (fromtimestamp s) = s.
Proof. unfold int_timestamp, fromtimestamp. apply Z.quot_mul. done. Qed.

Lemma int_timestamp_nonneg ts : 0 <= ts -> int_timestamp ts = ts / MICRO.
Proof. intros. unfold int_timestamp. by apply Z.quot_div_nonneg. Qed.

(* ------------------------------------------------------------------ *)
(** ** Automation shared by the components *)

Create HintDb fx discriminated.
#[export] Hint Resolve utc_hour_bound : fx.

(** Invert every monadic equation of the context. *)
Ltac inv_result :=
  repeat match goal with
  | H : (_ ≫= _) = Ok _ |- _ => apply bind_ok in H as (? & ? & ?)
  | H : Ok _ = Ok _ |- _ => injection H as H
  | H : Raise _ = Raise _ |- _ => injection H as H
  | H : Ok _ = Raise _ |- _ => discriminate H
  | H : Raise _ = Ok _ |- _ => discriminate H
  | H : guard_ _ _ = Ok ?u |- _ => destruct u; apply guard_ok in H
  | H : (_, _) = (_, _) |- _ => injection H as ? ?
  end; subst.

(** Case on the boolean tests and matches of the goal, keeping the equations. *)
Ltac split_ifs :=
  repeat match goal with
  | |- context [if ?b then _ else _] => let E := fresh "E" in destruct b eqn:E
  end.

Ltac split_ifs_in H :=
  repeat match type of H with
  | context [if ?b then _ else _] => let E := fresh "E" in destruct b eqn:E
  end.

(** Turn boolean comparisons of the context into propositions. *)
Ltac boolify :=
  repeat match goal with
  | H : (_ && _)%bool = true |- _ => apply andb_true_iff in H as [? ?]
  | H : (_ || _)%bool = false |- _ => apply orb_false_iff in H as [? ?]
  | H : negb _ = true |- _ => apply negb_true_iff in H
  | H : negb _ = false |- _ => apply negb_false_iff in H
  | H : (_ <? _) = true |- _ => apply Z.ltb_lt in H
  | H : (_ <? _) = false |- _ => apply Z.ltb_ge in H
  | H : (_ <=? _) = true |- _ => apply Z.leb_le in H
  | H : (_ <=? _) = false |- _ => apply Z.leb_gt in H
  | H : (_ =? _) = true |- _ => apply Z.eqb_eq in H
  | H : (_ =? _) = false |- _ => apply Z.eqb_neq in H
  | H : bool_decide _ = true |- _ => apply bool_decide_eq_true in H
  | H : bool_decide _ = false |- _ => apply bool_decide_eq_false in H
  end.

(** Division and remainder by constants: give [lia] their defining equations. *)
Ltac zdivmod :=
  intros; Z.div_mod_to_equations; first [lia | split_and!; intros; lia].

(* ------------------------------------------------------------------ *)
(** ** Lists and integers *)

Section Lists.
Context {A : Type}.

Lemma fold_left_snoc {B} (f : B -> A -> B) l x b :
  fold_left f (l ++ [x]) b = f (fold_left f l b) x.
Proof. by rewrite fold_left_app. Qed.

(** A step-preserved invariant holds after any sequence of steps. *)
Lemma fold_left_inv {B} (P : B -> Prop) (f : B -> A -> B) l b :
  (forall b a, a ∈ l -> P b -> P (f b a)) -> P b -> P (fold_left f l b).
Proof.
  revert b. induction l as [|a l IH]; intros b Hf Hb; [done|]. cbn.
  apply IH; [intros; apply Hf; set_solver | apply Hf; set_solver].
Qed.
End Lists.

(** Each element stands in relation [R] to its successor. *)
Definition chained {A} (R : A -> A -> Prop) (l : list A) : Prop :=
  forall i a b, l !! i = Some a -> l !! S i = Some b -> R a b.

Section Chained.
Context {A : Type} (R : A -> A -> Prop).
Implicit Types l : list A.

Lemma chained_nil : chained R [].
Proof. by intros i a b ?. Qed.

Lemma chained_singleton x : chained R [x].
Proof. by intros [|i] a b ? ?. Qed.

Lemma chained_snoc l x :
  chained R l -> (forall y, last l = Some y -> R y x) -> chained R (l ++ [x]).
Proof.
  intros Hl Hx i a b Ha Hb.
  apply lookup_snoc_Some in Ha as [[Hi Ha]|[-> ->]];
    apply lookup_snoc_Some in Hb as [[Hi' Hb]|[Hi' ->]]; try lia.
  - by eapply Hl.
  - apply Hx. rewrite last_lookup. by replace (pred (length l)) with i by lia.
Qed.

Lemma chained_snoc_inv l x :
  chained R (l ++ [x]) -> chained R l /\ (forall y, last l = Some y -> R y x).
Proof.
  intros Hl. split.
  - intros i a b Ha Hb. apply (Hl i); by apply lookup_app_l_Some.
  - intros y Hy. rewrite last_lookup in Hy. pose proof (lookup_lt_Some _ _ _ Hy).
    apply (Hl (pred (length l))); [by apply lookup_app_l_Some|].
    replace (S (pred (length l))) with (length l) by lia.
    by rewrite lookup_app_r, Nat.sub_diag by done.
Qed.
End Chained.
#[export] Hint Resolve chained_nil chained_singleton : fx.

(** The items an optional output contributes to a log. *)
Definition opt_list {A} (o : option A) : list A :=
  match o with Some a => [a] | None => [] end.

(** ** Runs

    A component driven by a sequence of inputs, each of which may raise or emit:
    the final state and everything emitted, in order. *)
Section Runs.
Context {S I O : Type} (step : S -> I -> result (S * option O)).
Implicit Types (s : S) (ins : list I).

Fixpoint run_all s ins : result (S * list O) :=
  match ins with
  | [] => Ok (s, [])
  | i :: ins =>
      '(s1, o) ← step s i;
      '(s2, os) ← run_all s1 ins;
      Ok (s2, opt_list o ++ os)
  end.

Lemma run_app s ins ins2 s1 os1 s2 os2 :
  run_all s ins = Ok (s1, os1) -> run_all s1 ins2 = Ok (s2, os2) ->
  run_all s (ins ++ ins2) = Ok (s2, os1 ++ os2).
Proof.
  revert s os1. induction ins as [|i ins IH]; intros s os1 H1 H2; cbn in *.
  - by injection H1 as <- <-.
  - apply bind_ok in H1 as ([s' o] & Hs & H1). apply bind_ok in H1 as ([s'' os] & Hr & [= <- <-]).
    rewrite Hs. cbn. rewrite (IH _ _ Hr H2). cbn. by rewrite app_assoc.
Qed.

Lemma run_snoc s ins i s2 os :
  run_all s (ins ++ [i]) = Ok (s2, os) <->
  exists s1 os1 o, run_all s ins = Ok (s1, os1) /\ step s1 i = Ok (s2, o) /\
    os = (os1 ++ opt_list o).
Proof.
  split.
  - revert s os. induction ins as [|i' ins IH]; intros s os Hr; cbn in Hr.
    + apply bind_ok in Hr as ([s1 o] & Hs & [= <- <-]). rewrite app_nil_r.
      by exists s, [], o.
    + apply bind_ok in Hr as ([s1 o] & Hs & Hr).
      apply bind_ok in Hr as ([s3 os3] & Hr & [= <- <-]).
      apply IH in Hr as (s4 & os4 & o4 & Hr & Hs4 & ->).
      exists s4, (opt_list o ++ os4), o4. cbn. rewrite Hs. cbn. rewrite Hr. cbn.
      by rewrite app_assoc.
  - intros (s1 & os1 & o & Hr & Hs & ->). eapply run_app; [done|]. cbn. rewrite Hs. cbn.
    by rewrite app_nil_r.
Qed.

(** Steps that never raise make a run that never raises. *)
Lemma run_all_total s ins :
  (forall s i, i ∈ ins -> exists r, step s i = Ok r) -> exists s' os, run_all s ins = Ok (s', os).
Proof.
  revert s. induction ins as [|i ins IH]; intros s Hs; [by eexists _, _|].
  destruct (Hs s i) as [[s1 o] H1]; [apply list_elem_of_here|].
  destruct (IH s1) as (s2 & os & H2); [intros; apply Hs; by apply list_elem_of_further|].
  exists s2, (opt_list o ++ os). cbn. rewrite H1. cbn. by rewrite H2.
Qed.

(** Everything a run emits comes from one of its inputs. *)
Lemma run_out (Q : I -> O -> Prop) s ins s' os o :
  (forall s i s' o, step s i = Ok (s', Some o) -> Q i o) ->
  run_all s ins = Ok (s', os) -> o ∈ os -> exists i, i ∈ ins /\ Q i o.
Proof.
  intros Hq. revert s os. induction ins as [|i ins IH]; intros s os Hr Ho; cbn in Hr.
  - injection Hr as <- <-. by apply elem_of_nil in Ho.
  - apply bind_ok in Hr as ([s1 o1] & Hs & Hr). apply bind_ok in Hr as ([s2 os2] & Hr & [= <- <-]).
    apply elem_of_app in Ho as [Ho|Ho].
    + destruct o1; [|by apply elem_of_nil in Ho]. apply list_elem_of_singleton in Ho as ->.
      exists i. split; [apply list_elem_of_here|eauto].
    + destruct (IH _ _ Hr Ho) as (j & ? & ?). exists j. split; [by apply list_elem_of_further|done].
Qed.

(** An invariant every step preserves holds at the end. *)
Lemma run_inv (P : S -> Prop) s ins s' os :
  (forall s i s' o, i ∈ ins -> P s -> step s i = Ok (s', o) -> P s') ->
  P s -> run_all s ins = Ok (s', os) -> P s'.
Proof.
  revert s os. induction ins as [|i ins IH]; intros s os Hstep Hs Hr; cbn in Hr.
  - by injection Hr as <- <-.
  - apply bind_ok in Hr as ([s1 o] & H1 & Hr).
    apply bind_ok in Hr as ([s2 os2] & Hr & [= <- <-]).
    eapply IH; [|eapply Hstep; [apply list_elem_of_here|exact Hs|exact H1]|exact Hr].
    intros t j t' o' Hj. apply Hstep. by apply list_elem_of_further.
Qed.
End Runs.

(** [l[i]] of a Python list: negative indices count from the end. *)
Definition py_index {A} (l : list A) (i : Z) : result A :=
  let n := Z.of_nat (length l) in
  let j := if i <? 0 then i + n else i in
  if (0 <=? j) && (j <? n) then
    match l !! Z.to_nat j with Some a => Ok a | None => Raise IndexError end
  else Raise IndexError.

(** [l[:n]]: a negative bound leaves out that many elements at the end. *)
Definition slice_to {A} (l : list A) (n : Z) : list A :=
  take (Z.to_nat (if n <? 0 then n + Z.of_nat (length l) else n)) l.

Lemma slice_to_nonneg {A} (l : list A) n : 0 <= n -> slice_to l n = take (Z.to_nat n) l.
Proof. intros Hn. unfold slice_to. by rewrite (proj2 (Z.ltb_ge n 0)). Qed.

Lemma slice_to_negative {A} (l r : list A) :
  r <> [] -> slice_to (l ++ r) (- Z.of_nat (length r)) = l.
Proof.
  intros Hr. assert (0 < length r)%nat by (destruct r; cbn; [done|lia]). unfold slice_to.
  rewrite (proj2 (Z.ltb_lt _ _)) by lia. rewrite length_app.
  replace (Z.to_nat _) with (length l) by lia. by rewrite take_app_length.
Qed.

Lemma py_index_ok {A} (l : list A) i a :
  0 <= i -> l !! Z.to_nat i = Some a -> py_index l i = Ok a.
Proof.
  intros Hi Ha. unfold py_index. rewrite (proj2 (Z.ltb_ge i 0)) by done.
  pose proof (lookup_lt_Some _ _ _ Ha).
  rewrite (proj2 (Z.leb_le 0 i)), (proj2 (Z.ltb_lt i _)) by lia. cbn. by rewrite Ha.
Qed.

Lemma py_index_last {A} (l : list A) a : py_index (l ++ [a]) (-1) = Ok a.
Proof.
  unfold py_index. replace (-1 <? 0) with true by done. rewrite length_app. cbn [length].
  rewrite (proj2 (Z.leb_le _ _)), (proj2 (Z.ltb_lt _ _)) by lia. cbn [andb].
  replace (Z.to_nat _) with (length l) by lia. by rewrite lookup_app_r, Nat.sub_diag.
Qed.

(** Rounding a number down to a multiple. *)
Lemma floor_le_multiple x w k : 0 < w -> (x / w * w <= k * w <-> x < k * w + w).
Proof.
  intros Hw. rewrite <- Z.mul_le_mono_pos_r by done. replace (k * w + w) with (w * (k + 1)) by lia.
  split; intros H.
  - pose proof (Z.div_mod x w). pose proof (Z.mod_pos_bound x w Hw). nia.
  - apply Z.lt_succ_r. by apply Z.div_lt_upper_bound.
Qed.

Lemma multiple_le_floor x w k : 0 < w -> (k * w <= x / w * w <-> k * w <= x).
Proof.
  intros Hw. rewrite <- Z.mul_le_mono_pos_r by done. rewrite (Z.mul_comm k). split; intros H.
  - pose proof (Z.mul_div_le x w Hw). nia.
  - by apply Z.div_le_lower_bound.
Qed.

Lemma floor_multiple_spec x w :
  0 < w -> x - x mod w <= x < x - x mod w + w /\ (w | x - x mod w).
Proof.
  intros Hw. pose proof (Z.mod_pos_bound x w Hw). split; [lia|].
  exists (x / w). rewrite (Z.div_mod x w) at 1; lia.
Qed.
#[export] Hint Resolve floor_multiple_spec : fx.

(* ------------------------------------------------------------------ *)
(** ** Sorting

    [sorted(l, key=key)], with [leb] the order of the keys.  Python's sort is
    stable: an element goes before the first that is not smaller. *)
Section Sort.
Context {A K : Type} (leb : K -> K -> bool) (key : A -> K).

Fixpoint py_insert (a : A) (l : list A) : list A :=
  match l with
  | [] => [a]
  | b :: l' => if leb (key a) (key b) then a :: l else b :: py_insert a l'
  end.

Definition py_sorted (l : list A) : list A := foldr py_insert [] l.

Definition key_le (a b : A) : Prop := leb (key a) (key b) = true.

Lemma py_insert_perm a l : py_insert a l ≡ₚ a :: l.
Proof.
  induction l as [|b l IH]; [done|]. cbn. destruct (leb _ _); [done|].
  rewrite IH. by apply Permutation_swap.
Qed.

Lemma py_sorted_perm l : py_sorted l ≡ₚ l.
Proof. induction l as [|a l IH]; [done|]. cbn. by rewrite py_insert_perm, IH. Qed.

Lemma elem_of_py_sorted a l : a ∈ py_sorted l <-> a ∈ l.
Proof. by rewrite py_sorted_perm. Qed.

Context (leb_total : forall x y, leb x y = true \/ leb y x = true).
Context (leb_trans : forall x y z, leb x y = true -> leb y z = true -> leb x z = true).

Lemma py_insert_sorted a l : StronglySorted key_le l -> StronglySorted key_le (py_insert a l).
Proof.
  unfold key_le. induction 1 as [|b l Hs IH Hall]; cbn; [by repeat constructor|].
  destruct (leb _ _) eqn:E.
  - constructor; [by constructor|]. constructor; [done|].
    eapply Forall_impl; [exact Hall|]. intros x Hx. by eapply leb_trans.
  - constructor; [done|]. rewrite py_insert_perm. constructor; [|done].
    destruct (leb_total (key a) (key b)); [congruence|done].
Qed.

Lemma py_sorted_sorted l : StronglySorted key_le (py_sorted l).
Proof. induction l; [constructor|]. by apply py_insert_sorted. Qed.

(** Elements the order does not tell apart keep the order they were given in. *)
Lemma py_sorted_stable (f : A -> bool) l :
  (forall a b, f a = true -> f b = true -> leb (key a) (key b) = true) ->
  List.filter f (py_sorted l) = List.filter f l.
Proof.
  intros Hf. induction l as [|a l IH]; [done|].
  change (py_sorted (a :: l)) with (py_insert a (py_sorted l)).
  cbn [List.filter]. rewrite <- IH. clear IH.
  induction (py_sorted l) as [|b l' IH]; [done|]. cbn.
  destruct (leb (key a) (key b)) eqn:E; [done|]. cbn. rewrite IH.
  destruct (f a) eqn:Ha, (f b) eqn:Hb; try done. rewrite Hf in E by done. done.
Qed.
End Sort.

(** Of an ordered list, the element before another is below it. *)
Lemma sorted_lookup {A} (R : A -> A -> Prop) (l : list A) (i j : nat) (a b : A) :
  StronglySorted R l -> l !! i = Some a -> l !! j = Some b -> (i < j)%nat -> R a b.
Proof.
  intros Hs. revert i j. induction Hs as [|x l Hs IH Hall]; intros i j Ha Hb Hij; [done|].
  destruct j as [|j]; [lia|]. destruct i as [|i]; cbn in *.
  - injection Ha as <-. rewrite Forall_forall in Hall. apply Hall. by eapply list_elem_of_lookup_2.
  - eapply IH; [done..|lia].
Qed.

(** What is in order already is left as it is. *)
Lemma py_sorted_id {A K} (leb : K -> K -> bool) (key : A -> K) (l : list A) :
  StronglySorted (key_le leb key) l -> py_sorted leb key l = l.
Proof.
  induction 1 as [|a l Hs IH Hall]; [done|].
  change (py_insert leb key a (py_sorted leb key l) = a :: l). rewrite IH.
  destruct Hall as [|b l Hb]; [done|]. cbn. by rewrite Hb.
Qed.

Lemma sorted_filter {A} (R : A -> A -> Prop) (f : A -> bool) (l : list A) :
  StronglySorted R l -> StronglySorted R (List.filter f l).
Proof.
  induction 1 as [|a l Hs IH Hall]; cbn; [constructor|]. destruct (f a); [|done].
  constructor; [done|]. rewrite Forall_forall in *. intros x Hx. apply Hall.
  rewrite list_elem_of_In, filter_In in Hx. by apply list_elem_of_In, Hx.
Qed.

#[export] Instance lfilter_proper {A} (f : A -> bool) :
  Proper ((≡ₚ) ==> (≡ₚ)) (@List.filter A f).
Proof.
  intros l l'. induction 1 as [|a l l' _ IH|a b l|l l' l'' _ IH _ IH']; cbn.
  - done.
  - destruct (f a); by rewrite IH.
  - destruct (f a), (f b); try done. apply Permutation_swap.
  - by rewrite IH.
Qed.

Lemma lfilter_fmap {A B} (f : B -> bool) (g : A -> B) (l : list A) :
  List.filter f (g <$> l) = g <$> List.filter (fun a => f (g a)) l.
Proof. induction l as [|a l IH]; [done|]. cbn. rewrite IH. by destruct (f (g a)). Qed.

(** A filter after a weaker one is the filter alone. *)
Lemma lfilter_lfilter {A} (f g : A -> bool) (l : list A) :
  (forall a, f a = true -> g a = true) -> List.filter f (List.filter g l) = List.filter f l.
Proof.
  intros Hfg. induction l as [|a l IH]; [done|]. cbn. destruct (g a) eqn:Hg; cbn; rewrite IH; [done|].
  destruct (f a) eqn:Hf; [|done]. apply Hfg in Hf. congruence.
Qed.

Lemma elem_of_lfilter {A} (f : A -> bool) (l : list A) a :
  a ∈ List.filter f l <-> a ∈ l /\ f a = true.
Proof. by rewrite !list_elem_of_In, filter_In. Qed.

Lemma elem_of_concat_fmap {A B} (f : A -> list B) (l : list A) b :
  b ∈ concat (f <$> l) <-> exists a, a ∈ l /\ b ∈ f a.
Proof.
  induction l as [|a l IH]; cbn.
  - split; [by intros ?%elem_of_nil|]. by intros (a & ?%elem_of_nil & _).
  - rewrite elem_of_app, IH. setoid_rewrite elem_of_cons. naive_solver.
Qed.

(** Of groups that are each one key's, those of one key are its group. *)
Lemma filter_concat_key {A K} `{EqDecision K} (key : A -> K) (f : K -> list A) (ks : list K) k :
  NoDup ks -> (forall k' a, a ∈ f k' -> key a = k') ->
  List.filter (fun a => bool_decide (key a = k)) (concat (f <$> ks)) =
  if decide (k ∈ ks) then f k else [].
Proof.
  intros Hnd Hf. assert (Hone : forall k' : K,
    List.filter (fun a => bool_decide (key a = k)) (f k') = if decide (k' = k) then f k' else []).
  { intros k'. assert (Ha : forall a, a ∈ f k' -> key a = k') by auto. clear Hf.
    induction (f k') as [|a l IH]; [by case_decide|]. cbn. rewrite IH by set_solver.
    rewrite (Ha a) by set_solver. case_bool_decide; by case_decide. }
  induction Hnd as [|k' ks Hk Hnd IH]; cbn.
  - destruct (decide (k ∈ [])) as [Hin|]; [by apply elem_of_nil in Hin|done].
  - rewrite List.filter_app, IH, Hone. destruct (decide (k' = k)) as [->|Hne].
    + rewrite (decide_False (P := k ∈ ks)), app_nil_r by done. by rewrite decide_True by set_solver.
    + cbn. destruct (decide (k ∈ ks)); [rewrite decide_True by set_solver|rewrite decide_False by set_solver]; done.
Qed.

(* ------------------------------------------------------------------ *)
(** ** ISO 8601 text *)

(** The representable range of [datetime]: years 1 to 9999. *)
Definition DT_MIN : datetime := -62135596800 * MICRO.
Definition DT_MAX : datetime := 253402300800 * MICRO - 1.
Definition dt_in_range (t : datetime) : Prop := DT_MIN <= t <= DT_MAX.

(** What snapshots, streams and caches rely on of [datetime.isoformat] and
    [datetime.fromisoformat]: the second reads back what the first writes, and
    the empty string is not a datetime. *)
Class IsoFormat := {
  isoformat : datetime -> string;
  fromisoformat : string -> result datetime;
  fromisoformat_isoformat t : dt_in_range t -> fromisoformat (isoformat t) = Ok t;
  fromisoformat_empty : fromisoformat "" = Raise ValueError;
}.

Lemma isoformat_nonempty `{IsoFormat} t : dt_in_range t -> isoformat t <> ""%string.
Proof.
  intros Ht He. pose proof (fromisoformat_isoformat t Ht) as E.
  by rewrite He, fromisoformat_empty in E.
Qed.
