(* ===== verification/PyFloat.v ===== *)
(** * Python floats

    The interface [PyFloat] is what the modelled code uses of [float] and of
    [math]; every component is defined over it.  Two instances discharge it:
    - [binary64], IEEE 754 double precision as CPython has it, executable through
      the Standard Library's [SpecFloat]; [log] and [exp], which CPython takes
      from the C library, are arguments of the instance;
    - [exact], rational arithmetic, against which the closed forms of the
      streaming recurrences are stated (a recurrence and its closed form round
      differently, so they are equal only there).
    The Python-level operations that can raise ([/], [math.log], [math.exp],
    [math.sqrt], [**]) are the [py_*] functions below. *)
From Stdlib Require Import SpecFloat.
From Stdlib Require Import QArith Qround Qcanon.
From S2P Require Import Prelude.

Local Open Scope Z_scope.

Class PyFloat (F : Type) := {
  f_of_Z : Z -> F;
  f_add : F -> F -> F;
  f_sub : F -> F -> F;
  f_mul : F -> F -> F;
  f_div : F -> F -> F;
  f_sqrt : F -> F;
  f_log : F -> F;
  f_exp : F -> F;
  f_pow : F -> F -> F;
  f_lt : F -> F -> bool;
  f_le : F -> F -> bool;
  f_eq : F -> F -> bool;
  f_isfinite : F -> bool;
  f_nan : F;
}.

Declare Scope py_scope.
Delimit Scope py_scope with py.
Infix "+" := f_add : py_scope.
Infix "-" := f_sub : py_scope.
Infix "*" := f_mul : py_scope.
Infix "/" := f_div : py_scope.
Infix "<?" := f_lt : py_scope.
Infix "<=?" := f_le : py_scope.
Infix "=?" := f_eq : py_scope.

Section Python.
Context {F : Type} `{PyFloat F}.
Local Open Scope py_scope.

Definition f_zero : F := f_of_Z 0%Z.
Definition f_one : F := f_of_Z 1%Z.

(** A decimal literal [n/d]: the quotient of two exactly represented integers,
    rounded once, is the double the literal denotes. *)
Definition f_ratio (n d : Z) : F := f_of_Z n / f_of_Z d.

(** [max(a, b)] and [min(a, b)] keep the first argument unless the second
    compares strictly beyond it; with a NaN no comparison holds. *)
Definition py_max (a b : F) : F := if a <? b then b else a.
Definition py_min (a b : F) : F := if b <? a then b else a.

Definition py_div (a b : F) : result F :=
  if b =? f_zero then Raise ZeroDivisionError else Ok (a / b).

Definition py_log (x : F) : result F :=
  if x <=? f_zero then Raise ValueError else Ok (f_log x).

Definition py_exp (x : F) : result F :=
  let r := f_exp x in
  if (f_isfinite x && negb (f_isfinite r))%bool then Raise OverflowError else Ok r.

(** [x ** y] for a base that is not negative or an integral exponent. *)
Definition py_pow (x y : F) : result F :=
  if (f_eq x f_zero && f_lt y f_zero)%bool then Raise ZeroDivisionError
  else
    let r := f_pow x y in
    if (f_isfinite x && f_isfinite y && negb (f_isfinite r))%bool
    then Raise OverflowError else Ok r.

Definition py_sqrt (x : F) : result F :=
  if x <? f_zero then Raise ValueError else Ok (f_sqrt x).

Definition f_abs (x : F) : F := if x <? f_zero then f_zero - x else x.

(** [sum(xs)] of floats, as CPython 3.12 computes it: from the integer 0, with
    Neumaier's compensation [c] added back at the end when it is finite. *)
Definition sum_step (acc : F * F) (x : F) : F * F :=
  let '(s, c) := acc in
  let t := s + x in
  (t, if f_abs x <=? f_abs s then c + ((s - t) + x) else c + ((x - t) + s)).

Definition f_sum (xs : list F) : F :=
  match xs with
  | [] => f_zero
  | x :: xs =>
      let '(s, c) := fold_left sum_step xs (f_zero + x, f_zero) in
      if (negb (c =? f_zero) && f_isfinite c)%bool then s + c else s
  end.
End Python.

(** The order laws the comparisons obey on every float, and their totality away
    from NaN. *)
Class PyFloatOrder (F : Type) `{PyFloat F} := {
  f_isnan : F -> bool;
  f_lt_irrefl a : f_lt a a = false;
  f_lt_trans a b c : f_lt a b = true -> f_lt b c = true -> f_lt a c = true;
  f_le_lt_trans a b c : f_le a b = true -> f_lt b c = true -> f_lt a c = true;
  f_lt_le a b : f_lt a b = true -> f_le a b = true;
  f_lt_nle a b : f_lt a b = true -> f_le b a = false;
  f_total a b : f_isnan a = false -> f_isnan b = false ->
    f_lt a b = false -> f_le b a = true;
  f_le_not_nan a b : f_le a b = true -> f_isnan a = false /\ f_isnan b = false;
  f_eq_le a b : f_eq a b = true -> f_le a b = true;
}.

Section Order.
Context {F : Type} `{PyFloat F, !PyFloatOrder F}.
Implicit Types a b c : F.

Lemma f_lt_not_nan a b : f_lt a b = true -> f_isnan a = false /\ f_isnan b = false.
Proof. intros. by apply f_le_not_nan, f_lt_le. Qed.

Lemma f_le_refl a : f_isnan a = false -> f_le a a = true.
Proof. intros. apply f_total; [done..|]. apply f_lt_irrefl. Qed.

Lemma f_le_trans a b c : f_le a b = true -> f_le b c = true -> f_le a c = true.
Proof.
  intros Hab Hbc. pose proof (f_le_not_nan _ _ Hab) as [Ha _].
  pose proof (f_le_not_nan _ _ Hbc) as [_ Hc]. apply f_total; [done..|].
  destruct (f_lt c a) eqn:E; [|done].
  pose proof (f_le_lt_trans _ _ _ Hbc E) as Hba. apply f_lt_nle in Hba. congruence.
Qed.

Lemma f_lt_le_trans a b c : f_lt a b = true -> f_le b c = true -> f_lt a c = true.
Proof.
  intros Hab Hbc. pose proof (f_lt_not_nan _ _ Hab) as [Ha _].
  pose proof (f_le_not_nan _ _ Hbc) as [_ Hc].
  destruct (f_lt a c) eqn:E; [done|]. pose proof (f_total _ _ Ha Hc E) as Hca.
  pose proof (f_le_trans _ _ _ Hbc Hca) as Hba. apply f_lt_nle in Hab. congruence.
Qed.

Lemma py_max_cases a b : py_max a b = a \/ py_max a b = b.
Proof. unfold py_max. destruct (f_lt a b); auto. Qed.

Lemma py_min_cases a b : py_min a b = a \/ py_min a b = b.
Proof. unfold py_min. destruct (f_lt b a); auto. Qed.

Lemma le_py_max a b :
  f_isnan a = false -> f_isnan b = false ->
  f_le a (py_max a b) = true /\ f_le b (py_max a b) = true.
Proof.
  intros Ha Hb. unfold py_max. destruct (f_lt a b) eqn:E.
  - split; [by apply f_lt_le|by apply f_le_refl].
  - split; [by apply f_le_refl|by apply f_total].
Qed.

Lemma py_min_le a b :
  f_isnan a = false -> f_isnan b = false ->
  f_le (py_min a b) a = true /\ f_le (py_min a b) b = true.
Proof.
  intros Ha Hb. unfold py_min. destruct (f_lt b a) eqn:E.
  - split; [by apply f_lt_le|by apply f_le_refl].
  - split; [by apply f_le_refl|by apply f_total].
Qed.
End Order.

(* ------------------------------------------------------------------ *)
(** ** IEEE 754 binary64 *)

Definition prec64 : Z := 53.
Definition emax64 : Z := 1024.

Definition sf_isfinite (x : spec_float) : bool :=
  match x with S754_zero _ | S754_finite _ _ _ => true | _ => false end.

Definition sf_isnan (x : spec_float) : bool :=
  match x with S754_nan => true | _ => false end.

(** [binary64 log exp pow] is CPython's [float]; the three functions are the C
    library's. *)
Definition binary64 (log exp : spec_float -> spec_float)
    (pow : spec_float -> spec_float -> spec_float) : PyFloat spec_float := {|
  f_of_Z z := binary_normalize prec64 emax64 z 0 false;
  f_add := SFadd prec64 emax64;
  f_sub := SFsub prec64 emax64;
  f_mul := SFmul prec64 emax64;
  f_div := SFdiv prec64 emax64;
  f_sqrt := SFsqrt prec64 emax64;
  f_log := log;
  f_exp := exp;
  f_pow := pow;
  f_lt := SFltb;
  f_le := SFleb;
  f_eq := SFeqb;
  f_isfinite := sf_isfinite;
  f_nan := S754_nan;
|}.

(** An executable instance for concrete runs: [log x] is the crude [x - 1], [exp]
    the identity and [pow x y] is [x * x]. *)
Definition plain64 : PyFloat spec_float :=
  binary64 (fun x => SFsub prec64 emax64 x (binary_normalize prec64 emax64 1 0 false))
    (fun x => x) (fun x _ => SFmul prec64 emax64 x x).

(* ------------------------------------------------------------------ *)
(** ** Exact rational arithmetic *)

Definition Qc_leb (a b : Qc) : bool := Qle_bool a b.

(** Integral powers of a rational. *)
Definition Qc_pow (x y : Qc) : Qc := Qcpower x (Z.to_nat (Qfloor y)).

Definition exact (sqrt log exp : Qc -> Qc) : PyFloat Qc := {|
  f_of_Z z := Q2Qc (inject_Z z);
  f_add := Qcplus;
  f_sub := Qcminus;
  f_mul := Qcmult;
  f_div := Qcdiv;
  f_sqrt := sqrt;
  f_log := log;
  f_exp := exp;
  f_pow := Qc_pow;
  f_lt a b := negb (Qc_leb b a);
  f_le := Qc_leb;
  f_eq a b := Qc_eq_bool a b;
  f_isfinite _ := true;
  f_nan := 0%Qc;
|}.

Section Exact.
Context (sq lg ex : Qc -> Qc).
#[local] Instance exact_inst : PyFloat Qc := exact sq lg ex.

(** [Q2Qc (inject_Z z)] is a ring embedding of the integers. *)
Lemma exact_of_Z_add a b : f_of_Z (a + b) = Qcplus (f_of_Z a) (f_of_Z b).
Proof.
  apply Qc_is_canon. cbn. rewrite !Qred_correct. by rewrite inject_Z_plus.
Qed.

Lemma exact_of_Z_nonzero z : z <> 0 -> f_of_Z z <> (0 : Qc)%Qc.
Proof.
  intros Hz H. apply Hz.
  assert (inject_Z z == inject_Z 0)%Q as Hq.
  { rewrite <- (Qred_correct (inject_Z z)), <- (Qred_correct (inject_Z 0)).
    change (this (f_of_Z z) == this (Q2Qc (inject_Z 0)))%Q. by rewrite H. }
  unfold inject_Z, Qeq in Hq. cbn in Hq. lia.
Qed.

Lemma exact_sum_step s x : sum_step (s, 0%Qc) x = (Qcplus s x, 0%Qc).
Proof.
  unfold sum_step. cbn -[f_abs Qc_leb].
  f_equal. destruct (Qc_leb _ _); cbn; ring.
Qed.

Lemma exact_sum_fold xs s :
  fold_left sum_step xs (s, 0%Qc) = (fold_left Qcplus xs s, 0%Qc).
Proof.
  revert s. induction xs as [|x xs IH]; intros s; [done|].
  cbn [fold_left]. by rewrite exact_sum_step, IH.
Qed.

(** Exactly, the compensation vanishes and [sum] is the sum. *)
Lemma exact_f_sum xs : f_sum xs = fold_left Qcplus xs 0%Qc.
Proof.
  destruct xs as [|x xs]; [done|]. unfold f_sum.
  change (@f_zero Qc exact_inst) with 0%Qc. rewrite exact_sum_fold.
  cbn. unfold Qc_eq_bool. by destruct (Qc_eq_dec 0%Qc 0%Qc).
Qed.
End Exact.

(* ------------------------------------------------------------------ *)
(** ** The order of binary64 *)

(** A comparison key: the lexicographic rank of a float that is not NaN. *)
Definition sf_key (x : spec_float) : option (Z * Z * Z) :=
  match x with
  | S754_nan => None
  | S754_infinity s => Some (if s then -2 else 2, 0, 0)
  | S754_zero _ => Some (0, 0, 0)
  | S754_finite s m e =>
      Some (if s then (-1, - e, - Zpos m) else (1, e, Zpos m))
  end.

Definition key_compare (a b : Z * Z * Z) : comparison :=
  let '(a1, a2, a3) := a in
  let '(b1, b2, b3) := b in
  match a1 ?= b1 with
  | Eq => match a2 ?= b2 with Eq => a3 ?= b3 | c => c end
  | c => c
  end.

Lemma sf_compare_key x y :
  SFcompare x y =
  match sf_key x, sf_key y with
  | Some a, Some b => Some (key_compare a b)
  | _, _ => None
  end.
Proof.
  assert (Hc : forall m n, Pos.compare_cont Eq m n = (Zpos m ?= Zpos n)) by done.
  destruct x as [|[]| |[] m e], y as [|[]| |[] n f]; cbn; try done.
  - rewrite <- Z.opp_involutive with (n := e), <- Z.opp_involutive with (n := f),
      !Z.opp_involutive, (Z.compare_opp e f).
    rewrite (Z.compare_antisym e f).
    destruct (e ?= f); done.
Qed.

Lemma key_compare_refl a : key_compare a a = Eq.
Proof. destruct a as [[??]?]. cbn. by rewrite !Z.compare_refl. Qed.

Lemma key_compare_spec a b :
  CompareSpec (a = b)
    (let '(a1, a2, a3) := a in let '(b1, b2, b3) := b in
     a1 < b1 \/ a1 = b1 /\ (a2 < b2 \/ a2 = b2 /\ a3 < b3))
    (let '(a1, a2, a3) := a in let '(b1, b2, b3) := b in
     b1 < a1 \/ b1 = a1 /\ (b2 < a2 \/ b2 = a2 /\ b3 < a3))
    (key_compare a b).
Proof.
  destruct a as [[a1 a2] a3], b as [[b1 b2] b3]. cbn.
  destruct (Z.compare_spec a1 b1); [|constructor; lia..].
  destruct (Z.compare_spec a2 b2); [|constructor; lia..].
  destruct (Z.compare_spec a3 b3); constructor; [congruence|lia..].
Qed.

(** The strict order of the keys. *)
Definition key_lt (a b : Z * Z * Z) : Prop := key_compare a b = Lt.

Lemma key_lt_spec a b :
  key_lt a b <->
  let '(a1, a2, a3) := a in let '(b1, b2, b3) := b in
  a1 < b1 \/ a1 = b1 /\ (a2 < b2 \/ a2 = b2 /\ a3 < b3).
Proof.
  unfold key_lt. destruct a as [[a1 a2] a3], b as [[b1 b2] b3].
  destruct (key_compare_spec (a1, a2, a3) (b1, b2, b3)) as [He|H|H];
    split; try done; intros; simplify_eq; lia.
Qed.

Lemma key_lt_trans a b c : key_lt a b -> key_lt b c -> key_lt a c.
Proof.
  rewrite !key_lt_spec. destruct a as [[??]?], b as [[??]?], c as [[??]?]. lia.
Qed.

Lemma key_compare_eq a b : key_compare a b = Eq <-> a = b.
Proof.
  split; [|intros ->; apply key_compare_refl].
  destruct (key_compare_spec a b); done.
Qed.

Lemma key_compare_flip a b : key_compare b a = CompOpp (key_compare a b).
Proof.
  destruct a as [[a1 a2] a3], b as [[b1 b2] b3]. cbn.
  rewrite (Z.compare_antisym a1), (Z.compare_antisym a2), (Z.compare_antisym a3).
  by destruct (a1 ?= b1), (a2 ?= b2).
Qed.

Lemma sf_ltb_key x y :
  SFltb x y = true <-> exists a b, sf_key x = Some a /\ sf_key y = Some b /\ key_lt a b.
Proof.
  unfold SFltb, key_lt. rewrite sf_compare_key.
  destruct (sf_key x) as [ka|], (sf_key y) as [kb|];
    [|split; [done|intros (?&?&?&?&?); done]..].
  split.
  - destruct (key_compare ka kb) eqn:E; try done. eauto.
  - intros (? & ? & [= <-] & [= <-] & ->). done.
Qed.

Lemma sf_leb_key x y :
  SFleb x y = true <->
  exists a b, sf_key x = Some a /\ sf_key y = Some b /\ (key_lt a b \/ a = b).
Proof.
  unfold SFleb. rewrite sf_compare_key. unfold key_lt.
  destruct (sf_key x) as [ka|], (sf_key y) as [kb|];
    [|split; [done|intros (?&?&?&?&?); done]..].
  split.
  - destruct (key_compare ka kb) eqn:E; try done; eauto 6.
    apply key_compare_eq in E. eauto 6.
  - intros (? & ? & [= <-] & [= <-] & [-> | ->]); [done|].
    by rewrite key_compare_refl.
Qed.

Section Binary64Order.
Context (lg ex : spec_float -> spec_float) (pw : spec_float -> spec_float -> spec_float).

Lemma sf_isnan_key_false x : sf_isnan x = false <-> is_Some (sf_key x).
Proof.
  destruct x as [| | |[]]; cbn; split; eauto; try done.
Qed.

#[local] Instance binary64_inst : PyFloat spec_float := binary64 lg ex pw.

Definition binary64_order : PyFloatOrder spec_float.
Proof.
  refine {| f_isnan := sf_isnan |}; cbn.
  - intros a. unfold SFltb. rewrite sf_compare_key.
    destruct (sf_key a); [by rewrite key_compare_refl|done].
  - intros a b c. rewrite !sf_ltb_key. intros (ka & kb & ? & ? & ?) (kb' & kc & ? & ? & ?).
    simplify_eq. exists ka, kc. eauto using key_lt_trans.
  - intros a b c. rewrite sf_leb_key, !sf_ltb_key.
    intros (ka & kb & ? & ? & Hle) (kb' & kc & ? & ? & ?); simplify_eq.
    destruct Hle as [Hlt|He]; [|subst]; eauto 6 using key_lt_trans.
  - intros a b. rewrite sf_ltb_key, sf_leb_key.
    intros (ka & kb & ? & ? & ?). eauto 6.
  - intros a b Hab. apply sf_ltb_key in Hab as (ka & kb & Ha & Hb & Hlt).
    unfold SFleb. rewrite sf_compare_key, Ha, Hb, key_compare_flip.
    by rewrite Hlt.
  - intros a b Ha Hb H. rewrite sf_isnan_key_false in Ha, Hb.
    destruct Ha as [ka Ha], Hb as [kb Hb].
    unfold SFltb in H. unfold SFleb.
    rewrite sf_compare_key, Ha, Hb in *. rewrite key_compare_flip.
    by destruct (key_compare ka kb).
  - intros a b Hab. apply sf_leb_key in Hab as (ka & kb & Ha & Hb & _).
    rewrite !sf_isnan_key_false. eauto.
  - intros a b. unfold SFeqb, SFleb. by destruct (SFcompare a b) as [[]|].
Defined.
End Binary64Order.
