(* ===== verification/Binary64.v ===== *)
(** * Signs and magnitudes of binary64 results

    What the components rely on when they argue about [float] itself rather than
    about exact arithmetic: a rounded result has the sign of the exact one and is
    never NaN, products and sums of non-negative numbers are non-negative, and a
    result of moderate exponent does not overflow. *)
From S2P Require Import Prelude PyFloat.
From Stdlib Require Import SpecFloat.

Local Open Scope Z_scope.

(** ** Digits *)

Lemma digits2_log2 p : Zpos (digits2_pos p) = Z.log2 (Zpos p) + 1.
Proof.
  induction p as [p IH|p IH|]; cbn [digits2_pos]; [..|done].
  - rewrite Pos2Z.inj_succ, IH. change (Zpos p~1) with (2 * Zpos p + 1).
    rewrite Z.log2_succ_double by done. lia.
  - rewrite Pos2Z.inj_succ, IH. change (Zpos p~0) with (2 * Zpos p).
    rewrite Z.log2_double by done. lia.
Qed.

Lemma Zdigits2_nonneg m : 0 <= m -> Zdigits2 m = if m =? 0 then 0 else Z.log2 m + 1.
Proof. destruct m as [|p|p]; [done| |lia]. intros _. cbn. apply digits2_log2. Qed.

Lemma Zdigits2_le m n : 0 <= m <= n -> Zdigits2 m <= Zdigits2 n.
Proof.
  intros H. rewrite !Zdigits2_nonneg by lia.
  destruct (Z.eqb_spec m 0), (Z.eqb_spec n 0); try lia.
  - pose proof (Z.log2_nonneg n). lia.
  - pose proof (Z.log2_le_mono m n). lia.
Qed.

Lemma Zdigits2_succ m : 0 <= m -> Zdigits2 (m + 1) <= Zdigits2 m + 1.
Proof.
  intros H. rewrite !Zdigits2_nonneg by lia. rewrite (proj2 (Z.eqb_neq (m + 1) 0)) by lia.
  destruct (Z.eqb_spec m 0) as [->|]; [done|].
  pose proof (Z.log2_succ_le m). unfold Z.succ in *. lia.
Qed.

Lemma Zdigits2_bound m k : 0 <= m < 2 ^ k -> 0 <= k -> Zdigits2 m <= k.
Proof.
  intros H Hk. rewrite Zdigits2_nonneg by lia. destruct (Z.eqb_spec m 0); [lia|].
  assert (Z.log2 m < k) by (apply Z.log2_lt_pow2; lia). lia.
Qed.

Lemma iter_xO m d : Zpos (Pos.iter xO m d) = Zpos m * 2 ^ Zpos d.
Proof.
  induction d as [|d IH] using Pos.peano_ind; [cbn; lia|].
  rewrite Pos.iter_succ, Pos2Z.inj_succ, Z.pow_succ_r by lia.
  change (Zpos (Pos.iter xO m d)~0) with (2 * Zpos (Pos.iter xO m d)). rewrite IH. lia.
Qed.

(** ** Shifting and rounding *)

Lemma shr_1_digits r :
  0 <= shr_m r -> 0 <= shr_m (shr_1 r) /\
  Zdigits2 (shr_m (shr_1 r)) <= Z.max 0 (Zdigits2 (shr_m r) - 1).
Proof.
  destruct r as [[|[p|p|]|p] rr s]; cbn; intros H; try lia; split; try lia;
    rewrite Pos2Z.inj_succ; lia.
Qed.

Lemma iter_shr_1_digits p r :
  0 <= shr_m r -> 0 <= shr_m (iter_pos shr_1 p r) /\
  Zdigits2 (shr_m (iter_pos shr_1 p r)) <= Z.max 0 (Zdigits2 (shr_m r) - Zpos p).
Proof.
  revert r. induction p as [p IH|p IH|]; intros r Hr; cbn [iter_pos].
  - apply shr_1_digits in Hr as [H1 D1]. apply IH in H1 as [H2 D2].
    apply IH in H2 as [H3 D3]. split; [done|]. lia.
  - apply IH in Hr as [H2 D2]. apply IH in H2 as [H3 D3]. split; [done|]. lia.
  - by apply shr_1_digits.
Qed.

Lemma shr_record_of_loc_m m l : shr_m (shr_record_of_loc m l) = m.
Proof. by destruct l as [|[]]. Qed.

(** [shr_fexp] keeps mantissas non-negative, and neither the exponent nor the
    number's magnitude grows past what they were. *)
Lemma shr_fexp_spec m e l r e' :
  0 <= m -> shr_fexp prec64 emax64 m e l = (r, e') ->
  0 <= shr_m r /\ e' = Z.max e (fexp prec64 emax64 (Zdigits2 m + e)) /\
  Zdigits2 (shr_m r) + e' <= Z.max e' (Zdigits2 m + e).
Proof.
  unfold shr_fexp, shr. intros Hm H.
  set (n := fexp prec64 emax64 (Zdigits2 m + e) - e) in *.
  destruct n as [|p|p] eqn:En; injection H as <- <-; rewrite ?shr_record_of_loc_m.
  - split_and!; lia.
  - destruct (iter_shr_1_digits p (shr_record_of_loc m l)) as [H1 H2];
      rewrite shr_record_of_loc_m in *; [done|]. split_and!; lia.
  - split_and!; lia.
Qed.

Lemma round_nearest_even_spec m l :
  0 <= m -> 0 <= round_nearest_even m l /\
  Zdigits2 (round_nearest_even m l) <= Zdigits2 m + 1.
Proof.
  intros Hm. pose proof (Zdigits2_succ m Hm).
  destruct l as [|[]]; cbn; try (destruct (Z.even m)); lia.
Qed.

(** Neither NaN nor of the other sign. *)
Definition signed (s : bool) (x : spec_float) : Prop :=
  match x with
  | S754_nan => False
  | S754_zero s' | S754_infinity s' | S754_finite s' _ _ => s' = s
  end.

Lemma binary_round_aux_signed s m e l :
  0 <= m -> signed s (binary_round_aux prec64 emax64 s m e l).
Proof.
  intros Hm. unfold binary_round_aux.
  destruct (shr_fexp _ _ m e l) as [r1 e1] eqn:H1.
  apply shr_fexp_spec in H1 as (Hr1 & _ & _); [|done].
  destruct (shr_fexp _ _ (round_nearest_even _ _) e1 _) as [r2 e2] eqn:H2.
  apply shr_fexp_spec in H2 as (Hr2 & _ & _); [|by apply round_nearest_even_spec].
  destruct (shr_m r2); cbn; [done|by destruct (_ <=? _)|lia].
Qed.

(** No overflow below [2^900]. *)
Lemma binary_round_aux_finite s m e l :
  0 <= m -> e <= 900 -> Zdigits2 m + e <= 900 ->
  sf_isfinite (binary_round_aux prec64 emax64 s m e l) = true.
Proof.
  intros Hm He Hd. unfold binary_round_aux.
  destruct (shr_fexp _ _ m e l) as [r1 e1] eqn:H1.
  apply shr_fexp_spec in H1 as (Hr1 & He1 & Hd1); [|done].
  destruct (round_nearest_even_spec (shr_m r1) (loc_of_shr_record r1) Hr1) as [Hn Hdn].
  destruct (shr_fexp _ _ (round_nearest_even _ _) e1 _) as [r2 e2] eqn:H2.
  apply shr_fexp_spec in H2 as (Hr2 & He2 & _); [|done].
  unfold fexp, prec64, emin, emax64 in *.
  destruct (shr_m r2); [done| |lia].
  rewrite (proj2 (Z.leb_le _ _)) by lia. done.
Qed.

Lemma shl_align_digits m e e' mz ez :
  shl_align m e e' = (mz, ez) -> ez <= e /\ Zdigits2 (Zpos mz) + ez = Zdigits2 (Zpos m) + e.
Proof.
  unfold shl_align. destruct (e' - e) as [|d|d] eqn:E; intros [= <- <-]; try (split; lia).
  split; [lia|]. rewrite !Zdigits2_nonneg by lia. cbn [Z.eqb]. rewrite iter_xO.
  rewrite Z.log2_mul_pow2 by lia. lia.
Qed.

Lemma binary_round_signed s m e : signed s (binary_round prec64 emax64 s m e).
Proof.
  unfold binary_round. destruct (shl_align _ _ _) as [mz ez].
  by apply binary_round_aux_signed.
Qed.

Lemma binary_round_finite s m e :
  e <= 900 -> Zdigits2 (Zpos m) + e <= 900 ->
  sf_isfinite (binary_round prec64 emax64 s m e) = true.
Proof.
  intros He Hd. unfold binary_round. destruct (shl_align _ _ _) as [mz ez] eqn:Hs.
  apply shl_align_digits in Hs as [? ?]. apply binary_round_aux_finite; lia.
Qed.

(** ** Non-negative numbers *)

(** Not NaN and not below zero: [-0.0] counts as zero, as it does for Python. *)
Definition sf_nonneg (x : spec_float) : Prop :=
  match x with
  | S754_nan => False
  | S754_zero _ => True
  | S754_infinity s | S754_finite s _ _ => s = false
  end.

Lemma signed_nonneg x : signed false x -> sf_nonneg x.
Proof. by destruct x. Qed.

Lemma sf_nonneg_not_negative x : sf_nonneg x -> SFltb x (S754_zero false) = false.
Proof. destruct x as [|[]| |[]]; cbn; done. Qed.

Lemma sf_nonneg_not_nan x : sf_nonneg x -> sf_isnan x = false.
Proof. by destruct x. Qed.

Lemma SFadd_nonneg x y :
  sf_nonneg x -> sf_nonneg y -> sf_nonneg (SFadd prec64 emax64 x y).
Proof.
  destruct x as [sx|sx| |sx mx ex], y as [sy|sy| |sy my ey]; cbn; try done;
    intros; subst; cbn; try done.
  - by destruct sx, sy.
  - apply signed_nonneg, binary_round_signed.
Qed.

(** A product is NaN only as zero times infinity. *)
Lemma SFmul_signed x y s s' :
  signed s x -> signed s' y -> sf_isfinite x = true -> sf_isfinite y = true ->
  signed (xorb s s') (SFmul prec64 emax64 x y).
Proof.
  destruct x as [|[]| |], y as [|[]| |]; cbn; try done;
    intros; subst; try done; by apply binary_round_aux_signed.
Qed.

Lemma SFmul_positive_nonneg s m e y :
  s = false -> sf_nonneg y -> sf_nonneg (SFmul prec64 emax64 (S754_finite s m e) y).
Proof.
  intros ->. destruct y; cbn; try done; intros; subst; try done.
  by apply signed_nonneg, binary_round_aux_signed.
Qed.

(** A square, and a finite non-negative weight times a square. *)
Lemma square_nonneg r :
  sf_isfinite r = true -> sf_nonneg (SFmul prec64 emax64 r r).
Proof.
  intros Hr. destruct r as [s| | |s m e]; try done. apply signed_nonneg.
  rewrite <- (xorb_nilpotent s). by apply SFmul_signed.
Qed.

Lemma weighted_square_nonneg c r :
  sf_nonneg c -> sf_isfinite c = true -> sf_isfinite r = true ->
  sf_nonneg (SFmul prec64 emax64 (SFmul prec64 emax64 c r) r).
Proof.
  intros Hc Hfc Hr. destruct r as [s| | |s m e]; try done.
  - by destruct c as [| | |[]].
  - destruct c as [sc| | |sc mc ec]; try done. cbn in Hc. subst.
    change (SFmul _ _ (S754_finite false mc ec) _)
      with (binary_round_aux prec64 emax64 (xorb false s) (Zpos (mc * m)) (ec + e) loc_Exact).
    pose proof (binary_round_aux_signed (xorb false s) (Zpos (mc * m)) (ec + e) loc_Exact
      ltac:(done)) as Hs.
    destruct (binary_round_aux _ _ _ _ _ _) as [s1|s1| |s1 m1 e1]; cbn in *;
      subst; rewrite ?xorb_nilpotent; try done.
    by apply signed_nonneg, binary_round_aux_signed.
Qed.

(** ** The complement of a weight *)

(** Membership in (0, 1), as the constructors check it, of a double. *)
Definition is_weight (l : spec_float) : Prop :=
  valid_binary prec64 emax64 l = true /\
  SFltb (S754_zero false) l = true /\
  SFltb l (binary_normalize prec64 emax64 1 0 false) = true.

Lemma one_float : binary_normalize prec64 emax64 1 0 false = S754_finite false (2 ^ 52) (-52).
Proof. vm_compute. reflexivity. Qed.

Lemma is_weight_finite l :
  is_weight l -> exists m e, l = S754_finite false m e /\ Zpos m < 2 ^ 53 /\
    (e < -52 \/ e = -52 /\ Zpos m < 2 ^ 52).
Proof.
  intros (Hv & Hpos & Hlt). rewrite one_float in Hlt.
  destruct l as [|[]| |[] m e]; try done. exists m, e. split; [done|].
  apply sf_ltb_key in Hlt as (ka & kb & [= <-] & [= <-] & Hlt).
  apply key_lt_spec in Hlt. cbn in Hv. unfold bounded, canonical_mantissa in Hv. boolify.
  split.
  - rewrite digits2_log2 in *. unfold fexp, prec64, emin, emax64 in *.
    apply Z.log2_lt_pow2; lia.
  - destruct Hlt as [?|[_ [?|[-> ?]]]]; [lia|lia|]. right. split; [done|lia].
Qed.

(** [1.0 - lam] neither goes negative nor overflows. *)
Lemma complement_weight l :
  is_weight l ->
  sf_nonneg (SFsub prec64 emax64 (binary_normalize prec64 emax64 1 0 false) l) /\
  sf_isfinite (SFsub prec64 emax64 (binary_normalize prec64 emax64 1 0 false) l) = true.
Proof.
  intros (m & e & -> & Hm & He)%is_weight_finite. rewrite one_float. unfold SFsub.
  rewrite Z.min_r by lia. cbn [cond_Zopp].
  destruct (shl_align m e e) as [m' e'] eqn:Em. unfold shl_align in Em.
  rewrite Z.sub_diag in Em. injection Em as <- <-. cbn [fst].
  set (one := fst (shl_align (2 ^ 52) (-52) e)).
  assert (Zpos one = 2 ^ (- e)) as Hone.
  { unfold one, shl_align. destruct (e - -52) as [|d|d] eqn:Ed; cbn [fst]; [|lia|].
    - by replace (- e) with 52 by lia.
    - rewrite iter_xO. change (Zpos (2 ^ 52)) with (2 ^ 52).
      rewrite <- Z.pow_add_r by lia. f_equal. lia. }
  assert (Zpos m < 2 ^ (- e)) as Hlt.
  { destruct He as [He|[-> He]]; [|done].
    eapply Z.lt_le_trans; [done|]. apply Z.pow_le_mono_r; lia. }
  rewrite Hone. destruct (2 ^ (- e) - Zpos m) as [|M|M] eqn:EM; [done| |lia].
  cbn [binary_normalize]. split; [apply signed_nonneg, binary_round_signed|].
  apply binary_round_finite; [lia|].
  assert (Zdigits2 (Zpos M) <= - e + 1); [|lia].
  apply Zdigits2_bound; [|lia]. rewrite Z.pow_add_r by lia. lia.
Qed.
