(* ===== verification/Civil.v ===== *)
(** * The proleptic Gregorian calendar and ISO 8601 text

    What [datetime] computes from an instant: the civil date (CPython's
    [_ord2ymd]), the day of the week, and the canonical text form that
    [isoformat] writes and [fromisoformat] reads back.  [iso_utc] discharges the
    [IsoFormat] interface of the prelude with executable functions. *)
From S2P Require Import Prelude.
From Stdlib Require Import Ascii.

Local Open Scope Z_scope.

(* ------------------------------------------------------------------ *)
(** ** Civil dates *)

Definition DAY_S : Z := 86_400.
Definition EPOCH_SHIFT : Z := 719_468. (* days from 0000-03-01 to 1970-01-01 *)

(** A day number within a 400-year cycle starting on March 1st, as year of the
    cycle and day of that year; the cycle is cut into centuries, 4-year cycles and
    years, whose last one is a day longer. *)
Definition split_cycle (doe : Z) : Z * Z :=
  let n100 := Z.min (doe / 36524) 3 in
  let r := doe - 36524 * n100 in
  let n4 := r / 1461 in
  let r := r - 1461 * n4 in
  let n1 := Z.min (r / 365) 3 in
  (100 * n100 + 4 * n4 + n1, r - 365 * n1).

Definition civil_of_days (z : Z) : Z * Z * Z :=
  let z := z + EPOCH_SHIFT in
  let era := z / 146097 in
  let '(yoe, doy) := split_cycle (z - 146097 * era) in
  let mp := (5 * doy + 2) / 153 in
  let d := doy - (153 * mp + 2) / 5 + 1 in
  let m := if mp <? 10 then mp + 3 else mp - 9 in
  (yoe + 400 * era + (if m <=? 2 then 1 else 0), m, d).

Definition days_of_civil (y m d : Z) : Z :=
  let y := if m <=? 2 then y - 1 else y in
  let era := y / 400 in
  let yoe := y - 400 * era in
  let mp := (m + 9) mod 12 in
  let doy := (153 * mp + 2) / 5 + d - 1 in
  146097 * era + (yoe * 365 + yoe / 4 - yoe / 100 + doy) - EPOCH_SHIFT.

Lemma split_cycle_spec doe :
  0 <= doe < 146097 ->
  let '(yoe, doy) := split_cycle doe in
  0 <= yoe < 400 /\ 0 <= doy <= 365 /\
  yoe * 365 + yoe / 4 - yoe / 100 + doy = doe.
Proof.
  intros Hd. unfold split_cycle.
  set (a := Z.min (doe / 36524) 3).
  assert (0 <= a <= 3 /\ 0 <= doe - 36524 * a <= 36524 /\
          (a < 3 -> doe - 36524 * a < 36524)) as (Ha & Hr & Hr').
  { unfold a. clear a. zdivmod. }
  set (r := doe - 36524 * a) in *.
  set (b := r / 1461). assert (0 <= b <= 24 /\ 0 <= r - 1461 * b < 1461) as (Hb & Hs).
  { unfold b. clear b. clearbody r. zdivmod. }
  set (s := r - 1461 * b) in *.
  set (c := Z.min (s / 365) 3). assert (0 <= c <= 3 /\ 0 <= s - 365 * c <= 365) as (Hc & Hq).
  { unfold c. clear c. clearbody s. zdivmod. }
  assert ((100 * a + 4 * b + c) / 4 = 25 * a + b) as -> by zdivmod.
  assert ((100 * a + 4 * b + c) / 100 = a) as -> by zdivmod.
  unfold s, r in *. lia.
Qed.

Lemma month_spec doy :
  0 <= doy <= 365 ->
  let mp := (5 * doy + 2) / 153 in
  let d := doy - (153 * mp + 2) / 5 + 1 in
  0 <= mp <= 11 /\ 1 <= d <= 31 /\ (10 <= mp <-> 306 <= doy).
Proof. intros Hd. cbv zeta. zdivmod. Qed.

(** Fields of the civil date of a day, in range, and the day again. *)
Lemma civil_of_days_spec z :
  let '(y, m, d) := civil_of_days z in
  1 <= m <= 12 /\ 1 <= d <= 31 /\ days_of_civil y m d = z /\
  (-719162 <= z <= 2932896 -> 1 <= y <= 9999).
Proof.
  unfold civil_of_days. set (era := (z + EPOCH_SHIFT) / 146097).
  assert (0 <= z + EPOCH_SHIFT - 146097 * era < 146097) as Hdoe by (unfold era; clear era; zdivmod).
  clearbody era.
  pose proof (split_cycle_spec _ Hdoe) as Hs.
  destruct (split_cycle _) as [yoe doy]. destruct Hs as (Hy & Hdoy & Hsum).
  pose proof (month_spec _ Hdoy) as Hm. cbv zeta in Hm.
  set (mp := (5 * doy + 2) / 153) in *.
  clearbody mp. assert (0 <= (153 * mp + 2) / 5 <= 337) as Hq by zdivmod.
  unfold days_of_civil, EPOCH_SHIFT in *.
  destruct (Z.ltb_spec mp 10) as [Hlt|Hge].
  - rewrite (proj2 (Z.leb_gt (mp + 3) 2)) by lia.
    replace ((yoe + 400 * era + 0) / 400) with era by zdivmod.
    replace ((mp + 3 + 9) mod 12) with mp by zdivmod.
    replace (yoe + 400 * era + 0 - 400 * era) with yoe by lia.
    assert (doy < 306) by lia. clear Hlt.
    split_and!; try lia; intros; clear Hm Hq; zdivmod.
  - rewrite (proj2 (Z.leb_le (mp - 9) 2)) by lia.
    replace (yoe + 400 * era + 1 - 1) with (yoe + 400 * era) by lia.
    replace ((yoe + 400 * era) / 400) with era by zdivmod.
    replace ((mp - 9 + 9) mod 12) with mp by zdivmod.
    replace (yoe + 400 * era - 400 * era) with yoe by lia.
    assert (306 <= doy) by lia. clear Hge.
    split_and!; try lia; intros; clear Hm Hq; zdivmod.
Qed.

(** Successive days of a cycle are successive days of a year, or start one. *)
Lemma split_cycle_succ doe :
  0 <= doe < 146096 ->
  snd (split_cycle (doe + 1)) = snd (split_cycle doe) + 1 \/ snd (split_cycle (doe + 1)) = 0.
Proof.
  intros Hd. unfold split_cycle. cbn [snd].
  set (a := Z.min (doe / 36524) 3). set (a' := Z.min ((doe + 1) / 36524) 3).
  assert (0 <= a <= 3 /\ (a' = a \/ a' = a + 1 /\ doe + 1 = 36524 * a') /\
    0 <= doe - 36524 * a <= 36524 /\ (a < 3 -> doe - 36524 * a < 36524)) as (Ha & Ha' & Hr & Hr').
  { unfold a, a'. clear a a'. zdivmod. }
  clearbody a a'. destruct Ha' as [-> |[-> He]].
  - set (r := doe - 36524 * a) in *. replace (doe + 1 - 36524 * a) with (r + 1) by (subst r; lia).
    assert (r < 36524) as Hr3 by (subst r; lia). clearbody r.
    set (b := r / 1461). set (b' := (r + 1) / 1461).
    assert ((b' = b \/ b' = b + 1 /\ r + 1 = 1461 * b') /\ 0 <= r - 1461 * b < 1461) as (Hb & Hs).
    { unfold b, b'. clear b b'. zdivmod. }
    clearbody b b'. destruct Hb as [-> |[-> He]].
    + set (s := r - 1461 * b) in *. replace (r + 1 - 1461 * b) with (s + 1) by (subst s; lia).
      clearbody s. zdivmod.
    + right. rewrite He. replace (1461 * (b + 1) - 1461 * (b + 1)) with 0 by lia. done.
  - right. rewrite He. replace (36524 * (a + 1) - 36524 * (a + 1)) with 0 by lia. done.
Qed.

(** [ts.day], and the day number of the first of its month. *)
Definition day_of_month (z : Z) : Z := let '(_, _, d) := civil_of_days z in d.

Lemma day_of_month_succ z :
  day_of_month (z + 1) = day_of_month z + 1 \/ day_of_month (z + 1) = 1.
Proof.
  unfold day_of_month, civil_of_days.
  set (era := (z + EPOCH_SHIFT) / 146097). set (era' := (z + 1 + EPOCH_SHIFT) / 146097).
  assert (0 <= z + EPOCH_SHIFT - 146097 * era < 146097 /\
    (era' = era \/ era' = era + 1 /\ z + 1 + EPOCH_SHIFT = 146097 * era')) as [Hdoe He]
    by (unfold era, era'; clear era era'; zdivmod).
  clearbody era era'. destruct He as [-> |[-> He]].
  - set (doe := z + EPOCH_SHIFT - 146097 * era) in *.
    replace (z + 1 + EPOCH_SHIFT - 146097 * era) with (doe + 1) by (subst doe; lia).
    clearbody doe. pose proof (split_cycle_spec _ Hdoe) as Hs.
    destruct (decide (doe = 146096)) as [->|Hne]; [by right|].
    pose proof (split_cycle_succ doe ltac:(lia)) as Hsucc.
    pose proof (split_cycle_spec (doe + 1) ltac:(lia)) as Hs'.
    destruct (split_cycle doe) as [yoe doy], (split_cycle (doe + 1)) as [yoe' doy'].
    destruct Hs as (_ & Hdoy & _), Hs' as (_ & Hdoy' & _). cbn in Hsucc.
    destruct Hsucc as [-> | ->]; [|by right]. zdivmod.
  - rewrite He. replace (146097 * (era + 1) - 146097 * (era + 1)) with 0 by lia. cbn. by right.
Qed.

Definition month_start (z : Z) : Z := let '(y, m, _) := civil_of_days z in days_of_civil y m 1.

Lemma month_start_day z : month_start z = z - (day_of_month z - 1) /\ 1 <= day_of_month z <= 31.
Proof.
  unfold month_start, day_of_month. pose proof (civil_of_days_spec z) as Hc.
  destruct (civil_of_days z) as [[y m] d]. destruct Hc as (_ & Hd & Hz & _).
  split; [|done]. unfold days_of_civil in *. lia.
Qed.

Lemma month_start_le z z' : z <= z' -> month_start z <= month_start z'.
Proof.
  intros Hz. replace z' with (z + Z.of_nat (Z.to_nat (z' - z))) by lia.
  generalize (Z.to_nat (z' - z)) as k. intros k. clear Hz z'.
  induction k as [|k IH]; [replace (z + Z.of_nat 0) with z by lia; lia|].
  replace (z + Z.of_nat (S k)) with (z + Z.of_nat k + 1) by lia.
  destruct (month_start_day (z + Z.of_nat k)) as [E1 ?],
    (month_start_day (z + Z.of_nat k + 1)) as [E2 ?].
  destruct (day_of_month_succ (z + Z.of_nat k)); lia.
Qed.

Lemma month_start_idem z : month_start (month_start z) = month_start z.
Proof.
  destruct (month_start_day z) as [E Hd]. destruct (month_start_day (month_start z)) as [E' _].
  assert (forall k, Z.of_nat k < day_of_month z ->
    day_of_month (z - Z.of_nat k) = day_of_month z - Z.of_nat k) as Hback.
  { intros k. induction k as [|k IH]; intros Hk; [by rewrite !Z.sub_0_r|].
    destruct (day_of_month_succ (z - Z.of_nat (S k))) as [Es|Es];
      replace (z - Z.of_nat (S k) + 1) with (z - Z.of_nat k) in Es by lia;
      rewrite IH in Es; lia. }
  specialize (Hback (Z.to_nat (day_of_month z - 1))).
  rewrite Z2Nat.id in Hback by lia. rewrite <- E in Hback. lia.
Qed.

(** [weekday()]: Monday is 0; 1970-01-01 was a Thursday. *)
Definition weekday_of_days (z : Z) : Z := (z + 3) mod 7.
Definition weekday (t : datetime) : Z := weekday_of_days (t / days 1).

(* ------------------------------------------------------------------ *)
(** ** Fixed-width decimal fields *)

Definition digit (n : Z) : ascii := ascii_of_nat (Z.to_nat (48 + n)).

Definition digit_val (c : ascii) : option Z :=
  let v := Z.of_nat (nat_of_ascii c) - 48 in
  if (0 <=? v) && (v <=? 9) then Some v else None.

(** The [k] low decimal digits of [n], most significant first, before [rest]. *)
Fixpoint show_digits (k : nat) (n : Z) (rest : string) : string :=
  match k with
  | O => rest
  | S k => show_digits k (n / 10) (String (digit (n mod 10)) rest)
  end.

Fixpoint read_digits (k : nat) (acc : Z) (s : string) : option (Z * string) :=
  match k, s with
  | O, _ => Some (acc, s)
  | S k, String c s => v ← digit_val c; read_digits k (10 * acc + v) s
  | S _, EmptyString => None
  end.

Lemma digit_val_digit n : 0 <= n < 10 -> digit_val (digit n) = Some n.
Proof.
  intros Hn. unfold digit_val, digit.
  rewrite nat_ascii_embedding by lia.
  replace (Z.of_nat (Z.to_nat (48 + n)) - 48) with n by lia.
  rewrite (proj2 (Z.leb_le 0 n)), (proj2 (Z.leb_le n 9)) by lia. done.
Qed.

Lemma read_show_digits k n acc rest :
  0 <= n < 10 ^ Z.of_nat k ->
  read_digits k acc (show_digits k n rest) = Some (acc * 10 ^ Z.of_nat k + n, rest).
Proof.
  assert (Hgen : forall j k n acc rest, 0 <= n < 10 ^ Z.of_nat k ->
    read_digits (k + j) acc (show_digits k n rest) =
    read_digits j (acc * 10 ^ Z.of_nat k + n) rest).
  { clear. intros j k. revert j. induction k as [|k IH]; intros j n acc rest Hn.
    - cbn in *. f_equal. lia.
    - rewrite Nat2Z.inj_succ, Z.pow_succ_r in * by lia. cbn [show_digits].
      replace (S k + j)%nat with (k + S j)%nat by lia. rewrite IH by zdivmod.
      cbn [read_digits]. rewrite digit_val_digit by zdivmod. cbn.
      f_equal. zdivmod. }
  intros Hn. rewrite <- (Nat.add_0_r k) at 1. by rewrite Hgen.
Qed.

Definition expect (c : ascii) (s : string) : option string :=
  match s with
  | String c' s => if decide (c = c') then Some s else None
  | EmptyString => None
  end.

(* ------------------------------------------------------------------ *)
(** ** ISO 8601 *)

Local Open Scope string_scope.
Local Open Scope Z_scope.

Definition show_fraction (us : Z) (rest : string) : string :=
  if us =? 0 then rest else String "." (show_digits 6 us rest).

Definition iso_string (t : datetime) : string :=
  let us := t mod MICRO in
  let secs := t / MICRO in
  let sod := secs mod DAY_S in
  let '(y, m, d) := civil_of_days (secs / DAY_S) in
  show_digits 4 y (String "-" (show_digits 2 m (String "-" (show_digits 2 d
    (String "T" (show_digits 2 (sod / 3600) (String ":" (show_digits 2 (sod / 60 mod 60)
    (String ":" (show_digits 2 (sod mod 60) (show_fraction us "+00:00"))))))))))).

Definition read_fraction (s : string) : option (Z * string) :=
  match expect "." s with
  | Some s => read_digits 6 0 s
  | None => Some (0, s)
  end.

Definition read_iso (s : string) : option datetime :=
  '(y, s) ← read_digits 4 0 s; s ← expect "-" s;
  '(m, s) ← read_digits 2 0 s; s ← expect "-" s;
  '(d, s) ← read_digits 2 0 s; s ← expect "T" s;
  '(hh, s) ← read_digits 2 0 s; s ← expect ":" s;
  '(mm, s) ← read_digits 2 0 s; s ← expect ":" s;
  '(ss, s) ← read_digits 2 0 s;
  '(us, s) ← read_fraction s;
  if decide (s = "+00:00" /\ civil_of_days (days_of_civil y m d) = (y, m, d) /\
             1 <= y /\ hh < 24 /\ mm < 60 /\ ss < 60)
  then Some ((days_of_civil y m d * DAY_S + hh * 3600 + mm * 60 + ss) * MICRO + us)
  else None.

Lemma read_show_fraction us rest :
  0 <= us < MICRO -> expect "." rest = None ->
  read_fraction (show_fraction us rest) = Some (us, rest).
Proof.
  intros Hus Hrest. unfold show_fraction.
  destruct (Z.eqb_spec us 0) as [->|_]; unfold read_fraction; [by rewrite Hrest|].
  change (expect "." (String "." (show_digits 6 us rest)))
    with (Some (show_digits 6 us rest)). cbv iota beta.
  rewrite read_show_digits by (unfold MICRO in Hus; cbn; lia). done.
Qed.

Lemma expect_same c s : expect c (String c s) = Some s.
Proof. unfold expect. by rewrite decide_True. Qed.

Lemma read_iso_string t : dt_in_range t -> read_iso (iso_string t) = Some t.
Proof.
  unfold dt_in_range, DT_MIN, DT_MAX. intros Ht.
  assert (Hsod : 0 <= t / MICRO mod DAY_S < 86400) by (unfold DAY_S; zdivmod).
  assert (Hus : 0 <= t mod MICRO < MICRO) by (unfold MICRO; zdivmod).
  assert (Hday : -719162 <= t / MICRO / DAY_S <= 2932896)
    by (unfold MICRO, DAY_S in *; zdivmod).
  assert (Hsum : (t / MICRO / DAY_S * DAY_S + t / MICRO mod DAY_S) * MICRO + t mod MICRO = t).
  { pose proof (Z.div_mod (t / MICRO) DAY_S ltac:(done)).
    pose proof (Z.div_mod t MICRO ltac:(done)). lia. }
  unfold iso_string, read_iso.
  pose proof (civil_of_days_spec (t / MICRO / DAY_S)) as Hc.
  destruct (civil_of_days (t / MICRO / DAY_S)) as [[y m] d] eqn:Hciv.
  destruct Hc as (Hm & Hd & Hback & Hy). specialize (Hy Hday).
  set (sod := t / MICRO mod DAY_S) in *. clearbody sod.
  assert (0 <= sod / 3600 < 24 /\ 0 <= sod / 60 mod 60 < 60 /\ 0 <= sod mod 60 < 60 /\
          sod / 3600 * 3600 + sod / 60 mod 60 * 60 + sod mod 60 = sod) as (Hh & Hmi & Hs & Hall).
  { clear -Hsod. zdivmod. }
  repeat (rewrite read_show_digits by (cbn; lia); cbn [mbind option_bind];
          rewrite ?expect_same; cbn [mbind option_bind]).
  rewrite read_show_fraction by done. cbn [mbind option_bind].
  rewrite !Z.mul_0_l, !Z.add_0_l, decide_True.
  - f_equal. rewrite Hback. lia.
  - rewrite Hback. split_and!; [done|done|lia..].
Qed.

Definition read_iso_result (s : string) : result datetime :=
  match read_iso s with Some t => Ok t | None => Raise ValueError end.

(** The canonical UTC text form, as an implementation of [IsoFormat]. *)
Definition iso_utc : IsoFormat.
Proof.
  refine {| isoformat := iso_string; fromisoformat := read_iso_result |}.
  - intros t Ht. unfold read_iso_result. by rewrite read_iso_string.
  - done.
Defined.

Example iso_example :
  iso_string 1760264520250000 = "2025-10-12T10:22:00.250000+00:00".
Proof. reflexivity. Qed.
