(* ===== verification/Hysteresis.v ===== *)
(** * Regime detection: the Schmitt trigger ([fx_core/alerts/hysteresis.py])

    The state machine that commits to NORMAL or STRESSED under noise.  Data and
    operations first, then: no update of a well-formed trigger raises; committed
    transitions alternate and are numbered without holes; every threshold
    transition is backed by a confirmed run of qualifying samples; a sustained
    signal does commit; unobserved stretches are held and eventually released;
    and a snapshot restored by another process continues the same machine. *)
From S2P Require Import Prelude PyFloat Civil.
From Stdlib Require Import SpecFloat.

Local Open Scope Z_scope.

Inductive Regime := NORMAL | STRESSED.
Inductive TransitionCause := THRESHOLD | BASELINE_THAW | OBSERVATION_LOST.

#[export] Instance Regime_eq_dec : EqDecision Regime.
Proof. solve_decision. Defined.
#[export] Instance TransitionCause_eq_dec : EqDecision TransitionCause.
Proof. solve_decision. Defined.

Definition flip (r : Regime) : Regime :=
  match r with NORMAL => STRESSED | STRESSED => NORMAL end.

(** [str(regime)] and [Regime(text)]. *)
Definition regime_str (r : Regime) : string :=
  match r with NORMAL => "normal"%string | STRESSED => "stressed"%string end.
Definition regime_of_str (s : string) : result Regime :=
  if String.eqb s "normal" then Ok NORMAL
  else if String.eqb s "stressed" then Ok STRESSED
  else Raise ValueError.
Definition cause_str (c : TransitionCause) : string :=
  match c with
  | THRESHOLD => "threshold"%string
  | BASELINE_THAW => "baseline_thaw"%string
  | OBSERVATION_LOST => "observation_lost"%string
  end.

Section Trigger.
Context {F : Type} `{PyFloat F} `{IsoFormat}.

(** The arguments of the f-strings that explain a transition; their rendering
    as text is not modelled. *)
Inductive Reason :=
  | ReasonHeld (z threshold : F) (target : Regime) (held_for : timedelta) (samples : Z)
  | ReasonThawed (inner : Reason)
  | ReasonUnobserved (unobserved_for : timedelta) (why : string).

Record RegimeTransition := {
  tr_symbol : string;
  tr_ts : datetime;
  tr_seq : Z;
  tr_old_regime : Regime;
  tr_new_regime : Regime;
  tr_trigger_value : F;
  tr_threshold_value : F;
  tr_sigma : F;
  tr_cause : TransitionCause;
  tr_reason : Reason;
}.

Definition is_escalation (tr : RegimeTransition) : bool :=
  bool_decide (tr_new_regime tr = STRESSED).

Record TriggerConfig := {
  enter_z : F;
  exit_z : F;
  min_confirm_samples : Z;
  confirm_for : timedelta;
  sample_timeout : timedelta;
  cooldown : timedelta;
  thaw_after : timedelta;
  observation_timeout : timedelta;
}.

Definition TriggerConfig_default : TriggerConfig := {|
  enter_z := f_of_Z 3;
  exit_z := f_ratio 15 10;
  min_confirm_samples := 3;
  confirm_for := minutes 3;
  sample_timeout := minutes 15;
  cooldown := minutes 5;
  thaw_after := hours 6;
  observation_timeout := minutes 30;
|}.

Definition TriggerConfig_post_init (c : TriggerConfig) : result unit :=
  _ ← guard_ (negb (f_le (enter_z c) (exit_z c))) ValueError;
  _ ← guard_ (negb (min_confirm_samples c <? 1)) ValueError;
  _ ← guard_ (negb (confirm_for c <? 0)) ValueError;
  _ ← guard_ (negb (sample_timeout c <=? 0)) ValueError;
  guard_ (negb (sample_timeout c <=? confirm_for c)) ValueError.

Record SchmittTrigger := {
  symbol : string;
  config : TriggerConfig;
  regime : Regime;
  seq : Z;
  regime_since : option datetime;
  candidate : option Regime;
  candidate_since : option datetime;
  candidate_samples : Z;
  last_sample_ts : option datetime;
  last_escalation : option datetime;
  unobserved_since : option datetime;
  thawed : bool;
  gate_reason : string;
}.

Definition SchmittTrigger_new (sym : string) (c : TriggerConfig) : SchmittTrigger := {|
  symbol := sym; config := c; regime := NORMAL; seq := 0;
  regime_since := None; candidate := None; candidate_since := None;
  candidate_samples := 0; last_sample_ts := None; last_escalation := None;
  unobserved_since := None; thawed := false; gate_reason := ""%string;
|}.

(** Assignments to groups of fields. *)
Definition set_candidate (t : SchmittTrigger) (c : option Regime)
    (since : option datetime) (n : Z) : SchmittTrigger := {|
  symbol := symbol t; config := config t; regime := regime t; seq := seq t;
  regime_since := regime_since t; candidate := c; candidate_since := since;
  candidate_samples := n; last_sample_ts := last_sample_ts t;
  last_escalation := last_escalation t; unobserved_since := unobserved_since t;
  thawed := thawed t; gate_reason := gate_reason t;
|}.

Definition set_observation (t : SchmittTrigger) (unobs : option datetime)
    (why : string) (last : option datetime) : SchmittTrigger := {|
  symbol := symbol t; config := config t; regime := regime t; seq := seq t;
  regime_since := regime_since t; candidate := candidate t;
  candidate_since := candidate_since t; candidate_samples := candidate_samples t;
  last_sample_ts := last; last_escalation := last_escalation t;
  unobserved_since := unobs; thawed := thawed t; gate_reason := why;
|}.

Definition set_regime (t : SchmittTrigger) (r : Regime) (n : Z)
    (since esc : option datetime) (th : bool) : SchmittTrigger := {|
  symbol := symbol t; config := config t; regime := r; seq := n;
  regime_since := since; candidate := candidate t;
  candidate_since := candidate_since t; candidate_samples := candidate_samples t;
  last_sample_ts := last_sample_ts t; last_escalation := esc;
  unobserved_since := unobserved_since t; thawed := th; gate_reason := gate_reason t;
|}.

Definition set_seq (t : SchmittTrigger) (n : Z) : SchmittTrigger :=
  set_regime t (regime t) n (regime_since t) (last_escalation t) (thawed t).

Definition armed (t : SchmittTrigger) : bool := bool_decide (unobserved_since t = None).

Definition stressed_since (t : SchmittTrigger) : option datetime :=
  if decide (regime t = STRESSED) then regime_since t else None.

Definition reset_candidate (t : SchmittTrigger) : SchmittTrigger :=
  set_candidate t None None 0.

Definition baseline_should_thaw (t : SchmittTrigger) (now : datetime) : bool :=
  match regime t, regime_since t with
  | STRESSED, Some since => thaw_after (config t) <=? now - since
  | _, _ => false
  end.

Definition mark_thawed (t : SchmittTrigger) : SchmittTrigger :=
  set_regime t (regime t) (seq t) (regime_since t) (last_escalation t) true.

Definition target_regime (t : SchmittTrigger) (z : F) : Regime :=
  match regime t with
  | NORMAL => if f_le (enter_z (config t)) z then STRESSED else NORMAL
  | STRESSED => if f_le z (exit_z (config t)) then NORMAL else STRESSED
  end.

Definition commit (t : SchmittTrigger) (target : Regime) (z threshold sigma : F)
    (ts : datetime) (cause : TransitionCause) (why : Reason)
    : result (SchmittTrigger * option RegimeTransition) :=
  if decide (target = regime t) then Raise AssertionError
  else
    let old := regime t in
    let esc := if decide (target = STRESSED) then Some ts else last_escalation t in
    let t := reset_candidate (set_regime t target (seq t + 1) (Some ts) esc false) in
    Ok (t, Some {|
      tr_symbol := symbol t; tr_ts := ts; tr_seq := seq t;
      tr_old_regime := old; tr_new_regime := target;
      tr_trigger_value := z; tr_threshold_value := threshold;
      tr_sigma := sigma; tr_cause := cause; tr_reason := why |}).

(** The rate limit on escalations. *)
Definition cooling_down (t : SchmittTrigger) (target : Regime) (ts : datetime) : bool :=
  match target, last_escalation t with
  | STRESSED, Some esc => ts - esc <? cooldown (config t)
  | _, _ => false
  end.

Definition advance (t : SchmittTrigger) (target : Regime) (ts : datetime) : SchmittTrigger :=
  if decide (candidate t = Some target)
  then set_candidate t (candidate t) (candidate_since t) (candidate_samples t + 1)
  else set_candidate t (Some target) (Some ts) 1.

Definition accumulate (t : SchmittTrigger) (target : Regime) (z sigma : F) (ts : datetime)
    : result (SchmittTrigger * option RegimeTransition) :=
  let t := advance t target ts in
  match candidate_since t with
  | None => Raise AssertionError
  | Some since =>
      let held_for := ts - since in
      if ((candidate_samples t <? min_confirm_samples (config t))
          || (held_for <? confirm_for (config t)))%bool
      then Ok (t, None)
      else if cooling_down t target ts then Ok (t, None)
      else
        let threshold :=
          if decide (target = STRESSED) then enter_z (config t) else exit_z (config t) in
        let why := ReasonHeld z threshold target held_for (candidate_samples t) in
        if (bool_decide (target = NORMAL) && thawed t)%bool
        then commit t target z threshold sigma ts BASELINE_THAW (ReasonThawed why)
        else commit t target z threshold sigma ts THRESHOLD why
  end.

Definition hold (t : SchmittTrigger) (ts : datetime) (why : string)
    : result (SchmittTrigger * option RegimeTransition) :=
  let since := default ts (unobserved_since t) in
  let t := set_observation (reset_candidate t) (Some since) why (last_sample_ts t) in
  if (bool_decide (regime t = STRESSED)
      && (observation_timeout (config t) <=? ts - since))%bool
  then commit t NORMAL f_nan (exit_z (config t)) f_nan ts OBSERVATION_LOST
         (ReasonUnobserved (ts - since) why)
  else Ok (t, None).

(** Has the chain of consecutive samples been broken before [ts]? *)
Definition sample_gap (t : SchmittTrigger) (ts : datetime) : bool :=
  match last_sample_ts t with
  | Some last => sample_timeout (config t) <? ts - last
  | None => false
  end.

(** The bookkeeping of an evaluated sample: armed, and chained to the previous
    sample unless the gap broke the chain. *)
Definition observe_at (t : SchmittTrigger) (ts : datetime) : SchmittTrigger :=
  let t := if sample_gap t ts then reset_candidate t else t in
  set_observation t None ""%string (Some ts).

Definition hold_reason (is_armed : bool) (why : string) : string :=
  if String.eqb why "" then (if is_armed then "baseline not ready" else "gated")%string else why.

Definition update (t : SchmittTrigger) (zscore : option F) (sigma : F) (ts : datetime)
    (is_armed : bool) (why : string)
    : result (SchmittTrigger * option RegimeTransition) :=
  match is_armed, zscore with
  | true, Some z =>
      let t := observe_at t ts in
      let target := target_regime t z in
      if decide (target = regime t) then Ok (reset_candidate t, None)
      else accumulate t target z sigma ts
  | _, _ => hold t ts (hold_reason is_armed why)
  end.

(** ** Rehydration *)

Record TriggerSnapshot := {
  snap_regime : string;
  snap_seq : Z;
  snap_regime_since : option string;
  snap_last_escalation : option string;
  snap_thawed : bool;
}.

Definition snapshot (t : SchmittTrigger) : TriggerSnapshot := {|
  snap_regime := regime_str (regime t);
  snap_seq := seq t;
  snap_regime_since := isoformat <$> regime_since t;
  snap_last_escalation := isoformat <$> last_escalation t;
  snap_thawed := thawed t;
|}.

(** [_dt]: [None] and the empty string are absent; anything else is parsed. *)
Definition dt_of (raw : option string) : result (option datetime) :=
  match raw with
  | None => Ok None
  | Some s => if String.eqb s "" then Ok None else Some <$> fromisoformat s
  end.

Definition restore (sym : string) (s : TriggerSnapshot) (c : TriggerConfig)
    : result SchmittTrigger :=
  r ← regime_of_str (snap_regime s);
  since ← dt_of (snap_regime_since s);
  esc ← dt_of (snap_last_escalation s);
  Ok (set_regime (SchmittTrigger_new sym c) r (snap_seq s) since esc (snap_thawed s)).

(** ** Sequences of operations *)

Record Obs := {
  o_z : option F;
  o_sigma : F;
  o_ts : datetime;
  o_armed : bool;
  o_why : string;
}.

Definition update_obs (t : SchmittTrigger) (o : Obs) :=
  update t (o_z o) (o_sigma o) (o_ts o) (o_armed o) (o_why o).

(** What happens to one symbol's trigger: updates, the caller's notice that the
    baseline was thawed, and a failover through the persisted snapshot. *)
Inductive Event :=
  | EUpdate (o : Obs)
  | EThaw
  | EFailover.

Definition step (t : SchmittTrigger) (e : Event)
    : result (SchmittTrigger * option RegimeTransition) :=
  match e with
  | EUpdate o => update_obs t o
  | EThaw => Ok (mark_thawed t, None)
  | EFailover => t' ← restore (symbol t) (snapshot t) (config t); Ok (t', None)
  end.

End Trigger.

Arguments Reason F : clear implicits.
Arguments RegimeTransition F : clear implicits.
Arguments TriggerConfig F : clear implicits.
Arguments SchmittTrigger F : clear implicits.
Arguments Obs F : clear implicits.
Arguments Event F : clear implicits.
Arguments observe_at : simpl never.

(** A run of events and the transitions it commits, oldest first. *)
Abbreviation run := (run_all step).

(* ------------------------------------------------------------------ *)
(** ** Facts *)

Section TriggerFacts.
Context {F : Type} `{PyFloat F} `{IsoFormat}.
Implicit Types (t : SchmittTrigger F) (o : Obs F) (tr : RegimeTransition F).

Lemma flip_neq r : flip r <> r.
Proof. by destruct r. Qed.

Lemma neq_flip r r' : r <> r' -> r = flip r'.
Proof. by destruct r, r'. Qed.

Lemma flip_involutive r : flip (flip r) = r.
Proof. by destruct r. Qed.

Lemma regime_of_str_str r : regime_of_str (regime_str r) = Ok r.
Proof. by destruct r. Qed.

(** A candidate is always the other regime, dated and counted; without one the
    counters are clear. *)
Definition wf t : Prop :=
  match candidate t with
  | None => candidate_since t = None /\ candidate_samples t = 0
  | Some c => c = flip (regime t) /\ is_Some (candidate_since t)
              /\ 1 <= candidate_samples t
  end.

Definition observed o (z : F) : Prop := o_armed o = true /\ o_z o = Some z.
Definition unobserved o : Prop := o_armed o = false \/ o_z o = None.

Lemma observed_dec o : (exists z, observed o z) \/ unobserved o.
Proof.
  unfold observed, unobserved.
  destruct (o_armed o), (o_z o) as [z|]; eauto.
Qed.

(** The conditions under which an advanced candidate commits. *)
Definition confirmed t target ts : bool :=
  match candidate_since t with
  | Some since =>
      (min_confirm_samples (config t) <=? candidate_samples t)
      && (confirm_for (config t) <=? ts - since)
      && negb (cooling_down t target ts)
  | None => false
  end.

(** The state after a commit. *)
Definition committed t target ts : SchmittTrigger F :=
  reset_candidate (set_regime t target (seq t + 1) (Some ts)
    (if decide (target = STRESSED) then Some ts else last_escalation t) false).

(** A transition reports the change the machine made. *)
Definition reports t tr (cause : TransitionCause) ts : Prop :=
  tr_symbol tr = symbol t /\ tr_ts tr = ts /\ tr_seq tr = seq t + 1 /\
  tr_old_regime tr = regime t /\ tr_new_regime tr = flip (regime t) /\
  tr_cause tr = cause.

(** Every branch of an update. *)
Inductive outcome t o : SchmittTrigger F -> option (RegimeTransition F) -> Prop :=
  | out_held since :
      unobserved o -> since = default (o_ts o) (unobserved_since t) ->
      (regime t = STRESSED -> o_ts o - since < observation_timeout (config t)) ->
      outcome t o
        (set_observation (reset_candidate t) (Some since)
           (hold_reason (o_armed o) (o_why o)) (last_sample_ts t)) None
  | out_lost since t' tr :
      unobserved o -> since = default (o_ts o) (unobserved_since t) ->
      regime t = STRESSED -> observation_timeout (config t) <= o_ts o - since ->
      t' = set_observation (reset_candidate t) (Some since)
             (hold_reason (o_armed o) (o_why o)) (last_sample_ts t) ->
      reports t tr OBSERVATION_LOST (o_ts o) ->
      outcome t o (committed t' NORMAL (o_ts o)) (Some tr)
  | out_quiet z :
      observed o z -> target_regime t z = regime t ->
      outcome t o (reset_candidate (observe_at t (o_ts o))) None
  | out_waiting z t' :
      observed o z -> target_regime t z = flip (regime t) ->
      t' = advance (observe_at t (o_ts o)) (flip (regime t)) (o_ts o) ->
      confirmed t' (flip (regime t)) (o_ts o) = false ->
      outcome t o t' None
  | out_commit z t' tr :
      observed o z -> target_regime t z = flip (regime t) ->
      t' = advance (observe_at t (o_ts o)) (flip (regime t)) (o_ts o) ->
      confirmed t' (flip (regime t)) (o_ts o) = true ->
      reports t tr (if (bool_decide (flip (regime t) = NORMAL) && thawed t)%bool
                    then BASELINE_THAW else THRESHOLD) (o_ts o) ->
      tr_trigger_value tr = z ->
      outcome t o (committed t' (flip (regime t)) (o_ts o)) (Some tr).

Lemma observe_at_fields t ts :
  regime (observe_at t ts) = regime t /\ config (observe_at t ts) = config t /\
  seq (observe_at t ts) = seq t /\ symbol (observe_at t ts) = symbol t /\
  thawed (observe_at t ts) = thawed t /\
  last_escalation (observe_at t ts) = last_escalation t /\
  last_sample_ts (observe_at t ts) = Some ts.
Proof. unfold observe_at. by destruct (sample_gap t ts). Qed.

Lemma observe_at_wf t ts : wf t -> wf (observe_at t ts).
Proof. unfold observe_at. by destruct (sample_gap t ts). Qed.

Lemma advance_fields t target ts :
  regime (advance t target ts) = regime t /\ config (advance t target ts) = config t /\
  seq (advance t target ts) = seq t /\ symbol (advance t target ts) = symbol t /\
  thawed (advance t target ts) = thawed t /\
  last_escalation (advance t target ts) = last_escalation t /\
  last_sample_ts (advance t target ts) = last_sample_ts t.
Proof. unfold advance. by case_decide. Qed.

Lemma advance_wf t ts : wf t -> wf (advance t (flip (regime t)) ts).
Proof.
  unfold wf, advance. intros Hwf. case_decide as Hc; cbn; [|by eauto].
  rewrite Hc in *. destruct Hwf as (? & ? & ?). repeat split; [done|lia].
Qed.

Lemma advance_candidate t target ts : candidate (advance t target ts) = Some target.
Proof. unfold advance. by case_decide. Qed.

Lemma target_regime_cong t t' z :
  regime t' = regime t -> config t' = config t ->
  target_regime t' z = target_regime t z.
Proof. unfold target_regime. by intros -> ->. Qed.

Lemma commit_ok t target z th sg ts cause why :
  target <> regime t ->
  exists tr, commit t target z th sg ts cause why = Ok (committed t target ts, Some tr)
    /\ reports t tr cause ts /\ tr_trigger_value tr = z.
Proof.
  intros Hne. unfold commit, committed, reports.
  destruct (decide (target = regime t)); [done|].
  eexists. split; [reflexivity|]. cbn. by rewrite <- (neq_flip _ _ Hne).
Qed.

Lemma hold_outcome t o t' r :
  unobserved o -> update_obs t o = Ok (t', r) -> outcome t o t' r.
Proof.
  intros Hu Hup.
  assert (hold t (o_ts o) (hold_reason (o_armed o) (o_why o)) = Ok (t', r)) as Hh.
  { unfold update_obs, update in Hup. destruct Hu as [Hu|Hu]; rewrite Hu in *; [done|].
    by destruct (o_armed o). }
  unfold hold in Hh. cbn in Hh.
  destruct (bool_decide (regime t = STRESSED)) eqn:Hr; cbn in Hh; boolify.
  - destruct (_ <=? _) eqn:Ht; boolify.
    + match type of Hh with commit ?u _ _ _ _ ?ts ?c ?w = _ =>
        destruct (commit_ok u NORMAL f_nan (exit_z (config t)) f_nan ts c w)
          as (tr & E & Hrep & _) end; [cbn; congruence|].
      rewrite E in Hh. injection Hh as <- <-.
      eapply out_lost; eauto.
    + injection Hh as <- <-. eapply out_held; eauto.
  - injection Hh as <- <-. eapply out_held; eauto. congruence.
Qed.

Lemma accumulate_outcome t target z sg ts t' r :
  target <> regime t -> accumulate t target z sg ts = Ok (t', r) ->
  let u := advance t target ts in
  if confirmed u target ts
  then t' = committed u target ts /\ exists tr, r = Some tr /\
       reports u tr (if (bool_decide (target = NORMAL) && thawed u)%bool
                     then BASELINE_THAW else THRESHOLD) ts /\ tr_trigger_value tr = z
  else t' = u /\ r = None.
Proof.
  intros Hne Ha. cbv zeta. unfold accumulate in Ha. unfold confirmed.
  set (u := advance t target ts) in *.
  assert (Hne' : target <> regime u) by (unfold u; by rewrite (proj1 (advance_fields t target ts))).
  destruct (candidate_since u) as [since|]; [|done].
  rewrite !Z.ltb_antisym in Ha.
  destruct (_ <=? candidate_samples u); cbn in *; [|by injection Ha as <- <-].
  destruct (_ <=? ts - since); cbn in *; [|by injection Ha as <- <-].
  destruct (cooling_down u target ts); cbn; [by injection Ha as <- <-|].
  destruct (bool_decide _ && _)%bool;
    match type of Ha with commit ?x ?y ?v ?w ?a ?b ?c ?d = _ =>
      destruct (commit_ok x y v w a b c d Hne') as (tr & E & ? & ?) end;
    rewrite E in Ha; injection Ha as <- <-; eauto.
Qed.

Lemma update_cases t o t' r :
  update_obs t o = Ok (t', r) -> outcome t o t' r.
Proof.
  intros Hup. destruct (observed_dec o) as [[z Hz]|Hu]; [|by apply hold_outcome].
  pose proof Hz as [Ha Ho]. unfold update_obs, update in Hup. rewrite Ha, Ho in Hup.
  destruct (observe_at_fields t (o_ts o)) as (Hr & Hc & Hs & Hsy & Hth & _).
  rewrite (target_regime_cong t) in Hup by done. rewrite Hr in Hup.
  case_decide as Hd; [injection Hup as <- <-; by eapply out_quiet|].
  apply neq_flip in Hd as Hd'.
  apply accumulate_outcome in Hup; [|by rewrite Hr].
  rewrite Hd' in Hup. cbv zeta in Hup.
  destruct (confirmed _ _ _) eqn:Hconf.
  - destruct Hup as (-> & tr & -> & Hrep & Hz').
    eapply out_commit; eauto.
    destruct (advance_fields (observe_at t (o_ts o)) (flip (regime t)) (o_ts o))
      as (Hr2 & _ & Hs2 & Hsy2 & Hth2 & _).
    unfold reports in *. rewrite Hr2, Hs2, Hsy2, Hth2, Hr, Hs, Hsy, Hth in Hrep. done.
  - destruct Hup as [-> ->]. by eapply out_waiting.
Qed.

Lemma committed_wf t target ts : wf (committed t target ts).
Proof. done. Qed.

Lemma accumulate_total t z sg ts :
  wf t -> exists t' r, accumulate t (flip (regime t)) z sg ts = Ok (t', r).
Proof.
  intros Hwf. unfold accumulate.
  pose proof (advance_wf t ts Hwf) as Hwf'. unfold wf in Hwf'.
  pose proof (advance_fields t (flip (regime t)) ts) as (Hr & _).
  rewrite advance_candidate in Hwf'. destruct Hwf' as (_ & [since ->] & _).
  destruct (_ || _)%bool; [by eauto|]. destruct (cooling_down _ _ _); [by eauto|].
  destruct (_ && _)%bool;
    match goal with |- exists _ _, commit ?x ?y ?v ?w ?a ?b ?c ?d = _ =>
      destruct (commit_ok x y v w a b c d) as (tr & -> & _) end;
    eauto; rewrite Hr; apply flip_neq.
Qed.

Lemma hold_total t ts why : exists t' r, hold t ts why = Ok (t', r).
Proof.
  unfold hold. destruct (_ && _)%bool eqn:E; [|by eauto]. boolify.
  match goal with |- exists _ _, commit ?x ?y ?v ?w ?a ?b ?c ?d = _ =>
    destruct (commit_ok x y v w a b c d) as (tr & -> & _) end; eauto.
  cbn in *. congruence.
Qed.

Lemma update_total t o :
  wf t -> exists t' r, update_obs t o = Ok (t', r).
Proof.
  intros Hwf. unfold update_obs, update.
  destruct (o_armed o); [|apply hold_total].
  destruct (o_z o) as [z|]; [|apply hold_total].
  case_decide as Hd; [by eauto|]. apply neq_flip in Hd as ->.
  apply accumulate_total. by apply observe_at_wf.
Qed.

Lemma outcome_wf t o t' r : wf t -> outcome t o t' r -> wf t'.
Proof.
  intros Hwf. destruct 1; subst; try done.
  apply (observe_at_wf _ (o_ts o)) in Hwf.
  pose proof (observe_at_fields t (o_ts o)) as (Hr & _).
  rewrite <- Hr. by apply advance_wf.
Qed.

(** What an update leaves unchanged when it emits nothing, and what it changes
    when it emits a transition. *)
Lemma outcome_effect t o t' r :
  outcome t o t' r ->
  config t' = config t /\ symbol t' = symbol t /\
  match r with
  | None => regime t' = regime t /\ seq t' = seq t /\ regime_since t' = regime_since t
            /\ last_escalation t' = last_escalation t /\ thawed t' = thawed t
  | Some tr =>
      reports t tr (tr_cause tr) (o_ts o) /\ seq t' = seq t + 1 /\
      regime t' = flip (regime t) /\ regime_since t' = Some (o_ts o) /\
      last_escalation t' =
        (if decide (regime t' = STRESSED) then Some (o_ts o) else last_escalation t) /\
      thawed t' = false
  end.
Proof.
  assert (Hobs : forall ts, regime_since (observe_at t ts) = regime_since t)
    by (intros ts; unfold observe_at; by destruct (sample_gap t ts)).
  assert (Hadv : forall (u : SchmittTrigger F) tg ts, regime_since (advance u tg ts) = regime_since u)
    by (intros u tg ts; unfold advance; by case_decide).
  pose proof (observe_at_fields t (o_ts o)) as (Hr & Hc & Hs & Hsy & Hth & Hle & _).
  pose proof (advance_fields (observe_at t (o_ts o)) (flip (regime t)) (o_ts o))
    as (Hr2 & Hc2 & Hs2 & Hsy2 & Hth2 & Hle2 & _).
  destruct 1 as [since Hu Hs0 Ht | since t1 tr Hu Hs0 HS Hto -> Hrep
    | z Hz Htg | z t1 Hz Htg -> Hcf | z t1 tr Hz Htg -> Hcf Hrep Hv];
    unfold reports in *; cbn; rewrite ?Hadv, ?Hobs, ?Hr2, ?Hc2, ?Hs2, ?Hsy2, ?Hth2,
      ?Hle2, ?Hr, ?Hc, ?Hs, ?Hsy, ?Hth, ?Hle; try by repeat split.
  - destruct Hrep as (? & ? & ? & ? & ? & Hca). rewrite HS, Hca in *. by repeat split.
  - destruct Hrep as (? & ? & ? & ? & ? & Hca). by repeat split.
Qed.

(** ** Runs *)

(** Dates that survive the snapshot: within the range of [datetime]. *)
Definition dated t : Prop :=
  (forall d, regime_since t = Some d -> dt_in_range d) /\
  (forall d, last_escalation t = Some d -> dt_in_range d).

Definition event_in_range (e : Event F) : Prop :=
  match e with EUpdate o => dt_in_range (o_ts o) | _ => True end.

Lemma dt_of_isoformat d :
  (forall x, d = Some x -> dt_in_range x) -> dt_of (isoformat <$> d) = Ok d.
Proof.
  intros Hd. destruct d as [d|]; [|done]. cbn.
  destruct (String.eqb_spec (isoformat d) ""); [by destruct (isoformat_nonempty d); eauto|].
  by rewrite fromisoformat_isoformat by eauto.
Qed.

(** The trigger a process rebuilds from a snapshot: the committed state, with
    candidate progress and observation state starting afresh. *)
Definition cold t : SchmittTrigger F :=
  set_regime (SchmittTrigger_new (symbol t) (config t)) (regime t) (seq t)
    (regime_since t) (last_escalation t) (thawed t).

Lemma restore_cold t :
  dated t -> restore (symbol t) (snapshot t) (config t) = Ok (cold t).
Proof.
  intros [H1 H2]. unfold restore, snapshot. cbn.
  by rewrite regime_of_str_str, !dt_of_isoformat.
Qed.

Definition step_reports t e t' (r : option (RegimeTransition F)) : Prop :=
  match r with
  | None => regime t' = regime t /\ seq t' = seq t /\ last_escalation t' = last_escalation t
  | Some tr => exists o, e = EUpdate o /\ outcome t o t' r
  end.

Lemma step_ok t e :
  wf t -> dated t -> event_in_range e ->
  exists t' r, step t e = Ok (t', r) /\ wf t' /\ dated t' /\
    config t' = config t /\ symbol t' = symbol t /\ step_reports t e t' r.
Proof.
  intros Hwf Hd He. destruct e as [o| |].
  - destruct (update_total t o Hwf) as (t' & r & Hup).
    exists t', r. apply update_cases in Hup as Ho.
    pose proof (outcome_effect _ _ _ _ Ho) as (Hc & Hsy & Heff).
    split_and!; try done; [by eapply outcome_wf| |].
    + destruct Hd as [Hd1 Hd2], r.
      * destruct Heff as (_ & _ & _ & Hrs & Hle & _). split; intros d Hdd.
        -- rewrite Hrs in Hdd. by injection Hdd as <-.
        -- rewrite Hle in Hdd. case_decide; [by injection Hdd as <-|eauto].
      * destruct Heff as (_ & _ & Hrs & Hle & _). split; intros d Hdd; [apply Hd1|apply Hd2];
          congruence.
    + destruct r; cbn; [by eauto|]. by destruct Heff as (? & ? & _ & ? & _).
  - by exists (mark_thawed t), None.
  - exists (cold t), None. cbn. by rewrite restore_cold.
Qed.

Lemma run_total t es :
  wf t -> dated t -> Forall event_in_range es ->
  exists t' trs, run t es = Ok (t', trs) /\ wf t' /\ dated t' /\ config t' = config t.
Proof.
  intros Hwf Hd Hes. revert t Hwf Hd. induction Hes as [|e es He Hes IH]; intros t Hwf Hd.
  - by exists t, [].
  - destruct (step_ok t e Hwf Hd He) as (t1 & r & Hs & Hwf1 & Hd1 & Hc1 & _ & _).
    destruct (IH t1 Hwf1 Hd1) as (t2 & trs & Hr & Hwf2 & Hd2 & Hc2).
    exists t2, (opt_list r ++ trs). cbn. rewrite Hs. cbn. rewrite Hr.
    split_and!; try done. congruence.
Qed.

(** [alternating r n trs]: starting from regime [r] and number [n], the log
    alternates regimes and numbers its entries consecutively. *)
Fixpoint alternating (r : Regime) (n : Z) (trs : list (RegimeTransition F)) : Prop :=
  match trs with
  | [] => True
  | tr :: trs =>
      tr_old_regime tr = r /\ tr_new_regime tr = flip r /\ tr_seq tr = n + 1 /\
      alternating (flip r) (n + 1) trs
  end.


Lemma run_thaw t es : run t (EThaw :: es) = run (mark_thawed t) es.
Proof. cbn. by destruct (run (mark_thawed t) es) as [[t' trs]|e]. Qed.

Lemma alternating_snoc r n trs tr :
  alternating r n (trs ++ [tr]) <->
  alternating r n trs /\
  tr_old_regime tr = (if Nat.even (length trs) then r else flip r) /\
  tr_new_regime tr = flip (tr_old_regime tr) /\
  tr_seq tr = n + Z.of_nat (length trs) + 1.
Proof.
  revert r n. induction trs as [|tr' trs IH]; intros r n.
  - cbn. rewrite Z.add_0_r. split; [intros (-> & -> & -> & _)|intros (_ & -> & -> & ->)];
      done.
  - cbn [app alternating length]. rewrite IH, Nat.even_succ, <- Nat.negb_even.
    replace (n + 1 + Z.of_nat (length trs)) with (n + Z.of_nat (S (length trs))) by lia.
    destruct (Nat.even (length trs)); cbn [negb]; rewrite ?flip_involutive; tauto.
Qed.

(** The log of a run agrees with the machine's regime and counter. *)
Lemma run_alternating sym c es t trs :
  Forall event_in_range es -> run (SchmittTrigger_new sym c) es = Ok (t, trs) ->
  alternating NORMAL 0 trs /\ seq t = Z.of_nat (length trs) /\
  regime t = (if Nat.even (length trs) then NORMAL else STRESSED) /\
  wf t /\ dated t /\ config t = c.
Proof.
  revert t trs. induction es as [|e es IH] using rev_ind; intros t trs Hes Hr.
  - injection Hr as <- <-. split_and!; done.
  - apply Forall_app in Hes as [Hes He]. rewrite Forall_singleton in He.
    apply run_snoc in Hr as (t1 & trs1 & r & Hr & Hs & ->).
    destruct (IH t1 trs1 Hes Hr) as (Ha & Hq & Hg & Hwf & Hd & Hc).
    destruct (step_ok t1 e Hwf Hd He) as (t' & r' & Hs' & Hwf' & Hd' & Hc' & _ & Hrep).
    rewrite Hs in Hs'. injection Hs' as <- <-. rewrite Hc in Hc'.
    destruct r as [tr|]; cbn [opt_list].
    + destruct Hrep as (o & -> & Ho).
      pose proof (outcome_effect _ _ _ _ Ho) as (_ & _ & (? & ? & Hsq & Hold & Hnew & _)
        & Hq' & Hg' & _).
      rewrite alternating_snoc, length_app, Nat.add_1_r, Nat.even_succ, <- Nat.negb_even.
      rewrite Hold, Hnew, Hsq, Hq', Hg', Hq, Hg.
      split_and!; try done; try lia; by destruct (Nat.even _).
    + destruct Hrep as (Hg' & Hq' & _). rewrite app_nil_r, Hg', Hq'. by split_and!.
Qed.

(** ** Evidence for a commit *)

Definition obs_of (es : list (Event F)) : list (Obs F) :=
  omap (fun e => match e with EUpdate o => Some o | _ => None end) es.

(** A sample that asks for [target]: evaluated, and beyond the threshold that
    leaves the other regime. *)
Definition qualifies (c : TriggerConfig F) (target : Regime) (o : Obs F) : Prop :=
  exists z, observed o z /\
    match target with
    | STRESSED => f_le (enter_z c) z = true
    | NORMAL => f_le z (exit_z c) = true
    end.

Definition gap_at_most (d : timedelta) (o o' : Obs F) : Prop := o_ts o' - o_ts o <= d.

(** A confirmed run of samples: all qualify, none follows its predecessor by
    more than [sample_timeout], there are at least [min_confirm_samples], and
    they span at least [confirm_for]. *)
Definition confirmed_by (c : TriggerConfig F) (target : Regime) (ev : list (Obs F)) : Prop :=
  Forall (qualifies c target) ev /\
  chained (gap_at_most (sample_timeout c)) ev /\
  min_confirm_samples c <= Z.of_nat (length ev) /\
  exists first final, head ev = Some first /\ last ev = Some final /\
    confirm_for c <= o_ts final - o_ts first.

(** The evidence a trigger's candidate rests on: a suffix of what it was fed. *)
Definition evidence t (os : list (Obs F)) : Prop :=
  forall target, candidate t = Some target ->
  exists ev first final, ev `suffix_of` os /\
    Forall (qualifies (config t) target) ev /\
    chained (gap_at_most (sample_timeout (config t))) ev /\
    Z.of_nat (length ev) = candidate_samples t /\
    head ev = Some first /\ candidate_since t = Some (o_ts first) /\
    last ev = Some final /\ last_sample_ts t = Some (o_ts final).

Lemma qualifies_target t o z :
  observed o z -> target_regime t z = flip (regime t) ->
  qualifies (config t) (flip (regime t)) o.
Proof.
  intros Hz Ht. exists z. split; [done|]. unfold target_regime in Ht.
  destruct (regime t); cbn in *; by destruct (f_le _ _).
Qed.

Lemma target_qualifies t o z :
  observed o z -> qualifies (config t) (flip (regime t)) o ->
  target_regime t z = flip (regime t).
Proof.
  intros [_ Hz] (z' & [_ Hz'] & Hq). unfold target_regime. simplify_eq.
  by destruct (regime t); cbn in *; rewrite Hq.
Qed.

Lemma observe_at_candidate t ts :
  if sample_gap t ts
  then candidate (observe_at t ts) = None
  else candidate (observe_at t ts) = candidate t /\
       candidate_since (observe_at t ts) = candidate_since t /\
       candidate_samples (observe_at t ts) = candidate_samples t.
Proof. unfold observe_at. by destruct (sample_gap t ts). Qed.

Lemma advance_evidence t os o z :
  evidence t os -> observed o z -> target_regime t z = flip (regime t) ->
  evidence (advance (observe_at t (o_ts o)) (flip (regime t)) (o_ts o)) (os ++ [o]).
Proof.
  intros Hev Hz Htg target Hc. rewrite advance_candidate in Hc. injection Hc as <-.
  pose proof (qualifies_target _ _ _ Hz Htg) as Hq.
  pose proof (observe_at_candidate t (o_ts o)) as Hoc.
  pose proof (observe_at_fields t (o_ts o)) as (_ & Hcfg & _ & _ & _ & _ & Hls).
  pose proof (advance_fields (observe_at t (o_ts o)) (flip (regime t)) (o_ts o))
    as (_ & -> & _ & _ & _ & _ & ->). rewrite Hcfg, Hls.
  unfold advance. case_decide as Hcand; cbn.
  - destruct (sample_gap t (o_ts o)) eqn:Hgap; [by rewrite Hoc in Hcand|].
    destruct Hoc as (Hoc & -> & ->). rewrite Hoc in Hcand.
    destruct (Hev _ Hcand) as (ev & first & final & Hsuf & Hall & Hch & Hlen & Hhd & Hsince
      & Hlast & Hlts).
    exists (ev ++ [o]), first, o. split_and!.
    + destruct Hsuf as [k ->]. exists k. by rewrite app_assoc.
    + apply Forall_app_2; [done|by apply Forall_singleton].
    + apply chained_snoc; [done|]. intros y Hy. rewrite Hlast in Hy. injection Hy as <-.
      unfold sample_gap in Hgap. rewrite Hlts in Hgap. boolify. unfold gap_at_most. lia.
    + rewrite length_app. cbn. lia.
    + by destruct ev.
    + done.
    + by rewrite last_snoc.
    + done.
  - exists [o], o, o. split_and!; try done; [by exists os|by apply Forall_singleton].
Qed.

Lemma outcome_evidence t os o t' r :
  evidence t os -> outcome t o t' r -> evidence t' (os ++ [o]).
Proof.
  intros Hev. destruct 1; subst; try (by intros target ?).
  by eapply advance_evidence.
Qed.

Lemma evidence_confirmed t os target ts :
  evidence t os -> candidate t = Some target -> last_sample_ts t = Some ts ->
  confirmed t target ts = true ->
  exists ev, ev `suffix_of` os /\ confirmed_by (config t) target ev.
Proof.
  intros Hev Hc Hl Hconf.
  destruct (Hev _ Hc) as (ev & first & final & Hsuf & Hall & Hch & Hlen & Hhd & Hsince
    & Hlast & Hlts).
  unfold confirmed in Hconf. rewrite Hsince in Hconf. boolify.
  exists ev. split; [done|]. split_and!; try done; [lia|].
  exists first, final. split_and!; [done..|]. rewrite Hl in Hlts. injection Hlts as ->. lia.
Qed.

Lemma run_evidence sym c es t trs :
  run (SchmittTrigger_new sym c) es = Ok (t, trs) ->
  evidence t (obs_of es) /\ config t = c.
Proof.
  revert t trs. induction es as [|e es IH] using rev_ind; intros t trs Hr.
  - injection Hr as <- <-. done.
  - apply run_snoc in Hr as (t1 & trs1 & r & Hr & Hs & ->).
    destruct (IH t1 trs1 Hr) as [Hev Hc]. unfold obs_of. rewrite omap_app.
    destruct e as [o| |]; cbn in *.
    + apply update_cases in Hs. split; [by eapply outcome_evidence|].
      by rewrite (proj1 (outcome_effect _ _ _ _ Hs)).
    + injection Hs as <- <-. by rewrite app_nil_r.
    + apply bind_ok in Hs as (t2 & Hs & [= <- <-]). unfold restore in Hs. inv_result.
      split; [done|]. done.
Qed.

(** ** Escalations are spaced *)

Definition escalations (trs : list (RegimeTransition F)) : list (RegimeTransition F) :=
  List.filter is_escalation trs.

Definition spaced (d : timedelta) (tr tr' : RegimeTransition F) : Prop :=
  d <= tr_ts tr' - tr_ts tr.

Lemma outcome_cooldown t o t' tr esc :
  outcome t o t' (Some tr) -> is_escalation tr = true -> last_escalation t = Some esc ->
  cooldown (config t) <= tr_ts tr - esc.
Proof.
  intros Ho Hesc Hle. unfold is_escalation in Hesc. boolify.
  inversion Ho as [|since t1 ? ? ? HS ? ? Hrep| | |z t1 ? Hz Htg Ht1 Hcf Hrep]; subst.
  - destruct Hrep as (_ & _ & _ & _ & Hnew & _). rewrite Hesc, HS in Hnew. done.
  - destruct Hrep as (_ & -> & _ & _ & Hnew & _). rewrite Hesc in Hnew.
    unfold confirmed in Hcf. rewrite <- Hnew in Hcf.
    destruct (candidate_since _); [|done]. boolify.
    match goal with H : cooling_down _ _ _ = false |- _ => rename H into Hcool end.
    unfold cooling_down in Hcool.
    destruct (observe_at_fields t (o_ts o)) as (_ & Hc1 & _ & _ & _ & Hl1 & _).
    destruct (advance_fields (observe_at t (o_ts o)) STRESSED (o_ts o))
      as (_ & Hc2 & _ & _ & _ & Hl2 & _).
    rewrite Hl2, Hl1, Hle, Hc2, Hc1 in Hcool. boolify. lia.
Qed.

Lemma run_spaced sym c es t trs :
  Forall event_in_range es -> run (SchmittTrigger_new sym c) es = Ok (t, trs) ->
  chained (spaced (cooldown c)) (escalations trs) /\
  last_escalation t = tr_ts <$> last (escalations trs).
Proof.
  revert t trs. induction es as [|e es IH] using rev_ind; intros t trs Hes Hr.
  - injection Hr as <- <-. split; [apply chained_nil|done].
  - apply Forall_app in Hes as [Hes He]. rewrite Forall_singleton in He.
    apply run_snoc in Hr as (t1 & trs1 & r & Hr & Hs & ->).
    destruct (IH t1 trs1 Hes Hr) as [Hch Hle].
    destruct (run_alternating _ _ _ _ _ Hes Hr) as (_ & _ & _ & Hwf & Hd & Hc).
    destruct (step_ok t1 e Hwf Hd He) as (t' & r' & Hs' & _ & _ & _ & _ & Hrep).
    rewrite Hs in Hs'. injection Hs' as <- <-. unfold escalations in *.
    destruct r as [tr|]; cbn [opt_list step_reports] in *.
    + destruct Hrep as (o & -> & Ho).
      pose proof (outcome_effect _ _ _ _ Ho) as (_ & _ & (_ & Hts & _ & _ & Hnew & _) & _
        & Hg & _ & Hle' & _).
      rewrite List.filter_app. cbn [List.filter]. rewrite Hle', Hg.
      destruct (is_escalation tr) eqn:Hesc.
      * rewrite last_snoc. unfold is_escalation in Hesc. boolify.
        rewrite Hnew in Hesc. split.
        -- apply chained_snoc; [done|]. intros y Hy. unfold spaced.
           rewrite Hy in Hle. rewrite <- Hc.
           eapply outcome_cooldown; [done| |done].
           unfold is_escalation. rewrite Hnew. by rewrite bool_decide_true.
        -- rewrite Hesc, <- Hts. done.
      * rewrite app_nil_r. unfold is_escalation in Hesc. boolify.
        rewrite Hnew in Hesc. split; [done|]. by rewrite decide_False.
    + destruct Hrep as (_ & _ & ->). by rewrite app_nil_r.
Qed.

(** ** A sustained signal commits *)

(** The samples follow each other in time order and within [sample_timeout]. *)
Definition steady (d : timedelta) (o o' : Obs F) : Prop := 0 <= o_ts o' - o_ts o <= d.

(** [t] has accumulated the samples [os] since [t0] without committing. *)
Definition pending t0 (os : list (Obs F)) t : Prop :=
  wf t /\ regime t = regime t0 /\ config t = config t0 /\
  last_escalation t = last_escalation t0 /\
  match os with
  | [] => t = t0
  | first :: _ =>
      candidate t = Some (flip (regime t0)) /\
      Z.of_nat (length os) <= candidate_samples t /\
      last_sample_ts t = o_ts <$> last os /\
      exists since, candidate_since t = Some since /\ since <= o_ts first
  end.

Lemma pending_snoc t0 os t o z :
  pending t0 os t ->
  observed o z -> chained (steady (sample_timeout (config t0))) (os ++ [o]) ->
  (forall since, candidate t0 = Some (flip (regime t0)) -> candidate_since t0 = Some since ->
     forall first, head (os ++ [o]) = Some first -> since <= o_ts first) ->
  pending t0 (os ++ [o]) (advance (observe_at t (o_ts o)) (flip (regime t0)) (o_ts o)).
Proof.
  intros (Hwf & Hr & Hc & Hle & Hm) Hz Hch Hpre.
  apply (observe_at_wf _ (o_ts o)) in Hwf as Hwf1.
  pose proof (observe_at_fields t (o_ts o)) as (Hr1 & Hc1 & _ & _ & _ & Hl1 & Hs1).
  pose proof (advance_fields (observe_at t (o_ts o)) (flip (regime t0)) (o_ts o))
    as (Hr2 & Hc2 & _ & _ & _ & Hl2 & Hs2).
  apply (advance_wf _ (o_ts o)) in Hwf1. rewrite Hr1, Hr in Hwf1.
  unfold pending. rewrite Hr2, Hc2, Hl2, Hs2, Hr1, Hc1, Hl1, Hs1.
  split_and!; try done. rewrite advance_candidate.
  pose proof (observe_at_candidate t (o_ts o)) as Hoc.
  destruct os as [|first os].
  - subst t. cbn. split_and!; try done.
    + unfold wf in Hwf1. rewrite advance_candidate in Hwf1. apply Hwf1.
    + unfold advance. case_decide as Hcd; cbn; [|eauto with lia].
      destruct (sample_gap t0 (o_ts o)); [congruence|].
      destruct Hoc as (Hoc & -> & _). unfold wf in Hwf. rewrite Hoc in Hcd. rewrite Hcd in Hwf.
      destruct Hwf as (_ & [since Hsi] & _). exists since. split; [done|].
      by eapply (Hpre since).
  - apply chained_snoc_inv in Hch as [_ Hch].
    destruct Hm as (Hcd & Hn & Hls & since & Hsi & Hle').
    assert (sample_gap t (o_ts o) = false) as Hg.
    { unfold sample_gap. rewrite Hls. destruct (last (first :: os)) as [y|] eqn:Hy; [|done].
      cbn. pose proof (Hch _ eq_refl) as [_ ?]. apply Z.ltb_ge. rewrite Hc. lia. }
    rewrite Hg in Hoc. destruct Hoc as (Hoc & Hosi & Hon).
    unfold advance. rewrite Hoc, Hcd. case_decide; [|done].
    cbn [candidate_samples candidate_since set_candidate]. rewrite Hon, Hosi.
    cbn [app]. split_and!; [done| | |eauto].
    + rewrite app_comm_cons, length_app. cbn [length] in *. lia.
    + by rewrite app_comm_cons, last_snoc.
Qed.

Definition first_transition_flips t (trs : list (RegimeTransition F)) : Prop :=
  exists tr rest, trs = tr :: rest /\
    tr_old_regime tr = regime t /\ tr_new_regime tr = flip (regime t).

Definition not_after_first t (os : list (Obs F)) : Prop :=
  forall since first, candidate_since t = Some since -> head os = Some first ->
    since <= o_ts first.

Lemma sustained_run t os t' trs :
  wf t -> Forall (qualifies (config t) (flip (regime t))) os ->
  chained (steady (sample_timeout (config t))) os -> not_after_first t os ->
  run t (EUpdate <$> os) = Ok (t', trs) ->
  first_transition_flips t trs \/
  trs = [] /\ pending t os t' /\
  forall final, last os = Some final ->
    confirmed t' (flip (regime t)) (o_ts final) = false.
Proof.
  intros Hwf Hall Hch Hpre. revert t' trs.
  induction os as [|o os IH] using rev_ind; intros t' trs Hr.
  - injection Hr as <- <-. right. by split_and!.
  - apply Forall_app in Hall as [Hall Hq]. rewrite Forall_singleton in Hq.
    pose proof Hch as [Hch' _]%chained_snoc_inv.
    rewrite fmap_app in Hr. apply run_snoc in Hr as (t1 & trs1 & r & Hr & Hs & ->).
    destruct (IH Hall Hch') with (t' := t1) (trs := trs1)
      as [(tr & rest & -> & ? & ?)|(-> & Hp & _)]; [|done| |].
    + intros since first Hsi Hh. apply Hpre; [done|]. by destruct os.
    + left. by eexists tr, _.
    + pose proof Hp as (Hwf1 & Hr1 & Hc1 & _). destruct Hq as (z & Hz & Hq).
      assert (target_regime t1 z = flip (regime t1)) as Htg.
      { apply (target_qualifies _ o); [done|]. exists z. by rewrite Hr1, Hc1. }
      pose proof (pending_snoc t os t1 o z Hp Hz Hch) as Hp'.
      cbn in Hs. apply update_cases in Hs. cbn [app].
      inversion Hs as [? Hu|? ? ? Hu|z' Hz' Htg'|z' t2 Hz' Htg' Ht2 Hcf
        |z' t2 ? Hz' Htg' Ht2 Hcf Hrep]; subst r.
      * destruct Hz as [Ha Hoz], Hu as [Hu|Hu]; congruence.
      * destruct Hz as [Ha Hoz], Hu as [Hu|Hu]; congruence.
      * destruct Hz as [_ Hoz], Hz' as [_ Hoz']. simplify_eq.
        rewrite Htg in Htg'. by destruct (flip_neq (regime t1)).
      * right. subst. rewrite Hr1 in *. split_and!; [done| |].
        -- apply Hp'. intros since _ Hsi first Hh. by apply Hpre.
        -- intros final. rewrite last_snoc. by intros [= <-].
      * left. destruct Hrep as (_ & _ & _ & Ho & Hn & _). rewrite Hr1 in *.
        by eexists _, [].
Qed.

Lemma run_updates_total t os :
  wf t -> exists t' trs, run t (EUpdate <$> os) = Ok (t', trs).
Proof.
  revert t. induction os as [|o os IH]; intros t Hwf; [by exists t, []|]. cbn.
  destruct (update_total t o Hwf) as (t1 & r & Hu). rewrite Hu. cbn.
  destruct (IH t1) as (t2 & trs & ->); [|by eauto].
  eapply outcome_wf; [done|]. by apply update_cases in Hu.
Qed.

Lemma pending_confirmed t os t' first final :
  pending t os t' -> head os = Some first -> last os = Some final ->
  min_confirm_samples (config t) <= Z.of_nat (length os) ->
  confirm_for (config t) <= o_ts final - o_ts first ->
  cooling_down t (flip (regime t)) (o_ts final) = false ->
  confirmed t' (flip (regime t)) (o_ts final) = true.
Proof.
  intros (_ & _ & Hc & Hle & Hm) Hh Hl Hn Hf Hcd.
  destruct os as [|o os]; [done|]. injection Hh as ->.
  destruct Hm as (_ & Hcount & _ & since & Hsi & Hbefore).
  unfold confirmed. rewrite Hsi, Hc.
  unfold cooling_down in *. rewrite Hle, Hc, Hcd.
  rewrite !andb_true_iff, !Z.leb_le. split_and!; [lia|lia|done].
Qed.

(** ** Unobserved stretches *)

(** The transitions an unobserved stretch beginning at [since] emits while the
    trigger is STRESSED: one, at the first sample that completes the timeout. *)
Definition lost_at (d : timedelta) (since : datetime) (os : list (Obs F)) : option (Obs F) :=
  List.find (fun o => d <=? o_ts o - since) os.

Lemma held_run_normal t os t' trs :
  regime t = NORMAL -> Forall unobserved os -> run t (EUpdate <$> os) = Ok (t', trs) ->
  trs = [] /\ regime t' = NORMAL /\ seq t' = seq t.
Proof.
  intros Hg Hall. revert t Hg trs.
  induction Hall as [|o os Hu Hall IH]; intros t Hg trs Hr; [by injection Hr as <- <-|].
  cbn in Hr. apply bind_ok in Hr as ([t1 r] & Hs & Hr).
  apply bind_ok in Hr as ([t2 trs2] & Hr & [= <- <-]). apply update_cases in Hs.
  inversion Hs as [? Hu' |? ? ? Hu' ? HS|z [Ha Hz]|z ? [Ha Hz]|z ? ? [Ha Hz]]; subst;
    try (destruct Hu; congruence); try congruence.
  eapply IH in Hr as (-> & -> & ->); [|done]. done.
Qed.

Lemma held_run_stressed t os t' trs since :
  regime t = STRESSED -> unobserved_since t = Some since -> Forall unobserved os ->
  run t (EUpdate <$> os) = Ok (t', trs) ->
  match lost_at (observation_timeout (config t)) since os with
  | None => trs = [] /\ regime t' = STRESSED
  | Some o => exists tr, trs = [tr] /\ reports t tr OBSERVATION_LOST (o_ts o)
              /\ regime t' = NORMAL
  end.
Proof.
  intros Hg Hs0 Hall. revert t Hg Hs0 trs.
  induction Hall as [|o os Hu Hall IH]; intros t Hg Hs0 trs Hr; [by injection Hr as <- <-|].
  cbn in Hr. apply bind_ok in Hr as ([t1 r] & Hs & Hr).
  apply bind_ok in Hr as ([t2 trs2] & Hr & [= <- <-]). apply update_cases in Hs.
  inversion Hs as [? Hu' Hd Hto|? ? ? Hu' Hd HS Hto Ht Hrep|z [Ha Hz]|z ? [Ha Hz]
    |z ? ? [Ha Hz]]; subst r; try (destruct Hu; congruence);
    rewrite Hs0 in Hd; cbn in Hd; subst since0; cbn [lost_at List.find].
  - specialize (Hto Hg). rewrite (proj2 (Z.leb_gt _ _)) by done. subst t1. cbn [opt_list app].
    by apply IH in Hr.
  - rewrite (proj2 (Z.leb_le _ _)) by done. subst.
    eapply held_run_normal in Hr as (-> & -> & _); [|done..]. by exists tr.
Qed.

(** ** Failover *)

(** Two triggers that no input can tell apart: they differ at most in the text
    of the gate and, while nothing is being confirmed, in the time of the last
    evaluated sample. *)
Definition sim t u : Prop :=
  exists why l, u = set_observation t (unobserved_since t) why l /\
    (candidate t = None \/ l = last_sample_ts t).

Lemma sim_refl t : sim t t.
Proof. exists (gate_reason t), (last_sample_ts t). split; [by destruct t|by right]. Qed.

Definition sim_result (a b : result (SchmittTrigger F * option (RegimeTransition F))) : Prop :=
  match a, b with
  | Ok (t', r), Ok (u', r') => r = r' /\ sim t' u'
  | Raise e, Raise e' => e = e'
  | _, _ => False
  end.

Lemma sim_result_refl a : sim_result a a.
Proof. destruct a as [[t r]|e]; cbn; [|done]. eauto using sim_refl. Qed.

Lemma sim_hold t u ts why : sim t u -> sim_result (hold t ts why) (hold u ts why).
Proof.
  intros (w & l & -> & Hl). unfold hold, commit. cbn.
  destruct (_ && _)%bool eqn:Hb; cbn; [boolify; case_decide; [congruence|]|]; cbn;
    (split; [done|]); eexists _, _; (split; [reflexivity|by left]).
Qed.

(** Once a sample is evaluated nothing distinguishes the two any more. *)
Lemma sim_observe t u target ts :
  sim t u ->
  advance (observe_at u ts) target ts = advance (observe_at t ts) target ts /\
  reset_candidate (observe_at u ts) = reset_candidate (observe_at t ts).
Proof.
  intros (w & l & -> & [Hl| ->]); unfold observe_at, sample_gap; cbn.
  - destruct (match l with Some _ => _ | None => _ end),
      (match last_sample_ts t with Some _ => _ | None => _ end);
      unfold advance; cbn; rewrite ?Hl; split; try done; repeat case_decide; done.
  - by destruct (match last_sample_ts t with Some _ => _ | None => _ end).
Qed.

Lemma sim_update t u o :
  sim t u -> sim_result (update_obs t o) (update_obs u o).
Proof.
  intros Hs. unfold update_obs, update.
  destruct (o_armed o); [|by apply sim_hold].
  destruct (o_z o) as [z|]; [|by apply sim_hold].
  pose proof (observe_at_fields t (o_ts o)) as (Hr & Hc & _).
  pose proof (observe_at_fields u (o_ts o)) as (Hr' & Hc' & _).
  assert (regime u = regime t /\ config u = config t) as [Hru Hcu]
    by (by destruct Hs as (w & l & -> & _)).
  rewrite (target_regime_cong (observe_at t (o_ts o)) (observe_at u (o_ts o)) z)
    by congruence.
  set (target := target_regime (observe_at t (o_ts o)) z).
  destruct (sim_observe t u target (o_ts o) Hs) as [Ha Hq].
  unfold accumulate. rewrite Hr, Hr', Hru, Ha, Hq.
  case_decide; apply sim_result_refl.
Qed.

Lemma sim_step t u e : sim t u -> sim_result (step t e) (step u e).
Proof.
  intros Hs. destruct e as [o| |]; cbn.
  - by apply sim_update.
  - destruct Hs as (w & l & -> & Hl). split; [done|]. by exists w, l.
  - destruct Hs as (w & l & -> & Hl). apply sim_result_refl.
Qed.

(** The transitions of a run, or the exception that ended it. *)
Definition transitions t es : result (list (RegimeTransition F)) := snd <$> run t es.

Lemma transitions_cons t e es :
  transitions t (e :: es) =
  ('(t1, r) ← step t e; trs ← transitions t1 es; Ok (opt_list r ++ trs)).
Proof.
  unfold transitions. cbn. destruct (step t e) as [[t1 r]|]; [|done]. cbn.
  by destruct (run t1 es) as [[t2 trs]|].
Qed.

Lemma sim_transitions t u es : sim t u -> transitions t es = transitions u es.
Proof.
  revert t u. induction es as [|e es IH]; intros t u Hs; [done|].
  rewrite !transitions_cons. pose proof (sim_step t u e Hs) as Hr.
  destruct (step t e) as [[t1 r]|], (step u e) as [[u1 r']|]; cbn in *; try done.
  - destruct Hr as [<- Hs1]. by rewrite (IH t1 u1 Hs1).
  - congruence.
Qed.
(** What [restore] builds is such a trigger, when nothing is in flight. *)
Lemma cold_transitions t :
  wf t -> armed t = true -> candidate t = None ->
  forall es, transitions t es = transitions (cold t) es.
Proof.
  intros Hwf Ha Hc es. apply sim_transitions. unfold armed in Ha. boolify.
  unfold wf in Hwf. rewrite Hc in Hwf. destruct Hwf as [Hs Hn].
  exists ""%string, None. split; [|by left]. unfold cold, SchmittTrigger_new. cbn.
  destruct t. cbn in *. by subst.
Qed.
End TriggerFacts.

(* ------------------------------------------------------------------ *)
(** ** Properties *)

Section TriggerProperties.
Context {F : Type} `{PyFloat F} `{IsoFormat}.

(** C1.  The alternation invariant.  Whatever a trigger is fed - evaluated or gated
    samples, thaw notices, failovers through the snapshot - no step raises, the
    committed transitions alternate NORMAL -> STRESSED -> NORMAL, their [seq]
    counts 1, 2, 3, ... without a hole, and the machine's regime and counter
    agree with the log. *)
Theorem transitions_alternate sym (c : TriggerConfig F) (es : list (Event F)) :
  Forall event_in_range es ->
  exists t trs, run (SchmittTrigger_new sym c) es = Ok (t, trs) /\
    alternating NORMAL 0 trs /\ seq t = Z.of_nat (length trs) /\
    regime t = (if Nat.even (length trs) then NORMAL else STRESSED).
Proof.
  intros Hes. destruct (run_total (SchmittTrigger_new sym c) es) as (t & trs & Hr & _);
    [done|done|done|].
  exists t, trs. pose proof (run_alternating _ _ _ _ _ Hes Hr). tauto.
Qed.

(** C2.  No commit on noise.  A transition that is not a lost observation rests
    on a confirmed run: the samples just fed to the trigger end with at least
    [min_confirm_samples] consecutive evaluated samples, every one beyond the
    threshold of the new regime, no two further apart than [sample_timeout], and
    spanning at least [confirm_for].  The same holds in either direction. *)
Theorem transitions_confirmed sym (c : TriggerConfig F) es t trs o t' tr :
  run (SchmittTrigger_new sym c) es = Ok (t, trs) ->
  update_obs t o = Ok (t', Some tr) -> tr_cause tr <> OBSERVATION_LOST ->
  exists ev, ev `suffix_of` (obs_of es ++ [o]) /\ confirmed_by c (tr_new_regime tr) ev.
Proof.
  intros Hr Hu Hcause. apply run_evidence in Hr as [Hev <-].
  apply update_cases in Hu. inversion Hu as [|since t1 ? ? ? ? ? ? Hrep| | |z t1 ? Hz Htg Ht1 Hcf Hrep];
    subst.
  - by destruct Hrep as (_ & _ & _ & _ & _ & ?).
  - destruct Hrep as (_ & _ & _ & _ & -> & _).
    destruct (observe_at_fields t (o_ts o)) as (_ & Hc1 & _ & _ & _ & _ & Hl1).
    destruct (advance_fields (observe_at t (o_ts o)) (flip (regime t)) (o_ts o))
      as (_ & Hc2 & _ & _ & _ & _ & Hl2).
    rewrite <- Hc1, <- Hc2. eapply evidence_confirmed; eauto using advance_evidence.
    + apply advance_candidate.
    + congruence.
Qed.

(** Escalations are rate limited: two successive escalations of a run, with
    any number of clears and failovers between them, are at least [cooldown]
    apart. *)
Theorem escalations_spaced sym (c : TriggerConfig F) es t trs :
  Forall event_in_range es -> run (SchmittTrigger_new sym c) es = Ok (t, trs) ->
  chained (spaced (cooldown c)) (escalations trs).
Proof. intros Hes Hr. by apply (run_spaced _ _ _ _ _ Hes Hr). Qed.

(** C4.  A sustained signal does commit.  From any well-formed state, feeding
    enough samples that all ask for the other regime, in time order, none more
    than [sample_timeout] after the previous one, spanning [confirm_for], and
    outside the escalation cooldown by the last of them, commits that regime: the
    run does not raise and its first transition leaves the current regime. *)
Theorem sustained_signal_commits (t : SchmittTrigger F) os first final :
  wf t -> Forall (qualifies (config t) (flip (regime t))) os ->
  chained (steady (sample_timeout (config t))) os -> not_after_first t os ->
  head os = Some first -> last os = Some final ->
  min_confirm_samples (config t) <= Z.of_nat (length os) ->
  confirm_for (config t) <= o_ts final - o_ts first ->
  cooling_down t (flip (regime t)) (o_ts final) = false ->
  exists t' trs, run t (EUpdate <$> os) = Ok (t', trs) /\ first_transition_flips t trs.
Proof.
  intros Hwf Hall Hch Hpre Hh Hl Hn Hf Hcd.
  destruct (run_updates_total t os Hwf) as (t' & trs & Hr). exists t', trs. split; [done|].
  destruct (sustained_run _ _ _ _ Hwf Hall Hch Hpre Hr) as [?|(_ & Hp & Hcf)]; [done|].
  specialize (Hcf _ Hl).
  by rewrite (pending_confirmed _ _ _ _ _ Hp Hh Hl Hn Hf Hcd) in Hcf.
Qed.

(**  Losing sight of the market is neither calm nor stress.  Over a stretch of
    samples that cannot be evaluated (gated, or without a z-score) a NORMAL
    trigger emits nothing; a STRESSED one keeps its regime until the first sample
    [observation_timeout] after the stretch began, where it emits exactly one
    transition to NORMAL, caused by OBSERVATION_LOST and nothing else. *)
Theorem unobserved_stretch (t : SchmittTrigger F) o os t' trs :
  armed t = true -> Forall unobserved (o :: os) -> 0 < observation_timeout (config t) ->
  run t (EUpdate <$> (o :: os)) = Ok (t', trs) ->
  match regime t, lost_at (observation_timeout (config t)) (o_ts o) os with
  | STRESSED, Some o' =>
      exists tr, trs = [tr] /\ reports t tr OBSERVATION_LOST (o_ts o') /\ regime t' = NORMAL
  | r, _ => trs = [] /\ regime t' = r
  end.
Proof.
  intros Harm Hall Hto Hr. unfold armed in Harm. boolify.
  destruct (regime t) eqn:Hg.
  - pose proof (held_run_normal _ _ _ _ Hg Hall Hr) as (-> & -> & _). done.
  - apply Forall_cons in Hall as [Hu Hall]. cbn in Hr.
    apply bind_ok in Hr as ([t1 r] & Hs & Hr).
    apply bind_ok in Hr as ([t2 trs2] & Hr & [= <- <-]). apply update_cases in Hs.
    inversion Hs as [? Hu' Hd _|? ? ? Hu' Hd HS Hlate Ht Hrep|z [Ha Hz]|z ? [Ha Hz]
      |z ? ? [Ha Hz]]; subst r; try (destruct Hu; congruence);
      rewrite Harm in Hd; cbn in Hd; subst; [|lia].
    eapply held_run_stressed in Hr; [|done..]. cbn in *.
    by destruct (lost_at _ _ os).
Qed.

(** Failover is transparent.  A snapshot written by a trigger that is armed
    and confirming nothing, restored in another process, reads back without
    error and yields a machine that emits exactly the same transitions on every
    future sequence of events. *)
Theorem failover_transparent (t : SchmittTrigger F) :
  wf t -> dated t -> armed t = true -> candidate t = None ->
  exists u, restore (symbol t) (snapshot t) (config t) = Ok u /\
    forall es, transitions t es = transitions u es.
Proof.
  intros Hwf Hd Ha Hc. exists (cold t).
  split; [by apply restore_cold|by apply cold_transitions].
Qed.
End TriggerProperties.

(* ------------------------------------------------------------------ *)
(** ** Concrete runs *)

#[local] Existing Instance plain64.
#[local] Existing Instance iso_utc.

(** A sample [m] minutes into 2025-10-12, evaluated at the z-score [z] (if any). *)
Definition demo_obs (m : Z) (z : option Z) : Obs spec_float := {|
  o_z := f_of_Z <$> z; o_sigma := f_one; o_ts := 1760227200 * MICRO + minutes m;
  o_armed := true; o_why := ""%string |}.

(** A gated sample. *)
Definition demo_gated (m : Z) : Obs spec_float := {|
  o_z := None; o_sigma := f_one; o_ts := 1760227200 * MICRO + minutes m;
  o_armed := false; o_why := "rollover"%string |}.

(** Quiet, a confirmed escalation, a thaw, a failover, a clear. *)
Definition demo_events : list (Event spec_float) :=
  [EUpdate (demo_obs 0 (Some 1)); EUpdate (demo_obs 1 (Some 4));
   EUpdate (demo_obs 3 (Some 5)); EUpdate (demo_obs 4 (Some 4));
   EThaw; EFailover;
   EUpdate (demo_obs 5 (Some 1)); EUpdate (demo_obs 7 (Some 0));
   EUpdate (demo_obs 9 (Some 1))].

Definition demo_start : SchmittTrigger spec_float :=
  SchmittTrigger_new "eurusd" TriggerConfig_default.

Definition demo_stressed : SchmittTrigger spec_float :=
  set_regime demo_start STRESSED 1 (Some (1760227200 * MICRO)) None false.

Lemma demo_events_in_range : Forall event_in_range demo_events.
Proof. repeat constructor; vm_compute; congruence. Qed.

Lemma demo_run_not_wrong :
  fmap length (transitions demo_start demo_events) = Ok 2%nat.
Proof. vm_compute. reflexivity. Qed.

Lemma transitions_alternate_witness :
  exists t trs, run demo_start demo_events = Ok (t, trs) /\
    alternating NORMAL 0 trs /\ seq t = Z.of_nat (length trs) /\
    regime t = (if Nat.even (length trs) then NORMAL else STRESSED).
Proof. apply transitions_alternate, demo_events_in_range. Defined.

(** The trigger after the first [n] events. *)
Definition demo_after (n : nat) : SchmittTrigger spec_float :=
  match run demo_start (take n demo_events) with Ok (t, _) => t | Raise _ => demo_start end.

Lemma transitions_confirmed_witness :
  match update_obs (demo_after 3) (demo_obs 4 (Some 4)) with
  | Ok (_, Some tr) => exists ev,
      ev `suffix_of` (obs_of (take 3 demo_events) ++ [demo_obs 4 (Some 4)]) /\
      confirmed_by TriggerConfig_default (tr_new_regime tr) ev
  | _ => False
  end.
Proof.
  destruct (update_obs (demo_after 3) _) as [[t' [tr|]]|] eqn:E;
    [|by vm_compute in E..].
  refine (transitions_confirmed "eurusd" _ _ _ [] _ _ _ _ E _); [by vm_compute|].
  vm_compute in E. by injection E as <- <-.
Defined.

Lemma escalations_spaced_witness :
  match run demo_start demo_events with
  | Ok (_, trs) => length (escalations trs) = 1%nat /\
      chained (spaced (cooldown TriggerConfig_default)) (escalations trs)
  | Raise _ => False
  end.
Proof.
  destruct (run demo_start demo_events) as [[t trs]|] eqn:E; [|by vm_compute in E].
  split; [vm_compute in E; by injection E as <- <-|].
  exact (escalations_spaced _ _ _ _ _ demo_events_in_range E).
Defined.

Lemma demo_chained d os :
  forallb (fun p => let '(o, o') := p in
      (0 <=? o_ts o' - o_ts o) && (o_ts o' - o_ts o <=? d)) (zip os (tail os)) = true ->
  chained (@steady spec_float d) os.
Proof.
  intros H i a b Ha Hb. rewrite forallb_forall in H.
  assert (In (a, b) (zip os (tail os))) as Hin.
  { apply list_elem_of_In, list_elem_of_lookup. exists i. apply lookup_zip_Some.
    split; [done|]. by rewrite lookup_tail. }
  specialize (H _ Hin). cbn in H. boolify. unfold steady. lia.
Qed.

Lemma sustained_signal_commits_witness :
  exists t' trs,
    run demo_start (EUpdate <$> [demo_obs 0 (Some 3); demo_obs 2 (Some 4); demo_obs 3 (Some 9)])
      = Ok (t', trs) /\ first_transition_flips demo_start trs.
Proof.
  apply (sustained_signal_commits demo_start _ (demo_obs 0 (Some 3)) (demo_obs 3 (Some 9))).
  - by split.
  - rewrite !Forall_cons, Forall_nil. split_and!; [..|done];
      (eexists; split; [split; reflexivity|vm_compute; reflexivity]).
  - by apply demo_chained.
  - by intros ? ?.
  - reflexivity.
  - reflexivity.
  - by vm_compute.
  - by vm_compute.
  - reflexivity.
Defined.

Lemma unobserved_stretch_witness :
  match run demo_stressed (EUpdate <$> [demo_gated 0; demo_gated 20; demo_gated 31]) with
  | Ok (t', trs) => exists tr, trs = [tr] /\
      reports demo_stressed tr OBSERVATION_LOST (o_ts (demo_gated 31)) /\ regime t' = NORMAL
  | Raise _ => False
  end.
Proof.
  destruct (run demo_stressed _) as [[t' trs]|] eqn:E; [|by vm_compute in E].
  refine (unobserved_stretch demo_stressed _ _ _ _ _ _ _ E); [done| |done].
  repeat constructor.
Defined.

Lemma failover_transparent_witness :
  exists u, restore "eurusd" (snapshot demo_stressed) TriggerConfig_default = Ok u /\
    forall es, transitions demo_stressed es = transitions u es.
Proof.
  apply (failover_transparent demo_stressed); try done.
  split; [|by intros d [=]]. intros d [= <-]. vm_compute. split; congruence.
Defined.

(** A sample timeout shorter than the confirmation window does not prevent a
    commit: the gap is measured between consecutive samples. *)
Definition demo_short_timeout : TriggerConfig spec_float := {|
  enter_z := f_of_Z 3; exit_z := f_of_Z 1; min_confirm_samples := 3;
  confirm_for := minutes 3; sample_timeout := minutes 2; cooldown := minutes 5;
  thaw_after := hours 6; observation_timeout := minutes 30 |}.

Lemma short_timeout_refused :
  TriggerConfig_post_init demo_short_timeout = Raise ValueError.
Proof. by vm_compute. Qed.

Lemma short_timeout_would_commit :
  fmap length (transitions (SchmittTrigger_new "eurusd" demo_short_timeout)
    (EUpdate <$> [demo_obs 0 (Some 3); demo_obs 2 (Some 3); demo_obs 4 (Some 3)])) = Ok 1%nat.
Proof. vm_compute. reflexivity. Qed.
