(* ===== verification/Volatility.v ===== *)
(** * Streaming moments ([fx_core/volatility/welford.py] and [ewma.py])

    Welford's accumulator, Chan's parallel merge, the rehydration from additive
    sums, and the RiskMetrics recurrence.  The accumulator's divisors are the
    sample counts its own operations produce, positive where the code divides, so
    the divisions by a count are plain [f_div].

    Over exact arithmetic the three ways of building an accumulator - one sample at
    a time, by merging, from stored sums - all equal the textbook two-pass moments
    of the samples ([two_pass]). *)
From S2P Require Import Prelude PyFloat Binary64.
From Stdlib Require Import SpecFloat QArith Qcanon.

Local Open Scope Z_scope.

Section Moments.
Context {F : Type} `{PyFloat F}.
Local Open Scope py_scope.

(** ** [Welford] *)

Record Welford := { w_n : Z; w_mean : F; w_m2 : F }.

Definition Welford_new : Welford := {| w_n := 0; w_mean := f_zero; w_m2 := f_zero |}.

Definition welford_update (w : Welford) (x : F) : Welford :=
  let n := (w_n w + 1)%Z in
  let delta := x - w_mean w in
  let mean := w_mean w + delta / f_of_Z n in
  {| w_n := n; w_mean := mean; w_m2 := w_m2 w + delta * (x - mean) |}.

Definition update_many (w : Welford) (xs : list F) : Welford :=
  fold_left welford_update xs w.

Definition variance (w : Welford) : F :=
  if (w_n w <? 2)%Z then f_zero
  else py_max (w_m2 w / f_of_Z (w_n w - 1)) f_zero.

Definition population_variance (w : Welford) : F :=
  if (w_n w <? 1)%Z then f_zero else py_max (w_m2 w / f_of_Z (w_n w)) f_zero.

Definition stdev (w : Welford) : result F := py_sqrt (variance w).

Definition welford_merge (a b : Welford) : Welford :=
  if (w_n b =? 0)%Z then a
  else if (w_n a =? 0)%Z then b
  else
    let n := (w_n a + w_n b)%Z in
    let delta := w_mean b - w_mean a in
    {| w_n := n;
       w_mean := w_mean a + delta * (f_of_Z (w_n b) / f_of_Z n);
       w_m2 := w_m2 a + w_m2 b
               + delta * delta * f_of_Z (w_n a) * f_of_Z (w_n b) / f_of_Z n |}.

Definition from_sums (n : Z) (total total_sq : F) : Welford :=
  if (n <? 1)%Z then Welford_new
  else
    let mean := total / f_of_Z n in
    {| w_n := n; w_mean := mean;
       w_m2 := py_max (total_sq - f_of_Z n * mean * mean) f_zero |}.

Definition welford_reset (_ : Welford) : Welford := Welford_new.

(** ** [EwmaVariance] *)

Definition lambda_for_halflife (halflife_bars : F) : result F :=
  if halflife_bars <=? f_zero then Raise ValueError
  else
    l2 ← py_log (f_of_Z 2);
    q ← py_div (f_zero - l2) halflife_bars;
    py_exp q.

Record EwmaVariance := { lam : F; ew_variance : F; ew_n : Z }.

Definition EwmaVariance_new (l : F) : result EwmaVariance :=
  _ ← guard_ ((f_zero <? l) && (l <? f_one))%bool ValueError;
  Ok {| lam := l; ew_variance := f_zero; ew_n := 0 |}.

Definition lam_default : F := f_ratio 97 100.

(** The new state and the value [update] returns. *)
Definition ewma_update (e : EwmaVariance) (ret : F) : EwmaVariance * F :=
  if negb (f_isfinite ret) then (e, ew_variance e)
  else
    let v :=
      if (ew_n e =? 0)%Z then ret * ret
      else lam e * ew_variance e + (f_one - lam e) * ret * ret in
    ({| lam := lam e; ew_variance := v; ew_n := (ew_n e + 1)%Z |}, v).

Definition ewma_sigma (e : EwmaVariance) : result F :=
  py_sqrt (py_max (ew_variance e) f_zero).

Definition effective_memory (e : EwmaVariance) : result F :=
  py_div f_one (f_one - lam e).

Definition ewma_reset (e : EwmaVariance) : EwmaVariance :=
  {| lam := lam e; ew_variance := f_zero; ew_n := 0 |}.

Definition ewma_run (e : EwmaVariance) (rs : list F) : EwmaVariance :=
  fold_left (fun e r => fst (ewma_update e r)) rs e.
End Moments.

Arguments Welford F : clear implicits.
Arguments EwmaVariance F : clear implicits.

(* ------------------------------------------------------------------ *)
(** ** The textbook moments *)

#[local] Arguments Qcplus : simpl never.
#[local] Arguments Qcminus : simpl never.
#[local] Arguments Qcmult : simpl never.
#[local] Arguments Qcdiv : simpl never.
#[local] Arguments Q2Qc : simpl never.

Section TwoPass.
Context (sq lg ex : Qc -> Qc).
#[local] Hint Extern 0 (PyFloat Qc) => exact (exact_inst sq lg ex) : typeclass_instances.
Local Open Scope Qc_scope.
Implicit Types (xs ys : list Qc) (w : Welford Qc).

Definition qsum xs : Qc := foldr Qcplus 0 xs.
Definition qsum_sq xs : Qc := qsum ((fun x => x * x) <$> xs).
Definition qlen xs : Qc := f_of_Z (Z.of_nat (length xs)).

(** Mean and squared deviations from it, as a textbook computes them. *)
Definition two_pass xs : Welford Qc :=
  let mean := qsum xs / qlen xs in
  {| w_n := Z.of_nat (length xs); w_mean := mean;
     w_m2 := qsum ((fun x => (x - mean) * (x - mean)) <$> xs) |}.

(** The same, from the sums alone. *)
Definition of_sums (n : Z) (s q : Qc) : Welford Qc :=
  {| w_n := n; w_mean := s / f_of_Z n; w_m2 := q - s * s / f_of_Z n |}.

Lemma qsum_cons x xs : qsum (x :: xs) = x + qsum xs.
Proof. done. Qed.

Lemma qsum_app xs ys : qsum (xs ++ ys) = qsum xs + qsum ys.
Proof.
  induction xs as [|x xs IH]; [by rewrite Qcplus_0_l|].
  cbn [app]. rewrite !qsum_cons, IH. ring.
Qed.

Lemma qsum_singleton x : qsum [x] = x.
Proof. rewrite qsum_cons. change (qsum []) with 0. ring. Qed.

Lemma fold_qsum xs s : fold_left Qcplus xs s = s + qsum xs.
Proof.
  revert s. induction xs as [|x xs IH]; intros s; cbn [fold_left].
  - change (qsum []) with 0. ring.
  - rewrite IH, qsum_cons. ring.
Qed.

Lemma f_sum_qsum xs : f_sum xs = qsum xs.
Proof. rewrite exact_f_sum, fold_qsum. ring. Qed.

Lemma qsum_sq_app xs ys : qsum_sq (xs ++ ys) = qsum_sq xs + qsum_sq ys.
Proof. unfold qsum_sq. by rewrite fmap_app, qsum_app. Qed.

Lemma of_Z_0 : f_of_Z 0 = 0.
Proof. done. Qed.

Lemma qlen_app xs ys : qlen (xs ++ ys) = qlen xs + qlen ys.
Proof. unfold qlen. rewrite length_app, Nat2Z.inj_add. apply exact_of_Z_add. Qed.

Lemma qlen_cons x xs : qlen (x :: xs) = 1 + qlen xs.
Proof. apply (qlen_app [x]). Qed.

Lemma qlen_nonzero xs : xs <> [] -> qlen xs <> 0.
Proof. intros Hxs. apply exact_of_Z_nonzero. destruct xs; cbn; [done|lia]. Qed.

(** Squared deviations from any centre, in terms of the sums. *)
Lemma deviations m xs :
  qsum ((fun x => (x - m) * (x - m)) <$> xs)
  = qsum_sq xs - m * qsum xs - m * qsum xs + qlen xs * m * m.
Proof.
  induction xs as [|x xs IH].
  - unfold qsum_sq. change (qlen []) with 0. cbn [fmap list_fmap].
    change (qsum []) with 0. ring.
  - unfold qsum_sq in *. rewrite qlen_cons, !fmap_cons, !qsum_cons, IH. ring.
Qed.

Lemma two_pass_of_sums xs :
  xs <> [] -> two_pass xs = of_sums (Z.of_nat (length xs)) (qsum xs) (qsum_sq xs).
Proof.
  intros Hxs. unfold two_pass, of_sums. f_equal. rewrite deviations.
  fold (qlen xs). field. by apply qlen_nonzero.
Qed.

Lemma two_pass_nil : two_pass [] = Welford_new.
Proof. unfold two_pass, Welford_new. f_equal; apply Qc_is_canon; reflexivity. Qed.

Lemma of_sums_update n s q x :
  (0 < n)%Z -> welford_update (of_sums n s q) x = of_sums (n + 1) (s + x) (q + x * x).
Proof.
  intros Hn. assert (f_of_Z (n + 1) = f_of_Z n + 1) as Ha
    by exact (exact_of_Z_add sq lg ex n 1).
  assert (f_of_Z n <> 0) by (apply exact_of_Z_nonzero; lia).
  assert (f_of_Z (n + 1) <> 0) as Hne by (apply exact_of_Z_nonzero; lia).
  unfold welford_update, of_sums. cbn [w_n w_mean w_m2].
  change f_add with Qcplus. change f_sub with Qcminus.
  change f_mul with Qcmult. change f_div with Qcdiv.
  rewrite Ha in Hne |- *.
  f_equal; field; auto.
Qed.

Lemma welford_first x : welford_update Welford_new x = two_pass [x].
Proof.
  unfold two_pass, welford_update, Welford_new, qlen. cbn [w_n w_mean w_m2 length].
  assert (f_of_Z 1 <> 0) by (apply exact_of_Z_nonzero; lia).
  change (f_of_Z (0 + 1)) with 1. change (f_of_Z (Z.of_nat 1)) with 1.
  change (@f_zero Qc _) with 0. rewrite qsum_singleton, fmap_cons, fmap_nil, qsum_singleton.
  change f_add with Qcplus. change f_sub with Qcminus.
  change f_mul with Qcmult. change f_div with Qcdiv. f_equal; field; done.
Qed.

Lemma two_pass_snoc xs x : welford_update (two_pass xs) x = two_pass (xs ++ [x]).
Proof.
  destruct (decide (xs = [])) as [->|Hxs].
  - rewrite two_pass_nil. apply welford_first.
  - rewrite !two_pass_of_sums by (done || by destruct xs).
    rewrite of_sums_update by (destruct xs; cbn; [done|lia]).
    rewrite length_app, Nat2Z.inj_add, qsum_app, qsum_sq_app.
    unfold qsum_sq. by rewrite !fmap_cons, !fmap_nil, !qsum_singleton.
Qed.

Lemma update_many_two_pass xs ys :
  update_many (two_pass xs) ys = two_pass (xs ++ ys).
Proof.
  revert xs. induction ys as [|y ys IH]; intros xs; [by rewrite app_nil_r|].
  cbn. rewrite two_pass_snoc. unfold update_many in IH. rewrite IH. by rewrite <- app_assoc.
Qed.

Lemma of_sums_merge n n' s s' q q' :
  (0 < n)%Z -> (0 < n')%Z ->
  welford_merge (of_sums n s q) (of_sums n' s' q') = of_sums (n + n') (s + s') (q + q').
Proof.
  intros Hn Hn'. assert (f_of_Z (n + n') = f_of_Z n + f_of_Z n') as Ha
    by exact (exact_of_Z_add sq lg ex n n').
  assert (f_of_Z n <> 0) by (apply exact_of_Z_nonzero; lia).
  assert (f_of_Z n' <> 0) by (apply exact_of_Z_nonzero; lia).
  assert (f_of_Z (n + n') <> 0) as Hne by (apply exact_of_Z_nonzero; lia).
  unfold welford_merge, of_sums. cbn [w_n w_mean w_m2].
  rewrite !(proj2 (Z.eqb_neq _ _)) by lia.
  change f_add with Qcplus. change f_sub with Qcminus.
  change f_mul with Qcmult. change f_div with Qcdiv.
  rewrite Ha in Hne |- *. f_equal; field; auto.
Qed.

Lemma two_pass_merge xs ys :
  welford_merge (two_pass xs) (two_pass ys) = two_pass (xs ++ ys).
Proof.
  destruct (decide (ys = [])) as [->|Hys]; [by rewrite app_nil_r|].
  assert (w_n (two_pass ys) <> 0)%Z by (destruct ys; cbn; [done|lia]).
  destruct (decide (xs = [])) as [->|Hxs].
  { unfold welford_merge. by rewrite (proj2 (Z.eqb_neq _ _)) by done. }
  rewrite !two_pass_of_sums by (done || by destruct xs).
  rewrite of_sums_merge by (destruct xs, ys; cbn; first [done|lia]).
  by rewrite length_app, Nat2Z.inj_add, qsum_app, qsum_sq_app.
Qed.

Lemma Qc_square_nonneg (x : Qc) : 0 <= x * x.
Proof.
  destruct (Qclt_le_dec x 0) as [Hx|Hx].
  - replace (x * x) with ((- x) * (- x)) by ring.
    apply Qcmult_le_compat_r with (z := - x) (x := 0) (y := - x);
      change 0 with (- 0); apply Qcopp_le_compat; by apply Qclt_le_weak.
  - rewrite <- (Qcmult_0_l x). by apply Qcmult_le_compat_r.
Qed.

Lemma nonneg_add (x y : Qc) : 0 <= x -> 0 <= y -> 0 <= x + y.
Proof.
  intros Hx Hy. rewrite <- (Qcplus_0_l 0) at 1. by apply Qcplus_le_compat.
Qed.

Lemma deviations_nonneg m xs : 0 <= qsum ((fun x => (x - m) * (x - m)) <$> xs).
Proof.
  induction xs as [|x xs IH]; [apply Qcle_refl|].
  rewrite fmap_cons, qsum_cons. apply nonneg_add; [apply Qc_square_nonneg|done].
Qed.

Lemma m2_nonneg xs : 0 <= w_m2 (two_pass xs).
Proof. apply deviations_nonneg. Qed.

Lemma py_max_nonneg (x : Qc) : 0 <= x -> py_max x f_zero = x.
Proof.
  intros Hx. unfold py_max. change (@f_zero Qc _) with 0. cbn.
  unfold Qc_leb. rewrite (proj2 (Qle_bool_iff _ _)) by apply Hx. done.
Qed.

Lemma from_sums_two_pass xs :
  from_sums (Z.of_nat (length xs)) (qsum xs) (qsum_sq xs) = two_pass xs.
Proof.
  destruct (decide (xs = [])) as [->|Hxs]; [by rewrite two_pass_nil|].
  unfold from_sums. rewrite (proj2 (Z.ltb_ge _ _)) by (destruct xs; cbn; [done|lia]).
  rewrite two_pass_of_sums by done. unfold of_sums. cbv zeta.
  replace (f_sub (qsum_sq xs) _)
    with (w_m2 (of_sums (Z.of_nat (length xs)) (qsum xs) (qsum_sq xs))).
  - f_equal. rewrite <- two_pass_of_sums by done. rewrite py_max_nonneg by apply m2_nonneg.
    by rewrite two_pass_of_sums.
  - cbn [of_sums w_m2]. fold (qlen xs). change f_sub with Qcminus.
    change f_mul with Qcmult. change f_div with Qcdiv. field. by apply qlen_nonzero.
Qed.

(** The one-pass accumulator is the two-pass computation: feeding the samples
    one at a time gives exactly their count, their mean and the sum of their
    squared deviations from that mean. *)
Theorem welford_is_two_pass xs : update_many Welford_new xs = two_pass xs.
Proof. rewrite <- two_pass_nil. apply update_many_two_pass. Qed.

(** Merging is concatenation, and the persisted sums lose nothing: two
    accumulators fed separately merge into the one fed with all the samples, and
    an accumulator rehydrated from a bar's stored count, sum and sum of squares is
    the one that saw the samples. *)
Theorem welford_merge_from_sums xs ys :
  welford_merge (update_many Welford_new xs) (update_many Welford_new ys)
    = update_many Welford_new (xs ++ ys) /\
  from_sums (Z.of_nat (length xs)) (qsum xs) (qsum_sq xs) = update_many Welford_new xs.
Proof.
  rewrite <- two_pass_nil, !update_many_two_pass, two_pass_merge, from_sums_two_pass.
  done.
Qed.
End TwoPass.

(* ------------------------------------------------------------------ *)
(** ** The recurrence cannot be poisoned *)

Section Ewma64.
Context (lg ex : spec_float -> spec_float) (pw : spec_float -> spec_float -> spec_float).
#[local] Instance ewma_float : PyFloat spec_float := binary64 lg ex pw.
Implicit Types (e : EwmaVariance spec_float) (rs : list spec_float).

Definition ewma_ok (l : spec_float) e : Prop :=
  lam e = l /\ 0 <= ew_n e /\ sf_nonneg (ew_variance e).

Lemma ewma_update_ok l e r :
  is_weight l -> ewma_ok l e -> ewma_ok l (fst (ewma_update e r)).
Proof.
  intros Hl (Hlam & Hn & Hv). unfold ewma_update.
  destruct (f_isfinite r) eqn:Hr; cbn [negb fst]; [|done].
  split_and!; cbn [lam ew_n ew_variance]; [done|lia|].
  destruct (ew_n e =? 0); [by apply square_nonneg|].
  pose proof Hl as (m & x & El & _)%is_weight_finite.
  apply complement_weight in Hl as [Hc Hf]. subst l.
  apply SFadd_nonneg; [|by apply weighted_square_nonneg].
  rewrite El. by apply SFmul_positive_nonneg.
Qed.

Lemma ewma_run_ok l e rs :
  is_weight l -> ewma_ok l e -> ewma_ok l (ewma_run e rs).
Proof.
  intros Hl. apply fold_left_inv. intros. by apply ewma_update_ok.
Qed.

Lemma ewma_run_count e rs :
  ew_n (ewma_run e rs) = ew_n e + Z.of_nat (length (List.filter f_isfinite rs)).
Proof.
  revert e. induction rs as [|r rs IH]; intros e; cbn; [lia|].
  unfold ewma_run in IH. rewrite IH. unfold ewma_update. cbn.
  destruct (sf_isfinite r); cbn [negb fst ew_n length]; lia.
Qed.

(** C31.  No return can poison the recurrence.  In binary64 arithmetic, whatever
    sequence of returns is fed - NaNs and infinities included - the variance is
    never NaN and never below zero, [sigma] never raises, and exactly the finite
    returns are counted. *)
Theorem ewma_never_poisoned l e0 rs :
  EwmaVariance_new l = Ok e0 -> valid_binary prec64 emax64 l = true ->
  let e := ewma_run e0 rs in
  sf_isnan (ew_variance e) = false /\ f_lt (ew_variance e) f_zero = false /\
  (exists s, ewma_sigma e = Ok s) /\
  ew_n e = Z.of_nat (length (List.filter f_isfinite rs)).
Proof.
  intros Hnew Hv e. unfold EwmaVariance_new in Hnew.
  apply bind_ok in Hnew as ([] & Hu & [= <-]). apply guard_ok in Hu. boolify.
  assert (is_weight l) as Hl by done.
  destruct (ewma_run_ok l {| lam := l; ew_variance := f_zero; ew_n := 0 |} rs Hl) as (_ & _ & Hnn);
    [by split_and!|]. fold e in Hnn.
  assert (f_lt (ew_variance e) f_zero = false) as Hneg by by apply sf_nonneg_not_negative.
  split_and!; [by apply sf_nonneg_not_nan|done| |by apply ewma_run_count].
  unfold ewma_sigma, py_max, py_sqrt. rewrite Hneg. rewrite Hneg. eauto.
Qed.
End Ewma64.

Lemma ewma_never_poisoned_witness :
  let e := ewma_run (F := spec_float) (H := plain64)
    {| lam := lam_default (H := plain64); ew_variance := S754_zero false; ew_n := 0 |}
    [S754_nan; S754_finite true (2 ^ 52) (-70); S754_infinity false; S754_zero true] in
  sf_isnan (ew_variance e) = false /\ SFltb (ew_variance e) (S754_zero false) = false /\
  (exists s, ewma_sigma (H := plain64) e = Ok s) /\ ew_n e = 2.
Proof.
  refine (ewma_never_poisoned _ _ _ (lam_default (H := plain64)) _ _ _ _);
    vm_compute; reflexivity.
Defined.
