(* ===== verification/Models.v ===== *)
(** * Domain values ([fx_core/models.py])

    Ticks, bars and volatility readings, with the validation that guards the
    adapter boundary.  Dataclasses are records; properties are functions. *)
From S2P Require Import Prelude PyFloat.

Local Open Scope Z_scope.

Inductive BarSource := STREAM | BACKFILL | SYNTHETIC.
Inductive Estimator :=
  CLOSE_TO_CLOSE | EWMA | PARKINSON | GARMAN_KLASS | ROGERS_SATCHELL | YANG_ZHANG.

#[export] Instance BarSource_eq_dec : EqDecision BarSource.
Proof. solve_decision. Defined.
#[export] Instance Estimator_eq_dec : EqDecision Estimator.
Proof. solve_decision. Defined.

Definition source_str (s : BarSource) : string :=
  match s with
  | STREAM => "stream"%string
  | BACKFILL => "backfill"%string
  | SYNTHETIC => "synthetic"%string
  end.

Definition source_of_str (s : string) : result BarSource :=
  if String.eqb s "stream" then Ok STREAM
  else if String.eqb s "backfill" then Ok BACKFILL
  else if String.eqb s "synthetic" then Ok SYNTHETIC
  else Raise ValueError.

Lemma source_of_str_str s : source_of_str (source_str s) = Ok s.
Proof. by destruct s. Qed.

Definition SECONDS_PER_TRADING_YEAR : Z := 252 * 24 * 3600.

Section Models.
Context {F : Type} `{PyFloat F}.
Local Open Scope py_scope.

(** ** Ticks *)

(** [ts_aware] is [ts_event.tzinfo is not None]. *)
Record Tick := {
  tick_symbol : string;
  bid : F;
  ask : F;
  ts_event : datetime;
  ts_aware : bool;
  ts_ingest : datetime;
  tick_seq : Z;
}.

Definition MAX_SPREAD_FRACTION : F := f_ratio 5 100.

Definition mid (t : Tick) : F := (bid t + ask t) / f_of_Z 2.
Definition spread (t : Tick) : F := ask t - bid t.
Definition ingest_lag_s (t : Tick) : F := f_ratio (ts_ingest t - ts_event t) MICRO.

Definition validate (t : Tick) : result unit :=
  _ ← guard_ (negb (String.eqb (tick_symbol t) "")) ValueError;
  _ ← guard_ (f_isfinite (bid t) && f_isfinite (ask t)) ValueError;
  _ ← guard_ (negb ((bid t <=? f_zero) || (ask t <=? f_zero))) ValueError;
  _ ← guard_ (negb (ask t <? bid t)) ValueError;
  _ ← guard_ (negb (MAX_SPREAD_FRACTION * mid t <? spread t)) ValueError;
  guard_ (ts_aware t) ValueError.

(** ** Bars *)

Record Bar := {
  bar_symbol : string;
  bucket : datetime;
  open : F;
  high : F;
  low : F;
  close : F;
  tick_count : Z;
  sum_ret : F;
  sum_ret_sq : F;
  source : BarSource;
}.

Definition bar_merge (self other : Bar) : result Bar :=
  if negb (String.eqb (bar_symbol self) (bar_symbol other)) then Raise ValueError
  else
    let '(earlier, later) :=
      if (bucket self <=? bucket other)%Z then (self, other) else (other, self) in
    Ok {|
      bar_symbol := bar_symbol earlier;
      bucket := bucket earlier;
      open := open earlier;
      high := py_max (high self) (high other);
      low := py_min (low self) (low other);
      close := close later;
      tick_count := (tick_count self + tick_count other)%Z;
      sum_ret := sum_ret self + sum_ret other;
      sum_ret_sq := sum_ret_sq self + sum_ret_sq other;
      source :=
        if (bool_decide (source self = BACKFILL) || bool_decide (source other = BACKFILL))%bool
        then BACKFILL else source self;
    |}.

Definition bar_variance (b : Bar) : F :=
  let n := tick_count b in
  if (n <? 2)%Z then f_zero
  else
    let mean := sum_ret b / f_of_Z n in
    let var := (sum_ret_sq b - f_of_Z n * mean * mean) / f_of_Z (n - 1) in
    py_max var f_zero.

Definition realized_vol (b : Bar) : result F := py_sqrt (py_max (sum_ret_sq b) f_zero).

(** ** Readings *)

Definition bars_per_year (bar_seconds : Z) : result F :=
  if (bar_seconds <=? 0)%Z then Raise ValueError
  else Ok (f_ratio SECONDS_PER_TRADING_YEAR bar_seconds).

Record VolSnapshot := {
  vs_symbol : string;
  vs_ts : datetime;
  vs_estimator : Estimator;
  window_s : Z;
  sigma : F;
  sigma_annualized : F;
  sample_count : Z;
  zscore : option F;
}.

(** [build]; [now] is the clock read when no timestamp is given. *)
Definition VolSnapshot_build (sym : string) (est : Estimator) (window : Z) (sg : F)
    (samples bar_seconds : Z) (ts : option datetime) (z : option F) (now : datetime)
    : result VolSnapshot :=
  year ← bars_per_year bar_seconds;
  root ← py_sqrt year;
  Ok {| vs_symbol := sym; vs_ts := default now ts; vs_estimator := est;
        window_s := window; sigma := sg; sigma_annualized := sg * root;
        sample_count := samples; zscore := z |}.
End Models.

Arguments Tick F : clear implicits.
Arguments Bar F : clear implicits.
Arguments VolSnapshot F : clear implicits.
