(* ===== verification/Database.v ===== *)
(** * The worker's tables ([fx_worker/db.py])

    [bars_1m] and [alert_events] as finite maps on their primary keys, and each
    statement of [Database] as the function of them its SQL text denotes.  A
    statement is one transaction: it happens as a whole or, raising, not at all. *)
From S2P Require Import Prelude PyFloat Models.

Local Open Scope Z_scope.

(* ------------------------------------------------------------------ *)
(** ** Stream ids *)

(** A Redis stream id <ms>-<seq>, as [_stream_order] and the SQL
    [string_to_array(id, '-')::bigint[]] read it: pairs in lexicographic order. *)
Abbreviation stream_id := (Z * Z)%type.

Definition id_lt (a b : stream_id) : bool := (a.1 <? b.1) || ((a.1 =? b.1) && (a.2 <? b.2)).

Lemma id_lt_spec a b : id_lt a b = true <-> a.1 < b.1 \/ a.1 = b.1 /\ a.2 < b.2.
Proof. unfold id_lt. rewrite orb_true_iff, andb_true_iff, !Z.ltb_lt, Z.eqb_eq. done. Qed.

Lemma id_lt_trans a b c : id_lt a b = true -> id_lt b c = true -> id_lt a c = true.
Proof. rewrite !id_lt_spec. lia. Qed.

Lemma id_lt_irrefl a : id_lt a a = false.
Proof. apply not_true_iff_false. rewrite id_lt_spec. lia. Qed.

Lemma id_nlt_trans a b c : id_lt b a = false -> id_lt c b = false -> id_lt c a = false.
Proof. rewrite <- !not_true_iff_false, !id_lt_spec. lia. Qed.

Lemma id_lt_nlt a b : id_lt a b = true -> id_lt b a = false.
Proof. rewrite <- not_true_iff_false, !id_lt_spec. lia. Qed.

(* ------------------------------------------------------------------ *)
(** ** [bars_1m] *)

Record Row F := {
  r_open : F;
  r_high : F;
  r_low : F;
  r_close : F;
  r_tick_count : Z;
  r_sum_ret : F;
  r_sum_ret_sq : F;
  r_source : string;
  r_last_stream_id : stream_id;
  r_recovery_run_id : option string;
}.
Arguments r_open {F} _.
Arguments r_high {F} _.
Arguments r_low {F} _.
Arguments r_close {F} _.
Arguments r_tick_count {F} _.
Arguments r_sum_ret {F} _.
Arguments r_sum_ret_sq {F} _.
Arguments r_source {F} _.
Arguments r_last_stream_id {F} _.
Arguments r_recovery_run_id {F} _.

Abbreviation bar_table F := (gmap (string * Z) (Row F)).

Section Bars.
Context {F : Type} `{PyFloat F}.
Implicit Types (t : bar_table F) (r : Row F) (b : Bar F) (id : stream_id).

(** [GREATEST] and [LEAST] of doubles: PostgreSQL orders NaN above every number. *)
Definition sql_greatest (a b : F) : F :=
  if negb (f_le a a) then a else if negb (f_le b b) then b else py_max a b.
Definition sql_least (a b : F) : F :=
  if negb (f_le a a) then b else if negb (f_le b b) then a else py_min a b.

(** The row an INSERT of a bar proposes. *)
Definition row_of (b : Bar F) id : Row F := {|
  r_open := open b; r_high := high b; r_low := low b; r_close := close b;
  r_tick_count := tick_count b; r_sum_ret := sum_ret b; r_sum_ret_sq := sum_ret_sq b;
  r_source := source_str (source b); r_last_stream_id := id; r_recovery_run_id := None |}.

(** [DO UPDATE SET ...], with [new] for EXCLUDED. *)
Definition merge_row r new : Row F := {|
  r_open := r_open r;
  r_high := sql_greatest (r_high r) (r_high new);
  r_low := sql_least (r_low r) (r_low new);
  r_close := r_close new;
  r_tick_count := r_tick_count r + r_tick_count new;
  r_sum_ret := f_add (r_sum_ret r) (r_sum_ret new);
  r_sum_ret_sq := f_add (r_sum_ret_sq r) (r_sum_ret_sq new);
  r_source := if bool_decide (r_source r = "stream"%string) then r_source r else r_source new;
  r_last_stream_id := r_last_stream_id new;
  r_recovery_run_id := r_recovery_run_id r |}.

(** [ON CONFLICT ... WHERE EXCLUDED.last_stream_id > bars_1m.last_stream_id] *)
Definition upsert_row (old : option (Row F)) new : Row F :=
  match old with
  | None => new
  | Some r => if id_lt (r_last_stream_id r) (r_last_stream_id new) then merge_row r new else r
  end.

Definition bar_key (bi : Bar F * stream_id) : string * Z := (bar_symbol bi.1, bucket bi.1).

Definition upsert_bar t (bi : Bar F * stream_id) : bar_table F :=
  <[bar_key bi := upsert_row (t !! bar_key bi) (row_of bi.1 bi.2)]> t.

(** [upsert_bars]: one statement; PostgreSQL refuses one that would touch a row
    twice. *)
Definition upsert_bars t (batch : list (Bar F * stream_id)) : result (bar_table F * Z) :=
  match batch with
  | [] => Ok (t, 0)
  | _ =>
      if bool_decide (NoDup (bar_key <$> batch))
      then Ok (fold_left upsert_bar batch t, Z.of_nat (length batch))
      else Raise DatabaseError
  end.

(** [fetch_bars]: newest first, at most [limit]. *)
Definition fetch_bars t (symbol : string) (limit : nat) : list (datetime * Row F) :=
  take limit (py_sorted (fun x y => y <=? x) fst
    (omap (fun kr : (string * Z) * Row F =>
       if bool_decide (kr.1.1 = symbol) then Some (kr.1.2, kr.2) else None) (map_to_list t))).

(** [last_bucket]: [SELECT max(bucket)]. *)
Definition last_bucket t (symbol : string) : option datetime := fst <$> head (fetch_bars t symbol 1).
End Bars.

(* ------------------------------------------------------------------ *)
(** ** [alert_events] *)

Record AlertRow F := {
  al_symbol : string;
  al_seq : Z;
  al_ts : datetime;
  al_old_regime : string;
  al_new_regime : string;
  al_trigger_value : option F;
  al_threshold_value : F;
  al_sigma : option F;
  al_cause : string;
  al_reason : string;
}.
Arguments al_symbol {F} _.
Arguments al_seq {F} _.
Arguments al_ts {F} _.
Arguments al_old_regime {F} _.
Arguments al_new_regime {F} _.
Arguments al_trigger_value {F} _.
Arguments al_threshold_value {F} _.
Arguments al_sigma {F} _.
Arguments al_cause {F} _.
Arguments al_reason {F} _.

Abbreviation alert_table F := (gmap (string * Z) (AlertRow F)).

Section Alerts.
Context {F : Type}.
(** The symbols of the table [instruments], which [symbol] references. *)
Context (instrument : string -> bool).
Implicit Types (t : alert_table F) (rows : list (AlertRow F)).

Definition alert_key (r : AlertRow F) : string * Z := (al_symbol r, al_seq r).

(** The types and constraints of [alert_events] ([infra/migrations/003]): a row
    that breaks one is refused with the whole statement. *)
Definition storable (r : AlertRow F) : bool :=
  instrument (al_symbol r) &&
  (- 2 ^ 63 <=? al_seq r) && (al_seq r <? 2 ^ 63) &&
  negb (bool_decide (al_old_regime r = al_new_regime r)) &&
  (bool_decide (al_cause r = "observation_lost"%string) || bool_decide (is_Some (al_trigger_value r))).

(** [ON CONFLICT (symbol, seq) DO NOTHING RETURNING symbol, seq], row after row. *)
Definition insert_alert (st : alert_table F * list (string * Z)) (r : AlertRow F)
    : alert_table F * list (string * Z) :=
  let '(t, landed) := st in
  match t !! alert_key r with
  | Some _ => (t, landed)
  | None => (<[alert_key r := r]> t, landed ++ [alert_key r])
  end.

(** [insert_alerts]: the table, how many landed and the keys that conflicted. *)
Definition insert_alerts t rows : result (alert_table F * (Z * list (string * Z))) :=
  match rows with
  | [] => Ok (t, (0, []))
  | _ =>
      if forallb storable rows then
        let '(t', inserted) := fold_left insert_alert rows (t, []) in
        let landed := list_to_set (C := gset (string * Z)) inserted in
        Ok (t', (Z.of_nat (size landed),
                 List.filter (fun k => negb (bool_decide (k ∈ landed))) (alert_key <$> rows)))
      else Raise DatabaseError
  end.

Definition alert_timestamp t (symbol : string) (seq : Z) : option datetime := al_ts <$> t !! (symbol, seq).

(* ------------------------------------------------------------------ *)
(** *** What an insert does *)

(** The statement keeps what is stored, stores the first row of each new key and
    lists exactly the new keys. *)
Lemma insert_alert_fold t rows t' landed :
  fold_left insert_alert rows (t, []) = (t', landed) ->
  t ⊆ t' /\
  (forall k r, t' !! k = Some r -> t !! k = Some r \/ r ∈ rows /\ alert_key r = k) /\
  (forall r, r ∈ rows -> is_Some (t' !! alert_key r)) /\
  (forall k, k ∈ landed <-> t !! k = None /\ is_Some (t' !! k)).
Proof.
  revert t' landed. induction rows as [|r rows IH] using rev_ind; intros t' landed.
  - intros [= <- <-]. split_and!; [done|auto|by intros ? ?%elem_of_nil|].
    intros k. rewrite elem_of_nil. split; [done|]. intros [-> [? ?]]. done.
  - rewrite fold_left_snoc. destruct (fold_left insert_alert rows (t, [])) as [t1 l1].
    destruct (IH t1 l1 eq_refl) as (Hsub & Hfrom & Hin & Hl). unfold insert_alert.
    destruct (t1 !! alert_key r) as [r0|] eqn:E; intros [= <- <-].
    + split_and!; [done| | |done].
      * intros k r' Hk. destruct (Hfrom k r' Hk) as [?|[? ?]]; [by left|right; set_solver].
      * intros r' [Hr| ->%list_elem_of_singleton]%elem_of_app; [by apply Hin|eauto].
    + assert (Hnew : t !! alert_key r = None).
      { destruct (t !! alert_key r) eqn:E'; [|done]. by rewrite (lookup_weaken _ _ _ _ E' Hsub) in E. }
      split_and!.
      * etrans; [exact Hsub|]. by apply insert_subseteq.
      * intros k r'. rewrite lookup_insert_Some. intros [[<- <-]|[_ Hk]]; [right; set_solver|].
        destruct (Hfrom k r' Hk) as [?|[? ?]]; [by left|right; set_solver].
      * intros r' Hr. rewrite lookup_insert_is_Some'. apply elem_of_app in Hr as [Hr|Hr]; [right; by apply Hin|].
        apply list_elem_of_singleton in Hr as ->. by left.
      * intros k. rewrite elem_of_app, list_elem_of_singleton, Hl, lookup_insert_is_Some'.
        split; [intros [[? ?]| ->]; auto|]. intros [? [->|?]]; auto.
Qed.

Lemma insert_alerts_ok t rows t' n conflicted :
  insert_alerts t rows = Ok (t', (n, conflicted)) ->
  t ⊆ t' /\
  (forall k r, t' !! k = Some r -> t !! k = Some r \/ r ∈ rows /\ alert_key r = k) /\
  (forall r, r ∈ rows -> is_Some (t' !! alert_key r)) /\
  (forall k, k ∈ conflicted <-> is_Some (t !! k) /\ k ∈ (alert_key <$> rows)).
Proof.
  unfold insert_alerts. destruct rows as [|r0 rows0] eqn:Hrows.
  - intros [= <- <- <-]. split_and!; [done|auto|by intros ? ?%elem_of_nil|]. intros k.
    split; [by intros ?%elem_of_nil|by intros [_ ?%elem_of_nil]].
  - rewrite <- Hrows. destruct (forallb storable rows); [|done].
    destruct (fold_left insert_alert rows (t, [])) as [t1 landed] eqn:E. intros [= <- <- <-].
    destruct (insert_alert_fold _ _ _ _ E) as (Hsub & Hfrom & Hin & Hl). split_and!; [done..|].
    intros k. rewrite elem_of_lfilter, negb_true_iff, bool_decide_eq_false, elem_of_list_to_set, Hl.
    split.
    + intros [Hk Hnl]. split; [|done]. destruct (t !! k) eqn:E'; [done|].
      exfalso. apply Hnl. split; [done|]. apply list_elem_of_fmap in Hk as (r & -> & Hr). by apply Hin.
    + intros [[? Hk] Hr]. split; [done|]. intros [? _]. congruence.
Qed.
End Alerts.
