(* ===== verification/Buckets.v ===== *)
(** * Additive buckets ([fx_core/volatility/buckets.py])

    One bucket of ticks in progress, sealed into a bar, and the rolling window of
    sealed bars.  The window never looks at a tick again; the facts below say that
    it does not need to. *)
From S2P Require Import Prelude PyFloat Volatility Models.
From Stdlib Require Import SpecFloat QArith Qcanon.

Local Open Scope Z_scope.

Definition GAP_BAR_MULTIPLE : Z := 3.

Definition floor_to_bucket (ts : datetime) (bucket_seconds : Z) : datetime :=
  let epoch := int_timestamp ts in
  fromtimestamp (epoch - epoch mod bucket_seconds).

Section Buckets.
Context {F : Type} `{PyFloat F}.
Local Open Scope py_scope.

(** ** [BucketAccumulator] *)

Record BucketAccumulator := {
  acc_symbol : string;
  acc_bucket : datetime;
  acc_open : F;
  acc_high : F;
  acc_low : F;
  acc_close : F;
  acc_tick_count : Z;
  acc_sum_ret : F;
  acc_sum_ret_sq : F;
  acc_source : BarSource;
}.

Definition acc_start (sym : string) (ts : datetime) (price : F) (bucket_seconds : Z)
    (src : BarSource) : BucketAccumulator := {|
  acc_symbol := sym; acc_bucket := floor_to_bucket ts bucket_seconds;
  acc_open := price; acc_high := price; acc_low := price; acc_close := price;
  acc_tick_count := 0; acc_sum_ret := f_zero; acc_sum_ret_sq := f_zero;
  acc_source := src |}.

(** The state after the assignments that precede the logarithm. *)
Definition acc_price (a : BucketAccumulator) (price : F) : BucketAccumulator := {|
  acc_symbol := acc_symbol a; acc_bucket := acc_bucket a; acc_open := acc_open a;
  acc_high := py_max (acc_high a) price; acc_low := py_min (acc_low a) price;
  acc_close := price; acc_tick_count := (acc_tick_count a + 1)%Z;
  acc_sum_ret := acc_sum_ret a; acc_sum_ret_sq := acc_sum_ret_sq a;
  acc_source := acc_source a |}.

Definition acc_return (a : BucketAccumulator) (r : F) : BucketAccumulator := {|
  acc_symbol := acc_symbol a; acc_bucket := acc_bucket a; acc_open := acc_open a;
  acc_high := acc_high a; acc_low := acc_low a; acc_close := acc_close a;
  acc_tick_count := acc_tick_count a;
  acc_sum_ret := acc_sum_ret a + r; acc_sum_ret_sq := acc_sum_ret_sq a + r * r;
  acc_source := acc_source a |}.

(** The object after [add], and how the call ended: the logarithm of a ratio that
    underflows to zero raises with the price already folded in. *)
Definition acc_add (a : BucketAccumulator) (price : F) (prev_price : option F)
    : BucketAccumulator * result unit :=
  let a := acc_price a price in
  match prev_price with
  | Some prev =>
      if ((f_zero <? prev) && (f_zero <? price))%bool then
        match py_log (price / prev) with
        | Ok r => (acc_return a r, Ok tt)
        | Raise e => (a, Raise e)
        end
      else (a, Ok tt)
  | None => (a, Ok tt)
  end.

Definition acc_seal (a : BucketAccumulator) : Bar F := {|
  bar_symbol := acc_symbol a; bucket := acc_bucket a; open := acc_open a;
  high := acc_high a; low := acc_low a; close := acc_close a;
  tick_count := acc_tick_count a; sum_ret := acc_sum_ret a;
  sum_ret_sq := acc_sum_ret_sq a; source := acc_source a |}.

(** ** [RollingWindow] *)

Record RollingWindow := { window_seconds : Z; bars : list (Bar F) }.

Definition RollingWindow_new (s : Z) : RollingWindow := {| window_seconds := s; bars := [] |}.

Fixpoint evict_before (cutoff : datetime) (bs : list (Bar F)) : list (Bar F) :=
  match bs with
  | b :: rest => if (bucket b <? cutoff)%Z then evict_before cutoff rest else bs
  | [] => []
  end.

Definition evict (w : RollingWindow) (now : datetime) : RollingWindow :=
  {| window_seconds := window_seconds w;
     bars := evict_before (now - seconds (window_seconds w))%Z (bars w) |}.

Definition push (w : RollingWindow) (b : Bar F) : RollingWindow :=
  evict {| window_seconds := window_seconds w; bars := bars w ++ [b] |} (bucket b).

Definition window_len (w : RollingWindow) : Z := Z.of_nat (length (bars w)).

Definition window_tick_count (w : RollingWindow) : Z :=
  foldr Z.add 0%Z (tick_count <$> bars w).

Definition window_welford (w : RollingWindow) : Welford F :=
  fold_left (fun acc b =>
    welford_merge acc (from_sums (tick_count b) (sum_ret b) (sum_ret_sq b)))
    (bars w) Welford_new.

Definition window_sigma (w : RollingWindow) : result F := stdev (window_welford w).

Fixpoint merge_all (out : Bar F) (bs : list (Bar F)) : result (Bar F) :=
  match bs with
  | [] => Ok out
  | b :: bs => out ← bar_merge out b; merge_all out bs
  end.

Definition collapse (w : RollingWindow) : result (option (Bar F)) :=
  match bars w with
  | [] => Ok None
  | b :: bs => Some <$> merge_all b bs
  end.
End Buckets.

Arguments BucketAccumulator F : clear implicits.
Arguments RollingWindow F : clear implicits.

(* ------------------------------------------------------------------ *)
(** ** Alignment and eviction *)

(** From the epoch on, a bucket contains its timestamps. *)
Lemma floor_to_bucket_spec ts w :
  0 <= ts -> 0 < w ->
  floor_to_bucket ts w <= ts < floor_to_bucket ts w + seconds w /\
  (seconds w | floor_to_bucket ts w).
Proof.
  intros Hts Hw. unfold floor_to_bucket, fromtimestamp, seconds.
  rewrite int_timestamp_nonneg by done.
  destruct (floor_multiple_spec (ts / MICRO) w Hw) as [Hf Hd].
  pose proof (Z.mul_div_le ts MICRO). pose proof (Z.mul_succ_div_gt ts MICRO).
  unfold MICRO in *. split; [lia|by apply Z.mul_divide_mono_r].
Qed.

Section Window.
Context {F : Type} `{PyFloat F}.
Implicit Types (w : RollingWindow F) (bs : list (Bar F)) (b : Bar F).

Definition later b b' : Prop := bucket b <= bucket b'.

Lemma evict_before_filter cutoff bs :
  StronglySorted later bs ->
  evict_before cutoff bs = List.filter (fun b => cutoff <=? bucket b) bs.
Proof.
  induction 1 as [|b bs Hs IH Hall]; [done|]. cbn.
  rewrite Z.leb_antisym. destruct (Z.ltb_spec (bucket b) cutoff); cbn; [done|].
  f_equal. rewrite Forall_forall in Hall. clear IH Hs.
  induction bs as [|b' bs IH]; [done|]. cbn.
  assert (later b b') by (apply Hall; set_solver). unfold later in *.
  rewrite (proj2 (Z.leb_le _ _)) by lia. rewrite <- IH; [done|]. intros. apply Hall. set_solver.
Qed.

Lemma filter_twice c c' bs :
  c <= c' ->
  List.filter (fun b => c' <=? bucket b) (List.filter (fun b => c <=? bucket b) bs)
  = List.filter (fun b => c' <=? bucket b) bs.
Proof.
  intros Hc. induction bs as [|b bs IH]; [done|]. cbn.
  destruct (Z.leb_spec c (bucket b)); cbn; [by rewrite IH|].
  rewrite (proj2 (Z.leb_gt _ _)) by lia. done.
Qed.

Lemma filter_sorted c bs :
  StronglySorted later bs -> StronglySorted later (List.filter (fun b => c <=? bucket b) bs).
Proof.
  induction 1 as [|b bs Hs IH Hall]; cbn; [constructor|].
  destruct (c <=? bucket b); [|done]. constructor; [done|].
  rewrite Forall_forall in *. intros x Hx. apply Hall.
  rewrite list_elem_of_In in *. by apply filter_In in Hx as [? _].
Qed.

Lemma sorted_snoc_inv bs b :
  StronglySorted later (bs ++ [b]) ->
  StronglySorted later bs /\ Forall (fun b' => later b' b) bs.
Proof.
  induction bs as [|b' bs IH]; cbn; [split; constructor|].
  intros [Hs Hall]%StronglySorted_inv. destruct (IH Hs) as [Hs' Hall'].
  apply Forall_app in Hall as [Hall1 Hall2]. rewrite Forall_singleton in Hall2.
  split; constructor; done.
Qed.

Lemma sorted_snoc bs b :
  StronglySorted later bs -> Forall (fun b' => later b' b) bs ->
  StronglySorted later (bs ++ [b]).
Proof.
  induction 1 as [|b' bs Hs IH Hall]; intros Hb; cbn; [by repeat constructor|].
  apply Forall_cons in Hb as [Hb1 Hb2]. constructor; [by apply IH|].
  apply Forall_app. by rewrite Forall_singleton.
Qed.

Definition window_of (secs : Z) bs : RollingWindow F :=
  fold_left push bs (RollingWindow_new secs).

(** The window is exactly the recent bars.  After any sequence of bars sealed
    in time order, the deque holds, in order, those whose bucket is no older than
    [window_seconds] before the last one: none of them was evicted too early and
    nothing older survives, however unevenly the bars arrived. *)
Theorem window_is_recent secs bs b :
  StronglySorted later (bs ++ [b]) ->
  bars (window_of secs (bs ++ [b]))
  = List.filter (fun b' => bucket b - seconds secs <=? bucket b') (bs ++ [b]).
Proof.
  revert b. induction bs as [|b0 bs IH] using rev_ind; intros b Hs.
  - cbn. by destruct (Z.ltb_spec (bucket b) (bucket b - seconds secs)), (Z.leb_spec (bucket b - seconds secs) (bucket b)); try lia.
  - apply sorted_snoc_inv in Hs as [Hs Hall].
    unfold window_of. rewrite fold_left_snoc. fold (window_of secs (bs ++ [b0])).
    assert (window_seconds (window_of secs (bs ++ [b0])) = secs) as Hsecs.
    { unfold window_of. apply (fold_left_inv (fun w => window_seconds w = secs)); [|done].
      intros w x _ Hw. done. }
    unfold push, evict. cbn [bars window_seconds]. rewrite Hsecs, (IH b0 Hs).
    assert (later b0 b) as Hlast.
    { rewrite Forall_forall in Hall. apply Hall. set_solver. }
    rewrite evict_before_filter.
    + rewrite !(List.filter_app _ _ [b]). by rewrite filter_twice by (unfold later in *; lia).
    + apply sorted_snoc; [by apply filter_sorted|]. rewrite Forall_forall in *.
      intros x Hx. apply Hall. rewrite list_elem_of_In in *. by apply filter_In in Hx as [? _].
Qed.
End Window.

(* ------------------------------------------------------------------ *)
(** ** What a sealed bar says of its ticks *)

(** Every price of a bucket, the first one started it, each folded in after the one
    before; an exception leaves the object as [acc_add] left it. *)
Fixpoint feed {F} `{PyFloat F} (a : BucketAccumulator F) (prev : option F) (prices : list F)
    : BucketAccumulator F :=
  match prices with
  | [] => a
  | p :: prices => feed (fst (acc_add a p prev)) (Some p) prices
  end.

Definition bar_of {F} `{PyFloat F} (sym : string) (ts : datetime) (width : Z) (src : BarSource)
    (prev : option F) (p : F) (prices : list F) : Bar F :=
  acc_seal (feed (acc_start sym ts p width src) prev (p :: prices)).

Section Ohlc.
Context {F : Type} `{PyFloat F, !PyFloatOrder F}.
Implicit Types (a : BucketAccumulator F) (p : F) (prices : list F).

(** The prices a bucket has seen lie between its low and its high, which are two
    of them. *)
Definition bounds a (seen : list F) : Prop :=
  acc_high a ∈ seen /\ acc_low a ∈ seen /\
  Forall (fun p => f_isnan p = false /\ f_le (acc_low a) p = true
                   /\ f_le p (acc_high a) = true) seen.

Lemma acc_add_fields a p prev :
  let a' := fst (acc_add a p prev) in
  acc_open a' = acc_open a /\ acc_close a' = p /\
  acc_high a' = py_max (acc_high a) p /\ acc_low a' = py_min (acc_low a) p /\
  acc_tick_count a' = acc_tick_count a + 1 /\ acc_bucket a' = acc_bucket a /\
  acc_symbol a' = acc_symbol a /\ acc_source a' = acc_source a.
Proof.
  cbv zeta. unfold acc_add.
  destruct prev as [prev|]; [|by split_and!].
  destruct (_ && _)%bool; [|by split_and!]. by destruct (py_log _).
Qed.

Lemma acc_add_bounds a p prev seen :
  bounds a seen -> f_isnan p = false -> bounds (fst (acc_add a p prev)) (seen ++ [p]).
Proof.
  intros (Hh & Hl & Hall) Hp.
  destruct (acc_add_fields a p prev) as (_ & _ & Eh & El & _).
  rewrite Forall_forall in Hall.
  destruct (Hall _ Hh) as (Hnh & _ & _), (Hall _ Hl) as (Hnl & _ & _).
  destruct (le_py_max (acc_high a) p Hnh Hp) as [Hh1 Hh2].
  destruct (py_min_le (acc_low a) p Hnl Hp) as [Hl1 Hl2].
  unfold bounds. rewrite Eh, El.
  assert (f_isnan (py_max (acc_high a) p) = false) by (by destruct (py_max_cases (acc_high a) p) as [-> | ->]).
  assert (f_isnan (py_min (acc_low a) p) = false) by (by destruct (py_min_cases (acc_low a) p) as [-> | ->]).
  split_and!.
  - destruct (py_max_cases (acc_high a) p) as [-> | ->]; set_solver.
  - destruct (py_min_cases (acc_low a) p) as [-> | ->]; set_solver.
  - apply Forall_app. rewrite Forall_singleton. split; [|done].
    apply Forall_forall. intros q Hq. destruct (Hall q Hq) as (Hnq & Hlq & Hqh).
    split_and!; [done|by apply (f_le_trans _ (acc_low a))|by apply (f_le_trans _ (acc_high a))].
Qed.

Lemma feed_bounds prices a prev seen :
  bounds a seen -> Forall (fun p => f_isnan p = false) prices ->
  bounds (feed a prev prices) (seen ++ prices) /\
  acc_open (feed a prev prices) = acc_open a /\
  acc_tick_count (feed a prev prices) = acc_tick_count a + Z.of_nat (length prices) /\
  acc_close (feed a prev prices) = default (acc_close a) (last prices) /\
  acc_bucket (feed a prev prices) = acc_bucket a.
Proof.
  revert a prev seen. induction prices as [|p prices IH]; intros a prev seen Hb Hp.
  { rewrite app_nil_r. cbn. split_and!; try done. lia. }
  apply Forall_cons in Hp as [Hp Hps]. cbn [feed].
  destruct (acc_add_fields a p prev) as (Ho & Hc & _ & _ & Hn & Hk & _).
  destruct (IH (fst (acc_add a p prev)) (Some p) (seen ++ [p])) as (IH1 & IH2 & IH3 & IH4 & IH5);
    [by apply acc_add_bounds|done|].
  rewrite <- app_assoc in IH1. split_and!; try done; try congruence.
  - rewrite IH3, Hn. cbn [length]. lia.
  - rewrite IH4, Hc, last_cons. by destruct (last prices).
Qed.

(** A sealed bar is the OHLC of its ticks.  For prices that are not NaN, the
    bar opens at the first price, closes at the last, counts every tick, and its
    high and low are prices of the bucket that bound all of them. *)
Theorem bar_is_ohlc sym ts width src prev p prices :
  Forall (fun q => f_isnan q = false) (p :: prices) ->
  let b := bar_of sym ts width src prev p prices in
  bucket b = floor_to_bucket ts width /\
  open b = p /\ close b = default p (last prices) /\
  tick_count b = Z.of_nat (length (p :: prices)) /\
  high b ∈ p :: prices /\ low b ∈ p :: prices /\
  Forall (fun q => f_le (low b) q = true /\ f_le q (high b) = true) (p :: prices).
Proof.
  intros Hnan. pose proof Hnan as [Hp _]%Forall_cons.
  destruct (feed_bounds (p :: prices) (acc_start sym ts p width src) prev [p])
    as ((Hh & Hl & Hall) & Ho & Hn & Hc & Hk); [|done|].
  { split_and!; cbn; try set_solver. rewrite Forall_singleton.
    split_and!; [done|by apply f_le_refl..]. }
  cbv zeta. unfold bar_of, acc_seal. cbn [bucket open close tick_count high low].
  split_and!; try done.
  - rewrite Hc, last_cons. by destruct (last prices).
  - set_solver.
  - set_solver.
  - apply Forall_app in Hall as [_ Hall].
    eapply Forall_impl; [exact Hall|]. cbn. tauto.
Qed.
End Ohlc.

(* ------------------------------------------------------------------ *)
(** ** The window never needs the ticks again *)

Section Rescan.
Context (sq lg ex : Qc -> Qc).
#[local] Hint Extern 0 (PyFloat Qc) => exact (exact_inst sq lg ex) : typeclass_instances.
Local Open Scope Qc_scope.

Definition positive_price (p : Qc) : Prop := f_lt f_zero p = true.

(** The log returns of successive prices. *)
Fixpoint log_returns (prev : Qc) (prices : list Qc) : list Qc :=
  match prices with
  | [] => []
  | p :: prices => f_log (p / prev) :: log_returns p prices
  end.

(** What one tick adds to its bucket's sums: its log return, and nothing when there
    is no previous price to take it from, or a price that is not positive. *)
Definition tick_return (prev : option Qc) (p : Qc) : Qc :=
  match prev with
  | Some q => if (f_lt f_zero q && f_lt f_zero p)%bool then f_log (p / q) else 0
  | None => 0
  end.

Fixpoint tick_returns (prev : option Qc) (prices : list Qc) : list Qc :=
  match prices with
  | [] => []
  | p :: prices => tick_return prev p :: tick_returns (Some p) prices
  end.

Lemma tick_returns_length prev ps : length (tick_returns prev ps) = length ps.
Proof. revert prev. induction ps; intros; cbn; auto. Qed.

Lemma positive_price_spec p : positive_price p <-> 0 < p.
Proof.
  unfold positive_price. cbn. unfold Qc_leb. rewrite negb_true_iff.
  change (Q2Qc (inject_Z 0)) with 0. split.
  - intros Hp. apply Qcnot_le_lt. intros Hle. apply Qle_bool_iff in Hle. congruence.
  - intros Hp. apply not_true_iff_false. rewrite Qle_bool_iff. by apply Qclt_not_le.
Qed.

Lemma positive_ratio p q : positive_price p -> positive_price q -> f_le (p / q) f_zero = false.
Proof.
  rewrite !positive_price_spec. intros Hp Hq. cbn. unfold Qc_leb.
  apply not_true_iff_false. rewrite Qle_bool_iff. change (Q2Qc (inject_Z 0)) with 0.
  apply Qclt_not_le. change (0 < p * / q).
  rewrite <- (Qcmult_0_l (/ q)). apply Qcmult_lt_compat_r; [|done].
  apply Qcnot_le_lt. intros Hle. apply (Qcmult_le_compat_r _ _ q) in Hle; [|by apply Qclt_le_weak].
  rewrite Qcmult_comm, Qcmult_inv_r, Qcmult_0_l in Hle.
  - done.
  - intros ->. by apply (Qclt_not_eq _ _ Hq).
Qed.

Lemma acc_add_sums a p prev :
  let a' := fst (acc_add a p prev) in
  acc_sum_ret a' = acc_sum_ret a + tick_return prev p /\
  acc_sum_ret_sq a' = acc_sum_ret_sq a + tick_return prev p * tick_return prev p.
Proof.
  unfold acc_add, tick_return. destruct prev as [q|]; [|cbn; split; ring].
  destruct (f_lt f_zero q) eqn:Hq, (f_lt f_zero p) eqn:Hp; cbn [andb]; try (cbn; split; ring).
  unfold py_log. change f_div with Qcdiv. by rewrite (positive_ratio p q).
Qed.

Lemma feed_sums ps a prev :
  acc_sum_ret (feed a prev ps) = acc_sum_ret a + qsum (tick_returns prev ps) /\
  acc_sum_ret_sq (feed a prev ps) = acc_sum_ret_sq a + qsum_sq (tick_returns prev ps) /\
  acc_tick_count (feed a prev ps) = (acc_tick_count a + Z.of_nat (length ps))%Z.
Proof.
  revert a prev. induction ps as [|p ps IH]; intros a prev.
  { cbn. split_and!; [by rewrite Qcplus_0_r..|lia]. }
  cbn [feed tick_returns].
  destruct (IH (fst (acc_add a p prev)) (Some p)) as (IH1 & IH2 & IH3).
  destruct (acc_add_sums a p prev) as [S1 S2].
  destruct (acc_add_fields a p prev) as (_ & _ & _ & _ & S3 & _).
  rewrite IH1, IH2, IH3, S1, S2, S3. unfold qsum_sq. rewrite fmap_cons, !qsum_cons.
  split_and!; [ring..|]. cbn [length]. lia.
Qed.

(** The ticks of one bucket: the time of the first, whether a new run of the pipeline
    (a start, a new leader, a switch of provider) opened it, its first price and the
    others. *)
Record TickGroup := {
  g_ts : datetime;
  g_restart : bool;
  g_first : Qc;
  g_rest : list Qc;
}.

Definition g_prices (g : TickGroup) : list Qc := g_first g :: g_rest g.
Definition g_last (g : TickGroup) : Qc := default (g_first g) (last (g_rest g)).

(** [st.last_price] where the bucket's first tick meets it: none in a new run, and
    none when the previous bucket is more than [GAP_BAR_MULTIPLE] buckets back. *)
Definition meets (width : Z) (before : option TickGroup) (g : TickGroup) : option Qc :=
  match before with
  | Some b =>
      if (g_restart g
          || (seconds (width * GAP_BAR_MULTIPLE) <?
              floor_to_bucket (g_ts g) width - floor_to_bucket (g_ts b) width)%Z)%bool
      then None else Some (g_last b)
  | None => None
  end.

(** The bars a run of buckets seals. *)
Fixpoint bars_of (sym : string) (width : Z) (before : option TickGroup)
    (groups : list TickGroup) : list (Bar Qc) :=
  match groups with
  | [] => []
  | g :: groups =>
      bar_of sym (g_ts g) width STREAM (meets width before g) (g_first g) (g_rest g)
      :: bars_of sym width (Some g) groups
  end.

(** What a re-scan of the ticks reads: a bucket continues the one before it in the same
    run and at most [GAP_BAR_MULTIPLE] buckets later, and otherwise starts afresh. *)
Definition continues (width : Z) (b g : TickGroup) : Prop :=
  g_restart g = false /\
  (floor_to_bucket (g_ts g) width
   <= floor_to_bucket (g_ts b) width + seconds (width * GAP_BAR_MULTIPLE))%Z.
#[local] Instance continues_dec width b g : Decision (continues width b g).
Proof. unfold continues. apply _. Defined.

Definition price_before (width : Z) (before : option TickGroup) (g : TickGroup) : option Qc :=
  match before with Some b => if decide (continues width b g) then Some (g_last b) else None | None => None end.

Fixpoint rescan (width : Z) (before : option TickGroup) (groups : list TickGroup) : list Qc :=
  match groups with
  | [] => []
  | g :: groups => tick_returns (price_before width before g) (g_prices g) ++ rescan width (Some g) groups
  end.

Lemma meets_before width before g : meets width before g = price_before width before g.
Proof.
  destruct before as [b|]; [|done]. unfold meets, price_before.
  destruct (decide (continues width b g)) as [[Hr Hle]|Hno].
  - rewrite Hr. cbn [orb]. by rewrite (proj2 (Z.ltb_ge _ _)) by lia.
  - destruct (g_restart g) eqn:Hr; [done|]. cbn [orb].
    rewrite (proj2 (Z.ltb_lt _ _)); [done|].
    apply Z.nle_gt. intros Hle. apply Hno. split; [done|lia].
Qed.

Definition prices_of (groups : list TickGroup) : list Qc := mjoin (g_prices <$> groups).

Lemma rescan_length width before groups :
  length (rescan width before groups) = length (prices_of groups).
Proof.
  revert before. induction groups as [|g groups IH]; intros before; [done|].
  unfold prices_of in *. cbn [rescan fmap list_fmap mjoin list_join].
  by rewrite !length_app, tick_returns_length, IH.
Qed.

Lemma window_fold sym width before groups rs :
  fold_left (fun acc b => welford_merge acc (from_sums (tick_count b) (sum_ret b) (sum_ret_sq b)))
    (bars_of sym width before groups) (two_pass sq lg ex rs)
  = two_pass sq lg ex (rs ++ rescan width before groups).
Proof.
  revert before rs. induction groups as [|g groups IH]; intros before rs.
  { cbn. by rewrite app_nil_r. }
  cbn [bars_of rescan fold_left]. rewrite meets_before.
  destruct (feed_sums (g_prices g) (acc_start sym (g_ts g) (g_first g) width STREAM)
    (price_before width before g)) as (S1 & S2 & S3).
  cbn [acc_start acc_sum_ret acc_sum_ret_sq acc_tick_count] in S1, S2, S3.
  rewrite Z.add_0_l, <- (tick_returns_length (price_before width before g)) in S3.
  change (@f_zero Qc _) with 0 in *. rewrite Qcplus_0_l in S1, S2.
  unfold bar_of at 1 2 3, acc_seal. cbn [tick_count sum_ret sum_ret_sq].
  change (g_first g :: g_rest g) with (g_prices g).
  rewrite S1, S2, S3, from_sums_two_pass, two_pass_merge, IH. by rewrite <- app_assoc.
Qed.

Lemma window_welford_rescan sym width secs before groups :
  window_welford {| window_seconds := secs; bars := bars_of sym width before groups |}
  = update_many Welford_new (rescan width before groups).
Proof.
  transitivity (two_pass sq lg ex (rescan width before groups)).
  - unfold window_welford. cbn [bars]. rewrite <- (two_pass_nil sq lg ex).
    apply (window_fold _ _ _ _ []).
  - symmetry. rewrite <- (two_pass_nil sq lg ex). apply update_many_two_pass.
Qed.

(** A run that is never interrupted: no new run and no gap after the first bucket. *)
Fixpoint unbroken (width : Z) (before : TickGroup) (groups : list TickGroup) : Prop :=
  match groups with
  | [] => True
  | g :: groups => continues width before g /\ unbroken width g groups
  end.

Lemma log_returns_app prev ps ps' :
  log_returns prev (ps ++ ps')
  = log_returns prev ps ++ log_returns (default prev (last ps)) ps'.
Proof.
  revert prev. induction ps as [|p ps IH]; intros prev; [done|]. cbn. rewrite IH.
  rewrite last_cons. by destruct (last ps).
Qed.

Lemma tick_returns_positive prev ps :
  positive_price prev -> Forall positive_price ps ->
  tick_returns (Some prev) ps = log_returns prev ps.
Proof.
  revert prev. induction ps as [|p ps IH]; intros prev Hprev Hps; [done|].
  apply Forall_cons in Hps as [Hp Hps]. cbn [tick_returns log_returns].
  rewrite IH by done. unfold tick_return, positive_price in *. by rewrite Hprev, Hp.
Qed.

Lemma g_last_prices g : g_last g = default (g_first g) (last (g_prices g)).
Proof. unfold g_last, g_prices. rewrite last_cons. by destruct (last (g_rest g)). Qed.

Lemma g_last_positive g : Forall positive_price (g_prices g) -> positive_price (g_last g).
Proof.
  rewrite g_last_prices. unfold g_prices. destruct (last _) as [q|] eqn:Eq.
  - intros Hg. rewrite Forall_forall in Hg. by apply Hg, last_Some_elem_of.
  - apply last_None in Eq. done.
Qed.

Lemma rescan_unbroken width before groups :
  positive_price (g_last before) -> Forall positive_price (prices_of groups) ->
  unbroken width before groups ->
  rescan width (Some before) groups = log_returns (g_last before) (prices_of groups).
Proof.
  revert before. induction groups as [|g groups IH]; intros before Hb Hall Hun; [done|].
  destruct Hun as [Hm Hun]. unfold prices_of in *.
  cbn [rescan fmap list_fmap mjoin list_join price_before] in *.
  apply Forall_app in Hall as [Hg Hall]. rewrite (decide_True _ _ Hm), log_returns_app, tick_returns_positive by done.
  rewrite IH; [|by apply g_last_positive|done..]. do 2 f_equal.
  rewrite g_last_prices. unfold g_prices. rewrite last_cons. by destruct (last (g_rest g)).
Qed.

(** C34.  Widening a window never revisits ticks.  For any run of buckets, whatever
    their prices and wherever a start, a switch of provider or a gap left a bucket's
    first tick without a previous price, combining the sealed bars' stored statistics
    gives exactly the count, mean and squared deviations of a re-scan of every tick,
    in which a tick with no return to take counts as a return of zero; the count is
    that of the ticks.  Where every price is positive and nothing interrupts the run
    after the bucket [before], the re-scan is that of the log returns of successive
    prices.  (Exact arithmetic.) *)
Theorem window_is_tick_rescan sym width secs before groups :
  let w := window_welford {| window_seconds := secs; bars := bars_of sym width before groups |} in
  w = update_many Welford_new (rescan width before groups) /\
  w_n w = Z.of_nat (length (prices_of groups)) /\
  (forall b, before = Some b -> unbroken width b groups ->
     Forall positive_price (g_prices b) -> Forall positive_price (prices_of groups) ->
     w = update_many Welford_new (log_returns (g_last b) (prices_of groups))).
Proof.
  intros w. assert (w = update_many Welford_new (rescan width before groups)) as Eu
    by apply window_welford_rescan.
  split; [exact Eu|]. split.
  - rewrite Eu, <- (two_pass_nil sq lg ex), update_many_two_pass.
    cbn [two_pass w_n app]. by rewrite rescan_length.
  - intros b -> Hun Hb Hps. by rewrite Eu, rescan_unbroken by (done || by apply g_last_positive).
Qed.

(** What the first tick of an interrupted run costs: the moments of [n] ticks of which
    one has no return are those of the [n - 1] returns and a zero. *)
Lemma first_tick_counts_as_zero sym width secs g :
  window_welford {| window_seconds := secs; bars := bars_of sym width None [g] |}
  = update_many Welford_new (0 :: tick_returns (Some (g_first g)) (g_rest g)).
Proof.
  rewrite window_welford_rescan. cbn [rescan]. by rewrite app_nil_r.
Qed.
End Rescan.

(* ------------------------------------------------------------------ *)
(** ** Concrete instances *)

#[local] Existing Instance plain64.

Definition demo_bar (m : Z) : Bar spec_float :=
  bar_of "eurusd" (minutes m) 60 STREAM None (f_of_Z (100 + m)) [].

Lemma window_is_recent_witness :
  bars (window_of 300 ((demo_bar <$> [0; 1; 7; 8]) ++ [demo_bar 12]))
  = demo_bar <$> [7; 8; 12].
Proof.
  etransitivity; [apply (window_is_recent 300 (demo_bar <$> [0; 1; 7; 8]) (demo_bar 12))|].
  - repeat (constructor; [|repeat (constructor; try (vm_compute; congruence))]).
    constructor.
  - reflexivity.
Defined.

Lemma bar_is_ohlc_witness :
  let b := bar_of "eurusd" 90250000 60 STREAM None (f_of_Z 3) (f_of_Z <$> [5; 2; 4]) in
  bucket b = 60000000 /\ tick_count b = 4 /\ high b = f_of_Z 5 /\ low b = f_of_Z 2 /\
  Forall (fun q => f_le (low b) q = true /\ f_le q (high b) = true) (f_of_Z <$> [3; 5; 2; 4]).
Proof.
  destruct (bar_is_ohlc (H := plain64) (PyFloatOrder0 := binary64_order _ _ _)
    "eurusd" 90250000 60 STREAM None (f_of_Z 3) (f_of_Z <$> [5; 2; 4]))
    as (Hb & _ & _ & Hn & _ & _ & Hall).
  - repeat (constructor; [vm_compute; reflexivity|]). constructor.
  - split_and!; [exact Hb|exact Hn|vm_compute; reflexivity..|exact Hall].
Defined.

Lemma window_is_tick_rescan_witness :
  let fl := exact_inst (fun x => x) (fun x => x) (fun x => x) in
  let q z := Q2Qc (inject_Z z) in
  let g ts p ps := {| g_ts := ts; g_restart := false; g_first := q p; g_rest := q <$> ps |} in
  window_welford (H := fl) {| window_seconds := 300;
    bars := bars_of (fun x => x) (fun x => x) (fun x => x) "eurusd" 60 (Some (g 0 2 []))
      [g 60000000 3 [4]; g 120000000 5 []] |}
  = update_many (H := fl) (Welford_new (H := fl))
      (log_returns (fun x => x) (fun x => x) (fun x => x) (q 2) [q 3; q 4; q 5]).
Proof.
  intros fl q g.
  refine (proj2 (proj2 (window_is_tick_rescan (fun x => x) (fun x => x) (fun x => x) "eurusd" 60 300
    (Some (g 0 2 [])) [g 60000000 3 [4]; g 120000000 5 []])) (g 0 2 []) _ _ _ _);
    [reflexivity|by split_and!| |];
    repeat (constructor; [vm_compute; reflexivity|]); constructor.
Defined.
