(* ===== verification/Ranges.v ===== *)
(** * Range-based estimators ([fx_core/volatility/range_estimators.py])

    Each estimator is a function of a sequence of bars that may raise: a
    non-positive price is refused, and [**] and [math.log] raise as Python's do.
    Over exact arithmetic close-to-close is Welford's deviation of the returns. *)
From S2P Require Import Prelude PyFloat Volatility Models Buckets.
From Stdlib Require Import QArith Qround Qcanon.

Local Open Scope Z_scope.

Section Ranges.
Context {F : Type} `{PyFloat F}.
Local Open Scope py_scope.
Implicit Types bars : list (Bar F).

Definition two : F := f_of_Z 2.
Definition FOUR_LN2 : F := f_of_Z 4 * f_log two.
Definition TWO_LN2_MINUS_1 : F := f_of_Z 2 * f_log two - f_one.

(** [_ln]: the ratio itself is positive unless it underflows. *)
Definition ln_ratio (a b : F) : result F :=
  if ((a <=? f_zero) || (b <=? f_zero))%bool then Raise ValueError
  else q ← py_div a b; py_log q.

Definition square (x : F) : result F := py_pow x two.

(** [itertools.pairwise]. *)
Definition pairwise {A} (l : list A) : list (A * A) := zip l (tail l).

Definition py_len {A} (l : list A) : Z := Z.of_nat (length l).

(** [sum((x - m) ** 2 for x in xs) / (len(xs) - 1)] around the mean [m] of [xs]. *)
Definition sample_var (xs : list F) : result F :=
  m ← py_div (f_sum xs) (f_of_Z (py_len xs));
  ds ← mapR (fun x => square (x - m)) xs;
  py_div (f_sum ds) (f_of_Z (py_len xs - 1)).

Definition close_to_close bars : result F :=
  if (py_len bars <? 3)%Z then Ok f_zero
  else
    rets ← mapR (fun '(a, b) => ln_ratio (close b) (close a)) (pairwise bars);
    var ← sample_var rets;
    py_sqrt (py_max var f_zero).

Definition parkinson bars : result F :=
  match bars with
  | [] => Ok f_zero
  | _ =>
      ts ← mapR (fun b => r ← ln_ratio (high b) (low b); square r) bars;
      m ← py_div (f_sum ts) (FOUR_LN2 * f_of_Z (py_len bars));
      py_sqrt (py_max m f_zero)
  end.

Definition garman_klass bars : result F :=
  match bars with
  | [] => Ok f_zero
  | _ =>
      ts ← mapR (fun b =>
        hl ← ln_ratio (high b) (low b); hl2 ← square hl;
        co ← ln_ratio (close b) (open b); co2 ← square co;
        Ok (f_ratio 1 2 * hl2 - TWO_LN2_MINUS_1 * co2)) bars;
      m ← py_div (f_sum ts) (f_of_Z (py_len bars));
      py_sqrt (py_max m f_zero)
  end.

(** The terms are added with [+=], from [0.0]. *)
Definition rogers_satchell bars : result F :=
  match bars with
  | [] => Ok f_zero
  | _ =>
      ts ← mapR (fun b =>
        hc ← ln_ratio (high b) (close b); ho ← ln_ratio (high b) (open b);
        lc ← ln_ratio (low b) (close b); lo ← ln_ratio (low b) (open b);
        Ok (hc * ho + lc * lo)) bars;
      m ← py_div (fold_left f_add ts f_zero) (f_of_Z (py_len bars));
      py_sqrt (py_max m f_zero)
  end.

Definition yang_zhang bars (k : option F) : result F :=
  let n := py_len bars in
  if (n <? 3)%Z then Ok f_zero
  else
    overnight ← mapR (fun '(a, b) => ln_ratio (open b) (close a)) (pairwise bars);
    open_close ← mapR (fun b => ln_ratio (close b) (open b)) (tail bars);
    v_overnight ← sample_var overnight;
    v_open_close ← sample_var open_close;
    rs ← rogers_satchell (tail bars);
    v_rs ← square rs;
    k ← match k with
        | Some k => Ok k
        | None => py_div (f_ratio 34 100) (f_ratio 134 100 + f_ratio (n + 1) (n - 1))
        end;
    py_sqrt (py_max (v_overnight + k * v_open_close + (f_one - k) * v_rs) f_zero).
End Ranges.

(* ------------------------------------------------------------------ *)
(** ** Close-to-close is the streaming deviation *)

Section Exact.
Context (sq lg ex : Qc -> Qc).
#[local] Hint Extern 0 (PyFloat Qc) => exact (exact_inst sq lg ex) : typeclass_instances.
Local Open Scope Qc_scope.
Implicit Types xs : list Qc.

Lemma square_exact x : square x = Ok (x * x).
Proof.
  unfold square, py_pow. assert (f_lt two f_zero = false) as -> by (vm_compute; reflexivity).
  rewrite andb_false_r. cbn [f_isfinite f_pow exact_inst exact negb andb].
  unfold Qc_pow. replace (Z.to_nat (Qfloor (two (F := Qc)))) with 2%nat by (vm_compute; reflexivity).
  cbn [Qcpower].
  f_equal. ring.
Qed.

Lemma py_div_nonzero (a b : Qc) : b <> 0 -> py_div a b = Ok (a / b).
Proof.
  intros Hb. unfold py_div. replace (f_eq b f_zero) with false; [done|].
  symmetry. apply not_true_iff_false. intros E. by apply Qc_eq_bool_correct in E.
Qed.

Lemma mapR_ok {A B} (f : A -> B) (g : A -> result B) l :
  (forall a, g a = Ok (f a)) -> mapR g l = Ok (f <$> l).
Proof. intros Hg. induction l as [|a l IH]; cbn; [done|]. by rewrite Hg, IH. Qed.

Lemma sample_var_exact xs :
  (2 <= py_len xs)%Z ->
  sample_var xs = Ok (w_m2 (two_pass sq lg ex xs) / f_of_Z (py_len xs - 1)).
Proof.
  intros Hlen. unfold sample_var. rewrite !f_sum_qsum.
  rewrite py_div_nonzero by (apply exact_of_Z_nonzero; lia). cbn [mbind result_bind].
  erewrite mapR_ok by (intros; apply square_exact). cbn [mbind result_bind].
  rewrite f_sum_qsum, py_div_nonzero by (apply exact_of_Z_nonzero; lia). done.
Qed.

Lemma ln_ratio_positive p q :
  positive_price sq lg ex p -> positive_price sq lg ex q ->
  ln_ratio p q = Ok (f_log (p / q)).
Proof.
  intros Hp Hq. unfold ln_ratio.
  assert (forall x : Qc, positive_price sq lg ex x -> f_le x f_zero = false) as Hle.
  { intros x Hx. unfold positive_price in Hx. cbn in *. by apply negb_true_iff in Hx. }
  rewrite (Hle p), (Hle q) by done. cbn [orb].
  rewrite py_div_nonzero. { cbn. unfold py_log. change f_div with Qcdiv. by rewrite (positive_ratio sq lg ex). }
  intros ->. by apply positive_price_spec in Hq.
Qed.

(** The log return of each bar's close over the one before. *)
Definition close_returns (bars : list (Bar Qc)) : list Qc :=
  (fun '(a, b) => f_log (close b / close a)) <$> pairwise bars.

Lemma mapR_returns (l : list (Bar Qc * Bar Qc)) :
  Forall (fun '(a, b) => positive_price sq lg ex (close a)
                         /\ positive_price sq lg ex (close b)) l ->
  mapR (fun '(a, b) => ln_ratio (close b) (close a)) l
  = Ok ((fun '(a, b) => f_log (close b / close a)) <$> l).
Proof.
  induction 1 as [|[a b] l [Ha Hb] _ IH]; [done|]. cbn [mapR].
  rewrite ln_ratio_positive by done. cbn [mbind result_bind]. by rewrite IH.
Qed.

(**  Two independent volatility computations agree.  Over at least three bars of
    positive closes close-to-close raises nothing its square root does not, and in
    exact arithmetic its value is the standard deviation that Welford's accumulator
    streams out of the same log returns. *)
Theorem close_to_close_is_welford (bars : list (Bar Qc)) :
  (3 <= py_len bars)%Z -> Forall (fun b => positive_price sq lg ex (close b)) bars ->
  close_to_close bars = stdev (update_many Welford_new (close_returns bars)).
Proof.
  intros Hlen Hpos. unfold close_to_close.
  rewrite (proj2 (Z.ltb_ge _ _)) by done.
  rewrite mapR_returns; [cbn [mbind result_bind]; fold (close_returns bars)|].
  - assert (py_len (close_returns bars) = py_len bars - 1)%Z as Hn.
    { unfold py_len, close_returns, pairwise in *.
      rewrite length_fmap, length_zip_with. clear Hpos.
      destruct bars; cbn [tail length] in *; lia. }
    rewrite sample_var_exact by lia. cbn [mbind result_bind].
    rewrite welford_is_two_pass. unfold stdev, variance.
    cbn [two_pass w_n]. fold (py_len (close_returns bars)).
    by rewrite (proj2 (Z.ltb_ge _ _)) by lia.
  - apply Forall_forall. intros [a b] Hab. unfold pairwise in Hab.
    rewrite Forall_forall in Hpos.
    apply list_elem_of_lookup in Hab as [i Hi]. apply lookup_zip_Some in Hi as [Ha Hb].
    rewrite lookup_tail in Hb. split; apply Hpos; by eapply list_elem_of_lookup_2.
Qed.
End Exact.

Lemma close_to_close_is_welford_witness :
  let id x : Qc := x in
  let fl := exact_inst id id id in
  let bar z : Bar Qc := bar_of (H := fl) "eurusd" 0 60 STREAM None (Q2Qc (inject_Z z)) [] in
  let bars := bar <$> [2; 3; 5; 4] in
  close_to_close (H := fl) bars
  = stdev (H := fl) (update_many (H := fl) (Welford_new (H := fl))
      (close_returns id id id bars)).
Proof.
  cbv zeta. apply close_to_close_is_welford; [by vm_compute|].
  repeat (constructor; [vm_compute; reflexivity|]). constructor.
Defined.
