(* ===== verification/Baseline.v ===== *)
(** * The reference distribution ([fx_core/alerts/baseline.py])

    An exponentially weighted mean and variance of ln(sigma), with a freeze switch
    and a snapshot, and the median-based oracle kept beside it.  In exact
    arithmetic the incremental recurrence is the weighted mean and the weighted
    variance of everything admitted. *)
From S2P Require Import Prelude PyFloat Volatility.
From Stdlib Require Import SpecFloat QArith Qcanon.

Local Open Scope Z_scope.

Section Baseline.
Context {F : Type} `{PyFloat F}.
Local Open Scope py_scope.

Definition MIN_SIGMA : F := f_ratio 1 (10 ^ 15).
Definition MIN_OBSERVATIONS : Z := 2.

(** [baseline.lambda_for_halflife]. *)
Definition baseline_lambda_for_halflife (halflife_samples : F) : result F :=
  if halflife_samples <=? f_zero then Raise ValueError
  else
    l2 ← py_log (f_of_Z 2);
    q ← py_div (f_zero - l2) halflife_samples;
    py_exp q.

Record VolatilityBaseline := {
  bl_lam : F;
  min_samples : Z;
  mean : F;
  var : F;
  n : Z;
  frozen : bool;
  debias : F;
}.

Definition VolatilityBaseline_new (l : F) (samples : Z) : result VolatilityBaseline :=
  _ ← guard_ ((f_zero <? l) && (l <? f_one))%bool ValueError;
  _ ← guard_ (negb (samples <? MIN_OBSERVATIONS)%Z) ValueError;
  Ok {| bl_lam := l; min_samples := samples; mean := f_zero; var := f_zero; n := 0;
        frozen := false; debias := f_zero |}.

Definition bl_lam_default : F := f_ratio 9942 10000.

Definition halflife (b : VolatilityBaseline) : result F :=
  a ← py_log (f_ratio 1 2);
  l ← py_log (bl_lam b);
  py_div a l.

Definition assert_separated_from (b : VolatilityBaseline) (fast_halflife min_ratio : F)
    : result unit :=
  if fast_halflife <=? f_zero then Raise ValueError
  else
    h ← halflife b;
    ratio ← py_div h fast_halflife;
    if ratio <? min_ratio then Raise ValueError else Ok tt.

(** A sigma no logarithm is taken of. *)
Definition unmeasurable (sg : F) : bool :=
  ((sg <=? MIN_SIGMA) || negb (f_isfinite sg))%bool.

(** The moments after admitting the log-volatility [x]. *)
Definition admit_log (b : VolatilityBaseline) (x : F) : VolatilityBaseline :=
  let diff := x - mean b in
  let incr := (f_one - bl_lam b) * diff in
  {| bl_lam := bl_lam b; min_samples := min_samples b;
     mean := if (n b =? 0)%Z then x else mean b + incr;
     var := if (n b =? 0)%Z then f_zero else bl_lam b * (var b + diff * incr);
     n := (n b + 1)%Z; frozen := frozen b;
     debias := bl_lam b * debias b + (f_one - bl_lam b) |}.

Definition observe (b : VolatilityBaseline) (sg : F) : result VolatilityBaseline :=
  if (frozen b || unmeasurable sg)%bool then Ok b
  else x ← py_log sg; Ok (admit_log b x).

Definition ready (b : VolatilityBaseline) : bool :=
  ((min_samples b <=? n b)%Z && (f_zero <? var b))%bool.

Definition bl_stdev (b : VolatilityBaseline) : result F :=
  if debias b <=? f_zero then py_sqrt (py_max (var b) f_zero)
  else q ← py_div (var b) (debias b); py_sqrt (py_max q f_zero).

Definition level (b : VolatilityBaseline) : result F := py_exp (mean b).

Definition bl_zscore (b : VolatilityBaseline) (sg : F) : result (option F) :=
  if (negb (ready b) || unmeasurable sg)%bool then Ok None
  else
    sd ← bl_stdev b;
    if sd <=? f_zero then Ok None
    else
      x ← py_log sg;
      z ← py_div (x - mean b) sd;
      Ok (Some z).

Definition set_frozen (b : VolatilityBaseline) (f : bool) : VolatilityBaseline :=
  {| bl_lam := bl_lam b; min_samples := min_samples b; mean := mean b; var := var b;
     n := n b; frozen := f; debias := debias b |}.

Definition freeze (b : VolatilityBaseline) : VolatilityBaseline := set_frozen b true.
Definition thaw (b : VolatilityBaseline) : VolatilityBaseline := set_frozen b false.

Definition bl_reset (b : VolatilityBaseline) : VolatilityBaseline :=
  {| bl_lam := bl_lam b; min_samples := min_samples b; mean := f_zero; var := f_zero;
     n := 0; frozen := false; debias := f_zero |}.

(** ** Rehydration *)

Record BaselineSnapshot := {
  snap_lam : F;
  snap_mean : F;
  snap_var : F;
  snap_n : Z;
  snap_debias : F;
  snap_frozen : bool;
}.

Definition baseline_snapshot (b : VolatilityBaseline) : BaselineSnapshot := {|
  snap_lam := bl_lam b; snap_mean := mean b; snap_var := var b; snap_n := n b;
  snap_debias := debias b; snap_frozen := frozen b |}.

Definition baseline_restore (s : BaselineSnapshot) (samples : Z) : result VolatilityBaseline :=
  b ← VolatilityBaseline_new (snap_lam s) samples;
  Ok {| bl_lam := bl_lam b; min_samples := min_samples b; mean := snap_mean s;
        var := snap_var s; n := snap_n s; frozen := snap_frozen s;
        debias := snap_debias s |}.

(** ** The oracle *)

Fixpoint insert_float (x : F) (l : list F) : list F :=
  match l with
  | [] => [x]
  | y :: l => if y <? x then y :: insert_float x l else x :: y :: l
  end.

Definition sorted_floats (l : list F) : list F := foldr insert_float [] l.

(** [statistics.median] of a non-empty list. *)
Definition median (l : list F) : F :=
  let s := sorted_floats l in
  let i := (length s / 2)%nat in
  let at_ j := default f_nan (s !! j) in
  if Nat.even (length s) then (at_ (i - 1)%nat + at_ i) / f_of_Z 2 else at_ i.

Definition robust_zscore (samples : list F) (sg : F) : result (option F) :=
  xs ← mapR py_log (List.filter (fun s => (MIN_SIGMA <? s) && f_isfinite s)%bool samples);
  if ((Z.of_nat (length xs) <? MIN_OBSERVATIONS)%Z || unmeasurable sg)%bool then Ok None
  else
    let med := median xs in
    let mad := median ((fun x => f_abs (x - med)) <$> xs) in
    if mad <=? f_zero then Ok None
    else
      x ← py_log sg;
      z ← py_div (f_ratio 6745 10000 * (x - med)) mad;
      Ok (Some z).
End Baseline.

Arguments VolatilityBaseline F : clear implicits.
Arguments BaselineSnapshot F : clear implicits.

(* ------------------------------------------------------------------ *)
(** ** Facts *)

Section BaselineFacts.
Context {F : Type} `{PyFloat F}.
Implicit Types b : VolatilityBaseline F.

(** Parameters a constructor has accepted. *)
Definition baseline_valid b : Prop :=
  f_lt f_zero (bl_lam b) = true /\ f_lt (bl_lam b) f_one = true /\
  MIN_OBSERVATIONS <= min_samples b.

Lemma VolatilityBaseline_new_valid l samples b :
  VolatilityBaseline_new l samples = Ok b -> baseline_valid b.
Proof. unfold VolatilityBaseline_new. intros. inv_result. boolify. by split_and!. Qed.

Lemma observe_frozen b sg : frozen b = true -> observe b sg = Ok b.
Proof. intros Hf. unfold observe. by rewrite Hf. Qed.

Lemma observe_fields b sg b' :
  observe b sg = Ok b' ->
  bl_lam b' = bl_lam b /\ min_samples b' = min_samples b /\ frozen b' = frozen b /\
  n b <= n b' <= n b + 1.
Proof.
  unfold observe. destruct (_ || _)%bool.
  - intros [= <-]. split_and!; (done || lia).
  - intros Hb. inv_result. cbn. split_and!; (done || lia).
Qed.

Lemma observe_valid b sg b' : observe b sg = Ok b' -> baseline_valid b -> baseline_valid b'.
Proof.
  intros (Hl & Hm & _)%observe_fields. unfold baseline_valid. by rewrite Hl, Hm.
Qed.

(** The snapshot loses nothing but the readiness threshold, which the restoring
    process supplies. *)
Lemma baseline_restore_snapshot b :
  baseline_valid b -> baseline_restore (baseline_snapshot b) (min_samples b) = Ok b.
Proof.
  intros (H0 & H1 & Hm). unfold baseline_restore, VolatilityBaseline_new. cbn.
  rewrite H0, H1, (proj2 (Z.ltb_ge _ _)) by done. by destruct b.
Qed.
End BaselineFacts.

(* ------------------------------------------------------------------ *)
(** ** The recurrence is the weighted mean and variance *)

Section Weighted.
Context (sq lg ex : Qc -> Qc).
#[local] Hint Extern 0 (PyFloat Qc) => exact (exact_inst sq lg ex) : typeclass_instances.
Local Open Scope Qc_scope.
Implicit Types (xs ws : list Qc) (b : VolatilityBaseline Qc).

(** The weight each of [k] observations has, the oldest first: the first one seeds
    the mean, each later one enters with [1 - l], and everything decays by [l]. *)
Fixpoint weights (l : Qc) (k : nat) : list Qc :=
  match k with
  | 0%nat => []
  | 1%nat => [1]
  | S k => (Qcmult l <$> weights l k) ++ [1 - l]
  end.

Definition weighted_sum ws xs : Qc := qsum (zip_with Qcmult ws xs).

(** The textbook weighted variance: the weighted squared deviations from the
    weighted mean. *)
Definition weighted_variance ws xs : Qc :=
  let m := weighted_sum ws xs in
  qsum (zip_with (fun w x => w * ((x - m) * (x - m))) ws xs).

Lemma weights_length l k : length (weights l k) = k.
Proof.
  induction k as [|[|k] IH]; [done..|].
  change (weights l (S (S k))) with ((Qcmult l <$> weights l (S k)) ++ [1 - l]).
  rewrite length_app, length_fmap, IH. cbn. lia.
Qed.

Lemma weights_snoc l k :
  (0 < k)%nat -> weights l (S k) = (Qcmult l <$> weights l k) ++ [1 - l].
Proof. by destruct k; [lia|]. Qed.

Lemma qsum_zip_scale l (f : Qc -> Qc) ws xs :
  qsum (zip_with (fun w x => w * f x) (Qcmult l <$> ws) xs)
  = l * qsum (zip_with (fun w x => w * f x) ws xs).
Proof.
  revert xs. induction ws as [|w ws IH]; intros [|x xs];
    try (change (qsum (zip_with _ _ _)) with 0; change (qsum []) with 0; ring).
  rewrite fmap_cons. cbn [zip_with]. rewrite !qsum_cons, IH. ring.
Qed.

Lemma qsum_zip_decay l (f : Qc -> Qc) xs x :
  xs <> [] ->
  qsum (zip_with (fun w x => w * f x) (weights l (length (xs ++ [x]))) (xs ++ [x]))
  = l * qsum (zip_with (fun w x => w * f x) (weights l (length xs)) xs) + (1 - l) * f x.
Proof.
  intros Hxs. rewrite length_app, Nat.add_1_r, weights_snoc by (destruct xs; cbn; [done|lia]).
  rewrite zip_with_app by (by rewrite length_fmap, weights_length).
  rewrite qsum_app, qsum_zip_scale. cbn [zip_with]. by rewrite qsum_singleton.
Qed.

Definition moment l (f : Qc -> Qc) xs : Qc :=
  qsum (zip_with (fun w x => w * f x) (weights l (length xs)) xs).

Lemma moment_one l xs : xs <> [] -> moment l (fun _ => 1) xs = 1.
Proof.
  unfold moment. induction xs as [|x xs IH] using rev_ind; [done|]. intros _.
  destruct (decide (xs = [])) as [->|Hxs].
  - cbn [app length weights zip_with]. rewrite qsum_singleton. ring.
  - rewrite qsum_zip_decay, IH by done. ring.
Qed.

Lemma qsum_zip_variance m ws xs :
  length ws = length xs ->
  qsum (zip_with (fun w x => w * ((x - m) * (x - m))) ws xs)
  = qsum (zip_with (fun w x => w * (x * x)) ws xs)
    - m * qsum (zip_with (fun w x => w * x) ws xs)
    - m * qsum (zip_with (fun w x => w * x) ws xs)
    + m * m * qsum (zip_with (fun w x => w * 1) ws xs).
Proof.
  revert xs. induction ws as [|w ws IH]; intros [|x xs] Hl; try done.
  - cbn [zip_with]. change (qsum []) with 0. ring.
  - injection Hl as Hl. cbn [zip_with]. rewrite !qsum_cons, IH by done. ring.
Qed.

Lemma weighted_variance_moments l xs :
  xs <> [] ->
  weighted_variance (weights l (length xs)) xs
  = moment l (fun x => x * x) xs - moment l (fun x => x) xs * moment l (fun x => x) xs.
Proof.
  intros Hxs. unfold weighted_variance. rewrite qsum_zip_variance by apply weights_length.
  change (weighted_sum _ xs) with (moment l (fun x => x) xs).
  fold (moment l (fun x => x * x) xs) (moment l (fun x => x) xs) (moment l (fun _ => 1) xs).
  rewrite moment_one by done. ring.
Qed.

Definition admit_logs b xs : VolatilityBaseline Qc := fold_left admit_log xs b.

Lemma admit_logs_snoc b xs x : admit_logs b (xs ++ [x]) = admit_log (admit_logs b xs) x.
Proof. apply fold_left_snoc. Qed.

Lemma admit_logs_n b xs :
  n (admit_logs b xs) = (n b + Z.of_nat (length xs))%Z /\ bl_lam (admit_logs b xs) = bl_lam b.
Proof.
  induction xs as [|x xs [IHn IHl]] using rev_ind; [split; [cbn; lia|done]|].
  rewrite admit_logs_snoc, length_app. cbn [admit_log n bl_lam length].
  rewrite IHn, IHl. split; [lia|done].
Qed.

Definition Qc_power (l : Qc) (k : nat) : Qc := Nat.iter k (Qcmult l) 1.

Lemma admit_logs_moments b xs :
  n b = 0%Z -> xs <> [] ->
  mean (admit_logs b xs) = moment (bl_lam b) (fun x => x) xs /\
  var (admit_logs b xs) = moment (bl_lam b) (fun x => x * x) xs
    - moment (bl_lam b) (fun x => x) xs * moment (bl_lam b) (fun x => x) xs.
Proof.
  intros Hn. induction xs as [|x xs IH] using rev_ind; [done|]. intros _.
  rewrite admit_logs_snoc. destruct (admit_logs_n b xs) as [En El].
  unfold admit_log. cbn [mean var]. rewrite El, En, Hn.
  destruct (decide (xs = [])) as [->|Hxs].
  - unfold moment. cbn [app length weights zip_with].
    change (0 + Z.of_nat 0 =? 0)%Z with true. cbv iota.
    rewrite !qsum_singleton. change (@f_zero Qc _) with 0. split; ring.
  - destruct (IH Hxs) as [Hm Hv]. rewrite (proj2 (Z.eqb_neq _ _))
      by (destruct xs; cbn; [done|lia]).
    rewrite Hm, Hv. unfold moment. rewrite !qsum_zip_decay by done.
    change (@f_one Qc _) with 1. change f_add with Qcplus.
    change f_sub with Qcminus. change f_mul with Qcmult. split; ring.
Qed.

Lemma admit_logs_debias b xs :
  debias b = 0 -> debias (admit_logs b xs) = 1 - Qc_power (bl_lam b) (length xs).
Proof.
  intros Hd. induction xs as [|x xs IH] using rev_ind.
  - change (debias b = 1 - 1). rewrite Hd. ring.
  - rewrite admit_logs_snoc. destruct (admit_logs_n b xs) as [_ El].
    unfold admit_log. cbn [debias]. rewrite El, IH, length_app, Nat.add_1_r.
    change (Qc_power (bl_lam b) (S (length xs)))
      with (bl_lam b * Qc_power (bl_lam b) (length xs)).
    change (@f_one Qc _) with 1. change f_add with Qcplus.
    change f_sub with Qcminus. change f_mul with Qcmult. ring.
Qed.

Lemma weights_sum l k : (0 < k)%nat -> qsum (weights l k) = 1.
Proof.
  induction k as [|[|k] IH]; intros Hk; [lia|apply qsum_singleton|].
  rewrite weights_snoc, qsum_app, qsum_singleton by lia.
  assert (forall ws, qsum (Qcmult l <$> ws) = l * qsum ws) as ->.
  { intros ws. induction ws as [|w ws IHw]; [change (qsum []) with 0; cbn [fmap list_fmap];
      change (qsum []) with 0; ring|]. rewrite fmap_cons, !qsum_cons, IHw. ring. }
  rewrite IH by lia. ring.
Qed.

(** The incremental recurrence is the weighted mean and variance.  After any
    non-empty sequence of log-volatilities a fresh baseline holds, exactly, their
    weighted mean and weighted variance under the decaying weights, which sum to
    one, and the debiasing factor is one minus the decay of the start. *)
Theorem baseline_is_weighted b xs :
  n b = 0%Z -> debias b = 0 -> xs <> [] ->
  let ws := weights (bl_lam b) (length xs) in
  let b' := admit_logs b xs in
  qsum ws = 1 /\ mean b' = weighted_sum ws xs /\ var b' = weighted_variance ws xs /\
  debias b' = 1 - Qc_power (bl_lam b) (length xs).
Proof.
  intros Hn Hd Hxs ws b'. destruct (admit_logs_moments b xs Hn Hxs) as [Hm Hv].
  split_and!.
  - apply weights_sum. destruct xs; cbn; [done|lia].
  - exact Hm.
  - unfold b'. by rewrite Hv, <- weighted_variance_moments.
  - by apply admit_logs_debias.
Qed.
End Weighted.

Definition demo_baseline : VolatilityBaseline Qc := {|
  bl_lam := Qcdiv (Q2Qc (inject_Z 1)) (Q2Qc (inject_Z 2)); min_samples := 30;
  mean := Q2Qc (inject_Z 0); var := Q2Qc (inject_Z 0); n := 0; frozen := false;
  debias := Q2Qc (inject_Z 0) |}.

Definition demo_logs : list Qc := Q2Qc ∘ inject_Z <$> [1; 3; 2].

Lemma baseline_is_weighted_witness :
  let id x : Qc := x in
  let ws := weights (bl_lam demo_baseline) 3 in
  let b' := admit_logs id id id demo_baseline demo_logs in
  qsum ws = 1%Qc /\ mean b' = weighted_sum ws demo_logs /\
  var b' = weighted_variance ws demo_logs /\
  debias b' = Qcminus 1%Qc (Qc_power (bl_lam demo_baseline) 3).
Proof.
  exact (baseline_is_weighted (fun x => x) (fun x => x) (fun x => x)
    demo_baseline demo_logs eq_refl eq_refl ltac:(done)).
Defined.
