(* ===== verification/Seasonality.v ===== *)
(** * Hour-of-day normalisation ([fx_core/alerts/seasonality.py])

    Twenty-four exponentially weighted means of ln(sigma), one per UTC hour, and
    the multiplicative factor an hour has relative to the average of the learned
    hours.  The two lists are indexed by the hour; every constructor gives them 24
    entries. *)
From S2P Require Import Prelude PyFloat Volatility Baseline.
From Stdlib Require Import SpecFloat QArith Qcanon.

Local Open Scope Z_scope.

Definition HOURS : Z := 24.

Section Seasonality.
Context {F : Type} `{PyFloat F}.
Local Open Scope py_scope.

Record DiurnalProfile := {
  dp_lam : F;
  dp_min_samples : Z;
  min_ready_hours : Z;
  clamp : F * F;
  hour_mean : list F;
  hour_n : list Z;
}.

Definition DiurnalProfile_new (l : F) (samples ready_hours : Z) (cl : F * F)
    : result DiurnalProfile :=
  _ ← guard_ ((f_zero <? l) && (l <? f_one))%bool ValueError;
  _ ← guard_ ((1 <=? ready_hours)%Z && (ready_hours <=? HOURS)%Z) ValueError;
  _ ← guard_ ((f_zero <? fst cl) && (fst cl <? f_one) && (f_one <? snd cl))%bool ValueError;
  Ok {| dp_lam := l; dp_min_samples := samples; min_ready_hours := ready_hours;
        clamp := cl; hour_mean := replicate 24 f_zero; hour_n := replicate 24 0%Z |}.

Definition clamp_default : F * F := (f_ratio 1 4, f_of_Z 4).
Definition dp_lam_default : F := f_ratio 99885 100000.

Definition set_hour (p : DiurnalProfile) (hour : Z) (m : F) (k : Z) : DiurnalProfile :=
  {| dp_lam := dp_lam p; dp_min_samples := dp_min_samples p;
     min_ready_hours := min_ready_hours p; clamp := clamp p;
     hour_mean := <[Z.to_nat hour := m]> (hour_mean p);
     hour_n := <[Z.to_nat hour := k]> (hour_n p) |}.

(** One hour's mean and count after the log-volatility [x]. *)
Definition admit_hour (l : F) (m : F) (k : Z) (x : F) : F * Z :=
  (if (k =? 0)%Z then x else m + (f_one - l) * (x - m), (k + 1)%Z).

Definition dp_observe (p : DiurnalProfile) (sg : F) (hour : Z) : result DiurnalProfile :=
  if unmeasurable sg then Ok p
  else
    _ ← guard_ ((0 <=? hour)%Z && (hour <? HOURS)%Z) ValueError;
    x ← py_log sg;
    k ← py_index (hour_n p) hour;
    m ← py_index (hour_mean p) hour;
    let mk := admit_hour (dp_lam p) m k x in
    Ok (set_hour p hour (fst mk) (snd mk)).

(** The means of the hours that have enough samples, in hour order. *)
Definition learned (p : DiurnalProfile) : list F :=
  fst <$> List.filter (fun '(_, k) => (dp_min_samples p <=? k)%Z)
            (zip (hour_mean p) (hour_n p)).

Definition reference_level (p : DiurnalProfile) : result (option F) :=
  let ls := learned p in
  if (Z.of_nat (length ls) <? min_ready_hours p)%Z then Ok None
  else r ← py_div (f_sum ls) (f_of_Z (Z.of_nat (length ls))); Ok (Some r).

Definition dp_ready (p : DiurnalProfile) (hour : Z) : result bool :=
  k ← py_index (hour_n p) hour;
  if (dp_min_samples p <=? k)%Z then
    r ← reference_level p; Ok (bool_decide (r <> None))
  else Ok false.

Definition clamped (cl : F * F) (x : F) : F := py_min (py_max x (fst cl)) (snd cl).

Definition factor (p : DiurnalProfile) (hour : Z) : result F :=
  r ← reference_level p;
  match r with
  | None => Ok f_one
  | Some reference =>
      k ← py_index (hour_n p) hour;
      if (k <? dp_min_samples p)%Z then Ok f_one
      else
        m ← py_index (hour_mean p) hour;
        e ← py_exp (m - reference);
        Ok (clamped (clamp p) e)
  end.

Definition deseasonalize (p : DiurnalProfile) (sg : F) (hour : Z) : result F :=
  f ← factor p hour; py_div sg f.

Definition hours_of_day : list Z := Z.of_nat <$> seq 0 24.

Definition learned_hours (p : DiurnalProfile) : result Z :=
  rs ← mapR (dp_ready p) hours_of_day;
  Ok (Z.of_nat (length (List.filter (fun r => r) rs))).

Definition factors (p : DiurnalProfile) : result (list F) :=
  mapR (factor p) hours_of_day.

(** ** Rehydration *)

Record DiurnalSnapshot := {
  ds_lam : F;
  ds_hour_mean : list F;
  ds_hour_n : list Z;
}.

Definition profile_snapshot (p : DiurnalProfile) : DiurnalSnapshot :=
  {| ds_lam := dp_lam p; ds_hour_mean := hour_mean p; ds_hour_n := hour_n p |}.

(** [restore] gives the clamp its default. *)
Definition profile_restore (s : DiurnalSnapshot) (samples ready_hours : Z)
    : result DiurnalProfile :=
  if (negb (Z.of_nat (length (ds_hour_mean s)) =? HOURS)%Z
      || negb (Z.of_nat (length (ds_hour_n s)) =? HOURS)%Z)%bool
  then Raise ValueError
  else
    p ← DiurnalProfile_new (ds_lam s) samples ready_hours clamp_default;
    Ok {| dp_lam := dp_lam p; dp_min_samples := dp_min_samples p;
          min_ready_hours := min_ready_hours p; clamp := clamp p;
          hour_mean := ds_hour_mean s; hour_n := ds_hour_n s |}.
End Seasonality.

Arguments DiurnalProfile F : clear implicits.
Arguments DiurnalSnapshot F : clear implicits.

(* ------------------------------------------------------------------ *)
(** ** Facts *)

Section ProfileFacts.
Context {F : Type} `{PyFloat F}.
Implicit Types (p : DiurnalProfile F).

(** What the constructor establishes and every operation keeps. *)
Definition profile_wf p : Prop :=
  length (hour_mean p) = 24%nat /\ length (hour_n p) = 24%nat /\
  f_lt f_zero (dp_lam p) = true /\ f_lt (dp_lam p) f_one = true /\
  1 <= min_ready_hours p <= HOURS /\
  f_lt f_zero (fst (clamp p)) = true /\ f_lt (fst (clamp p)) f_one = true /\
  f_lt f_one (snd (clamp p)) = true.

Lemma DiurnalProfile_new_wf l samples ready_hours cl p :
  DiurnalProfile_new l samples ready_hours cl = Ok p -> profile_wf p.
Proof. unfold DiurnalProfile_new. intros. inv_result. boolify. by split_and!. Qed.

Lemma dp_observe_fields p sg hour p' :
  dp_observe p sg hour = Ok p' ->
  dp_lam p' = dp_lam p /\ dp_min_samples p' = dp_min_samples p /\
  min_ready_hours p' = min_ready_hours p /\ clamp p' = clamp p /\
  length (hour_mean p') = length (hour_mean p) /\ length (hour_n p') = length (hour_n p).
Proof.
  unfold dp_observe. destruct (unmeasurable sg); [by intros [= <-]|].
  intros. inv_result. cbn. by rewrite !length_insert.
Qed.

Lemma dp_observe_wf p sg hour p' :
  dp_observe p sg hour = Ok p' -> profile_wf p -> profile_wf p'.
Proof.
  intros (H1 & H2 & H3 & H4 & H5 & H6)%dp_observe_fields. unfold profile_wf.
  by rewrite H1, H3, H4, H5, H6.
Qed.

(** Where an hour stands. *)
Definition hour_state p (h : nat) : option (F * Z) :=
  match hour_mean p !! h, hour_n p !! h with
  | Some m, Some k => Some (m, k)
  | _, _ => None
  end.

Lemma hour_state_some p h :
  profile_wf p -> (h < 24)%nat -> exists m k, hour_state p h = Some (m, k)
    /\ py_index (hour_mean p) (Z.of_nat h) = Ok m /\ py_index (hour_n p) (Z.of_nat h) = Ok k.
Proof.
  intros (Hm & Hk & _) Hh. unfold hour_state.
  destruct (lookup_lt_is_Some_2 (hour_mean p) h) as [m Em]; [lia|].
  destruct (lookup_lt_is_Some_2 (hour_n p) h) as [k Ek]; [lia|].
  exists m, k. rewrite Em, Ek.
  split_and!; [done|apply py_index_ok; [lia|by rewrite Nat2Z.id]..].
Qed.

(** The snapshot round trip, for the default clamp [restore] assumes. *)
Lemma profile_restore_snapshot p :
  profile_wf p -> clamp p = clamp_default ->
  profile_restore (profile_snapshot p) (dp_min_samples p) (min_ready_hours p) = Ok p.
Proof.
  intros (Hm & Hk & H0 & H1 & [Hr1 Hr2] & Hc1 & Hc2 & Hc3) Hc.
  unfold profile_restore, DiurnalProfile_new. rewrite <- Hc.
  cbn [profile_snapshot ds_lam ds_hour_mean ds_hour_n]. rewrite Hm, Hk. cbn.
  rewrite H0, H1, (proj2 (Z.leb_le _ _) Hr1), (proj2 (Z.leb_le _ _) Hr2), Hc1, Hc2, Hc3. by destruct p.
Qed.
End ProfileFacts.

(* ------------------------------------------------------------------ *)
(** ** The factor *)

Section Factor.
Context {F : Type} `{PyFloat F, !PyFloatOrder F}.
Implicit Types (p : DiurnalProfile F).

Definition within (cl : F * F) (f : F) : Prop :=
  f_le (fst cl) f = true /\ f_le f (snd cl) = true.

Lemma clamped_within cl x :
  f_lt (fst cl) (snd cl) = true -> f_isnan x = false -> within cl (clamped cl x).
Proof.
  intros Hcl Hx. unfold clamped, within.
  destruct (f_lt_not_nan _ _ Hcl) as [Hlo Hhi].
  destruct (le_py_max x (fst cl) Hx Hlo) as [_ Hm].
  pose proof (f_le_not_nan _ _ Hm) as [_ Hnm].
  destruct (py_min_le _ _ Hnm Hhi) as [Hp Hq]. split; [|done].
  destruct (py_min_cases (py_max x (fst cl)) (snd cl)) as [-> | ->]; [done|by apply f_lt_le].
Qed.

(** A NaN passes through the clamp: no comparison with it holds. *)
Lemma clamped_nan cl x : f_isnan x = true -> clamped cl x = x.
Proof.
  intros Hx. unfold clamped, py_max, py_min.
  destruct (f_lt x (fst cl)) eqn:E1; [apply f_lt_not_nan in E1 as [??]; congruence|].
  destruct (f_lt (snd cl) x) eqn:E2; [apply f_lt_not_nan in E2 as [??]; congruence|done].
Qed.

Lemma wf_clamp p : profile_wf p -> f_lt (fst (clamp p)) (snd (clamp p)) = true.
Proof. intros (_ & _ & _ & _ & _ & _ & H1 & H2). by eapply f_lt_trans. Qed.

Lemma above_positive_nonzero a b :
  f_lt f_zero a = true -> (f_isnan b = false -> f_le a b = true) -> f_eq b f_zero = false.
Proof.
  intros Ha Hb. apply not_true_iff_false. intros E%f_eq_le.
  pose proof (f_le_not_nan _ _ E) as [Hnb _].
  pose proof (f_lt_le_trans _ _ _ Ha (Hb Hnb)) as Hlt.
  apply f_lt_nle in Hlt. congruence.
Qed.

Lemma learned_length p : profile_wf p -> Z.of_nat (length (learned p)) <= HOURS.
Proof.
  intros (Hm & Hn & _). unfold learned, HOURS. rewrite length_fmap.
  pose proof (List.filter_length_le (fun '(_, k) => dp_min_samples p <=? k)
    (zip (hour_mean p) (hour_n p))) as Hl.
  rewrite length_zip_with, Hm, Hn in Hl. lia.
Qed.

Lemma reference_level_ok p :
  profile_wf p -> (forall z, 0 < z <= HOURS -> f_eq (f_of_Z z) f_zero = false) ->
  exists r, reference_level p = Ok r.
Proof.
  intros Hwf Hz. pose proof (learned_length p Hwf) as Hl.
  destruct Hwf as (_ & _ & _ & _ & Hr & _). unfold reference_level.
  destruct (Z.ltb_spec (Z.of_nat (length (learned p))) (min_ready_hours p)); [eauto|].
  unfold py_div. rewrite Hz by lia. cbn. eauto.
Qed.

(** No hour's factor can blow up a score.  Over a well-formed profile the
    factor of an hour of the day is computed unless [math.exp] overflows; it is
    exactly 1.0 while the hour or the profile is unlearned, and otherwise lies
    within the clamp unless it is NaN; either way it is not zero, so dividing by it
    never raises. *)
Theorem factor_clamped p hour sg :
  profile_wf p -> 0 <= hour < HOURS ->
  (forall z, 0 < z <= HOURS -> f_eq (f_of_Z z) f_zero = false) ->
  match factor p hour with
  | Ok f => (f = f_one \/ f_isnan f = true \/ within (clamp p) f)
            /\ deseasonalize p sg hour = Ok (f_div sg f)
  | Raise e => e = OverflowError
  end.
Proof.
  intros Hwf Hh Hz. unfold deseasonalize.
  assert (f_eq f_one f_zero = false) as H1 by (apply (Hz 1); done).
  destruct (factor p hour) as [f|e] eqn:Ef; unfold factor in Ef;
    destruct (reference_level_ok p Hwf Hz) as [[r|] Er]; rewrite Er in Ef;
    cbn [mbind result_bind] in *; try done;
    destruct (hour_state_some p (Z.to_nat hour) Hwf) as (m & k & _ & Em & Ek);
    try (unfold HOURS in *; lia); rewrite ?Z2Nat.id in * by lia.
  - rewrite Ek in Ef. cbn in Ef. assert (f = f_one \/ f_isnan f = true \/ within (clamp p) f) as Hf.
    { destruct (k <? _); [left; congruence|]. rewrite Em in Ef. cbn in Ef.
      apply bind_ok in Ef as (x & _ & [= <-]). right.
      destruct (f_isnan x) eqn:Ex; [left; by rewrite clamped_nan|right].
      apply clamped_within; [by apply wf_clamp|done]. }
    split; [done|]. unfold py_div. pose proof (wf_clamp p Hwf) as Hcl.
    destruct Hwf as (_ & _ & _ & _ & _ & Hlo & _ & _).
    destruct Hf as [->|Hf]; [by rewrite H1|].
    rewrite (above_positive_nonzero (fst (clamp p))); [done..|].
    intros Hn. destruct Hf as [|[? _]]; congruence.
  - injection Ef as <-. split; [by left|]. unfold py_div. by rewrite H1.
  - rewrite Ek in Ef. cbn in Ef. destruct (k <? _); [done|]. rewrite Em in Ef. cbn in Ef.
    apply bind_raise in Ef as [Ef|(x & _ & Ef)]; [|done].
    unfold py_exp in Ef. destruct (_ && _)%bool; congruence.
Qed.
End Factor.

(* ------------------------------------------------------------------ *)
(** ** Hours do not interfere *)

Section Hours.
Context {F : Type} `{PyFloat F}.
Implicit Types (p : DiurnalProfile F) (obs : list (F * Z)).

Fixpoint observe_all p obs : result (DiurnalProfile F) :=
  match obs with
  | [] => Ok p
  | (sg, hour) :: obs => p ← dp_observe p sg hour; observe_all p obs
  end.

(** What the samples of one hour do to its mean and count. *)
Definition admit_sigma (l : F) (mk : F * Z) (sg : F) : F * Z :=
  if unmeasurable sg then mk
  else match py_log sg with Ok x => admit_hour l (fst mk) (snd mk) x | Raise _ => mk end.

Definition samples_of (hour : Z) obs : list F :=
  fst <$> List.filter (fun '(_, h) => h =? hour) obs.

Lemma dp_observe_hour p sg hour p' h mk :
  dp_observe p sg hour = Ok p' -> hour_state p h = Some mk -> 0 <= hour ->
  hour_state p' h = Some (if hour =? Z.of_nat h then admit_sigma (dp_lam p) mk sg else mk).
Proof.
  unfold dp_observe, admit_sigma, hour_state.
  destruct (unmeasurable sg); [intros [= <-] -> _; by destruct (_ =? _)|].
  intros Ho Hh Hhour. inv_result. boolify.
  destruct (hour_mean p !! h) as [m|] eqn:Em; [|done].
  destruct (hour_n p !! h) as [k|] eqn:Ek; [|done]. injection Hh as <-.
  repeat match goal with H : py_log sg = _ |- _ => rewrite H; clear H end.
  cbn [hour_mean hour_n set_hour fst snd].
  destruct (Z.eqb_spec hour (Z.of_nat h)) as [->|Hne].
  - rewrite Nat2Z.id, !list_lookup_insert_eq
      by (by eapply lookup_lt_Some).
    rewrite (py_index_ok (hour_n p) _ k) in * by (rewrite ?Nat2Z.id; done || lia).
    rewrite (py_index_ok (hour_mean p) _ m) in * by (rewrite ?Nat2Z.id; done || lia).
    by inv_result.
  - rewrite !list_lookup_insert_ne by (intros E; apply Hne; lia). by rewrite Em, Ek.
Qed.

Lemma observe_all_hour obs p p' h mk :
  observe_all p obs = Ok p' -> hour_state p h = Some mk -> Forall (fun o => 0 <= snd o) obs ->
  hour_state p' h = Some (fold_left (admit_sigma (dp_lam p)) (samples_of (Z.of_nat h) obs) mk).
Proof.
  revert p mk. induction obs as [|[sg hour] obs IH]; intros p mk Ho Hh Hall.
  { by injection Ho as <-. }
  cbn [observe_all] in Ho. apply bind_ok in Ho as (p1 & H1 & Ho).
  apply Forall_cons in Hall as [Hhour Hall]. cbn in Hhour.
  pose proof (dp_observe_hour _ _ _ _ _ _ H1 Hh Hhour) as Hh1.
  apply dp_observe_fields in H1 as (Hl & _).
  rewrite (IH _ _ Ho Hh1 Hall), Hl. unfold samples_of. cbn.
  by destruct (hour =? Z.of_nat h).
Qed.

Lemma observe_all_fields obs p p' :
  observe_all p obs = Ok p' ->
  dp_lam p' = dp_lam p /\ dp_min_samples p' = dp_min_samples p /\
  min_ready_hours p' = min_ready_hours p /\ clamp p' = clamp p /\
  length (hour_mean p') = length (hour_mean p) /\ length (hour_n p') = length (hour_n p).
Proof.
  revert p. induction obs as [|[sg hour] obs IH]; intros p Ho; [by injection Ho as <-|].
  cbn in Ho. apply bind_ok in Ho as (p1 & H1 & Ho).
  apply dp_observe_fields in H1 as (E1 & E2 & E3 & E4 & E5 & E6).
  apply IH in Ho as (-> & -> & -> & -> & -> & ->). by split_and!.
Qed.

Lemma profile_ext p q :
  dp_lam p = dp_lam q -> dp_min_samples p = dp_min_samples q ->
  min_ready_hours p = min_ready_hours q -> clamp p = clamp q ->
  length (hour_mean p) = 24%nat -> length (hour_n p) = 24%nat ->
  length (hour_mean q) = 24%nat -> length (hour_n q) = 24%nat ->
  (forall h, (h < 24)%nat -> hour_state p h = hour_state q h) -> p = q.
Proof.
  intros E1 E2 E3 E4 L1 L2 L3 L4 Hst. destruct p, q; cbn in *; subst.
  assert (forall h, (h < 24)%nat ->
    hour_mean0 !! h = hour_mean1 !! h /\ hour_n0 !! h = hour_n1 !! h) as Hh.
  { intros h Hh. specialize (Hst h Hh). unfold hour_state in Hst. cbn in Hst.
    destruct (lookup_lt_is_Some_2 hour_mean0 h) as [m Em]; [lia|].
    destruct (lookup_lt_is_Some_2 hour_n0 h) as [k Ek]; [lia|].
    destruct (lookup_lt_is_Some_2 hour_mean1 h) as [m' Em']; [lia|].
    destruct (lookup_lt_is_Some_2 hour_n1 h) as [k' Ek']; [lia|].
    rewrite Em, Ek, Em', Ek' in *. by injection Hst as -> ->. }
  f_equal; apply list_eq; intros h; (destruct (decide (h < 24)%nat);
    [by apply Hh|rewrite !lookup_ge_None_2 by lia; done]).
Qed.

(**  The hour buckets do not interfere.  Two streams of samples that agree hour
    by hour - each hour sees the same samples in the same order - leave the same
    profile, however the hours are interleaved; so the reference level is biased by
    no arrival order. *)
Theorem interleaving_irrelevant p obs obs' q q' :
  profile_wf p -> Forall (fun o => 0 <= snd o) (obs ++ obs') ->
  (forall hour, samples_of hour obs = samples_of hour obs') ->
  observe_all p obs = Ok q -> observe_all p obs' = Ok q' -> q = q'.
Proof.
  intros Hwf Hall Hsame Hq Hq'. pose proof Hwf as (Lm & Ln & _). apply Forall_app in Hall as [Hall Hall'].
  destruct (observe_all_fields _ _ _ Hq) as (E1 & E2 & E3 & E4 & E5 & E6).
  destruct (observe_all_fields _ _ _ Hq') as (E1' & E2' & E3' & E4' & E5' & E6').
  apply profile_ext; try congruence.
  intros h Hh. destruct (hour_state_some p h) as (m & k & Hst & _); [done..|].
  by rewrite (observe_all_hour _ _ _ _ _ Hq Hst Hall),
    (observe_all_hour _ _ _ _ _ Hq' Hst Hall'), Hsame.
Qed.
End Hours.

(* ------------------------------------------------------------------ *)
(** ** The factors are self-normalising *)

Section GeometricMean.
Context (sq lg ex : Qc -> Qc).
#[local] Hint Extern 0 (PyFloat Qc) => exact (exact_inst sq lg ex) : typeclass_instances.
Local Open Scope Qc_scope.

Lemma qsum_minus c (xs : list Qc) :
  qsum ((fun x => x - c) <$> xs) = qsum xs - f_of_Z (Z.of_nat (length xs)) * c.
Proof.
  fold (qlen sq lg ex xs). induction xs as [|x xs IH].
  - change (qlen sq lg ex []) with 0. change (qsum []) with 0.
    cbn [fmap list_fmap]. change (qsum []) with 0. ring.
  - rewrite fmap_cons, !qsum_cons, IH, qlen_cons. ring.
Qed.

(**  The factors are self-normalising.  Whenever there is a reference level, the
    logarithms of the learned hours' factors - their means less the reference -
    sum to exactly zero: the factors' geometric mean is one, and deseasonalising
    does not shift the overall level. *)
Theorem log_factors_sum_to_zero (p : DiurnalProfile Qc) r :
  (1 <= min_ready_hours p)%Z -> reference_level p = Ok (Some r) ->
  qsum ((fun m => m - r) <$> learned p) = 0.
Proof.
  intros Hmin Hr. unfold reference_level in Hr.
  destruct (Z.ltb_spec (Z.of_nat (length (learned p))) (min_ready_hours p)); [done|].
  apply bind_ok in Hr as (r' & Hr & [= <-]). unfold py_div in Hr.
  destruct (f_eq _ _); [done|]. injection Hr as <-.
  rewrite qsum_minus, f_sum_qsum. change f_div with Qcdiv.
  change (@f_of_Z Qc (exact_inst sq lg ex)) with (fun z => Q2Qc (inject_Z z)). cbv beta.
  field. apply (exact_of_Z_nonzero sq lg ex). lia.
Qed.
End GeometricMean.

(* ------------------------------------------------------------------ *)
(** ** Concrete instances *)

#[local] Existing Instance plain64.

(** Sixteen learned hours; hour 3 is five times the level of the others' logs. *)
Definition demo_profile : DiurnalProfile spec_float := {|
  dp_lam := dp_lam_default; dp_min_samples := 120; min_ready_hours := 12;
  clamp := clamp_default;
  hour_mean := <[3%nat := f_of_Z 5]> (replicate 24 f_one);
  hour_n := replicate 16 200 ++ replicate 8 7 |}.

Lemma demo_profile_wf : profile_wf demo_profile.
Proof. split_and!; try (vm_compute; reflexivity); vm_compute; congruence. Qed.

Lemma hours_nonzero z : 0 < z <= HOURS -> f_eq (F := spec_float) (f_of_Z z) f_zero = false.
Proof.
  intros Hz. assert (z ∈ hours_of_day \/ z = 24) as Hin.
  { unfold HOURS in Hz. destruct (decide (z = 24)); [by right|left].
    apply list_elem_of_fmap. exists (Z.to_nat z). rewrite elem_of_seq. lia. }
  assert (Forall (fun z => z = 0 \/ f_eq (F := spec_float) (f_of_Z z) f_zero = false)
    hours_of_day) as Hall.
  { cbn [hours_of_day seq fmap list_fmap]. 
    repeat (constructor; [first [by left|right; vm_compute; reflexivity]|]). constructor. }
  destruct Hin as [Hin| ->]; [|by vm_compute].
  rewrite Forall_forall in Hall. destruct (Hall z Hin); [lia|done].
Qed.

Lemma factor_clamped_witness :
  match factor demo_profile 3 with
  | Ok f => (f = f_one \/ sf_isnan f = true \/ within (clamp demo_profile) f)
            /\ deseasonalize demo_profile f_one 3 = Ok (f_div f_one f)
  | Raise e => e = OverflowError
  end.
Proof.
  apply (factor_clamped (PyFloatOrder0 := binary64_order _ _ _) demo_profile 3 f_one
    demo_profile_wf); [done|apply hours_nonzero].
Defined.

Definition demo_samples : list (spec_float * Z) :=
  [(f_of_Z 1, 7); (f_of_Z 2, 13); (f_of_Z 3, 7)].
Definition demo_samples' : list (spec_float * Z) :=
  [(f_of_Z 2, 13); (f_of_Z 1, 7); (f_of_Z 3, 7)].

Lemma interleaving_irrelevant_witness :
  match observe_all demo_profile demo_samples, observe_all demo_profile demo_samples' with
  | Ok q, Ok q' => q = q'
  | _, _ => False
  end.
Proof.
  destruct (observe_all demo_profile demo_samples) as [q|] eqn:E; [|by vm_compute in E].
  destruct (observe_all demo_profile demo_samples') as [q'|] eqn:E'; [|by vm_compute in E'].
  apply (interleaving_irrelevant demo_profile demo_samples demo_samples');
    [exact demo_profile_wf|repeat constructor; done| |done|done].
  intros hour. unfold samples_of. cbn [List.filter demo_samples demo_samples'].
  destruct (Z.eqb_spec 7 hour), (Z.eqb_spec 13 hour); try lia; reflexivity.
Defined.

Definition exact_profile : DiurnalProfile Qc :=
  let q z := Q2Qc (inject_Z z) in
  {| dp_lam := q 0; dp_min_samples := 2; min_ready_hours := 3;
     clamp := (q 0, q 4); hour_mean := q <$> [5; 7; 100; 3]; hour_n := [2; 9; 1; 4] |}.

Lemma log_factors_sum_to_zero_witness :
  let id x : Qc := x in
  match reference_level (H := exact_inst id id id) exact_profile with
  | Ok (Some r) => qsum ((fun m => Qcminus m r) <$> learned exact_profile) = 0%Qc
  | _ => False
  end.
Proof.
  cbv zeta. destruct (reference_level _) as [[r|]|] eqn:E; [|by vm_compute in E..].
  apply (log_factors_sum_to_zero (fun x => x) (fun x => x) (fun x => x)); [done|exact E].
Defined.
