(* ===== verification/Calendar.v ===== *)
(** * The FX week ([fx_core/calendar/fx_sessions.py])

    The market is open from Sunday 17:00 to Friday 17:00 New York time.  The zone
    database is not part of the program: [NewYork] is what the calendar uses of
    [ZoneInfo("America/New_York")], with what it relies on at the week's
    boundaries.  A wall clock reading is a number of microseconds, like a
    [datetime], but read off a New York clock. *)
From S2P Require Import Prelude PyFloat Civil.

Local Open Scope Z_scope.

Definition DAY : Z := Eval cbv in days 1.
Definition WEEK : Z := Eval cbv in days 7.

(** [datetime.weekday()]: Monday is 0. *)
Definition wall_weekday (w : Z) : Z := (w / DAY + 3) mod 7.
Definition wall_time (w : Z) : Z := w mod DAY.

Definition WEEK_OPEN_DAY : Z := 6.
Definition WEEK_CLOSE_DAY : Z := 4.
Definition SATURDAY : Z := 5.
Definition WEEK_BOUNDARY : Z := Eval cbv in hours 17.

(** Friday or Sunday at 17:00. *)
Definition week_boundary (w : Z) : Prop :=
  (wall_weekday w = WEEK_OPEN_DAY \/ wall_weekday w = WEEK_CLOSE_DAY) /\
  wall_time w = WEEK_BOUNDARY.

(** [astimezone(NY)] and [astimezone(UTC)].  The zone's clock changes happen at two
    in the morning, so at 17:00 the two are inverse and the order of instants is
    the order of the readings. *)
Class NewYork := {
  to_wall : datetime -> Z;
  of_wall : Z -> datetime;
  of_wall_boundary w t : week_boundary w -> to_wall t < w <-> t < of_wall w;
  to_wall_of_wall w : week_boundary w -> to_wall (of_wall w) = w;
}.

(** A New York that keeps Eastern Standard Time all year. *)
Definition eastern_standard : NewYork.
Proof.
  refine {| to_wall t := t - hours 5; of_wall w := w + hours 5 |}; intros; lia.
Defined.

(** ** Sessions *)

Record Session := { session_name : string; open_utc : Z; close_utc : Z }.

Definition session_contains (s : Session) (ts : datetime) : bool :=
  let h := utc_hour ts in
  if open_utc s <=? close_utc s then (open_utc s <=? h) && (h <? close_utc s)
  else (open_utc s <=? h) || (h <? close_utc s).

Definition SESSIONS : list Session := [
  {| session_name := "Sydney"%string; open_utc := 21; close_utc := 6 |};
  {| session_name := "Tokyo"%string; open_utc := 0; close_utc := 9 |};
  {| session_name := "London"%string; open_utc := 7; close_utc := 16 |};
  {| session_name := "New York"%string; open_utc := 12; close_utc := 21 |}].

Section Calendar.
Context `{NewYork}.

Definition open_at_wall (w : Z) : bool :=
  let dow := wall_weekday w in
  let local_t := wall_time w in
  if dow =? WEEK_CLOSE_DAY then local_t <? WEEK_BOUNDARY
  else if dow =? SATURDAY then false
  else if dow =? WEEK_OPEN_DAY then WEEK_BOUNDARY <=? local_t
  else true.

Definition is_market_open (ts : datetime) : bool := open_at_wall (to_wall ts).

(** [datetime.combine] of the date [d] days after [w]'s with 17:00; two readings of
    the same zone compare, and shift by days, as wall clocks. *)
Definition boundary_after (w : Z) (d : Z) : Z :=
  let candidate := (w / DAY + d) * DAY + WEEK_BOUNDARY in
  if candidate <=? w then candidate + WEEK else candidate.

Definition next_close (ts : datetime) : datetime :=
  let w := to_wall ts in
  of_wall (boundary_after w ((WEEK_CLOSE_DAY - wall_weekday w) mod 7)).

Definition next_open (ts : datetime) : datetime :=
  if is_market_open ts then ts
  else
    let w := to_wall ts in
    of_wall (boundary_after w ((WEEK_OPEN_DAY - wall_weekday w) mod 7)).

(** [seconds_until_open], before [total_seconds] makes it a float. *)
Definition until_open (ts : datetime) : timedelta :=
  if is_market_open ts then 0 else next_open ts - ts.

Definition seconds_until_open {F} `{PyFloat F} (ts : datetime) : F :=
  if is_market_open ts then f_zero else f_ratio (until_open ts) MICRO.

Definition active_sessions (ts : datetime) : list string :=
  if negb (is_market_open ts) then []
  else session_name <$> List.filter (fun s => session_contains s ts) SESSIONS.

(** ** The week as an interval *)

(** Time since the last Sunday 17:00 on the wall clock: 1970-01-04 was a Sunday. *)
Definition week_pos (w : Z) : Z := (w - 3 * DAY - WEEK_BOUNDARY) mod WEEK.

Ltac wall := unfold week_boundary, open_at_wall, boundary_after, week_pos, wall_weekday,
  wall_time, WEEK_OPEN_DAY, WEEK_CLOSE_DAY, SATURDAY, WEEK_BOUNDARY, WEEK, DAY in *.

Lemma open_at_wall_pos w : open_at_wall w = (week_pos w <? 5 * DAY).
Proof.
  wall. set (d := w / _). set (t := w mod _).
  assert (w = 86400000000 * d + t /\ 0 <= t < 86400000000) as [Hw Ht].
  { subst d t. zdivmod. }
  clearbody d t. subst w.
  destruct (Z.eqb_spec ((d + 3) mod 7) 4); [|destruct (Z.eqb_spec ((d + 3) mod 7) 5);
    [|destruct (Z.eqb_spec ((d + 3) mod 7) 6)]];
    apply Bool.eq_iff_eq_true; rewrite ?Z.ltb_lt, ?Z.leb_le; zdivmod.
Qed.

(** The boundary [boundary_after] finds is the first one ahead of [w]. *)
Lemma boundary_after_spec w dow :
  dow = WEEK_OPEN_DAY \/ dow = WEEK_CLOSE_DAY ->
  let b := boundary_after w ((dow - wall_weekday w) mod 7) in
  week_boundary b /\ w < b <= w + WEEK /\ wall_weekday b = dow.
Proof.
  intros Hdow b. subst b. wall. set (d := w / _).
  assert (86400000000 * d <= w < 86400000000 * d + 86400000000) as Hw by (subst d; zdivmod).
  clearbody d. set (k := (dow - (d + 3) mod 7) mod 7).
  assert ((d + k + 3) mod 7 = dow /\ 0 <= k < 7) as [Hk ?] by (subst k; zdivmod).
  clearbody k.
  destruct (Z.leb_spec ((d + k) * 86400000000 + 61200000000) w); split_and!; zdivmod.
Qed.

(** Away from the boundaries the state of the market does not change. *)
Lemma closed_until_open w w' b :
  open_at_wall w = false -> week_boundary b -> wall_weekday b = WEEK_OPEN_DAY ->
  w < b <= w + WEEK -> b - 2 * DAY <= w' < b -> open_at_wall w' = false.
Proof.
  rewrite !open_at_wall_pos, !Z.ltb_ge. wall. intros Hw [_ Ht] Hd Hb Hw'.
  set (d := b / _) in *. assert (b = 86400000000 * d + 61200000000) by (subst d; zdivmod).
  clearbody d. subst b. zdivmod.
Qed.

Lemma open_until_close w w' b :
  open_at_wall w = true -> week_boundary b -> wall_weekday b = WEEK_CLOSE_DAY ->
  w < b <= w + WEEK -> b - 5 * DAY <= w' < b -> open_at_wall w' = true.
Proof.
  rewrite !open_at_wall_pos, !Z.ltb_lt. wall. intros Hw [_ Ht] Hd Hb Hw'.
  set (d := b / _) in *. assert (b = 86400000000 * d + 61200000000) by (subst d; zdivmod).
  clearbody d. subst b. zdivmod.
Qed.

Lemma closed_near_open w b :
  open_at_wall w = false -> week_boundary b -> wall_weekday b = WEEK_OPEN_DAY ->
  w < b <= w + WEEK -> b - 2 * DAY <= w.
Proof.
  rewrite open_at_wall_pos, Z.ltb_ge. wall. intros Hw [_ Ht] Hd Hb.
  set (d := b / _) in *. assert (b = 86400000000 * d + 61200000000) by (subst d; zdivmod).
  clearbody d. subst b. zdivmod.
Qed.

Lemma open_near_close w b :
  open_at_wall w = true -> week_boundary b -> wall_weekday b = WEEK_CLOSE_DAY ->
  w < b <= w + WEEK -> b - 5 * DAY <= w.
Proof.
  rewrite open_at_wall_pos, Z.ltb_lt. wall. intros Hw [_ Ht] Hd Hb.
  set (d := b / _) in *. assert (b = 86400000000 * d + 61200000000) by (subst d; zdivmod).
  clearbody d. subst b. zdivmod.
Qed.

Lemma boundary_shift b k :
  week_boundary b ->
  (wall_weekday b = WEEK_OPEN_DAY /\ k = 2 \/ wall_weekday b = WEEK_CLOSE_DAY /\ k = 5) ->
  week_boundary (b - k * DAY).
Proof.
  wall. intros [_ Ht] Hk. set (d := b / _) in *.
  assert (b = 86400000000 * d + 61200000000) by (subst d; zdivmod).
  clearbody d. subst b. destruct Hk as [[Hd ->]|[Hd ->]]; zdivmod.
Qed.

Lemma boundary_state b :
  week_boundary b -> open_at_wall b = bool_decide (wall_weekday b = WEEK_OPEN_DAY).
Proof.
  rewrite open_at_wall_pos. wall. intros [Hd Ht]. set (d := b / _) in *.
  assert (b = 86400000000 * d + 61200000000) by (subst d; zdivmod).
  clearbody d. subst b. apply Bool.eq_iff_eq_true. rewrite bool_decide_eq_true, Z.ltb_lt.
  zdivmod.
Qed.

(** Instants between two boundaries read wall clocks between them. *)
Lemma between_boundaries b b' t :
  week_boundary b -> week_boundary b' -> of_wall b <= t < of_wall b' ->
  b <= to_wall t < b'.
Proof.
  intros Hb Hb' Ht. pose proof (of_wall_boundary b t Hb).
  pose proof (of_wall_boundary b' t Hb'). lia.
Qed.

(** The state of the market on either side of the next boundary of kind [dow]. *)
Lemma next_boundary_spec ts dow k :
  (dow = WEEK_OPEN_DAY /\ k = 2 /\ is_market_open ts = false \/
   dow = WEEK_CLOSE_DAY /\ k = 5 /\ is_market_open ts = true) ->
  let b := boundary_after (to_wall ts) ((dow - wall_weekday (to_wall ts)) mod 7) in
  ts < of_wall b /\ is_market_open (of_wall b) = negb (is_market_open ts) /\
  (forall t, ts <= t < of_wall b -> is_market_open t = is_market_open ts).
Proof.
  intros Hk b. destruct (boundary_after_spec (to_wall ts) dow) as (Hb & Hr & Hd); [tauto|].
  fold b in Hb, Hr, Hd. split_and!.
  - apply (of_wall_boundary b ts Hb). lia.
  - unfold is_market_open at 1. rewrite to_wall_of_wall, boundary_state, Hd by done.
    by destruct Hk as [(-> & _ & ->)|(-> & _ & ->)].
  - intros t Ht. assert (week_boundary (b - k * DAY)) as Hb'
      by (apply boundary_shift; [done|rewrite Hd; tauto]).
    unfold is_market_open in *.
    assert (b - k * DAY <= to_wall ts) as Hlow.
    { destruct Hk as [(-> & -> & Ho)|(-> & -> & Ho)];
        [by apply closed_near_open|by apply open_near_close]. }
    assert (b - k * DAY <= to_wall t < b) as Hw.
    { apply between_boundaries; [done..|].
      pose proof (of_wall_boundary (b - k * DAY) ts Hb'). lia. }
    destruct Hk as [(-> & -> & Ho)|(-> & -> & Ho)]; rewrite Ho;
      [by apply (closed_until_open (to_wall ts) _ b)|by apply (open_until_close (to_wall ts) _ b)].
Qed.

(** C40.  The calendar's boundaries are the market's.  While the market is closed,
    [next_open] is a later instant at which it is open, and it stays closed until
    then; while it is open, [next_open] is now and [next_close] is a later instant
    at which it is closed, and it stays open until then.  Daylight saving changes
    move neither. *)
Theorem next_open_close_spec ts :
  if is_market_open ts then
    next_open ts = ts /\ ts < next_close ts /\ is_market_open (next_close ts) = false /\
    (forall t, ts <= t < next_close ts -> is_market_open t = true)
  else
    ts < next_open ts /\ is_market_open (next_open ts) = true /\
    (forall t, ts <= t < next_open ts -> is_market_open t = false).
Proof.
  unfold next_open, next_close. destruct (is_market_open ts) eqn:Ho.
  - destruct (next_boundary_spec ts WEEK_CLOSE_DAY 5) as (H1 & H2 & H3); [tauto|].
    rewrite Ho in H2, H3. by split_and!.
  - destruct (next_boundary_spec ts WEEK_OPEN_DAY 2) as (H1 & H2 & H3); [tauto|].
    rewrite Ho in H2, H3. by split_and!.
Qed.
End Calendar.

(** Friday 2025-10-10 at 20:59 UTC, in the last minute before New York's close in
    summer; the fixed zone closes an hour later. *)
Example eastern_standard_close :
  @next_close eastern_standard (1760129940 * MICRO) = 1760133600 * MICRO.
Proof. reflexivity. Qed.
