(* ===== verification/Detector.v ===== *)
(** * One symbol's detection path ([fx_core/alerts/detector.py])

    Gate, normalise, score, decide, learn: the composition of the calendar, the
    hour-of-day profile, the baseline and the trigger.  The market calendar is the
    injected [market_is_open].

    The facts show that a detector is a trigger driven by events, so that its
    transitions keep the trigger's guarantees; that it learns only from what it
    evaluated, and nothing while it is STRESSED unless it is re-baselining; that a
    bar is evaluated only after the bars before it passed the gates; and that its
    only exception is the overflow of [math.exp]. *)
From S2P Require Import Prelude PyFloat Civil Volatility Baseline Seasonality Hysteresis.
From Stdlib Require Import SpecFloat.

Local Open Scope Z_scope.

Record DetectorConfig := { session_warmup : timedelta; rearm_bars : Z }.

Definition DetectorConfig_default : DetectorConfig :=
  {| session_warmup := minutes 30; rearm_bars := 3 |}.

Definition DetectorConfig_post_init (c : DetectorConfig) : result unit :=
  _ ← guard_ (negb (session_warmup c <? 0)) ValueError;
  guard_ (negb (rearm_bars c <? 0)) ValueError.

Section Detector.
Context {F : Type} `{PyFloat F} `{IsoFormat}.

Record RegimeDetector := {
  d_symbol : string;
  d_config : DetectorConfig;
  trigger_config : TriggerConfig F;
  baseline : VolatilityBaseline F;
  profile : DiurnalProfile F;
  trigger : SchmittTrigger F;
  market_is_open : datetime -> bool;
  was_open : option bool;
  opened_at : option datetime;
  contiguous_ok : Z;
  last_zscore : option F;
  rebaselining : bool;
}.

Definition RegimeDetector_new (sym : string) (c : DetectorConfig) (tc : TriggerConfig F)
    (b : VolatilityBaseline F) (p : DiurnalProfile F) (cal : datetime -> bool)
    : RegimeDetector := {|
  d_symbol := sym; d_config := c; trigger_config := tc; baseline := b; profile := p;
  trigger := SchmittTrigger_new sym tc; market_is_open := cal; was_open := None;
  opened_at := None; contiguous_ok := 0; last_zscore := None; rebaselining := false |}.

(** Assignments to groups of fields. *)
Definition set_market (d : RegimeDetector) (open_now : option bool) (at_ : option datetime)
    : RegimeDetector := {|
  d_symbol := d_symbol d; d_config := d_config d; trigger_config := trigger_config d;
  baseline := baseline d; profile := profile d; trigger := trigger d;
  market_is_open := market_is_open d; was_open := open_now; opened_at := at_;
  contiguous_ok := contiguous_ok d; last_zscore := last_zscore d;
  rebaselining := rebaselining d |}.

Definition set_counter (d : RegimeDetector) (k : Z) : RegimeDetector := {|
  d_symbol := d_symbol d; d_config := d_config d; trigger_config := trigger_config d;
  baseline := baseline d; profile := profile d; trigger := trigger d;
  market_is_open := market_is_open d; was_open := was_open d; opened_at := opened_at d;
  contiguous_ok := k; last_zscore := last_zscore d; rebaselining := rebaselining d |}.

Definition set_scored (d : RegimeDetector) (z : option F) : RegimeDetector := {|
  d_symbol := d_symbol d; d_config := d_config d; trigger_config := trigger_config d;
  baseline := baseline d; profile := profile d; trigger := trigger d;
  market_is_open := market_is_open d; was_open := was_open d; opened_at := opened_at d;
  contiguous_ok := contiguous_ok d; last_zscore := z; rebaselining := rebaselining d |}.

Definition set_parts (d : RegimeDetector) (b : VolatilityBaseline F) (p : DiurnalProfile F)
    (t : SchmittTrigger F) (r : bool) : RegimeDetector := {|
  d_symbol := d_symbol d; d_config := d_config d; trigger_config := trigger_config d;
  baseline := b; profile := p; trigger := t;
  market_is_open := market_is_open d; was_open := was_open d; opened_at := opened_at d;
  contiguous_ok := contiguous_ok d; last_zscore := last_zscore d; rebaselining := r |}.

Definition set_trigger (d : RegimeDetector) (t : SchmittTrigger F) : RegimeDetector :=
  set_parts d (baseline d) (profile d) t (rebaselining d).

Definition d_regime (d : RegimeDetector) : Regime := regime (trigger d).
Definition d_armed (d : RegimeDetector) : bool := armed (trigger d).

(** The arguments of one [update]: a sealed bar's volatility and its flags. *)
Record Sealed := {
  in_sigma : F;
  in_ts : datetime;
  is_gap_bar : bool;
  is_backfill : bool;
  feed_is_stale : bool;
}.

(** ** Gates *)

Definition warming_up (d : RegimeDetector) (ts : datetime) : bool :=
  match opened_at d with
  | Some at_ => ts - at_ <? session_warmup (d_config d)
  | None => false
  end.

Definition gate (d : RegimeDetector) (i : Sealed) : RegimeDetector * option string :=
  let ts := in_ts i in
  let open_now := market_is_open d ts in
  let at_ := if (bool_decide (was_open d = Some false) && open_now)%bool
             then Some ts else opened_at d in
  let d := set_market d (Some open_now) at_ in
  (d, if negb open_now then Some "market closed"%string
      else if warming_up d ts then Some "session warm-up"%string
      else if is_gap_bar i then Some "session gap bar"%string
      else if is_backfill i then Some "backfilled bar"%string
      else if feed_is_stale i then Some "feed stale"%string
      else None).

(** ** The update *)

(** A bar that is not evaluated: the trigger only learns that it saw nothing. *)
Definition held (d : RegimeDetector) (i : Sealed) (why : string)
    : result (RegimeDetector * option (RegimeTransition F)) :=
  let d := set_scored d None in
  '(t, o) ← update (trigger d) None (in_sigma i) (in_ts i) false why;
  Ok (set_trigger d t, o).

(** The bounded freeze. *)
Definition rebaseline (d : RegimeDetector) (ts : datetime) : RegimeDetector :=
  if (baseline_should_thaw (trigger d) ts && negb (rebaselining d))%bool
  then set_parts d (thaw (baseline d)) (profile d) (mark_thawed (trigger d)) true
  else d.

Definition resolve (d : RegimeDetector) (o : option (RegimeTransition F)) : RegimeDetector :=
  match o with
  | Some _ => set_parts d (baseline d) (profile d) (trigger d) false
  | None => d
  end.

Definition refreeze (d : RegimeDetector) : RegimeDetector :=
  if (bool_decide (d_regime d = STRESSED) && negb (rebaselining d))%bool
  then set_parts d (freeze (baseline d)) (profile d) (trigger d) (rebaselining d)
  else if bool_decide (d_regime d = NORMAL)
  then set_parts d (thaw (baseline d)) (profile d) (trigger d) (rebaselining d)
  else d.

Definition learn (d : RegimeDetector) (i : Sealed) (adjusted : F) : result RegimeDetector :=
  b ← (if (bool_decide (d_regime d = NORMAL) || rebaselining d)%bool
       then Baseline.observe (baseline d) adjusted else Ok (baseline d));
  p ← (if bool_decide (d_regime d = NORMAL)
       then dp_observe (profile d) (in_sigma i) (utc_hour (in_ts i)) else Ok (profile d));
  Ok (set_parts d b p (trigger d) (rebaselining d)).

Definition evaluate (d : RegimeDetector) (i : Sealed)
    : result (RegimeDetector * option (RegimeTransition F)) :=
  let ts := in_ts i in
  adjusted ← deseasonalize (profile d) (in_sigma i) (utc_hour ts);
  z ← bl_zscore (baseline d) adjusted;
  let d := rebaseline (set_scored d z) ts in
  '(t, o) ← update (trigger d) z adjusted ts true "";
  let d := refreeze (resolve (set_trigger d t) o) in
  d ← learn d i adjusted;
  Ok (d, o).

Definition detector_update (d : RegimeDetector) (i : Sealed)
    : result (RegimeDetector * option (RegimeTransition F)) :=
  let '(d, g) := gate d i in
  match g with
  | Some why => held (set_counter d 0) i why
  | None =>
      let d := set_counter d (contiguous_ok d + 1) in
      if contiguous_ok d <=? rearm_bars (d_config d)
      then held d i "re-arming after gate"
      else evaluate d i
  end.

(** ** Rehydration *)

Record DetectorSnapshot := {
  snap_trigger : TriggerSnapshot;
  snap_baseline : BaselineSnapshot F;
  snap_profile : DiurnalSnapshot F;
}.

Definition detector_snapshot (d : RegimeDetector) : DetectorSnapshot := {|
  snap_trigger := snapshot (trigger d);
  snap_baseline := baseline_snapshot (baseline d);
  snap_profile := profile_snapshot (profile d) |}.

Definition detector_restore (d : RegimeDetector) (s : DetectorSnapshot)
    : result RegimeDetector :=
  t ← restore (d_symbol d) (snap_trigger s) (trigger_config d);
  b ← baseline_restore (snap_baseline s) (min_samples (baseline d));
  p ← profile_restore (snap_profile s) (dp_min_samples (profile d))
        (min_ready_hours (profile d));
  Ok (set_parts d b p t (rebaselining d)).

End Detector.

Arguments RegimeDetector F : clear implicits.
Arguments Sealed F : clear implicits.
Arguments DetectorSnapshot F : clear implicits.

(** A run of sealed bars and the transitions it commits. *)
Abbreviation detector_run := (run_all detector_update).

(* ------------------------------------------------------------------ *)
(** ** A detector is a trigger driven by events *)

Section DetectorFacts.
Context {F : Type} `{PyFloat F} `{IsoFormat}.
Implicit Types (d : RegimeDetector F) (i : Sealed F) (ins : list (Sealed F)).

(** What an update hands to the trigger. *)
Definition drives i (es : list (Event F)) : Prop :=
  Forall (fun e => match e with
                   | EUpdate o => o_ts o = in_ts i
                   | EThaw => True
                   | EFailover => False
                   end) es.

Lemma gate_trigger d i d' g :
  gate d i = (d', g) ->
  trigger d' = trigger d /\ baseline d' = baseline d /\ profile d' = profile d /\
  rebaselining d' = rebaselining d /\ contiguous_ok d' = contiguous_ok d /\
  d_config d' = d_config d /\ market_is_open d' = market_is_open d.
Proof. unfold gate. intros Hg. injection Hg as <- _. split_and!; reflexivity. Qed.

Lemma update_event t z sg ts a why t' o :
  update t z sg ts a why = Ok (t', o) ->
  run t [EUpdate {| o_z := z; o_sigma := sg; o_ts := ts; o_armed := a; o_why := why |}]
  = Ok (t', opt_list o).
Proof. intros Hu. cbn. unfold update_obs. cbn. rewrite Hu. cbn. by rewrite app_nil_r. Qed.

Lemma held_events d i why d' o :
  held d i why = Ok (d', o) ->
  exists es, drives i es /\ run (trigger d) es = Ok (trigger d', opt_list o) /\
  d' = set_trigger (set_scored d None) (trigger d').
Proof.
  unfold held. intros Hh. apply bind_ok in Hh as ([t o'] & Hu & [= <- <-]).
  apply update_event in Hu. eexists. split_and!; [|exact Hu|done]. by repeat constructor.
Qed.

Lemma rebaseline_cases d ts :
  rebaseline d ts = d \/
  rebaseline d ts = set_parts d (thaw (baseline d)) (profile d) (mark_thawed (trigger d)) true.
Proof. unfold rebaseline. destruct (_ && _)%bool; auto. Qed.

Lemma refreeze_fields d :
  trigger (refreeze d) = trigger d /\ profile (refreeze d) = profile d /\
  rebaselining (refreeze d) = rebaselining d /\ contiguous_ok (refreeze d) = contiguous_ok d.
Proof. unfold refreeze. destruct (_ && _)%bool; [done|]. by destruct (bool_decide _). Qed.

Lemma resolve_fields d o :
  trigger (resolve d o) = trigger d /\ profile (resolve d o) = profile d /\
  baseline (resolve d o) = baseline d /\
  rebaselining (resolve d o) = (rebaselining d && bool_decide (o = None))%bool.
Proof. destruct o; cbn; by rewrite ?andb_true_r, ?andb_false_r. Qed.

Lemma learn_trigger d i a d' : learn d i a = Ok d' ->
  trigger d' = trigger d /\ rebaselining d' = rebaselining d.
Proof. unfold learn. intros. by inv_result. Qed.

Lemma evaluate_events d i d' o :
  evaluate d i = Ok (d', o) ->
  exists es, drives i es /\ run (trigger d) es = Ok (trigger d', opt_list o).
Proof.
  unfold evaluate. intros He. apply bind_ok in He as (a & _ & He).
  apply bind_ok in He as (z & _ & He). apply bind_ok in He as ([t o'] & Hu & He).
  apply bind_ok in He as (d2 & Hl & [= <- <-]). apply learn_trigger in Hl as [-> _].
  destruct (refreeze_fields (resolve (set_trigger (rebaseline (set_scored d z) (in_ts i)) t) o'))
    as (-> & _). destruct (resolve_fields (set_trigger (rebaseline (set_scored d z) (in_ts i)) t) o')
    as (-> & _). cbn [set_trigger set_parts trigger].
  apply update_event in Hu.
  destruct (rebaseline_cases (set_scored d z) (in_ts i)) as [E|E]; rewrite E in Hu.
  - eexists. split; [|exact Hu]. by repeat constructor.
  - exists (EThaw :: [EUpdate {| o_z := z; o_sigma := a; o_ts := in_ts i; o_armed := true;
      o_why := ""%string |}]).
    split; [by repeat constructor|]. rewrite run_thaw. exact Hu.
Qed.

Lemma detector_update_events d i d' o :
  detector_update d i = Ok (d', o) ->
  exists es, drives i es /\ run (trigger d) es = Ok (trigger d', opt_list o).
Proof.
  unfold detector_update. destruct (gate d i) as [d1 g] eqn:Hg.
  apply gate_trigger in Hg as (Ht & _). rewrite <- Ht. destruct g as [why|].
  - intros (es & He & Hr & _)%held_events. by exists es.
  - case_match.
    + intros (es & He & Hr & _)%held_events. by exists es.
    + intros (es & He & Hr)%evaluate_events. by exists es.
Qed.

Lemma drives_in_range i es : drives i es -> dt_in_range (in_ts i) -> Forall event_in_range es.
Proof.
  intros Hd Hi. eapply Forall_impl; [exact Hd|]. intros [o| |]; cbn; [by intros ->|done..].
Qed.

Lemma detector_run_events ins d d' trs :
  Forall (fun i => dt_in_range (in_ts i)) ins ->
  detector_run d ins = Ok (d', trs) ->
  exists es, Forall event_in_range es /\ run (trigger d) es = Ok (trigger d', trs).
Proof.
  intros Hall. revert d trs. induction Hall as [|i ins Hi Hall IH]; intros d trs Hr.
  { injection Hr as <- <-. by exists []. }
  cbn in Hr. apply bind_ok in Hr as ([d1 o] & Hu & Hr).
  apply bind_ok in Hr as ([d2 trs2] & Hr & [= <- <-]).
  apply detector_update_events in Hu as (es & Hes & H1).
  apply IH in Hr as (es' & Hes' & H2).
  exists (es ++ es'). split; [|by eapply run_app].
  apply Forall_app. split; [by eapply drives_in_range|done].
Qed.

(** ** Gates and re-arming *)

(** A bar no gate stops, whatever the session's warm-up says. *)
Definition clean (cal : datetime -> bool) i : Prop :=
  cal (in_ts i) = true /\ is_gap_bar i = false /\ is_backfill i = false /\
  feed_is_stale i = false.

Lemma gate_clean d i d' : gate d i = (d', None) -> clean (market_is_open d) i.
Proof.
  unfold gate. destruct (market_is_open d (in_ts i)) eqn:Ho; [|done].
  cbn [negb]. destruct (warming_up _ _), (is_gap_bar i) eqn:E1, (is_backfill i) eqn:E2,
    (feed_is_stale i) eqn:E3; try done.
Qed.

Lemma detector_update_fields d i d' o :
  detector_update d i = Ok (d', o) ->
  d_config d' = d_config d /\ market_is_open d' = market_is_open d /\
  match gate d i with
  | (_, None) => contiguous_ok d' = contiguous_ok d + 1
  | (_, Some _) => contiguous_ok d' = 0
  end.
Proof.
  unfold detector_update. destruct (gate d i) as [d1 g] eqn:Hg.
  apply gate_trigger in Hg as (_ & _ & _ & _ & Hk & Hc & Hm). destruct g as [why|].
  - intros (es & _ & _ & ->)%held_events. cbn. by rewrite Hc, Hm.
  - case_match.
    + intros (es & _ & _ & ->)%held_events. cbn. by rewrite Hc, Hm, Hk.
    + unfold evaluate. intros He. inv_result. destruct_or?.
      repeat match goal with x : _ * _ |- _ => destruct x end. inv_result.
      unfold learn in *. inv_result. cbn.
      unfold refreeze, resolve, rebaseline.
      repeat case_match; cbn; by rewrite Hc, Hm, Hk.
Qed.

(** The last [k] bars of a run. *)
Definition last_bars (k : Z) ins : list (Sealed F) :=
  drop (length ins - Z.to_nat k) ins.

Lemma last_bars_snoc k ins i :
  0 <= k <= Z.of_nat (length ins) -> last_bars (k + 1) (ins ++ [i]) = last_bars k ins ++ [i].
Proof.
  intros Hk. unfold last_bars. rewrite length_app. cbn [length].
  replace (length ins + 1 - Z.to_nat (k + 1))%nat with (length ins - Z.to_nat k)%nat by lia.
  by rewrite drop_app_le by lia.
Qed.

Lemma Forall_last_bars (P : Sealed F -> Prop) k k' ins :
  0 <= k <= k' -> Forall P (last_bars k' ins) -> Forall P (last_bars k ins).
Proof.
  intros Hk Hall. unfold last_bars in *.
  replace (length ins - Z.to_nat k)%nat
    with ((length ins - Z.to_nat k') + ((length ins - Z.to_nat k) - (length ins - Z.to_nat k')))%nat
    by lia.
  rewrite <- drop_drop. by apply Forall_drop.
Qed.

Lemma contiguous_clean ins d d' trs :
  contiguous_ok d = 0 -> detector_run d ins = Ok (d', trs) ->
  0 <= contiguous_ok d' <= Z.of_nat (length ins) /\ market_is_open d' = market_is_open d /\
  d_config d' = d_config d /\
  Forall (clean (market_is_open d)) (last_bars (contiguous_ok d') ins).
Proof.
  intros Hz. revert d' trs. induction ins as [|i ins IH] using rev_ind; intros d' trs Hr.
  { injection Hr as <- <-. rewrite Hz. by split_and!. }
  apply run_snoc in Hr as (d1 & trs1 & o & Hr & Hu & _).
  destruct (IH _ _ Hr) as (Hk & Hm & Hc & Hall).
  apply detector_update_fields in Hu as (Hc' & Hm' & Hg).
  rewrite length_app. cbn [length].
  destruct (gate d1 i) as [d2 [why|]] eqn:Eg; rewrite Hg.
  - split_and!; [lia..|congruence|congruence|]. unfold last_bars. rewrite length_app.
    cbn [length]. by rewrite drop_ge by (rewrite length_app; cbn [length]; lia).
  - split_and!; [lia..|congruence|congruence|]. rewrite last_bars_snoc by done.
    apply Forall_app. rewrite Forall_singleton. split; [done|]. rewrite <- Hm.
    by eapply gate_clean.
Qed.

(** ** What an update may learn *)

(** The reference distribution itself, without the freeze switch. *)
Definition moments (b : VolatilityBaseline F) : F * F * Z * F :=
  (mean b, var b, n b, debias b).

Lemma refreeze_moments d : moments (baseline (refreeze d)) = moments (baseline d).
Proof. unfold refreeze. destruct (_ && _)%bool; [done|]. by destruct (bool_decide _). Qed.

Lemma rebaseline_fields d ts :
  profile (rebaseline d ts) = profile d /\
  moments (baseline (rebaseline d ts)) = moments (baseline d) /\
  contiguous_ok (rebaseline d ts) = contiguous_ok d /\
  (rebaselining d = true -> rebaseline d ts = d).
Proof.
  unfold rebaseline. destruct (baseline_should_thaw _ _), (rebaselining d); by split_and!.
Qed.

Lemma learn_fields d i a d' :
  learn d i a = Ok d' ->
  (d_regime d = STRESSED -> profile d' = profile d) /\
  (d_regime d = STRESSED -> rebaselining d = false -> moments (baseline d') = moments (baseline d)).
Proof.
  unfold learn. intros Hl. apply bind_ok in Hl as (b & Hb & Hl).
  apply bind_ok in Hl as (p & Hp & [= <-]). cbn. split.
  - intros Hr. rewrite bool_decide_eq_false_2 in Hp by (rewrite Hr; done). congruence.
  - intros Hr Hre. rewrite bool_decide_eq_false_2, Hre in Hb by (rewrite Hr; done).
    cbn in Hb. congruence.
Qed.

Lemma evaluate_learns d i d' o :
  evaluate d i = Ok (d', o) -> d_regime d' = STRESSED ->
  profile d' = profile d /\
  (rebaselining d' = false -> moments (baseline d') = moments (baseline d)).
Proof.
  unfold evaluate. intros He Hst. apply bind_ok in He as (a & _ & He).
  apply bind_ok in He as (z & _ & He). apply bind_ok in He as ([t o'] & Hu & He).
  apply bind_ok in He as (d2 & Hl & [= <- <-]).
  pose proof (learn_trigger _ _ _ _ Hl) as [Ht Hre]. unfold d_regime in Hst. rewrite Ht in Hst.
  apply learn_fields in Hl as [Hp Hb]. rewrite Hre. rewrite Hp by exact Hst. split.
  - destruct (refreeze_fields (resolve (set_trigger (rebaseline (set_scored d z) (in_ts i)) t) o'))
      as (_ & -> & _).
    destruct (resolve_fields (set_trigger (rebaseline (set_scored d z) (in_ts i)) t) o')
      as (_ & -> & _). cbn.
    by destruct (rebaseline_fields (set_scored d z) (in_ts i)) as (-> & _).
  - intros Hr. rewrite Hb, refreeze_moments by (exact Hst || exact Hr).
    destruct (resolve_fields (set_trigger (rebaseline (set_scored d z) (in_ts i)) t) o')
      as (_ & _ & -> & _). cbn.
    by destruct (rebaseline_fields (set_scored d z) (in_ts i)) as (_ & -> & _).
Qed.

Lemma held_learns d i why d' o :
  held d i why = Ok (d', o) -> baseline d' = baseline d /\ profile d' = profile d.
Proof. by intros (es & _ & _ & ->)%held_events. Qed.

(** What a bar that was not evaluated leaves behind. *)
Lemma frozen_reference_held d i d' o :
  detector_update d i = Ok (d', o) ->
  contiguous_ok d' <= rearm_bars (d_config d) -> 0 <= rearm_bars (d_config d) ->
  last_zscore d' = None /\ baseline d' = baseline d /\ profile d' = profile d /\
  (forall tr, o = Some tr -> tr_cause tr = OBSERVATION_LOST).
Proof.
  intros Hu Hle Hnn. pose proof (detector_update_fields _ _ _ _ Hu) as (_ & _ & Hk).
  unfold detector_update in Hu. destruct (gate d i) as [d1 g] eqn:Hg.
  pose proof (gate_trigger _ _ _ _ Hg) as (_ & Hb & Hp & _ & Hk1 & Hc1 & _).
  assert (exists d2 why, baseline d2 = baseline d1 /\ profile d2 = profile d1 /\
    held d2 i why = Ok (d', o)) as (d2 & why & Eb & Ep & Hh).
  { destruct g as [why|]; [by exists (set_counter d1 0), why|].
    destruct (Z.leb_spec (contiguous_ok (set_counter d1 (contiguous_ok d1 + 1)))
      (rearm_bars (d_config (set_counter d1 (contiguous_ok d1 + 1))))) as [_|Hgt];
      [by exists (set_counter d1 (contiguous_ok d1 + 1)), "re-arming after gate"%string|].
    cbn in Hgt. rewrite Hc1 in Hgt. lia. }
  pose proof (held_learns _ _ _ _ _ Hh) as [Hb' Hp'].
  unfold held in Hh. apply bind_ok in Hh as ([t o'] & Hup & [= <- <-]).
  split_and!; [done|congruence..|]. intros tr ->.
  assert (outcome (trigger d2) {| o_z := None; o_sigma := in_sigma i; o_ts := in_ts i;
    o_armed := false; o_why := why |} t (Some tr)) as Ho by by apply update_cases.
  inversion Ho as [|since t' tr' ? ? ? ? ? Hrep|z [Ha _]|z t' [Ha _]|z t' tr' [Ha _]];
    try done. by destruct Hrep as (_ & _ & _ & _ & _ & ?).
Qed.

(** ** Exceptions *)

(** A detector as its constructors and operations leave it. *)
Definition detector_wf d : Prop :=
  wf (trigger d) /\ baseline_valid (baseline d) /\ profile_wf (profile d).

Context `{!PyFloatOrder F}.

(** The literals of the code, and the counts it divides by, are what they denote. *)
Definition sane_constants : Prop :=
  f_lt f_zero (MIN_SIGMA (F := F)) = true /\
  (forall z, 0 < z <= HOURS -> f_eq (F := F) (f_of_Z z) f_zero = false).

Lemma measurable_log sg : sane_constants -> unmeasurable sg = false -> exists x, py_log sg = Ok x.
Proof.
  intros [Hmin _] Hu. unfold unmeasurable in Hu. boolify. unfold py_log.
  destruct (f_le sg f_zero) eqn:E; [|eauto].
  pose proof (f_le_trans _ _ _ E (f_lt_le _ _ Hmin)). congruence.
Qed.

Lemma observe_total b sg : sane_constants -> exists b', Baseline.observe b sg = Ok b'.
Proof.
  intros Hc. unfold Baseline.observe. destruct (frozen b); [by eauto|]. cbn.
  destruct (unmeasurable sg) eqn:Hu; [by eauto|].
  destruct (measurable_log sg Hc Hu) as [x ->]. cbn. eauto.
Qed.

Lemma dp_observe_total p sg hour :
  sane_constants -> profile_wf p -> 0 <= hour < HOURS -> exists p', dp_observe p sg hour = Ok p'.
Proof.
  intros Hc Hwf Hh. unfold dp_observe. destruct (unmeasurable sg) eqn:Hu; [by eauto|].
  destruct (measurable_log sg Hc Hu) as [x ->].
  destruct (hour_state_some p (Z.to_nat hour) Hwf) as (m & k & _ & Em & Ek);
    [unfold HOURS in *; lia|]. rewrite Z2Nat.id in * by lia.
  rewrite Em, Ek, (proj2 (Z.leb_le _ _)), (proj2 (Z.ltb_lt _ _)) by lia. cbn. eauto.
Qed.

Lemma py_max_zero_sqrt (x : F) : exists r, py_sqrt (py_max x f_zero) = Ok r.
Proof.
  unfold py_sqrt, py_max. destruct (f_lt x f_zero) eqn:E; rewrite ?E, ?f_lt_irrefl; eauto.
Qed.

Lemma not_le_zero_nonzero (x : F) : f_le x f_zero = false -> f_eq x f_zero = false.
Proof. intros Hx. apply not_true_iff_false. intros E%f_eq_le. congruence. Qed.

Lemma bl_zscore_total b sg : sane_constants -> exists z, bl_zscore b sg = Ok z.
Proof.
  intros Hc. unfold bl_zscore. destruct (ready b); [|by eauto]. cbn.
  destruct (unmeasurable sg) eqn:Hu; [by eauto|].
  assert (exists sd, bl_stdev b = Ok sd) as [sd ->].
  { unfold bl_stdev. destruct (f_le (debias b) f_zero) eqn:Ed; [apply py_max_zero_sqrt|].
    unfold py_div. rewrite not_le_zero_nonzero by done. cbn. apply py_max_zero_sqrt. }
  cbn. destruct (f_le sd f_zero) eqn:Es; [by eauto|].
  destruct (measurable_log sg Hc Hu) as [x ->]. cbn.
  unfold py_div. rewrite not_le_zero_nonzero by done. cbn. eauto.
Qed.

Lemma trigger_update_total t z sg ts a why :
  wf t -> exists t' o, update t z sg ts a why = Ok (t', o) /\ wf t'.
Proof.
  intros Hwf.
  destruct (update_total t {| o_z := z; o_sigma := sg; o_ts := ts; o_armed := a; o_why := why |} Hwf)
    as (t' & o & Hu).
  exists t', o. split; [exact Hu|]. eapply outcome_wf; [done|]. by apply update_cases.
Qed.

Lemma held_total d i why :
  detector_wf d -> exists d' o, held d i why = Ok (d', o) /\ detector_wf d'.
Proof.
  intros (Ht & Hb & Hp). unfold held.
  destruct (trigger_update_total (trigger d) None (in_sigma i) (in_ts i) false why Ht)
    as (t & o & Hu & Hwf).
  change (trigger (set_scored d None)) with (trigger d). rewrite Hu. cbn.
  eexists _, _. split; [done|]. by split_and!.
Qed.

Lemma learn_total d i a :
  sane_constants -> detector_wf d -> exists d', learn d i a = Ok d' /\ detector_wf d'.
Proof.
  intros Hc (Ht & Hb & Hp). unfold learn.
  destruct (observe_total (baseline d) a Hc) as [b Eb].
  destruct (dp_observe_total (profile d) (in_sigma i) (utc_hour (in_ts i)) Hc Hp) as [p Ep];
    [apply utc_hour_bound|].
  rewrite Eb, Ep. destruct (_ || _)%bool, (bool_decide _); cbn; eexists; (split; [done|]);
    split_and!; eauto using observe_valid, dp_observe_wf.
Qed.

Lemma evaluate_total d i :
  sane_constants -> detector_wf d ->
  match evaluate d i with
  | Ok (d', _) => detector_wf d'
  | Raise e => e = OverflowError
  end.
Proof.
  intros Hc (Ht & Hb & Hp). unfold evaluate.
  pose proof (factor_clamped (profile d) (utc_hour (in_ts i)) (in_sigma i) Hp
    (utc_hour_bound _) (proj2 Hc)) as Hf.
  destruct (factor _ _) as [f|e] eqn:Ef.
  - destruct Hf as [_ ->]. cbn [mbind result_bind].
    destruct (bl_zscore_total (baseline d) (f_div (in_sigma i) f) Hc) as [z ->]. cbn [mbind result_bind].
    set (d1 := rebaseline (set_scored d z) (in_ts i)).
    assert (detector_wf d1) as (Ht1 & Hb1 & Hp1).
    { subst d1. by destruct (rebaseline_cases (set_scored d z) (in_ts i)) as [-> | ->]. }
    destruct (trigger_update_total (trigger d1) z (f_div (in_sigma i) f) (in_ts i) true "" Ht1)
      as (t & o & -> & Hwf). cbn [mbind result_bind].
    destruct (learn_total (refreeze (resolve (set_trigger d1 t) o)) i (f_div (in_sigma i) f) Hc)
      as (d' & -> & Hd'); [|done].
    unfold refreeze, resolve. destruct o; repeat case_match; by split_and!.
  - unfold deseasonalize. rewrite Ef. done.
Qed.
End DetectorFacts.

(* ------------------------------------------------------------------ *)
(** ** Properties *)

Section DetectorProperties.
Context {F : Type} `{PyFloat F} `{IsoFormat}.
Implicit Types (d : RegimeDetector F) (i : Sealed F) (ins : list (Sealed F)).

(** C6.  The whole detection path keeps the trigger's contract.  Whatever bars a
    fresh detector is fed - gated, re-arming, scored, thawed - the transitions it
    returns alternate NORMAL -> STRESSED -> NORMAL, count 1, 2, 3, ... without a
    hole, agree with the regime it reports, and escalate at least [cooldown] apart. *)
Theorem detector_transitions sym c (tc : TriggerConfig F) b p cal ins d' trs :
  Forall (fun i => dt_in_range (in_ts i)) ins ->
  detector_run (RegimeDetector_new sym c tc b p cal) ins = Ok (d', trs) ->
  alternating NORMAL 0 trs /\ seq (trigger d') = Z.of_nat (length trs) /\
  d_regime d' = (if Nat.even (length trs) then NORMAL else STRESSED) /\
  chained (spaced (cooldown tc)) (escalations trs).
Proof.
  intros Hall Hr. apply detector_run_events in Hr as (es & Hes & Hr); [|done].
  cbn [RegimeDetector_new trigger] in Hr.
  pose proof (run_alternating _ _ _ _ _ Hes Hr) as (H1 & H2 & H3 & _).
  split_and!; [done..|]. by apply (run_spaced _ _ _ _ _ Hes Hr).
Qed.

(** C11.  The reference does not move under stress.  An update after which the
    detector is STRESSED has taught the seasonal profile nothing, and - unless the
    detector has begun re-baselining a regime it accepted - has left the baseline's
    moments and count exactly as they were; this includes the bar that escalates.
    An update that was gated or re-arming has taught neither anything. *)
Theorem frozen_reference d i d' o :
  detector_update d i = Ok (d', o) ->
  (d_regime d' = STRESSED ->
     profile d' = profile d /\
     (rebaselining d' = false -> moments (baseline d') = moments (baseline d))) /\
  (contiguous_ok d' <= rearm_bars (d_config d) ->
     0 <= rearm_bars (d_config d) ->
     profile d' = profile d /\ baseline d' = baseline d).
Proof.
  intros Hu. split.
  - unfold detector_update in Hu. destruct (gate d i) as [d1 g] eqn:Hg.
    apply gate_trigger in Hg as (_ & <- & <- & _).
    intros Hst. destruct g as [why|]; [|case_match; [|by apply evaluate_learns in Hu]];
      apply held_learns in Hu as [-> ->]; done.
  - intros Hle Hnn. destruct (frozen_reference_held _ _ _ _ Hu Hle Hnn) as (_ & ? & ? & _).
    done.
Qed.

(** Trust is earned back after every gate.  In any run of a fresh detector, a bar
    that was scored, that taught the baseline or the profile something, or that
    committed a transition other than a lost observation, is the last of
    [rearm_bars + 1] consecutive bars of an open market none of which was a gap
    bar, backfilled or stale. *)
Theorem evaluated_after_rearm sym c (tc : TriggerConfig F) b p cal ins i d trs d' o :
  0 <= rearm_bars c ->
  detector_run (RegimeDetector_new sym c tc b p cal) ins = Ok (d, trs) ->
  detector_update d i = Ok (d', o) ->
  is_Some (last_zscore d') \/ baseline d' <> baseline d \/ profile d' <> profile d \/
    (exists tr, o = Some tr /\ tr_cause tr <> OBSERVATION_LOST) ->
  rearm_bars c < Z.of_nat (length (ins ++ [i])) /\
  Forall (clean cal) (last_bars (rearm_bars c + 1) (ins ++ [i])).
Proof.
  intros Hc Hr Hu Hev.
  assert (detector_run (RegimeDetector_new sym c tc b p cal) (ins ++ [i])
    = Ok (d', trs ++ opt_list o)) as Hr'.
  { apply run_snoc. by exists d, trs, o. }
  apply contiguous_clean in Hr as (_ & Hm & Hcf & _); [|done].
  apply contiguous_clean in Hr' as (Hk' & _ & _ & Hall); [|done]. cbn in Hm, Hcf, Hall.
  pose proof (detector_update_fields _ _ _ _ Hu) as (_ & _ & Hk).
  assert (contiguous_ok d' <= rearm_bars c -> False) as Hgt; [|split; [lia|]].
  - intros Hle. pose proof (frozen_reference_held d i d' o Hu) as Hh. rewrite Hcf in Hh.
    destruct (Hh Hle Hc) as (Ez & Eb & Ep & Eo).
    destruct Hev as [[z Hz]|[Hev|[Hev|(tr & -> & Htr)]]]; [congruence|done..|].
    by apply Htr, Eo.
  - apply (Forall_last_bars _ _ (contiguous_ok d')); [lia|done].
Qed.

(** C27.  A detector can only fail by overflow.  From a well-formed detector, any bar
    - any sigma, NaN and infinity included - either updates it to a well-formed
    detector or raises the OverflowError of [math.exp] in the seasonal factor;
    nothing else in the path can raise. *)
Theorem detector_update_safe `{!PyFloatOrder F} d i :
  sane_constants (F := F) -> detector_wf d ->
  match detector_update d i with
  | Ok (d', _) => detector_wf d'
  | Raise e => e = OverflowError
  end.
Proof.
  intros Hc Hwf. unfold detector_update. destruct (gate d i) as [d1 g] eqn:Hg.
  apply gate_trigger in Hg as (Ht & Hb & Hp & _).
  assert (forall k, detector_wf (set_counter d1 k)) as Hwf1
    by (intros k; unfold detector_wf in *; cbn; by rewrite Ht, Hb, Hp).
  destruct g as [why|].
  - by destruct (held_total (set_counter d1 0) i why (Hwf1 0)) as (d' & o & -> & Hd').
  - destruct (_ <=? _); [|by apply evaluate_total].
    by destruct (held_total _ i "re-arming after gate" (Hwf1 (contiguous_ok d1 + 1)))
      as (d' & o & -> & Hd').
Qed.

(** A failover does not restart cold.  Restoring a detector's snapshot into a
    newly started detector with the same parameters succeeds, gives back the
    baseline and the seasonal profile exactly, and - when the old trigger was
    armed and confirming nothing - a trigger that commits the same transitions on
    every future sequence of events. *)
Theorem detector_restore_warm d d0 :
  detector_wf d -> dated (trigger d) ->
  symbol (trigger d) = d_symbol d0 -> config (trigger d) = trigger_config d0 ->
  min_samples (baseline d) = min_samples (baseline d0) ->
  dp_min_samples (profile d) = dp_min_samples (profile d0) ->
  min_ready_hours (profile d) = min_ready_hours (profile d0) ->
  clamp (profile d) = clamp_default ->
  exists d', detector_restore d0 (detector_snapshot d) = Ok d' /\
    baseline d' = baseline d /\ profile d' = profile d /\
    d_regime d' = d_regime d /\ seq (trigger d') = seq (trigger d) /\
    (armed (trigger d) = true -> candidate (trigger d) = None ->
     forall es, transitions (trigger d) es = transitions (trigger d') es).
Proof.
  intros (Ht & Hb & Hp) Hd Hsym Hcfg Hm1 Hm2 Hm3 Hcl.
  unfold detector_restore, detector_snapshot. cbn [snap_trigger snap_baseline snap_profile].
  rewrite <- Hsym, <- Hcfg, restore_cold by done. cbn [mbind result_bind].
  rewrite <- Hm1, baseline_restore_snapshot by done. cbn [mbind result_bind].
  rewrite <- Hm2, <- Hm3, profile_restore_snapshot by done. cbn [mbind result_bind].
  eexists. split_and!; [done..|]. intros Ha Hc. by apply cold_transitions.
Qed.
End DetectorProperties.

(* ------------------------------------------------------------------ *)
(** ** A concrete run *)

#[local] Existing Instance plain64.
#[local] Existing Instance iso_utc.

Definition demo_reference : VolatilityBaseline spec_float := {|
  bl_lam := bl_lam_default; min_samples := 30; mean := f_of_Z 10; var := f_one; n := 50;
  frozen := false; debias := f_one |}.

Definition demo_hours : DiurnalProfile spec_float := {|
  dp_lam := dp_lam_default; dp_min_samples := 120; min_ready_hours := 12;
  clamp := clamp_default; hour_mean := replicate 24 f_zero; hour_n := replicate 24 0 |}.

Definition demo_detector : RegimeDetector spec_float :=
  RegimeDetector_new "eurusd" DetectorConfig_default TriggerConfig_default demo_reference
    demo_hours (fun _ => true).

(** A clean bar [m] minutes in, with volatility [s]. *)
Definition demo_sealed (m s : Z) : Sealed spec_float := {|
  in_sigma := f_of_Z s; in_ts := 1760227200 * MICRO + minutes m; is_gap_bar := false;
  is_backfill := false; feed_is_stale := false |}.

(** Three re-arming bars, then four far above the reference. *)
Definition demo_bars : list (Sealed spec_float) :=
  [demo_sealed 0 11; demo_sealed 1 11; demo_sealed 2 11; demo_sealed 3 40;
   demo_sealed 4 40; demo_sealed 5 40; demo_sealed 6 40].

Lemma demo_bars_in_range : Forall (fun i => dt_in_range (in_ts i)) demo_bars.
Proof. repeat constructor; vm_compute; congruence. Qed.

Lemma detector_transitions_witness :
  match detector_run demo_detector demo_bars with
  | Ok (d', trs) => length trs = 1%nat /\ alternating NORMAL 0 trs /\
      seq (trigger d') = 1 /\ d_regime d' = STRESSED
  | Raise _ => False
  end.
Proof.
  destruct (detector_run demo_detector demo_bars) as [[d' trs]|] eqn:E; [|by vm_compute in E].
  assert (length trs = 1%nat) as Hl
    by (vm_compute in E; by injection E as _ <-).
  pose proof (detector_transitions _ _ _ _ _ _ _ _ _ demo_bars_in_range E) as (H1 & H2 & H3 & _).
  rewrite Hl in H2, H3. by split_and!.
Defined.

Definition demo_detector_after (k : nat) : RegimeDetector spec_float :=
  match detector_run demo_detector (take k demo_bars) with
  | Ok (d, _) => d
  | Raise _ => demo_detector
  end.

Lemma frozen_reference_witness :
  match detector_update (demo_detector_after 6) (demo_sealed 6 40) with
  | Ok (d', _) => d_regime d' = STRESSED /\
      profile d' = profile (demo_detector_after 6) /\
      moments (baseline d') = moments (baseline (demo_detector_after 6))
  | Raise _ => False
  end.
Proof.
  destruct (detector_update (demo_detector_after 6) (demo_sealed 6 40)) as [[d' o]|] eqn:E;
    [|by vm_compute in E].
  assert (d_regime d' = STRESSED /\ rebaselining d' = false) as [Hs Hr]
    by (vm_compute in E; injection E as <- _; by split).
  destruct (frozen_reference _ _ _ _ E) as [Hf _]. destruct (Hf Hs) as [Hp Hb].
  split_and!; [exact Hs|exact Hp|by apply Hb].
Defined.

Lemma evaluated_after_rearm_witness :
  Forall (clean (fun _ => true)) (last_bars 4 (take 3 demo_bars ++ [demo_sealed 3 40])).
Proof.
  destruct (detector_update (demo_detector_after 3) (demo_sealed 3 40)) as [[d' o]|] eqn:E;
    [|by vm_compute in E].
  refine (proj2 (evaluated_after_rearm "eurusd" DetectorConfig_default TriggerConfig_default
    demo_reference demo_hours (fun _ => true) (take 3 demo_bars) (demo_sealed 3 40)
    (demo_detector_after 3) [] d' o _ _ E _)); [done|by vm_compute|].
  left. vm_compute in E. injection E as <- _. by eexists.
Defined.

Lemma demo_sane : sane_constants (F := spec_float).
Proof. split; [by vm_compute|apply hours_nonzero]. Qed.

Lemma demo_detector_wf : detector_wf demo_detector.
Proof. split_and!; vm_compute; split_and!; (reflexivity || congruence). Qed.

(** A bar whose volatility is NaN. *)
Definition demo_broken : Sealed spec_float := {|
  in_sigma := S754_nan; in_ts := 0; is_gap_bar := false; is_backfill := false;
  feed_is_stale := false |}.

Lemma detector_update_safe_witness :
  match detector_update demo_detector demo_broken with
  | Ok (d', _) => detector_wf d'
  | Raise e => e = OverflowError
  end.
Proof.
  exact (detector_update_safe (PyFloatOrder0 := binary64_order _ _ _) demo_detector demo_broken
    demo_sane demo_detector_wf).
Defined.

Definition demo_stressed_detector : RegimeDetector spec_float :=
  set_trigger demo_detector demo_stressed.

Lemma detector_restore_warm_witness :
  exists d', detector_restore demo_detector (detector_snapshot demo_stressed_detector) = Ok d' /\
    baseline d' = demo_reference /\ profile d' = demo_hours /\ d_regime d' = STRESSED /\
    seq (trigger d') = 1 /\
    (armed demo_stressed = true -> candidate demo_stressed = None ->
     forall es, transitions demo_stressed es = transitions (trigger d') es).
Proof.
  apply (detector_restore_warm demo_stressed_detector demo_detector); try reflexivity.
  - split_and!; vm_compute; split_and!; (reflexivity || congruence).
  - split; [|by intros x [=]]. intros x [= <-]. vm_compute. split; congruence.
Defined.
