(* ===== verification/Intervals.v ===== *)
(** * Timeframe roll-up ([fx_core/intervals.py])

    Where a base bar's bucket starts, for fixed and for calendar intervals, and the
    fold of base bars into the candles of an interval.  The reference the fold is
    compared with groups the ordered bars by bucket and summarises each group. *)
From S2P Require Import Prelude PyFloat Civil.
From Stdlib Require Import SpecFloat.

Local Open Scope Z_scope.

Inductive Base := Base1m | Base1d.

Record Interval := { code : string; interval_seconds : option Z; base : Base }.

Definition INTERVALS : list Interval := [
  {| code := "1m"%string; interval_seconds := Some 60; base := Base1m |};
  {| code := "3m"%string; interval_seconds := Some 180; base := Base1m |};
  {| code := "5m"%string; interval_seconds := Some 300; base := Base1m |};
  {| code := "10m"%string; interval_seconds := Some 600; base := Base1m |};
  {| code := "15m"%string; interval_seconds := Some 900; base := Base1m |};
  {| code := "30m"%string; interval_seconds := Some 1800; base := Base1m |};
  {| code := "1h"%string; interval_seconds := Some 3600; base := Base1m |};
  {| code := "4h"%string; interval_seconds := Some 14400; base := Base1m |};
  {| code := "1d"%string; interval_seconds := Some 86400; base := Base1d |};
  {| code := "1w"%string; interval_seconds := None; base := Base1d |};
  {| code := "1M"%string; interval_seconds := None; base := Base1d |}].

(** [INTERVALS[code]]. *)
Definition interval_of (c : string) : result Interval :=
  match List.find (fun i => String.eqb (code i) c) INTERVALS with
  | Some i => Ok i
  | None => Raise KeyError
  end.

Definition ORDER : list string :=
  ["1m"; "3m"; "5m"; "10m"; "15m"; "30m"; "1d"]%string.

(** [datetime.fromtimestamp] refuses what is outside the years 1 to 9999. *)
Definition utc_datetime (epoch : Z) : result datetime :=
  let t := fromtimestamp epoch in
  if (DT_MIN <=? t) && (t <=? DT_MAX) then Ok t else Raise ValueError.

(** Midnight of a day.  The first representable day is a Monday and a first of the
    month, so stepping back to one never leaves the range. *)
Definition midnight (day : Z) : Z := int_timestamp (days day).

Definition bucket_start (epoch : Z) (interval : string) : result Z :=
  spec ← interval_of interval;
  match interval_seconds spec with
  | Some s => Ok (epoch - epoch mod s)
  | None =>
      at_ ← utc_datetime epoch;
      let day := at_ / days 1 in
      Ok (if String.eqb interval "1w" then midnight (day - weekday at_)
          else midnight (month_start day))
  end.

Section Fold.
Context {F : Type} `{PyFloat F}.

(** A base bar as the API reads it; [n] and [src] may be missing. *)
Record BaseBar := {
  bb_t : Z;
  bb_o : F;
  bb_h : F;
  bb_l : F;
  bb_c : F;
  bb_n : option Z;
  bb_src : option string;
}.

Record Candle := {
  c_t : Z;
  c_o : F;
  c_h : F;
  c_l : F;
  c_c : F;
  c_n : Z;
  c_src : string;
}.

Definition fold_order (b : BaseBar) : Z * Z :=
  (bb_t b, if bool_decide (bb_src b = Some "backfill"%string) then 0 else 1).

(** Tuples compare lexicographically. *)
Definition order_leb (a b : Z * Z) : bool :=
  (fst a <? fst b) || ((fst a =? fst b) && (snd a <=? snd b)).

Definition sorted_bars (l : list BaseBar) : list BaseBar := py_sorted order_leb fold_order l.

Definition source_of (b : BaseBar) : string := default "agg"%string (bb_src b).
Definition ticks_of (b : BaseBar) : Z := default 0 (bb_n b).

Definition open_candle (start : Z) (b : BaseBar) : Candle := {|
  c_t := start; c_o := bb_o b; c_h := bb_h b; c_l := bb_l b; c_c := bb_c b;
  c_n := ticks_of b; c_src := source_of b |}.

Definition extend_candle (cur : Candle) (b : BaseBar) : Candle := {|
  c_t := c_t cur; c_o := c_o cur;
  c_h := py_max (c_h cur) (bb_h b); c_l := py_min (c_l cur) (bb_l b); c_c := bb_c b;
  c_n := c_n cur + ticks_of b;
  c_src := if String.eqb (c_src cur) (source_of b) then c_src cur else "mixed"%string |}.

(** One iteration; [out] is kept newest first. *)
Definition fold_bar (interval : string) (out : list Candle) (b : BaseBar)
    : result (list Candle) :=
  start ← bucket_start (bb_t b) interval;
  match out with
  | cur :: out' =>
      if c_t cur =? start then Ok (extend_candle cur b :: out')
      else Ok (open_candle start b :: out)
  | [] => Ok [open_candle start b]
  end.

Fixpoint fold_bars (interval : string) (out : list Candle) (l : list BaseBar)
    : result (list Candle) :=
  match l with
  | [] => Ok (reverse out)
  | b :: l => out ← fold_bar interval out b; fold_bars interval out l
  end.

Definition fold (bars : list BaseBar) (interval : string) : result (list Candle) :=
  match interval_of interval with
  | Raise _ => Raise ValueError
  | Ok _ => match bars with [] => Ok [] | _ => fold_bars interval [] (sorted_bars bars) end
  end.
End Fold.

Arguments BaseBar F : clear implicits.
Arguments Candle F : clear implicits.

(** ** How many base bars to read *)

Definition base_seconds (b : Base) : Z := match b with Base1m => 60 | Base1d => 86400 end.

Definition calendar_span (interval : string) : result Z :=
  if String.eqb interval "1w" then Ok 7
  else if String.eqb interval "1M" then Ok 31
  else Raise KeyError.

Definition base_count (interval : string) (limit : Z) : result Z :=
  spec ← interval_of interval;
  per ← match interval_seconds spec with
        | Some s => Ok (Z.max (s / base_seconds (base spec)) 1)
        | None => calendar_span interval
        end;
  Ok (limit * per + per).

(* ------------------------------------------------------------------ *)
(** ** Bucket starts *)

Lemma interval_of_cases i spec :
  interval_of i = Ok spec -> code spec = i /\ spec ∈ INTERVALS.
Proof.
  unfold interval_of. destruct (List.find _ _) as [s|] eqn:Hf; [|done]. intros [= <-].
  apply List.find_some in Hf as [Hin Hc]. apply String.eqb_eq in Hc.
  by rewrite list_elem_of_In.
Qed.

(** The kinds of interval there are. *)
Inductive interval_kind (i : string) (spec : Interval) : Prop :=
  | kind_fixed s : interval_seconds spec = Some s -> 0 < s -> (s | 86400) ->
      (base_seconds (base spec) | s) -> interval_kind i spec
  | kind_week : interval_seconds spec = None -> i = "1w"%string ->
      base spec = Base1d -> interval_kind i spec
  | kind_month : interval_seconds spec = None -> i = "1M"%string ->
      base spec = Base1d -> interval_kind i spec.

Lemma interval_kinds i spec : interval_of i = Ok spec -> interval_kind i spec.
Proof.
  intros [<- Hin]%interval_of_cases. unfold INTERVALS in Hin.
  repeat (apply elem_of_cons in Hin as [->|Hin];
    [first [by apply kind_week | by apply kind_month
       | (eapply kind_fixed; [reflexivity|done|..]; apply Z.mod_divide; done)]|]).
  by apply elem_of_nil in Hin.
Qed.

Lemma midnight_eq day : midnight day = 86400 * day.
Proof.
  unfold midnight, int_timestamp, days, hours, minutes, seconds, MICRO.
  replace (60 * (60 * (24 * day)) * 1000000) with (86400 * day * 1000000) by lia.
  by apply Z.quot_mul.
Qed.

Lemma epoch_day epoch : fromtimestamp epoch / days 1 = epoch / 86400.
Proof. unfold fromtimestamp. change (days 1) with (86400 * MICRO). by rewrite Z.div_mul_cancel_r. Qed.

(** [bucket_start] on its three kinds of interval, in seconds. *)
Lemma bucket_start_kind i spec epoch s :
  interval_of i = Ok spec -> bucket_start epoch i = Ok s ->
  match interval_seconds spec with
  | Some w => s = epoch - epoch mod w
  | None =>
      s = 86400 * (if String.eqb i "1w" then epoch / 86400 - (epoch / 86400 + 3) mod 7
                   else month_start (epoch / 86400))
  end.
Proof.
  intros Hi. unfold bucket_start. rewrite Hi. cbn [mbind result_bind].
  destruct (interval_seconds spec); [by intros [= <-]|].
  intros Hs. apply bind_ok in Hs as (at_ & Ha & [= <-]).
  unfold utc_datetime in Ha. destruct (_ && _)%bool; [|done]. injection Ha as <-.
  unfold weekday, weekday_of_days. rewrite epoch_day.
  destruct (String.eqb i "1w"); by rewrite midnight_eq.
Qed.

(** The widest a bucket can be, in seconds. *)
Definition span (i : string) (spec : Interval) : Z :=
  match interval_seconds spec with
  | Some w => w
  | None => 86400 * (if String.eqb i "1w" then 7 else 31)
  end.

Lemma bucket_start_bounds i spec epoch s :
  interval_of i = Ok spec -> bucket_start epoch i = Ok s -> s <= epoch < s + span i spec.
Proof.
  intros Hi Hs. pose proof (bucket_start_kind _ _ _ _ Hi Hs) as Hk.
  unfold span. destruct (interval_kinds _ _ Hi) as [w Hw H0 _ _|Hw -> _|Hw -> _];
    rewrite Hw in *; subst s; cbn [String.eqb Ascii.eqb Bool.eqb].
  - pose proof (Z.mod_pos_bound epoch w H0). lia.
  - zdivmod.
  - destruct (month_start_day (epoch / 86400)). zdivmod.
Qed.

Lemma bucket_start_mono i epoch epoch' s s' :
  epoch <= epoch' -> bucket_start epoch i = Ok s -> bucket_start epoch' i = Ok s' -> s <= s'.
Proof.
  intros Hle Hs Hs'. destruct (interval_of i) as [spec|] eqn:Hi;
    [|by (unfold bucket_start in Hs; rewrite Hi in Hs)].
  pose proof (bucket_start_kind _ _ _ _ Hi Hs) as Hk.
  pose proof (bucket_start_kind _ _ _ _ Hi Hs') as Hk'.
  destruct (interval_kinds _ _ Hi) as [w Hw H0 _ _|Hw -> _|Hw -> _];
    rewrite Hw in *; subst s s'; cbn [String.eqb Ascii.eqb Bool.eqb].
  - rewrite !Z.mod_eq by lia.
    assert (epoch / w <= epoch' / w) by (apply Z.div_le_mono; lia). nia.
  - zdivmod.
  - assert (epoch / 86400 <= epoch' / 86400) by (apply Z.div_le_mono; lia).
    pose proof (month_start_le (epoch / 86400) (epoch' / 86400)). lia.
Qed.

Lemma utc_datetime_before i spec epoch s :
  interval_of i = Ok spec -> interval_seconds spec = None ->
  bucket_start epoch i = Ok s -> DT_MIN <= fromtimestamp s ->
  utc_datetime s = Ok (fromtimestamp s).
Proof.
  intros Hi Hn Hs Hmin. pose proof (bucket_start_bounds _ _ _ _ Hi Hs) as [Hle _].
  unfold bucket_start in Hs. rewrite Hi in Hs. cbn [mbind result_bind] in Hs. rewrite Hn in Hs.
  apply bind_ok in Hs as (at_ & Ha & _). unfold utc_datetime in *.
  destruct (_ && _)%bool eqn:E in Ha; [|done]. boolify. unfold fromtimestamp, MICRO in *.
  rewrite (proj2 (Z.leb_le _ _)), (proj2 (Z.leb_le _ _)) by lia. done.
Qed.

Lemma bucket_start_idempotent i epoch s :
  bucket_start epoch i = Ok s -> DT_MIN <= fromtimestamp s -> bucket_start s i = Ok s.
Proof.
  intros Hs Hmin. destruct (interval_of i) as [spec|] eqn:Hi;
    [|by (unfold bucket_start in Hs; rewrite Hi in Hs)].
  pose proof (bucket_start_kind _ _ _ _ Hi Hs) as Hk.
  pose proof (bucket_start_bounds _ _ _ _ Hi Hs) as [Hle _].
  unfold bucket_start. rewrite Hi. cbn [mbind result_bind].
  destruct (interval_kinds _ _ Hi) as [w Hw H0 _ _|Hw -> _|Hw -> _]; rewrite Hw in *.
  - subst s. f_equal. rewrite Z.mod_eq by lia.
    replace (epoch - (epoch - w * (epoch / w))) with (epoch / w * w) by lia.
    rewrite Z.mod_mul by lia. lia.
  - assert (utc_datetime s = Ok (fromtimestamp s)) as ->
      by (by eapply utc_datetime_before).
    cbn [mbind result_bind]. rewrite epoch_day, midnight_eq. unfold weekday, weekday_of_days.
    rewrite epoch_day. cbn [String.eqb Ascii.eqb Bool.eqb] in Hk |- *. f_equal. subst s. zdivmod.
  - assert (utc_datetime s = Ok (fromtimestamp s)) as ->
      by (by eapply utc_datetime_before).
    cbn [mbind result_bind]. rewrite epoch_day, midnight_eq. cbn [String.eqb Ascii.eqb Bool.eqb] in Hk |- *. f_equal.
    subst s. rewrite (Z.mul_comm 86400 (month_start (epoch / 86400))), Z.div_mul by done.
    rewrite month_start_idem, midnight_eq. lia.
Qed.

(* ------------------------------------------------------------------ *)
(** ** Grouping a sorted list in one pass *)

Section Grouping.
Context {A C : Type} (key : A -> Z) (ckey : C -> Z) (opn : A -> C) (ext : C -> A -> C).
Hypothesis ckey_opn : forall a, ckey (opn a) = key a.
Hypothesis ckey_ext : forall c a, ckey (ext c a) = ckey c.
Implicit Types (l : list A) (out : list C).

Definition group_step out (a : A) : list C :=
  match out with
  | c :: out' => if ckey c =? key a then ext c a :: out' else opn a :: out
  | [] => [opn a]
  end.

(** A non-empty group, summarised in order. *)
Definition summary (g : list A) : option C :=
  match g with [] => None | a :: g => Some (fold_left ext g (opn a)) end.

Definition find_key (k : Z) out : option C := List.find (fun c => ckey c =? k) out.

Lemma summary_snoc g a :
  summary (g ++ [a]) = Some (match summary g with Some c => ext c a | None => opn a end).
Proof. destruct g; cbn; [done|]. by rewrite fold_left_app. Qed.

Lemma find_key_bound out k m :
  Forall (fun c => ckey c <= m) out -> m < k -> find_key k out = None.
Proof.
  intros Hall Hk. unfold find_key. induction Hall as [|c out Hc Hall IH]; [done|]. cbn.
  by rewrite (proj2 (Z.eqb_neq _ _)) by lia.
Qed.

(** Keys strictly decreasing, all at most [m]: the newest group first. *)
Inductive stacked : Z -> list C -> Prop :=
  | stacked_nil m : stacked m []
  | stacked_cons m c out : ckey c <= m -> stacked (ckey c - 1) out -> stacked m (c :: out).

Lemma stacked_forall m out : stacked m out -> Forall (fun c => ckey c <= m) out.
Proof.
  induction 1 as [|m c out Hc _ IH]; constructor; [done|].
  eapply Forall_impl; [exact IH|]. cbn. lia.
Qed.

Lemma stacked_weaken m m' out : m <= m' -> stacked m out -> stacked m' out.
Proof. intros Hm. destruct 1; constructor; [lia|done]. Qed.

Lemma group_step_spec l out a m :
  stacked m out -> m <= key a ->
  (forall k, find_key k out = summary (List.filter (fun b => key b =? k) l)) ->
  stacked (key a) (group_step out a) /\
  forall k, find_key k (group_step out a)
            = summary (List.filter (fun b => key b =? k) (l ++ [a])).
Proof.
  intros Hst Hm Hf. assert (forall k, List.filter (fun b => key b =? k) (l ++ [a])
    = List.filter (fun b => key b =? k) l ++ (if key a =? k then [a] else [])) as Hfil.
  { intros k. by rewrite List.filter_app. }
  destruct Hst as [m|m c out Hc Hst]; cbn [group_step].
  - split; [constructor; [by rewrite ckey_opn|constructor]|].
    intros k. rewrite Hfil. cbn. rewrite ckey_opn.
    destruct (key a =? k); [|by rewrite app_nil_r, <- Hf].
    by rewrite summary_snoc, <- Hf.
  - destruct (Z.eqb_spec (ckey c) (key a)) as [E|E].
    + split; [constructor; rewrite ckey_ext; [lia|done]|].
      intros k. rewrite Hfil. specialize (Hf k). cbn in *. rewrite ckey_ext.
      rewrite <- E. destruct (ckey c =? k); [|by rewrite app_nil_r].
      by rewrite summary_snoc, <- Hf.
    + split; [constructor; rewrite ckey_opn; [lia|constructor; [lia|done]]|].
      intros k. rewrite Hfil. cbn [find_key List.find]. rewrite ckey_opn.
      destruct (Z.eqb_spec (key a) k) as [<-|Hk]; [|by rewrite app_nil_r, <- Hf].
      rewrite summary_snoc, <- Hf. unfold find_key. cbn.
      rewrite (proj2 (Z.eqb_neq _ _)) by done.
      fold (find_key (key a) out). by rewrite (find_key_bound _ _ (ckey c - 1))
        by (apply stacked_forall in Hst; done || lia).
Qed.

Lemma group_all l :
  (forall i a b, l !! i = Some a -> l !! S i = Some b -> key a <= key b) ->
  exists m, stacked m (fold_left group_step l []) /\
  (forall a, last l = Some a -> m = key a) /\
  forall k, find_key k (fold_left group_step l [])
            = summary (List.filter (fun b => key b =? k) l).
Proof.
  induction l as [|a l IH] using rev_ind; intros Hs.
  { exists 0. split_and!; [constructor|done|done]. }
  destruct IH as (m & Hst & Hm & Hf).
  { intros i x y Hx Hy. apply (Hs i); by apply lookup_app_l_Some. }
  rewrite fold_left_app. cbn [fold_left]. exists (key a).
  assert (exists m', stacked m' (fold_left group_step l []) /\ m' <= key a) as (m' & Hst' & Hle).
  { destruct (last l) as [b|] eqn:Eb.
    - exists m. split; [done|]. rewrite (Hm b) by done.
      rewrite last_lookup in Eb. pose proof (lookup_lt_Some _ _ _ Eb).
      apply (Hs (pred (length l)) b a); [by apply lookup_app_l_Some|].
      rewrite lookup_app_r by lia.
      by replace (S (pred (length l)) - length l)%nat with 0%nat by lia.
    - apply last_None in Eb. subst l. exists (key a). split; [constructor|lia]. }
  destruct (group_step_spec l _ a m' Hst' Hle Hf) as [H1 H2].
  split_and!; [done| |done]. intros b. rewrite last_snoc. by intros [= ->].
Qed.
End Grouping.

(* ------------------------------------------------------------------ *)
(** ** The fold *)

Section FoldFacts.
Context {F : Type} `{PyFloat F}.
Implicit Types (b : BaseBar F) (l : list (BaseBar F)).

Lemma order_leb_total x y : order_leb x y = true \/ order_leb y x = true.
Proof.
  unfold order_leb. rewrite !orb_true_iff, !andb_true_iff, !Z.ltb_lt, !Z.eqb_eq, !Z.leb_le. lia.
Qed.

Lemma order_leb_trans x y z :
  order_leb x y = true -> order_leb y z = true -> order_leb x z = true.
Proof.
  unfold order_leb. rewrite !orb_true_iff, !andb_true_iff, !Z.ltb_lt, !Z.eqb_eq, !Z.leb_le. lia.
Qed.

Abbreviation in_order := (key_le order_leb (@fold_order F)).

Lemma in_order_time b b' : in_order b b' -> bb_t b <= bb_t b'.
Proof.
  unfold key_le, order_leb, fold_order. cbn [fst].
  rewrite orb_true_iff, andb_true_iff, Z.ltb_lt, Z.eqb_eq. lia.
Qed.

(** The candle a group of bars of one bucket amounts to. *)
Definition candle_of (start : Z) (g : list (BaseBar F)) : option (Candle F) :=
  summary (open_candle start) extend_candle g.

Definition start_of (interval : string) b : Z :=
  match bucket_start (bb_t b) interval with Ok s => s | Raise _ => 0 end.

Lemma fold_bars_group interval l out :
  Forall (fun b => is_ok (bucket_start (bb_t b) interval) = true) l ->
  fold_bars interval out l
  = Ok (reverse (fold_left (group_step (start_of interval) c_t
      (fun b => open_candle (start_of interval b) b) extend_candle) l out)).
Proof.
  intros Hall. revert out. induction Hall as [|b l Hb Hall IH]; intros out; [done|].
  cbn [fold_bars fold_left]. unfold fold_bar.
  destruct (bucket_start (bb_t b) interval) as [s|] eqn:E; [|done]. cbn [mbind result_bind].
  assert (start_of interval b = s) as Es by (unfold start_of; by rewrite E).
  destruct out as [|cur out]; cbn [group_step]; rewrite Es; [apply IH|].
  destruct (c_t cur =? s); apply IH.
Qed.

(** The candle of a group, whatever start its bars compute. *)
Lemma summary_starts interval s g :
  Forall (fun b => start_of interval b = s) g ->
  summary (fun b => open_candle (start_of interval b) b) extend_candle g = candle_of s g.
Proof. destruct 1 as [|b g Hb _]; [done|]. cbn. by rewrite Hb. Qed.

Lemma stacked_reverse {C} (ckey : C -> Z) m out :
  stacked ckey m out -> StronglySorted (fun c c' => ckey c < ckey c') (reverse out).
Proof.
  induction 1 as [|m c out Hc Hst IH]; [constructor|]. rewrite reverse_cons.
  pose proof (stacked_forall _ _ _ Hst) as Hall.
  assert (Forall (fun c' => ckey c' < ckey c) (reverse out)) as Hrev.
  { rewrite reverse_Permutation. eapply Forall_impl; [exact Hall|]. cbn. lia. }
  clear Hall Hst. induction IH as [|c' l Hs IH' Hl]; cbn; [by repeat constructor|].
  apply Forall_cons in Hrev as [Hc' Hrev]. constructor; [by apply IH'|].
  apply Forall_app. by rewrite Forall_singleton.
Qed.

Lemma find_key_reverse {C} (ckey : C -> Z) m out k :
  stacked ckey m out -> find_key ckey k (reverse out) = find_key ckey k out.
Proof.
  induction 1 as [|m c out Hc Hst IH]; [done|]. rewrite reverse_cons. unfold find_key in *.
  cbn. destruct (Z.eqb_spec (ckey c) k) as [<-|Hne].
  - assert (List.find (fun c' => ckey c' =? ckey c) (reverse out) = None) as Hn.
    { rewrite IH. apply (find_key_bound ckey _ _ (ckey c - 1)); [by apply stacked_forall|lia]. }
    revert Hn. generalize (reverse out). intros l Hn. induction l as [|x l IHl]; cbn in *.
    + by rewrite Z.eqb_refl.
    + destruct (ckey x =? ckey c); [done|by apply IHl].
  - rewrite <- IH. generalize (reverse out). intros l. induction l as [|x l IHl]; cbn.
    + by rewrite (proj2 (Z.eqb_neq _ _)).
    + by destruct (ckey x =? k).
Qed.

(** What a candle should be: the first open, the extrema, the last close, the total
    of the ticks, and the common source of its bars if they have one. *)
Definition candle_reference (s : Z) (g : list (BaseBar F)) : option (Candle F) :=
  match g with
  | [] => None
  | b :: g => Some {|
      c_t := s; c_o := bb_o b;
      c_h := fold_left py_max (bb_h <$> g) (bb_h b);
      c_l := fold_left py_min (bb_l <$> g) (bb_l b);
      c_c := default (bb_c b) (bb_c <$> last g);
      c_n := foldr Z.add 0 (ticks_of <$> b :: g);
      c_src := if forallb (fun b' => String.eqb (source_of b) (source_of b')) g
               then source_of b else "mixed"%string |}
  end.

Lemma candle_fields_fold g (c : Candle F) :
  let c' := fold_left extend_candle g c in
  c_t c' = c_t c /\ c_o c' = c_o c /\ c_h c' = fold_left py_max (bb_h <$> g) (c_h c) /\
  c_l c' = fold_left py_min (bb_l <$> g) (c_l c) /\
  c_c c' = default (c_c c) (bb_c <$> last g) /\
  c_n c' = c_n c + foldr Z.add 0 (ticks_of <$> g) /\
  c_src c' = if forallb (fun b => String.eqb (c_src c) (source_of b)) g
             then c_src c else "mixed"%string.
Proof.
  revert c. induction g as [|b g IH]; intros c; [cbn; split_and!; done || lia|].
  cbn [fold_left]. destruct (IH (extend_candle c b)) as (E1 & E2 & E3 & E4 & E5 & E6 & E7).
  cbv zeta. rewrite E1, E2, E3, E4, E5, E6, E7. cbn [extend_candle c_t c_o c_h c_l c_c c_n c_src].
  split_and!; try done.
  - rewrite last_cons. by destruct (last g).
  - cbn. lia.
  - cbn [forallb]. destruct (String.eqb_spec (c_src c) (source_of b)) as [E|E]; [done|].
    cbn [andb]. by destruct (forallb (fun b' => String.eqb "mixed" (source_of b')) g).
Qed.

Lemma candle_of_reference s g : candle_of s g = candle_reference s g.
Proof.
  destruct g as [|b g]; [done|]. unfold candle_of, summary, candle_reference. f_equal.
  destruct (candle_fields_fold g (open_candle s b)) as (E1 & E2 & E3 & E4 & E5 & E6 & E7).
  destruct (fold_left extend_candle g (open_candle s b)). cbn in *. by subst.
Qed.

(** C20.  The fold is a group-by.  An unknown interval is refused.  Otherwise, for bars
    whose buckets exist, in whatever order they are given, the fold returns one
    candle per bucket that has bars, in strictly increasing order of time, and each
    candle is the reference summary of its bucket's bars taken in time order with
    provider history first within a minute. *)
Theorem fold_is_group_by bars interval :
  match interval_of interval with
  | Raise _ => fold bars interval = Raise ValueError
  | Ok _ =>
      Forall (fun b => is_ok (bucket_start (bb_t b) interval) = true) bars ->
      exists out, fold bars interval = Ok out /\
        StronglySorted (fun c c' => c_t c < c_t c') out /\
        forall s, find_key c_t s out
          = candle_reference s
              (List.filter (fun b => start_of interval b =? s) (sorted_bars bars))
  end.
Proof.
  unfold fold. destruct (interval_of interval) as [spec|] eqn:Hi; [|done]. intros Hall.
  assert (fold_bars interval [] (sorted_bars bars)
    = match bars with [] => Ok [] | _ => fold_bars interval [] (sorted_bars bars) end) as <-
    by (by destruct bars).
  rewrite <- (py_sorted_perm order_leb fold_order bars) in Hall.
  rewrite fold_bars_group by done. eexists. split; [done|].
  destruct (group_all (start_of interval) c_t
    (fun b => open_candle (start_of interval b) b) extend_candle) with (l := sorted_bars bars)
    as (m & Hst & _ & Hf); [done..| |].
  { intros i b b' Hb Hb'. pose proof (py_sorted_sorted _ fold_order order_leb_total order_leb_trans bars) as Hs.
    assert (in_order b b') as Ho by (eapply (sorted_lookup _ _ i (S i)); [done..|lia]).
    rewrite Forall_forall in Hall.
    assert (forall x, x ∈ sorted_bars bars ->
      bucket_start (bb_t x) interval = Ok (start_of interval x)) as Hok.
    { intros x Hx. apply Hall in Hx. unfold start_of. by destruct (bucket_start _ _). }
    eapply bucket_start_mono; [by apply in_order_time|apply Hok..];
      by eapply list_elem_of_lookup_2. }
  split; [by eapply stacked_reverse|]. intros s.
  erewrite find_key_reverse, Hf by done. rewrite <- candle_of_reference.
  apply summary_starts. apply Forall_forall. intros x Hx.
  rewrite list_elem_of_In in Hx. apply filter_In in Hx as [_ Hx]. by apply Z.eqb_eq.
Qed.
End FoldFacts.

(* ------------------------------------------------------------------ *)
(** ** Alignment and coverage *)

(** The start of the [k]-th bucket before the one [epoch] is in. *)
Fixpoint start_back (k : nat) (epoch : Z) (interval : string) : result Z :=
  match k with
  | O => bucket_start epoch interval
  | S k => s ← start_back k epoch interval; bucket_start (s - 1) interval
  end.

(** Buckets are aligned cells of the time line.  A bucket's start is at or before
    each epoch of the bucket, less than the interval's widest span before it; it is
    its own start; starts are monotone in the epoch; and a fixed interval's starts
    include every midnight, so its buckets never straddle a day. *)
Theorem bucket_start_aligned interval spec epoch epoch' s s' :
  interval_of interval = Ok spec ->
  bucket_start epoch interval = Ok s -> bucket_start epoch' interval = Ok s' ->
  epoch <= epoch' -> DT_MIN <= fromtimestamp s ->
  s <= epoch < s + span interval spec /\
  bucket_start s interval = Ok s /\ s <= s' /\
  (forall day, is_Some (interval_seconds spec) ->
     bucket_start (86400 * day) interval = Ok (86400 * day)).
Proof.
  intros Hi Hs Hs' Hle Hmin. split; [by eapply bucket_start_bounds|]. split_and!.
  - by eapply bucket_start_idempotent.
  - by apply (bucket_start_mono interval epoch epoch').
  - intros day [w Hw]. unfold bucket_start. rewrite Hi. cbn [mbind result_bind]. rewrite Hw.
    f_equal. destruct (interval_kinds _ _ Hi) as [w' Hw' H0 Hd _|Hw' _ _|Hw' _ _]; [|congruence..].
    assert (w' = w) as -> by congruence. clear Hs Hs'. destruct Hd as [q Hq].
    rewrite Hq. replace (q * w * day) with (q * day * w) by lia. rewrite Z.mod_mul by lia. lia.
Qed.

Lemma span_base_count interval spec limit k :
  interval_of interval = Ok spec -> base_count interval limit = Ok k ->
  k * base_seconds (base spec) = (limit + 1) * span interval spec.
Proof.
  intros Hi. unfold base_count, span. rewrite Hi. cbn [mbind result_bind].
  destruct (interval_kinds _ _ Hi) as [w Hw H0 _ Hd|Hw -> Hb|Hw -> Hb]; rewrite Hw.
  - cbn. intros [= <-]. destruct Hd as [q Hq].
    assert (0 < base_seconds (base spec)) as Hpos by (by destruct (base spec)).
    subst w. rewrite Z.div_mul by lia. assert (0 < q) by nia. rewrite Z.max_l by lia. lia.
  - cbn. intros [= <-]. rewrite Hb. cbn. lia.
  - cbn. intros [= <-]. rewrite Hb. cbn. lia.
Qed.

(**  Enough base bars are read.  The oldest of the [limit] buckets ending at the one
    the newest base bar is in starts no earlier than the oldest of the
    [base_count] consecutive base bars read: none of the [limit] candles is folded
    from a partial bucket, whatever boundary the newest bar falls between. *)
Theorem base_count_suffices interval spec (limit : nat) k epoch s :
  interval_of interval = Ok spec -> (0 < limit)%nat ->
  base_count interval (Z.of_nat limit) = Ok k ->
  start_back (limit - 1) epoch interval = Ok s ->
  epoch - (k - 1) * base_seconds (base spec) <= s.
Proof.
  intros Hi Hlim Hk Hs. pose proof (span_base_count _ _ _ _ Hi Hk) as Hspan.
  assert (base_seconds (base spec) <= span interval spec) as Hbase.
  { unfold span. destruct (interval_kinds _ _ Hi) as [w Hw H0 _ Hd|Hw -> Hb|Hw -> Hb]; rewrite Hw.
    - by apply Z.divide_pos_le.
    - rewrite Hb. cbn. lia.
    - rewrite Hb. cbn. lia. }
  assert (forall j s, start_back j epoch interval = Ok s ->
    epoch - (Z.of_nat j + 1) * span interval spec <= s) as Hback.
  { intros j. induction j as [|j IH]; intros s0 H0.
    - pose proof (bucket_start_bounds _ _ _ _ Hi H0). lia.
    - cbn in H0. apply bind_ok in H0 as (s1 & H1 & H0). apply IH in H1.
      pose proof (bucket_start_bounds _ _ _ _ Hi H0). lia. }
  apply Hback in Hs. replace (Z.of_nat (limit - 1) + 1) with (Z.of_nat limit) in Hs by lia. lia.
Qed.

(* ------------------------------------------------------------------ *)
(** ** Concrete instances *)

#[local] Existing Instance plain64.

Definition demo_base (t o c : Z) (src : string) : BaseBar spec_float := {|
  bb_t := t; bb_o := f_of_Z o; bb_h := f_of_Z (Z.max o c); bb_l := f_of_Z (Z.min o c);
  bb_c := f_of_Z c; bb_n := Some 2; bb_src := Some src |}.

(** Given out of order, with a live and a backfilled bar for the same minute. *)
Definition demo_base_bars : list (BaseBar spec_float) :=
  [demo_base 420 5 6 "agg"; demo_base 360 4 5 "agg"; demo_base 360 3 4 "backfill";
   demo_base 60 1 2 "agg"].

Lemma fold_is_group_by_witness :
  exists out, fold demo_base_bars "5m" = Ok out /\
    StronglySorted (fun c c' => c_t c < c_t c') out /\
    forall s, find_key c_t s out = candle_reference s
      (List.filter (fun b => start_of "5m" b =? s) (sorted_bars demo_base_bars)).
Proof.
  apply (fold_is_group_by demo_base_bars "5m"). repeat constructor.
Defined.

Definition demo_labels (out : list (Candle spec_float)) : list (Z * Z * string) :=
  (fun c => (c_t c, c_n c, c_src c)) <$> out.

Lemma demo_fold :
  match fold demo_base_bars "5m" with
  | Ok out => demo_labels out = [(0, 2, "agg"%string); (300, 6, "mixed"%string)]
  | Raise _ => False
  end.
Proof. vm_compute. reflexivity. Qed.

Lemma bucket_start_aligned_witness :
  1759276800 <= 1760227200 < 1759276800 + 86400 * 31 /\
  bucket_start 1759276800 "1M" = Ok 1759276800 /\ 1759276800 <= 1761955200 /\
  (forall day, is_Some (interval_seconds
       {| code := "1M"%string; interval_seconds := None; base := Base1d |}) ->
     bucket_start (86400 * day) "1M" = Ok (86400 * day)).
Proof.
  refine (bucket_start_aligned "1M"
    {| code := "1M"%string; interval_seconds := None; base := Base1d |}
    1760227200 1762000000 1759276800 1761955200 _ _ _ _ _); by vm_compute.
Defined.

Lemma base_count_suffices_witness :
  1760227200 - (31 * 4 - 1) * 86400 <= 1754006400.
Proof.
  refine (base_count_suffices "1M"
    {| code := "1M"%string; interval_seconds := None; base := Base1d |}
    3 (31 * 4) 1760227200 1754006400 _ _ _ _); first [lia|by vm_compute].
Defined.
