(* ===== verification/Supervisor.v ===== *)
(** * Supervising the feed connection ([fx_ingestor/supervisor.py], [fx_ingestor/main.py])

    The backoff policy, the circuit breaker and the staleness watchdog, and the
    two parts of [Ingestor] that use them: the retry loop [_run_as_leader], one
    iteration per [leader_turn], and the status record it publishes.  A turn's
    clock readings, its random draw and how its session ended are inputs. *)
From S2P Require Import Prelude PyFloat.
From Stdlib Require Import QArith Qround Qcanon SpecFloat.

Local Open Scope Z_scope.

(* ------------------------------------------------------------------ *)
(** ** Backoff *)

Record BackoffPolicy F := { base_s : F; cap_s : F }.
Arguments base_s {F} _.
Arguments cap_s {F} _.

Inductive BreakerState := CLOSED | OPEN | HALF_OPEN.

#[export] Instance breaker_state_eq_dec : EqDecision BreakerState.
Proof. solve_decision. Defined.

Record CircuitBreaker F := {
  fail_threshold : Z;
  reset_after_s : F;
  state : BreakerState;
  failures : Z;
  opened_at : F;
}.
Arguments fail_threshold {F} _.
Arguments reset_after_s {F} _.
Arguments state {F} _.
Arguments failures {F} _.
Arguments opened_at {F} _.

Record Watchdog F := { timeout_s : F; last_data : F; trips : Z }.
Arguments timeout_s {F} _.
Arguments last_data {F} _.
Arguments trips {F} _.

(** How [_consume_once] ended: with a credential failure, with a provider or
    socket error, with any other exception, or by returning. *)
Inductive Session := SessionAuth | SessionError | SessionCrash (e : exn) | SessionReturned.

(** One iteration of the retry loop: the flags at its head, the monotonic clock
    where the breaker is asked, where the session starts and ends and where a
    failure is recorded, the flags after the session, and [random()]. *)
Record Turn F := {
  tn_stop_before : bool;
  tn_asked : F;
  tn_started : F;
  tn_session : Session;
  tn_ended : F;
  tn_recorded : F;
  tn_stop_after : bool;
  tn_random : F;
}.
Arguments tn_stop_before {F} _.
Arguments tn_asked {F} _.
Arguments tn_started {F} _.
Arguments tn_session {F} _.
Arguments tn_ended {F} _.
Arguments tn_recorded {F} _.
Arguments tn_stop_after {F} _.
Arguments tn_random {F} _.

(** The loop's own state; [running] is false once it has returned or raised. *)
Record Leader F := {
  breaker : CircuitBreaker F;
  backoff : BackoffPolicy F;
  attempt : Z;
  running : bool;
}.
Arguments breaker {F} _.
Arguments backoff {F} _.
Arguments attempt {F} _.
Arguments running {F} _.

(** What a turn that opened a session did: the turn, whether the session lasted
    long enough to count as healthy, and the delay slept afterwards. *)
Record Attempted F := { at_turn : Turn F; at_healthy : bool; at_delay : option F }.
Arguments at_turn {F} _.
Arguments at_healthy {F} _.
Arguments at_delay {F} _.

Section Supervisor.
Context {F : Type} `{PyFloat F}.
Implicit Types (b : CircuitBreaker F) (w : Watchdog F) (now u : F).

(** [random.uniform(a, b)]: [a + (b - a) * random()]. *)
Definition uniform (lo hi u : F) : F := (lo + (hi - lo) * u)%py.

Definition BackoffPolicy_default : BackoffPolicy F :=
  {| base_s := f_ratio 1 2; cap_s := f_of_Z 60 |}.

Definition delay (p : BackoffPolicy F) (attempt : Z) (u : F) : result F :=
  two_n ← py_pow (f_of_Z 2) (f_of_Z attempt);
  let ceiling := py_min (cap_s p) (base_s p * two_n)%py in
  Ok (uniform f_zero ceiling u).

(* ------------------------------------------------------------------ *)
(** ** Circuit breaker *)

Definition CircuitBreaker_new (threshold : Z) (reset : F) : CircuitBreaker F := {|
  fail_threshold := threshold; reset_after_s := reset; state := CLOSED; failures := 0;
  opened_at := f_zero |}.

Definition record_success b : CircuitBreaker F := {|
  fail_threshold := fail_threshold b; reset_after_s := reset_after_s b;
  state := CLOSED; failures := 0; opened_at := opened_at b |}.

Definition record_failure b now : CircuitBreaker F :=
  let n := failures b + 1 in
  let opens := (fail_threshold b <=? n) && negb (bool_decide (state b = OPEN)) in
  {| fail_threshold := fail_threshold b; reset_after_s := reset_after_s b;
     state := if opens then OPEN else state b; failures := n;
     opened_at := if opens then now else opened_at b |}.

Definition half_open b : CircuitBreaker F := {|
  fail_threshold := fail_threshold b; reset_after_s := reset_after_s b;
  state := HALF_OPEN; failures := failures b; opened_at := opened_at b |}.

Definition allows_attempt b now : CircuitBreaker F * bool :=
  match state b with
  | CLOSED => (b, true)
  | OPEN =>
      if f_le (reset_after_s b) (now - opened_at b)%py then (half_open b, true) else (b, false)
  | HALF_OPEN => (b, true)
  end.

Definition is_degraded b : bool := negb (bool_decide (state b = CLOSED)).

(* ------------------------------------------------------------------ *)
(** ** Staleness watchdog *)

Definition pet w now : Watchdog F :=
  {| timeout_s := timeout_s w; last_data := now; trips := trips w |}.

Definition idle_s w now : F := (now - last_data w)%py.

Definition trip w : Watchdog F :=
  {| timeout_s := timeout_s w; last_data := last_data w; trips := trips w + 1 |}.

(** One pass of [_loop] after its sleep; the second component is whether
    [on_stale] is awaited. *)
Definition watchdog_check w (market_is_open : bool) (now now_pet : F) : Watchdog F * bool :=
  if negb market_is_open then (pet w now_pet, false)
  else if f_lt (timeout_s w) (idle_s w now) then (pet (trip w) now_pet, true)
  else (w, false).

(** The watchdog's life: a frame pets it, its loop checks it. *)
Inductive WatchEvent := Frame (now : F) | Checked (market_is_open : bool) (now now_pet : F).

Definition watchdog_step w (e : WatchEvent) : result (Watchdog F * option F) :=
  match e with
  | Frame now => Ok (pet w now, None)
  | Checked is_open now now_pet =>
      let '(w', stale) := watchdog_check w is_open now now_pet in
      Ok (w', if stale then Some now else None)
  end.

(* ------------------------------------------------------------------ *)
(** ** The retry loop *)

(** [MIN_HEALTHY_SESSION_S] *)
Definition MIN_HEALTHY_SESSION_S : F := f_of_Z 30.

Definition Leader_new (b : CircuitBreaker F) (p : BackoffPolicy F) : Leader F :=
  {| breaker := b; backoff := p; attempt := 0; running := true |}.

Definition stopped (l : Leader F) : Leader F :=
  {| breaker := breaker l; backoff := backoff l; attempt := attempt l; running := false |}.

Definition set_leader (l : Leader F) b (a : Z) : Leader F :=
  {| breaker := b; backoff := backoff l; attempt := a; running := running l |}.

(** Neither flag is ever cleared inside the loop: set during a turn, it ends the
    loop at the next test. *)
Definition until (t : Turn F) (l : Leader F) : Leader F :=
  if tn_stop_after t then stopped l else l.

(** One iteration of [while not shutdown and not lost].  A credential failure is
    re-raised and ends the loop, as any exception it does not handle does. *)
Definition leader_turn (l : Leader F) (t : Turn F) : result (Leader F * option (Attempted F)) :=
  if negb (running l) then Ok (l, None)
  else if tn_stop_before t then Ok (stopped l, None)
  else
    let '(b, allowed) := allows_attempt (breaker l) (tn_asked t) in
    if negb allowed then Ok (set_leader l b (attempt l), None)
    else
      let healthy := f_le MIN_HEALTHY_SESSION_S (tn_ended t - tn_started t)%py in
      match tn_session t with
      | SessionAuth => Ok (stopped (set_leader l b (attempt l)), None)
      | SessionCrash e => Raise e
      | SessionError =>
          let b := if healthy then record_success b else b in
          let a := if healthy then 0 else attempt l in
          let b := record_failure b (tn_recorded t) in
          d ← delay (backoff l) a (tn_random t);
          Ok (until t (set_leader l b (a + 1)),
              Some {| at_turn := t; at_healthy := healthy; at_delay := Some d |})
      | SessionReturned =>
          let b := if healthy then record_success b else record_failure b (tn_recorded t) in
          let a := if healthy then 0 else attempt l in
          if tn_stop_after t then
            Ok (until t (set_leader l b a),
                Some {| at_turn := t; at_healthy := healthy; at_delay := None |})
          else
            d ← delay (backoff l) a (tn_random t);
            Ok (until t (set_leader l b (if healthy then a else a + 1)),
                Some {| at_turn := t; at_healthy := healthy; at_delay := Some d |})
      end.

Definition lead : Leader F -> list (Turn F) -> result (Leader F * list (Attempted F)) :=
  run_all leader_turn.
End Supervisor.
Arguments WatchEvent F : clear implicits.

(* ------------------------------------------------------------------ *)
(** ** What the loop promises *)

Section Ladder.
Context {F : Type} `{PyFloat F}.
Implicit Types (log pre post : list (Attempted F)) (a : Attempted F) (l : Leader F).

(** Consecutive failures after a log of sessions: a healthy session starts the
    count again, and a session fails by raising or by being too short. *)
Definition failed a : bool :=
  match tn_session (at_turn a) with SessionError => true | _ => negb (at_healthy a) end.

Definition streak_step (n : Z) a : Z :=
  (if at_healthy a then 0 else n) + (if failed a then 1 else 0).

Definition streak log : Z := fold_left streak_step log 0.

Lemma streak_snoc log a : streak (log ++ [a]) = streak_step (streak log) a.
Proof. apply fold_left_snoc. Qed.

Lemma streak_step_nonneg n a : 0 <= n -> 0 <= streak_step n a.
Proof. unfold streak_step. destruct (at_healthy a), (failed a); lia. Qed.

Lemma streak_nonneg log : 0 <= streak log.
Proof.
  induction log as [|a log IH] using rev_ind; [done|].
  rewrite streak_snoc. by apply streak_step_nonneg.
Qed.

(** The retries a log has used up: the exponent of the next delay. *)
Definition rung log : Z := Z.max 0 (streak log - 1).

(** What holds between turns, with the log so far. *)
Definition leader_ok (thr : Z) (reset : F) (p : BackoffPolicy F) l log : Prop :=
  let b := breaker l in
  fail_threshold b = thr /\ reset_after_s b = reset /\ backoff l = p /\
  failures b = streak log /\
  (running l = true ->
   attempt l = streak log /\
   (state b = CLOSED /\ streak log < thr \/
    state b = OPEN /\ thr <= streak log /\
    exists a, last log = Some a /\ opened_at b = tn_recorded (at_turn a))).

(** What each session of a log owes to those before it. *)
Definition spaced (thr : Z) (reset : F) (p : BackoffPolicy F) log : Prop :=
  forall pre a post, log = pre ++ a :: post ->
  (thr <= streak pre -> exists a', last pre = Some a' /\
     f_le reset (f_sub (tn_asked (at_turn a)) (tn_recorded (at_turn a'))) = true) /\
  (forall d, at_delay a = Some d ->
     delay p (rung (pre ++ [a])) (tn_random (at_turn a)) = Ok d).

Lemma spaced_snoc thr reset p log a :
  spaced thr reset p log ->
  (thr <= streak log -> exists a', last log = Some a' /\
     f_le reset (f_sub (tn_asked (at_turn a)) (tn_recorded (at_turn a'))) = true) ->
  (forall d, at_delay a = Some d ->
     delay p (rung (log ++ [a])) (tn_random (at_turn a)) = Ok d) ->
  spaced thr reset p (log ++ [a]).
Proof.
  intros Hs Hb Hd pre a' post He. destruct post as [|x post _] using rev_ind.
  - apply app_inj_tail in He as [-> ->]. done.
  - rewrite app_comm_cons, app_assoc in He. apply app_inj_tail in He as [-> ->].
    by apply (Hs pre a' post).
Qed.

(** The breaker's count after a session, whatever state the probe left it in. *)
Lemma record_failure_streak (b : CircuitBreaker F) (now : F) n thr :
  fail_threshold b = thr -> failures b = n ->
  (state b = CLOSED /\ n < thr \/ state b = HALF_OPEN /\ thr <= n) ->
  let b' := record_failure b now in
  fail_threshold b' = thr /\ reset_after_s b' = reset_after_s b /\ failures b' = n + 1 /\
  (state b' = CLOSED /\ n + 1 < thr \/ state b' = OPEN /\ thr <= n + 1 /\ opened_at b' = now).
Proof.
  intros <- <- Hst. cbn. split_and!; [done..|].
  destruct Hst as [[-> ?]|[-> ?]]; destruct (Z.leb_spec (fail_threshold b) (failures b + 1));
    cbn; auto; lia.
Qed.

Section Turns.
Context (thr : Z) (reset : F) (p : BackoffPolicy F).

(** The breaker when it lets a session start. *)
Lemma allows_attempt_ok l log now b :
  leader_ok thr reset p l log -> running l = true ->
  allows_attempt (breaker l) now = (b, true) ->
  fail_threshold b = thr /\ reset_after_s b = reset /\ failures b = streak log /\
  (state b = CLOSED /\ streak log < thr \/ state b = HALF_OPEN /\ thr <= streak log) /\
  (thr <= streak log -> exists a', last log = Some a' /\
     f_le reset (f_sub now (tn_recorded (at_turn a'))) = true).
Proof.
  intros (Hthr & Hres & _ & Hf & Hrun) Hr. destruct (Hrun Hr) as [_ Hst].
  unfold allows_attempt. destruct Hst as [[Hc ?]|(Ho & ? & a & Ha & Hop)]; [rewrite Hc|rewrite Ho].
  - intros [= <-]. split_and!; [done..|auto|lia].
  - destruct (f_le _ _) eqn:E; [|done]. intros [= <-]. cbn. rewrite Hthr, Hres, Hf.
    rewrite Hres, Hop in E. split_and!; [done..|auto|eauto].
Qed.

Lemma allows_attempt_refused l log now b :
  leader_ok thr reset p l log -> allows_attempt (breaker l) now = (b, false) -> b = breaker l.
Proof.
  intros _. unfold allows_attempt. destruct (state (breaker l)); [done| |done].
  destruct (f_le _ _); [done|]. by intros [= <-].
Qed.

Lemma leader_ok_stopped l log : leader_ok thr reset p l log -> leader_ok thr reset p (stopped l) log.
Proof. intros (? & ? & ? & ? & _). by split_and!. Qed.

Lemma leader_ok_stopped_at l b n n' log :
  leader_ok thr reset p (set_leader l b n) log ->
  leader_ok thr reset p (stopped (set_leader l b n')) log.
Proof. intros (? & ? & ? & ? & _). by split_and!. Qed.

Lemma leader_ok_until t l log : leader_ok thr reset p l log -> leader_ok thr reset p (until t l) log.
Proof. unfold until. destruct (tn_stop_after t); auto using leader_ok_stopped. Qed.

(** A session that failed, from any breaker that let it start. *)
Lemma leader_ok_failure l b log a n :
  fail_threshold b = thr -> reset_after_s b = reset -> backoff l = p -> failures b = n ->
  (state b = CLOSED /\ n < thr \/ state b = HALF_OPEN /\ thr <= n) ->
  streak (log ++ [a]) = n + 1 ->
  leader_ok thr reset p
    (set_leader l (record_failure b (tn_recorded (at_turn a))) (n + 1)) (log ++ [a]).
Proof.
  intros Hthr Hres Hp Hf Hst Hs.
  destruct (record_failure_streak b (tn_recorded (at_turn a)) n thr Hthr Hf Hst)
    as (? & ? & ? & Hb).
  unfold leader_ok, set_leader. cbn [breaker backoff attempt]. rewrite Hs.
  split_and!; [done|congruence|done..|]. intros _. split; [done|].
  destruct Hb as [?|(? & ? & ?)]; [by left|]. right. split_and!; [done..|].
  exists a. by rewrite last_snoc.
Qed.

Lemma leader_ok_success l b log a :
  0 < thr -> fail_threshold b = thr -> reset_after_s b = reset -> backoff l = p ->
  streak (log ++ [a]) = 0 ->
  leader_ok thr reset p (set_leader l (record_success b) 0) (log ++ [a]).
Proof.
  intros ? ? ? ? Hs. unfold leader_ok, set_leader. cbn. rewrite Hs.
  split_and!; [done..|]. intros _. split; [done|]. by left.
Qed.

(** The count and the rung after a session, from how it ended. *)
Lemma streak_turn log t h d :
  streak (log ++ [{| at_turn := t; at_healthy := h; at_delay := d |}]) =
  (if h then 0 else streak log) +
  match tn_session t with SessionError => 1 | _ => if h then 0 else 1 end.
Proof.
  rewrite streak_snoc. unfold streak_step, failed. cbn. by destruct (tn_session t), h.
Qed.

Lemma rung_turn log a n : streak (log ++ [a]) = n -> rung (log ++ [a]) = Z.max 0 (n - 1).
Proof. by intros <-. Qed.

(** A turn that opened a session continues a well-spaced log. *)
Lemma leader_turn_attempted l t l' a log :
  0 < thr -> leader_ok thr reset p l log -> leader_turn l t = Ok (l', Some a) ->
  at_turn a = t /\ leader_ok thr reset p l' (log ++ [a]) /\
  (thr <= streak log -> exists a', last log = Some a' /\
     f_le reset (f_sub (tn_asked t) (tn_recorded (at_turn a'))) = true) /\
  (forall d, at_delay a = Some d -> delay p (rung (log ++ [a])) (tn_random t) = Ok d).
Proof.
  intros Hthr Hok. unfold leader_turn. destruct (running l) eqn:Hr; [|done]. cbn [negb].
  destruct (tn_stop_before t); [done|].
  destruct (allows_attempt _ _) as [b []] eqn:Hb; [|done]. cbn [negb].
  destruct (allows_attempt_ok _ _ _ _ Hok Hr Hb) as (H1 & H2 & H3 & H4 & Hsp).
  destruct Hok as (_ & _ & Hp & _ & Hrun). destruct (Hrun Hr) as [Ha _]. rewrite Hp, Ha.
  pose proof (streak_nonneg log) as Hnn.
  destruct (f_le MIN_HEALTHY_SESSION_S _), (tn_session t) eqn:Hs; try done.
  - intros (d & Hd & [= <- <-])%bind_ok. pose proof (streak_turn log t true (Some d)) as Hst.
    rewrite Hs in Hst. split_and!; [done| |done|intros ? [= <-]; by rewrite (rung_turn _ _ _ Hst)].
    by apply leader_ok_until,
      (leader_ok_failure l (record_success b) log (Build_Attempted _ t true (Some d)) 0); auto.
  - destruct (tn_stop_after t).
    + intros [= <- <-]. pose proof (streak_turn log t true None) as Hst. rewrite Hs in Hst.
      split_and!; [done| |done|done]. by apply leader_ok_until, leader_ok_success.
    + intros (d & Hd & [= <- <-])%bind_ok. pose proof (streak_turn log t true (Some d)) as Hst.
      rewrite Hs in Hst.
      split_and!; [done| |done|intros ? [= <-]; by rewrite (rung_turn _ _ _ Hst)].
      by apply leader_ok_until, leader_ok_success.
  - intros (d & Hd & [= <- <-])%bind_ok. pose proof (streak_turn log t false (Some d)) as Hst.
    rewrite Hs in Hst. split_and!; [done| |done|].
    + by apply leader_ok_until,
        (leader_ok_failure l b log (Build_Attempted _ t false (Some d)) (streak log)).
    + intros ? [= <-]. rewrite (rung_turn _ _ _ Hst). by replace (Z.max _ _) with (streak log) by lia.
  - destruct (tn_stop_after t) eqn:Hstop.
    + intros [= <- <-]. pose proof (streak_turn log t false None) as Hst. rewrite Hs in Hst.
      split_and!; [done| |done|done]. unfold until. rewrite Hstop.
      by apply (leader_ok_stopped_at _ _ (streak log + 1)),
        (leader_ok_failure l b log (Build_Attempted _ t false None) (streak log)).
    + intros (d & Hd & [= <- <-])%bind_ok. pose proof (streak_turn log t false (Some d)) as Hst.
      rewrite Hs in Hst. split_and!; [done| |done|].
      * by apply leader_ok_until,
          (leader_ok_failure l b log (Build_Attempted _ t false (Some d)) (streak log)).
      * intros ? [= <-]. rewrite (rung_turn _ _ _ Hst).
        by replace (Z.max _ _) with (streak log) by lia.
Qed.

Lemma leader_turn_turn l t l' a : leader_turn l t = Ok (l', Some a) -> at_turn a = t.
Proof.
  unfold leader_turn. destruct (running l); [|done]. destruct (tn_stop_before t); [done|].
  destruct (allows_attempt _ _) as [b []]; [|done]. cbn [negb].
  destruct (tn_session t); [done| |done|].
  - by intros (d & _ & [= _ <-])%bind_ok.
  - destruct (tn_stop_after t); [by intros [= _ <-]|]. by intros (d & _ & [= _ <-])%bind_ok.
Qed.

(** A turn that opened no session changes nothing the log depends on. *)
Lemma leader_turn_idle l t l' log :
  leader_ok thr reset p l log -> leader_turn l t = Ok (l', None) -> leader_ok thr reset p l' log.
Proof.
  intros Hok. unfold leader_turn. destruct (running l) eqn:Hr; [|by intros [= <-]]. cbn [negb].
  destruct (tn_stop_before t); [intros [= <-]; by apply leader_ok_stopped|].
  destruct (allows_attempt _ _) as [b []] eqn:Hb; cbn [negb].
  - destruct (allows_attempt_ok _ _ _ _ Hok Hr Hb) as (? & ? & ? & _ & _).
    destruct Hok as (_ & _ & Hp & _). destruct (tn_session t); [intros [= <-]; by split_and!| |done|];
      destruct (f_le MIN_HEALTHY_SESSION_S _), (tn_stop_after t); try done;
      intros (d & Hd & [= ])%bind_ok.
  - intros [= <-]. apply (allows_attempt_refused _ log) in Hb as ->; [|done].
    by destruct l.
Qed.

Lemma lead_ok l ts l' log :
  0 < thr -> leader_ok thr reset p l [] -> lead l ts = Ok (l', log) ->
  leader_ok thr reset p l' log /\ spaced thr reset p log.
Proof.
  intros Hthr Hok. revert l' log. induction ts as [|t ts IH] using rev_ind; intros l' log Hl.
  - injection Hl as <- <-. split; [done|]. by intros [|].
  - apply run_snoc in Hl as (l1 & log1 & o & Hl & Ht & ->).
    destruct (IH _ _ Hl) as [Hok1 Hsp]. destruct o as [a|].
    + destruct (leader_turn_attempted _ _ _ _ _ Hthr Hok1 Ht) as (<- & ? & ? & ?).
      split; [done|]. by apply spaced_snoc.
    + cbn. rewrite app_nil_r. eauto using leader_turn_idle.
Qed.
End Turns.

Lemma leader_new_ok thr (reset : F) p :
  0 < thr -> leader_ok thr reset p (Leader_new (CircuitBreaker_new thr reset) p) [].
Proof. intros. split_and!; [done..|]. intros _. split; [done|]. by left. Qed.
End Ladder.

Section ExactLadder.
Context (sq lg ex : Qc -> Qc).
#[local] Hint Extern 0 (PyFloat Qc) => exact (exact_inst sq lg ex) : typeclass_instances.
Implicit Types (p : BackoffPolicy Qc) (u d : Qc).

(** [2^n] and the ceiling it gives a delay. *)
Definition two_pow (n : Z) : Qc := Qcpower (f_of_Z 2) (Z.to_nat n).

Definition ceiling p (n : Z) : Qc := py_min (cap_s p) (base_s p * two_pow n)%Qc.

Lemma exact_pow n : f_pow (f_of_Z 2) (f_of_Z n) = two_pow n.
Proof.
  cbn -[Qcpower Q2Qc]. unfold Qc_pow, two_pow. f_equal. f_equal.
  cbn [f_of_Z exact_inst exact].
  rewrite (Qfloor_comp (this (Q2Qc (inject_Z n))) (inject_Z n)); [apply Qfloor_Z|apply Qred_correct].
Qed.

Lemma exact_delay p n u : delay p n u = Ok (u * ceiling p n)%Qc.
Proof.
  unfold delay, py_pow. rewrite exact_pow. cbn [mbind result_bind f_isfinite exact_inst exact].
  replace (f_eq (f_of_Z 2) f_zero) with false by done. cbn [andb negb mbind result_bind].
  apply (f_equal Ok). unfold uniform, ceiling. change (@f_zero Qc _) with 0%Qc. cbn [f_add f_sub f_mul exact_inst exact].
  ring.
Qed.

Lemma two_pow_pos n : (0 <= two_pow n)%Qc.
Proof.
  unfold two_pow. induction (Z.to_nat n) as [|k IH]; [done|].
  change (Qcpower (f_of_Z 2) (S k)) with (f_of_Z 2 * Qcpower (f_of_Z 2) k)%Qc.
  rewrite Qcmult_comm. by apply (Qcmult_le_compat_r 0%Qc _ _).
Qed.

(** A policy whose ceiling is never negative, and a draw of [random()]. *)
Definition policy_ok p : Prop := (0 <= base_s p)%Qc /\ (0 <= cap_s p)%Qc.
Definition draw_ok u : Prop := (0 <= u)%Qc /\ (u < 1)%Qc.

Lemma ceiling_bounds p n :
  policy_ok p ->
  (0 <= ceiling p n)%Qc /\ (ceiling p n <= cap_s p)%Qc /\
  (ceiling p n <= base_s p * two_pow n)%Qc.
Proof.
  intros [Hb Hc]. assert (Hm : (0 <= base_s p * two_pow n)%Qc)
    by (by apply (Qcmult_le_compat_r 0%Qc _ _ Hb), two_pow_pos).
  unfold ceiling, py_min. cbn [f_lt exact_inst exact]. unfold Qc_leb.
  destruct (Qle_bool _ _) eqn:E; cbn [negb].
  - apply Qle_bool_iff in E. split_and!; [done|apply Qcle_refl|exact E].
  - split_and!; [done| |apply Qcle_refl]. apply Qcnot_lt_le. intros Hlt.
    apply Qlt_le_weak, Qle_bool_iff in Hlt. congruence.
Qed.

(** A delay is at least nothing and at most the policy's cap and ladder. *)
Lemma delay_bounds p n u d :
  policy_ok p -> draw_ok u -> delay p n u = Ok d ->
  (0 <= d)%Qc /\ (d <= cap_s p)%Qc /\ (d <= base_s p * two_pow n)%Qc.
Proof.
  intros Hp [Hu0 Hu1]. rewrite exact_delay. intros [= <-].
  destruct (ceiling_bounds p n Hp) as (H0 & Hc & Hm).
  assert (Hle : (u * ceiling p n <= ceiling p n)%Qc).
  { rewrite <- (Qcmult_1_l (ceiling p n)) at 2.
    by apply Qcmult_le_compat_r; [apply Qclt_le_weak|]. }
  split_and!; [by apply (Qcmult_le_compat_r 0%Qc _ _ Hu0)|by eapply Qcle_trans..].
Qed.

Definition no_crash (t : Turn Qc) : Prop := forall e, tn_session t <> SessionCrash e.

Lemma leader_turn_total l t : no_crash t -> exists r, leader_turn l t = Ok r.
Proof.
  intros Ht. unfold leader_turn. destruct (running l); [|by eexists].
  destruct (tn_stop_before t); [by eexists|].
  destruct (allows_attempt _ _) as [b []]; [|by eexists]. cbn [negb]. specialize (Ht).
  destruct (tn_session t) eqn:E; [by eexists| |by edestruct Ht|];
    rewrite ?exact_delay; [by eexists|]. destruct (tn_stop_after t); by eexists.
Qed.

(** The ingestor's retry loop, over exact arithmetic.  However its sessions
    end, by an error of the provider or the socket, by returning or by a refused
    credential, the loop itself never raises.  Once the breaker's threshold of
    sessions failed in a row, no session starts until [reset_after_s] has passed
    since the last failure was recorded, and then exactly one starts; and every
    delay lies between nothing and both the cap and [base * 2^k], [k] the
    failures in a row before the last, however many sessions that takes. *)
Theorem retry_loop_throttled thr (reset : Qc) p ts :
  0 < thr -> policy_ok p -> Forall no_crash ts -> Forall (fun t => draw_ok (tn_random t)) ts ->
  exists l log, lead (Leader_new (CircuitBreaker_new thr reset) p) ts = Ok (l, log) /\
  forall pre a post, log = pre ++ a :: post ->
    (thr <= streak pre -> exists a', last pre = Some a' /\
       (reset <= tn_asked (at_turn a) - tn_recorded (at_turn a'))%Qc) /\
    (forall d, at_delay a = Some d ->
       (0 <= d)%Qc /\ (d <= cap_s p)%Qc /\ (d <= base_s p * two_pow (rung (pre ++ [a])))%Qc).
Proof.
  intros Hthr Hp Hts Hu.
  destruct (run_all_total leader_turn (Leader_new (CircuitBreaker_new thr reset) p) ts)
    as (l & log & Hl).
  { intros s t Ht. apply leader_turn_total. by apply (proj1 (Forall_forall _ _) Hts). }
  exists l, log. split; [done|]. intros pre a post He.
  destruct (lead_ok thr reset p _ _ _ _ Hthr (leader_new_ok thr reset p Hthr) Hl) as [_ Hsp].
  destruct (Hsp pre a post He) as [Hb Hd]. split.
  - intros (a' & Ha' & Hle)%Hb. exists a'. split; [done|]. by apply Qle_bool_iff in Hle.
  - intros d Hd'. apply (delay_bounds p _ (tn_random (at_turn a))); [done| |by apply Hd].
    apply (run_out _ (fun t x => at_turn x = t) _ _ _ _ a) in Hl as (t & Ht & <-).
    + by apply (proj1 (Forall_forall _ _) Hu).
    + intros. by eapply leader_turn_turn.
    + subst. apply elem_of_app. right. apply list_elem_of_here.
Qed.
End ExactLadder.

(* ------------------------------------------------------------------ *)
(** ** The watchdog *)

Section Watch.
Context {F : Type} `{PyFloat F}.
Implicit Types (w : Watchdog F) (e : WatchEvent F) (evs : list (WatchEvent F)).

(** The last sign of life after [evs], from [since]: a frame, or a check that
    found the market closed or that fired. *)
Definition sign_of_life (timeout since : F) e : F :=
  match e with
  | Frame now => now
  | Checked is_open now now_pet =>
      if negb is_open || f_lt timeout (f_sub now since) then now_pet else since
  end.

Definition last_sign (timeout since : F) evs : F :=
  fold_left (sign_of_life timeout) evs since.

(** The check [e] fires after [evs]. *)
Definition fires (timeout since : F) evs e : option F :=
  match e with
  | Frame _ => None
  | Checked is_open now _ =>
      if is_open && f_lt timeout (f_sub now (last_sign timeout since evs)) then Some now else None
  end.

Lemma watchdog_run w evs :
  exists w' log, run_all watchdog_step w evs = Ok (w', log) /\
  timeout_s w' = timeout_s w /\ last_data w' = last_sign (timeout_s w) (last_data w) evs /\
  trips w' = trips w + Z.of_nat (length log).
Proof.
  induction evs as [|e evs (w1 & log & Hr & Ht & Hl & Hn)] using rev_ind.
  { exists w, []. cbn. split_and!; (done || lia). }
  destruct (watchdog_step w1 e) as [[w2 o]|] eqn:Hs;
    [|destruct e; cbn in Hs; unfold watchdog_check in Hs; by split_ifs_in Hs].
  exists w2, (log ++ opt_list o). split; [apply run_snoc; by eexists _, _, _|].
  unfold last_sign in *. rewrite fold_left_snoc, <- Hl, <- Ht, length_app.
  destruct e as [now|is_open now now_pet]; cbn in Hs; [by injection Hs as <- <-; cbn; split_and!; (done || lia)|].
  unfold watchdog_check, idle_s in Hs. cbn [sign_of_life].
  destruct is_open; cbn in *; [|by injection Hs as <- <-; cbn; split_and!; (done || lia)].
  destruct (f_lt _ _); injection Hs as <- <-; cbn; split_and!; (done || lia).
Qed.

(** The watchdog.  Whatever frames arrive and whenever it looks, it never
    raises, and its next check awaits [on_stale] exactly when the market is open
    and more than [timeout_s] passed since the last sign of life: the last frame,
    the last check made while the market was closed, or the last time it fired.
    [trips] counts exactly the checks that fired. *)
Theorem watchdog_fires_iff_silent w evs e :
  exists w' w'' log, run_all watchdog_step w evs = Ok (w', log) /\
  watchdog_step w' e = Ok (w'', fires (timeout_s w) (last_data w) evs e) /\
  trips w'' = trips w + Z.of_nat (length (log ++ opt_list (fires (timeout_s w) (last_data w) evs e))).
Proof.
  destruct (watchdog_run w (evs ++ [e])) as (w'' & log'' & Hr & _ & _ & Hn).
  apply run_snoc in Hr as (w' & log & o & Hr & Hs & ->).
  destruct (watchdog_run w evs) as (w1 & log1 & Hr1 & Ht & Hl & _).
  rewrite Hr in Hr1. injection Hr1 as <- <-.
  assert (o = fires (timeout_s w) (last_data w) evs e) as <-.
  { unfold fires. rewrite <- Hl, <- Ht. destruct e as [now|is_open now now_pet]; cbn in Hs.
    - by injection Hs as _ <-.
    - unfold watchdog_check, idle_s in Hs. destruct is_open; cbn in *; [|by injection Hs].
      destruct (f_lt _ _); by injection Hs. }
  by exists w', w'', log.
Qed.
End Watch.

(* ------------------------------------------------------------------ *)
(** ** The published status *)

(** [_last_status]: what is stored for late joiners and published. *)
Record FeedStatus := {
  fs_state : string;
  fs_detail : string;
  fs_provider : string;
  fs_ts : string;
  fs_since : string;
}.

Definition FeedStatus_new (provider started : string) : FeedStatus := {|
  fs_state := "starting"; fs_detail := ""; fs_provider := provider;
  fs_ts := started; fs_since := started |}.

(** [_publish_status]: the new record, which is also what is sent. *)
Definition publish_status (s : FeedStatus) (state detail now : string) : FeedStatus := {|
  fs_state := state; fs_detail := detail; fs_provider := fs_provider s; fs_ts := now;
  fs_since := if bool_decide (state = fs_state s) then fs_since s else now |}.

(** One beat of [_heartbeat_loop]: only a leader re-stamps and sends. *)
Definition heartbeat (s : FeedStatus) (is_leader : bool) (now : string) : FeedStatus * bool :=
  if is_leader then
    ({| fs_state := fs_state s; fs_detail := fs_detail s; fs_provider := fs_provider s;
        fs_ts := now; fs_since := fs_since s |}, true)
  else (s, false).

Inductive StatusEvent := Publish (state detail now : string) | Beat (is_leader : bool) (now : string).

Definition status_step (s : FeedStatus) (e : StatusEvent) : FeedStatus :=
  match e with
  | Publish state detail now => publish_status s state detail now
  | Beat is_leader now => (heartbeat s is_leader now).1
  end.

(** When the state last changed, from the events alone. *)
Fixpoint changed_at (state since : string) (evs : list StatusEvent) : string :=
  match evs with
  | [] => since
  | Publish state' _ now :: evs =>
      changed_at state' (if bool_decide (state' = state) then since else now) evs
  | Beat _ _ :: evs => changed_at state since evs
  end.

(** [since] answers when the state last changed, whatever is published and
    however often the heart beats. *)
Lemma since_is_last_change s evs :
  fs_since (fold_left status_step evs s) = changed_at (fs_state s) (fs_since s) evs.
Proof.
  revert s. induction evs as [|e evs IH]; intros s; [done|]. cbn. rewrite IH.
  destruct e as [state detail now|[] now]; done.
Qed.

(* ------------------------------------------------------------------ *)
(** ** The ladder in double precision *)

(** Powers of two as C's [pow] gives them: exact, and infinite from [2^1024] on. *)
Definition pow2_64 (n : Z) : spec_float :=
  if n <? 1024 then S754_finite false 4503599627370496 (n - 52) else S754_infinity false.

Section Overflow.
Context (lg ex : spec_float -> spec_float) (pw : spec_float -> spec_float -> spec_float).
#[local] Instance double64 : PyFloat spec_float := binary64 lg ex pw.

(** [2.0 ** attempt] raises from attempt 1024 on, though the ladder it
    climbs is capped at a minute: [delay] returns for every attempt below and
    raises [OverflowError] for every attempt from 1024 on, which the retry loop
    does not handle. *)
Theorem delay_overflows (p : BackoffPolicy spec_float) n u :
  f_isfinite (f_of_Z n) = true -> pw (f_of_Z 2) (f_of_Z n) = pow2_64 n ->
  (delay p n u = Raise OverflowError <-> 1024 <= n) /\ (is_ok (delay p n u) = true <-> n < 1024).
Proof.
  intros Hfin Hpw. unfold delay, py_pow.
  change (f_pow (f_of_Z 2) (f_of_Z n)) with (pw (f_of_Z 2) (f_of_Z n)).
  rewrite Hfin, Hpw. unfold pow2_64.
  replace (f_eq (f_of_Z 2) f_zero) with false by done. cbn [andb].
  replace (f_isfinite (f_of_Z 2)) with true by done. cbn [andb].
  destruct (Z.ltb_spec n 1024); cbn; split; split; (done || lia).
Qed.
End Overflow.

(** A [pow] that is right for powers of two. *)
Definition sf_floor (x : spec_float) : Z :=
  match x with
  | S754_finite sg m e => (if sg then -1 else 1) * Z.shiftl (Zpos m) e
  | _ => 0
  end.

Definition two_pow64 (_ y : spec_float) : spec_float := pow2_64 (sf_floor y).

Lemma delay_overflows_witness :
  is_ok (@delay _ (binary64 (fun x => x) (fun x => x) two_pow64)
    (@BackoffPolicy_default _ plain64) 1023 (S754_zero false)) = true /\
  @delay _ (binary64 (fun x => x) (fun x => x) two_pow64)
    (@BackoffPolicy_default _ plain64) 1024 (S754_zero false) = Raise OverflowError.
Proof.
  split.
  - apply (delay_overflows (fun x => x) (fun x => x) two_pow64 _ 1023);
      [by vm_compute|by vm_compute|lia].
  - apply (delay_overflows (fun x => x) (fun x => x) two_pow64 _ 1024);
      [by vm_compute|by vm_compute|lia].
Defined.

(* ------------------------------------------------------------------ *)
(** ** A run of the loop *)

Section Demo.
#[local] Hint Extern 0 (PyFloat Qc) =>
  exact (exact_inst (fun x => x) (fun x => x) (fun x => x)) : typeclass_instances.

Definition demo_turn (asked started ended : Z) (s : Session) : Turn Qc := {|
  tn_stop_before := false; tn_asked := f_of_Z asked; tn_started := f_of_Z started;
  tn_session := s; tn_ended := f_of_Z ended; tn_recorded := f_of_Z ended;
  tn_stop_after := false; tn_random := f_ratio 1 2 |}.

(** Two drops open a breaker of threshold two, which refuses until 30 s after
    the second; the probe drops too, and a healthy session closes it. *)
Definition demo_turns : list (Turn Qc) := [
  demo_turn 0 0 1 SessionError; demo_turn 2 2 3 SessionReturned;
  demo_turn 10 10 11 SessionError; demo_turn 33 33 34 SessionError;
  demo_turn 64 64 200 SessionReturned; demo_turn 201 201 202 SessionError].

Definition demo_breaker : CircuitBreaker Qc := CircuitBreaker_new 2 (f_of_Z 30).

Definition demo_log (r : result (Leader Qc * list (Attempted Qc))) : list (bool * option Q) :=
  match r with
  | Ok (_, log) => (fun a => (at_healthy a, this <$> at_delay a)) <$> log
  | Raise _ => []
  end.

Lemma demo_lead :
  demo_log (lead (Leader_new demo_breaker BackoffPolicy_default) demo_turns) =
  [(false, Some (1 # 4)); (false, Some (1 # 2)); (false, Some 1); (true, Some (1 # 4));
   (false, Some (1 # 4))]%Q.
Proof. by vm_compute. Qed.

Lemma retry_loop_throttled_witness :
  exists l log, lead (Leader_new demo_breaker BackoffPolicy_default) demo_turns = Ok (l, log).
Proof.
  destruct (retry_loop_throttled (fun x => x) (fun x => x) (fun x => x) 2 (f_of_Z 30)
    BackoffPolicy_default demo_turns) as (l & log & Hl & _).
  - done.
  - by split; vm_compute.
  - repeat (constructor; [by intros e|]). constructor.
  - repeat (constructor; [by split; vm_compute|]). constructor.
  - by exists l, log.
Defined.
End Demo.
