(* ===== verification/RecoveryPlan.v ===== *)
(** * Planning history recovery ([fx_ingestor/recovery.py], planning part)

    Which minutes a run may look at, which of them are missing, and the provider
    requests that ask for them.  A loop over minutes or days is structural on a
    bound computed from its ends; [each_minute_spec] and [split_minutes] show the
    bound is never what stops it. *)
From S2P Require Import Prelude.

Local Open Scope Z_scope.

Definition MINUTE : timedelta := Eval cbv in minutes 1.
Definition A_DAY : timedelta := Eval cbv in days 1.
Definition HOT_CACHE_BARS : Z := 1_440.
Definition SETTLE : timedelta := Eval cbv in hours 1.
Definition AUTH_BACKOFF : timedelta := Eval cbv in hours 6.
Definition RATE_LIMIT_BACKOFF : timedelta := Eval cbv in minutes 15.

(** (view, bucket width, end offset of its refresh policy) *)
Definition ROLLUPS : list (string * timedelta * timedelta) := Eval cbv in [
  ("bars_5m"%string, minutes 5, minutes 1);
  ("bars_1h"%string, hours 1, minutes 5)].

Definition floor_minute (ts : datetime) : datetime := ts - ts mod MINUTE.

Definition floor_bucket (ts : datetime) (width : timedelta) : datetime :=
  let seconds := width / MICRO in
  fromtimestamp (int_timestamp ts / seconds * seconds).

Record Window := { w_start : datetime; w_end : datetime }.

Definition recovery_window (now : datetime) (lookback horizon : timedelta) : option Window :=
  let w_end := floor_minute (now - horizon) - MINUTE in
  let w_start := floor_minute (now - lookback) in
  if w_start <=? w_end then Some {| w_start := w_start; w_end := w_end |} else None.

(** [m = start; while m <= end: ...; m += MINUTE] *)
Fixpoint minutes_from (fuel : nat) (m last : datetime) : list datetime :=
  match fuel with
  | O => []
  | S fuel => if m <=? last then m :: minutes_from fuel (m + MINUTE) last else []
  end.

Definition minute_range (start last : datetime) : list datetime :=
  minutes_from (Z.to_nat ((last - start) / MINUTE + 1)) start last.

Definition open_minutes (window : Window) (is_open : datetime -> bool) : list datetime :=
  List.filter is_open (minute_range (w_start window) (w_end window)).

Record Span := { sp_symbol : string; sp_start : datetime; sp_end : datetime }.

(** [int((end - start) / MINUTE) + 1]; the ends are whole minutes apart, so the
    quotient is exact. *)
Definition span_minutes (s : Span) : Z := Z.quot (sp_end s - sp_start s) MINUTE + 1.

Definition each_minute (s : Span) : list datetime := minute_range (sp_start s) (sp_end s).

(** [m not in present and not any(a <= m <= b for a, b in settled)] *)
Definition is_missing (present : gset Z) (settled : list (datetime * datetime)) (m : datetime)
    : bool :=
  negb (bool_decide (m ∈ present)) &&
  negb (existsb (fun ab => (ab.1 <=? m) && (m <=? ab.2)) settled).

(** The loop of [missing_spans]: the spans closed so far and the open run. *)
Definition missing_step (symbol : string) (present : gset Z)
    (settled : list (datetime * datetime)) (st : list Span * option (datetime * datetime))
    (m : datetime) : list Span * option (datetime * datetime) :=
  let '(spans, run) := st in
  let missing := is_missing present settled m in
  let closed :=
    match run with
    | Some (start, prev) => spans ++ [{| sp_symbol := symbol; sp_start := start; sp_end := prev |}]
    | None => spans
    end in
  match run with
  | Some (start, prev) =>
      if missing && (m =? prev + MINUTE) then (spans, Some (start, m))
      else (closed, if missing then Some (m, m) else None)
  | None => (spans, if missing then Some (m, m) else None)
  end.

Definition missing_spans (symbol : string) (expected : list datetime) (present : gset Z)
    (settled : list (datetime * datetime)) : list Span :=
  let '(spans, run) := fold_left (missing_step symbol present settled) expected ([], None) in
  match run with
  | Some (start, prev) => spans ++ [{| sp_symbol := symbol; sp_start := start; sp_end := prev |}]
  | None => spans
  end.

Record Request := { rq_symbol : string; rq_spans : list Span }.

Definition request_start (r : Request) : result datetime := sp_start <$> py_index (rq_spans r) 0.
Definition request_end (r : Request) : result datetime := sp_end <$> py_index (rq_spans r) (-1).
Definition request_minutes (r : Request) : Z := foldr Z.add 0 (span_minutes <$> rq_spans r).

(** [ts.date()] as a day number. *)
Definition date (ts : datetime) : Z := ts / A_DAY.

Fixpoint split_from (fuel : nat) (symbol : string) (start last : datetime) (ndays : Z) : list Span :=
  match fuel with
  | O => []
  | S fuel =>
      if start <=? last then
        let boundary := date start * A_DAY + days ndays in
        let stop := Z.min last (boundary - MINUTE) in
        {| sp_symbol := symbol; sp_start := start; sp_end := stop |}
          :: split_from fuel symbol (stop + MINUTE) last ndays
      else []
  end.

Definition split_by_days (span : Span) (ndays : Z) : list Span :=
  split_from (Z.to_nat (date (sp_end span) - date (sp_start span) + 1))
    (sp_symbol span) (sp_start span) (sp_end span) ndays.

(** One part of the inner loop of [plan_requests]: the requests finished so far
    and the spans of the current one. *)
Definition plan_part (symbol : string) (ndays : Z) (st : list Request * list Span) (part : Span)
    : list Request * list Span :=
  let '(requests, current) := st in
  match current with
  | [] => (requests, [part])
  | first :: _ =>
      if ndays <=? date (sp_end part) - date (sp_start first)
      then (requests ++ [{| rq_symbol := symbol; rq_spans := current |}], [part])
      else (requests, current ++ [part])
  end.

Definition spans_of (symbol : string) (spans : list Span) : list Span :=
  py_sorted Z.leb sp_start
    (List.filter (fun s => bool_decide (sp_symbol s = symbol)) spans).

Definition plan_symbol (spans : list Span) (ndays : Z) (symbol : string) : list Request :=
  let parts := concat ((fun s => split_by_days s ndays) <$> spans_of symbol spans) in
  let '(requests, current) := fold_left (plan_part symbol ndays) parts ([], []) in
  match current with
  | [] => requests
  | _ => requests ++ [{| rq_symbol := symbol; rq_spans := current |}]
  end.

(** [sorted({s.symbol for s in spans})] *)
Definition symbols_of (spans : list Span) : list string :=
  py_sorted String.leb (fun s => s) (elements (list_to_set (C := gset string) (sp_symbol <$> spans))).

Definition plan_requests (spans : list Span) (ndays : Z) : list Request :=
  concat (plan_symbol spans ndays <$> symbols_of spans).

Definition refresh_range (first last : datetime) (width end_offset : timedelta) (now : datetime)
    : option (datetime * datetime) :=
  let start := floor_bucket first width in
  let stop := Z.min (floor_bucket last width + width) (floor_bucket (now - end_offset) width) in
  if start <? stop then Some (start, stop) else None.

(* ------------------------------------------------------------------ *)
(** ** Minutes *)

#[local] Hint Unfold MINUTE A_DAY : core.

Lemma minute_range_nil s l : l < s -> minute_range s l = [].
Proof.
  intros. unfold minute_range. destruct (Z.to_nat _); [done|]. cbn.
  by rewrite (proj2 (Z.leb_gt _ _)).
Qed.

Lemma minute_range_cons s l :
  s <= l -> minute_range s l = s :: minute_range (s + MINUTE) l.
Proof.
  intros Hs. unfold minute_range. unfold MINUTE at 1.
  replace (Z.to_nat ((l - s) / 60000000 + 1))
    with (S (Z.to_nat ((l - (s + MINUTE)) / MINUTE + 1))).
  - cbn [minutes_from]. by rewrite (proj2 (Z.leb_le _ _)).
  - unfold MINUTE. zdivmod.
Qed.

(** Induction over a range, one minute at a time. *)
Lemma minute_ind (P : Z -> Prop) l :
  (forall s, l < s -> P s) -> (forall s, s <= l -> P (s + MINUTE) -> P s) -> forall s, P s.
Proof.
  intros Hnil Hcons s. remember (Z.to_nat (l + 1 - s)) as n eqn:Hn. revert s Hn.
  induction n as [n IH] using lt_wf_ind. intros s ->.
  destruct (Z.lt_ge_cases l s); [by apply Hnil|].
  apply Hcons; [done|]. eapply IH; [|done]. unfold MINUTE. lia.
Qed.

Lemma each_minute_spec s l x :
  x ∈ minute_range s l <-> s <= x <= l /\ (x - s) mod MINUTE = 0.
Proof.
  revert s. apply (minute_ind _ l); intros s Hs.
  - rewrite minute_range_nil, elem_of_nil by done. lia.
  - intros IH. rewrite minute_range_cons, elem_of_cons, IH by done. unfold MINUTE. split.
    + intros [->|[? ?]]; [rewrite Z.sub_diag, Z.mod_0_l by done; lia|zdivmod].
    + intros [? ?]. destruct (decide (x = s)); [by left|right]. zdivmod.
Qed.

Lemma minute_range_sorted s l : StronglySorted Z.lt (minute_range s l).
Proof.
  revert s. apply (minute_ind _ l); intros s Hs; [rewrite minute_range_nil by done; constructor|].
  intros IH. rewrite minute_range_cons by done. constructor; [done|].
  apply Forall_forall. intros x Hx%each_minute_spec. unfold MINUTE in Hx. lia.
Qed.

Lemma minute_range_app s m l :
  s <= m + MINUTE -> m <= l -> (m - s) mod MINUTE = 0 ->
  minute_range s l = minute_range s m ++ minute_range (m + MINUTE) l.
Proof.
  intros Hs Hm. revert s Hs. apply (minute_ind (fun s => s <= m + MINUTE -> _ -> _) m).
  - intros s ? ? Hmod. rewrite (minute_range_nil s m) by done.
    replace s with (m + MINUTE); [done|]. unfold MINUTE in *. zdivmod.
  - intros s ? IH _ Hmod.
    rewrite (minute_range_cons s l), (minute_range_cons s m), IH; [done|..];
      unfold MINUTE in *; zdivmod.
Qed.

Lemma minute_range_one m : minute_range m m = [m].
Proof. rewrite minute_range_cons by lia. by rewrite minute_range_nil by (unfold MINUTE; lia). Qed.

Lemma minute_range_snoc s m :
  s <= m -> (m - s) mod MINUTE = 0 ->
  minute_range s (m + MINUTE) = minute_range s m ++ [m + MINUTE].
Proof.
  intros. rewrite (minute_range_app s m) by (done || (unfold MINUTE; lia)). by rewrite minute_range_one.
Qed.

Lemma open_minutes_spec w is_open x :
  x ∈ open_minutes w is_open <->
  is_open x = true /\ w_start w <= x <= w_end w /\ (x - w_start w) mod MINUTE = 0.
Proof.
  unfold open_minutes. rewrite list_elem_of_In, filter_In, <- list_elem_of_In, each_minute_spec.
  tauto.
Qed.

(* ------------------------------------------------------------------ *)
(** ** Missing spans *)

(** The minutes a list of spans asks for, in order. *)
Definition spans_minutes (l : list Span) : list datetime := concat (each_minute <$> l).

Lemma spans_minutes_app l l' : spans_minutes (l ++ l') = spans_minutes l ++ spans_minutes l'.
Proof. unfold spans_minutes. by rewrite fmap_app, concat_app. Qed.

Lemma spans_minutes_cons s l : spans_minutes (s :: l) = each_minute s ++ spans_minutes l.
Proof. done. Qed.

(** A span with whole minutes between its ends. *)
Definition span_wf (s : Span) : Prop :=
  sp_start s <= sp_end s /\ (sp_end s - sp_start s) mod MINUTE = 0.

Section Missing.
Context (symbol : string) (present : gset Z) (settled : list (datetime * datetime)).
Notation missing := (is_missing present settled).
Notation mk_span s e := {| sp_symbol := symbol; sp_start := s; sp_end := e |}.

Definition run_spans (run : option (datetime * datetime)) : list Span :=
  match run with Some (s, e) => [mk_span s e] | None => [] end.

Lemma missing_step_spec spans run m spans' run' :
  Forall span_wf (run_spans run) -> missing_step symbol present settled (spans, run) m = (spans', run') ->
  Forall span_wf (run_spans run') /\
  (exists closed, spans' = spans ++ closed /\ (closed = [] \/ closed = run_spans run)) /\
  spans_minutes (spans' ++ run_spans run') =
    spans_minutes (spans ++ run_spans run) ++ (if missing m then [m] else []).
Proof.
  assert (Hone : forall x, Forall span_wf [mk_span x x])
    by (intros x; constructor; [split; cbn; [lia|by rewrite Z.sub_diag]|constructor]).
  assert (Hmin : forall x, spans_minutes [mk_span x x] = [x])
    by (intros x; unfold spans_minutes; cbn; rewrite app_nil_r; apply minute_range_one).
  intros Hrun. unfold missing_step. rewrite !spans_minutes_app.
  destruct run as [[s e]|]; cbn [run_spans].
  - destruct (missing m) eqn:Hm; cbn [andb].
    + destruct (Z.eqb_spec m (e + MINUTE)) as [->|Hne]; intros [= <- <-]; cbn [run_spans].
      * apply Forall_singleton in Hrun as [Hle Hmod]; cbn in Hle, Hmod. split_and!.
        -- constructor; [|constructor]. unfold span_wf, MINUTE in *; cbn. zdivmod.
        -- exists []. rewrite app_nil_r. auto.
        -- rewrite <- app_assoc. f_equal. unfold spans_minutes. cbn. rewrite !app_nil_r.
           unfold each_minute; cbn. by apply minute_range_snoc.
      * split_and!; [done|by eexists; eauto|]. by rewrite !spans_minutes_app, Hmin.
    + intros [= <- <-]. split_and!; [constructor|by eexists; eauto|].
      by rewrite spans_minutes_app, !app_nil_r.
  - intros [= <- <-]. split_and!.
    + destruct (missing m); [apply Hone|constructor].
    + exists []. rewrite app_nil_r. auto.
    + rewrite app_nil_r. destruct (missing m); cbn [run_spans]; [by rewrite Hmin|done].
Qed.

Lemma run_spans_symbol run :
  Forall span_wf (run_spans run) ->
  Forall (fun s => span_wf s /\ sp_symbol s = symbol) (run_spans run).
Proof.
  intros Hr. apply Forall_forall. intros x Hx. split; [by apply (proj1 (Forall_forall _ _) Hr)|].
  destruct run as [[? ?]|]; [|by apply elem_of_nil in Hx].
  by apply list_elem_of_singleton in Hx as ->.
Qed.

(** The spans are exactly the missing minutes, in the order of [expected]. *)
Lemma missing_spans_minutes expected :
  spans_minutes (missing_spans symbol expected present settled) = List.filter missing expected /\
  Forall (fun s => span_wf s /\ sp_symbol s = symbol) (missing_spans symbol expected present settled).
Proof.
  unfold missing_spans.
  assert (H : forall st, fold_left (missing_step symbol present settled) expected ([], None) = st ->
    spans_minutes (st.1 ++ run_spans st.2) = List.filter missing expected /\
    Forall span_wf (run_spans st.2) /\
    Forall (fun s => span_wf s /\ sp_symbol s = symbol) st.1).
  { induction expected as [|m l IH] using rev_ind; intros st <-; [done|].
    rewrite fold_left_snoc. destruct (IH _ eq_refl) as (Hmin & Hrun & Hall).
    destruct (fold_left _ l _) as [spans run]. cbn [fst snd] in *.
    destruct (missing_step symbol present settled (spans, run) m) as [spans' run'] eqn:E.
    destruct (missing_step_spec _ _ _ _ _ Hrun E) as (Hrun' & (c & -> & Hc) & Hm). cbn [fst snd].
    rewrite Hm, Hmin, List.filter_app. split_and!; [cbn; by destruct (missing m)|done|].
    apply Forall_app. split; [done|]. destruct Hc as [->| ->]; [constructor|].
    by apply run_spans_symbol. }
  destruct (H _ eq_refl) as (Hmin & Hrun & Hall).
  apply run_spans_symbol in Hrun.
  destruct (fold_left _ _ _) as [spans [[s e]|]]; cbn [fst snd run_spans] in *.
  - split; [done|]. by apply Forall_app.
  - by rewrite app_nil_r in Hmin.
Qed.
End Missing.

(* ------------------------------------------------------------------ *)
(** ** Splitting at day boundaries *)

Lemma split_from_nil fuel symbol start last n : last < start -> split_from fuel symbol start last n = [].
Proof. intros. destruct fuel; [done|]. cbn. by rewrite (proj2 (Z.leb_gt _ _)). Qed.

Lemma day_boundary start n :
  1 <= n -> start mod MINUTE = 0 ->
  let b := date start * A_DAY + days n in
  start <= b - MINUTE /\ date b = date start + n /\ b mod MINUTE = 0 /\
  forall x, x < b -> date x - date start < n.
Proof.
  intros Hn Hs. cbv zeta.
  unfold date, days, hours, minutes, seconds, MICRO, MINUTE, A_DAY in *.
  split_and!; zdivmod.
Qed.

(** A part lies within [n] days, and no earlier than what was split. *)
Definition part_ok (symbol : string) (from n : Z) (p : Span) : Prop :=
  sp_symbol p = symbol /\ span_wf p /\ date (sp_end p) - date (sp_start p) < n /\ from <= sp_start p.

Lemma split_from_spec fuel symbol start last n :
  1 <= n -> start mod MINUTE = 0 -> last mod MINUTE = 0 ->
  date last - date start < Z.of_nat fuel ->
  spans_minutes (split_from fuel symbol start last n) = minute_range start last /\
  Forall (part_ok symbol start n) (split_from fuel symbol start last n).
Proof.
  intros Hn. revert start. induction fuel as [|fuel IH]; intros start Hs Hl Hf.
  - rewrite minute_range_nil; [done|]. unfold date, A_DAY in Hf. zdivmod.
  - destruct (Z.lt_ge_cases last start).
    { by rewrite split_from_nil, minute_range_nil by done. }
    cbn [split_from]. rewrite (proj2 (Z.leb_le _ _)) by done. cbv zeta.
    destruct (day_boundary start n Hn Hs) as (Hb & Hdate & Hmod & Hbefore).
    set (b := date start * A_DAY + days n) in *.
    assert (Hpart : part_ok symbol start n
      {| sp_symbol := symbol; sp_start := start; sp_end := Z.min last (b - MINUTE) |}).
    { unfold part_ok, span_wf; cbn. split_and!; [done|lia| | |lia].
      - destruct (Z.min_spec last (b - MINUTE)) as [[? ->]|[? ->]]; unfold MINUTE in *; zdivmod.
      - apply Hbefore. unfold MINUTE. lia. }
    rewrite spans_minutes_cons. unfold each_minute at 1; cbn [sp_start sp_end].
    destruct (Z.min_spec last (b - MINUTE)) as [[Hm Hmin]|[Hm Hmin]]; rewrite Hmin in *.
    + rewrite split_from_nil by (unfold MINUTE; lia). rewrite app_nil_r. auto using Forall_cons_2, Forall_nil_2.
    + replace (b - MINUTE + MINUTE) with b by lia.
      destruct (IH b Hmod Hl) as [Hspan Hall]; [lia|]. split.
      * rewrite Hspan, (minute_range_app start (b - MINUTE) last);
          [|unfold MINUTE in *; lia..|unfold MINUTE in *; zdivmod].
        by replace (b - MINUTE + MINUTE) with b by lia.
      * constructor; [done|]. eapply Forall_impl; [exact Hall|].
        intros x (? & ? & ? & ?). unfold part_ok. split_and!; [done..|unfold MINUTE in *; lia].
Qed.

(** A span on whole minutes of the day. *)
Definition span_ok (s : Span) : Prop :=
  sp_start s <= sp_end s /\ sp_start s mod MINUTE = 0 /\ sp_end s mod MINUTE = 0.

Lemma split_minutes s n :
  1 <= n -> span_ok s ->
  spans_minutes (split_by_days s n) = each_minute s /\
  Forall (part_ok (sp_symbol s) (sp_start s) n) (split_by_days s n).
Proof.
  intros Hn (Hle & Hs & He). apply split_from_spec; [done..|].
  assert (date (sp_start s) <= date (sp_end s)) by (by apply Z.div_le_mono). lia.
Qed.

(* ------------------------------------------------------------------ *)
(** ** Grouping into requests *)

(** A request's spans are one symbol's, and lie within [n] calendar days. *)
Definition request_ok (symbol : string) (n : Z) (r : Request) : Prop :=
  rq_symbol r = symbol /\
  Forall (fun s => sp_symbol s = symbol /\ span_wf s) (rq_spans r) /\
  exists first rest, rq_spans r = first :: rest /\
  Forall (fun s => date (sp_end s) - date (sp_start first) < n) (rq_spans r).

Definition requests_spans (l : list Request) : list Span := concat (rq_spans <$> l).

Lemma requests_spans_app l l' : requests_spans (l ++ l') = requests_spans l ++ requests_spans l'.
Proof. unfold requests_spans. by rewrite fmap_app, concat_app. Qed.

Lemma requests_spans_one r : requests_spans [r] = rq_spans r.
Proof. unfold requests_spans. cbn. apply app_nil_r. Qed.

Section Group.
Context (symbol : string) (n : Z).
Notation mk_request spans := {| rq_symbol := symbol; rq_spans := spans |}.

Definition group_ok (st : list Request * list Span) : Prop :=
  Forall (request_ok symbol n) st.1 /\ (st.2 = [] \/ request_ok symbol n (mk_request st.2)).

Lemma request_ok_one from p : part_ok symbol from n p -> request_ok symbol n (mk_request [p]).
Proof.
  intros (? & ? & ? & _). split_and!; [done|by apply Forall_singleton|].
  eexists _, _. split; [done|]. by apply Forall_singleton.
Qed.

Lemma plan_part_spec st from p :
  group_ok st -> part_ok symbol from n p ->
  group_ok (plan_part symbol n st p) /\
  requests_spans (plan_part symbol n st p).1 ++ (plan_part symbol n st p).2 =
    (requests_spans st.1 ++ st.2) ++ [p].
Proof.
  destruct st as [reqs current]. intros [Hreqs Hcur] Hp. unfold plan_part. cbn [fst snd] in *.
  pose proof (request_ok_one _ _ Hp) as Hone.
  destruct current as [|first rest]; [split; [by split; [|right]|by rewrite app_nil_r]|].
  destruct Hcur as [|(Hs & Hall & f' & r' & [= <- <-] & Hd)]; [done|].
  destruct (Z.leb_spec n (date (sp_end p) - date (sp_start first))).
  - split.
    + split; [|by right]. cbn [fst]. apply Forall_app. split; [done|]. constructor; [|constructor].
      split_and!; [done..|]. by eexists _, _.
    + cbn [fst snd]. by rewrite requests_spans_app, requests_spans_one.
  - split; [|cbn [fst snd]; by rewrite app_assoc].
    split; [done|]. right. cbn [snd]. destruct Hp as (? & ? & ? & ?). split_and!; [done|..]; cbn.
    + apply (Forall_app _ (first :: rest) [p]). split; [exact Hall|by apply Forall_singleton].
    + eexists _, _. split; [done|]. apply (Forall_app _ (first :: rest) [p]).
      split; [exact Hd|by apply Forall_singleton].
Qed.

Lemma plan_parts_spec parts :
  Forall (fun p => exists from, part_ok symbol from n p) parts ->
  let st := fold_left (plan_part symbol n) parts ([], []) in
  group_ok st /\ requests_spans st.1 ++ st.2 = parts.
Proof.
  induction parts as [|p parts IH] using rev_ind; intros Hall; cbv zeta.
  - split; [|done]. split; [constructor|by left].
  - apply Forall_app in Hall as [Hall Hp]. apply Forall_cons in Hp as [[from Hp] _].
    destruct (IH Hall) as [Hok Heq]. rewrite fold_left_snoc.
    destruct (plan_part_spec _ _ _ Hok Hp) as [? ->]. by rewrite Heq.
Qed.
End Group.

(* ------------------------------------------------------------------ *)
(** ** The whole plan *)

Section Plan.
Context (n : Z) (Hn : 1 <= n).
Implicit Types (spans l : list Span) (symbol : string).

Lemma split_all l :
  Forall span_ok l ->
  spans_minutes (concat ((fun s => split_by_days s n) <$> l)) = spans_minutes l.
Proof.
  induction 1 as [|s l Hs _ IH]; [done|]. rewrite fmap_cons. cbn [concat].
  rewrite spans_minutes_app, IH, spans_minutes_cons. by destruct (split_minutes s n Hn Hs) as [-> _].
Qed.

Lemma spans_of_elem symbol spans s : s ∈ spans_of symbol spans <-> s ∈ spans /\ sp_symbol s = symbol.
Proof.
  unfold spans_of. rewrite elem_of_py_sorted, !list_elem_of_In, filter_In.
  by rewrite bool_decide_eq_true.
Qed.

Lemma plan_symbol_spec spans symbol :
  Forall span_ok spans ->
  spans_minutes (requests_spans (plan_symbol spans n symbol)) = spans_minutes (spans_of symbol spans) /\
  Forall (request_ok symbol n) (plan_symbol spans n symbol).
Proof.
  intros Hok. rewrite Forall_forall in Hok.
  assert (Hall : Forall span_ok (spans_of symbol spans)).
  { apply Forall_forall. intros s [Hs _]%spans_of_elem. by apply Hok. }
  rewrite <- (split_all _ Hall). unfold plan_symbol.
  destruct (plan_parts_spec symbol n (concat ((fun s => split_by_days s n) <$> spans_of symbol spans)))
    as [[Hreqs Hcur] Heq].
  { apply Forall_forall. intros p (s & Hs & Hp)%elem_of_concat_fmap.
    assert (sp_symbol s = symbol) as <- by (by apply spans_of_elem in Hs as [_ ?]).
    exists (sp_start s). destruct (split_minutes s n Hn) as [_ Hparts];
      [by apply (proj1 (Forall_forall _ _) Hall)|].
    by apply (proj1 (Forall_forall _ _) Hparts). }
  destruct (fold_left _ _ _) as [reqs current]. cbn [fst snd] in *. rewrite <- Heq.
  destruct current as [|first rest]; [by rewrite app_nil_r|].
  rewrite requests_spans_app, requests_spans_one. split; [done|].
  apply Forall_app. split; [done|]. apply Forall_singleton. by destruct Hcur.
Qed.

(** The minutes a plan asks for one symbol, request by request. *)
Definition asked (symbol : string) (plan : list Request) : list datetime :=
  spans_minutes (requests_spans (List.filter (fun r => bool_decide (rq_symbol r = symbol)) plan)).

Lemma symbols_of_elem spans symbol :
  symbol ∈ symbols_of spans <-> exists s, s ∈ spans /\ sp_symbol s = symbol.
Proof.
  unfold symbols_of. rewrite elem_of_py_sorted, elem_of_elements, elem_of_list_to_set, list_elem_of_fmap.
  naive_solver.
Qed.

Lemma spans_of_none spans symbol : symbol ∉ symbols_of spans -> spans_of symbol spans = [].
Proof.
  intros Hno. destruct (spans_of symbol spans) as [|s l] eqn:E; [done|]. destruct Hno.
  apply symbols_of_elem. exists s. apply spans_of_elem. rewrite E. apply list_elem_of_here.
Qed.

Lemma plan_requests_spec spans symbol :
  Forall span_ok spans ->
  asked symbol (plan_requests spans n) = spans_minutes (spans_of symbol spans).
Proof.
  intros Hok. destruct (plan_symbol_spec spans symbol Hok) as [<- _].
  unfold asked, plan_requests. rewrite filter_concat_key.
  - destruct (decide _) as [|Hno]; [done|]. unfold plan_symbol. by rewrite spans_of_none.
  - unfold symbols_of. rewrite py_sorted_perm. apply NoDup_elements.
  - intros k r Hr. destruct (plan_symbol_spec spans k Hok) as [_ Hall].
    by apply (proj1 (Forall_forall _ _) Hall).
Qed.

(** Spans whose minutes come in order are in the order of their starts. *)
Lemma starts_sorted l :
  Forall span_wf l -> StronglySorted Z.lt (spans_minutes l) ->
  StronglySorted (key_le Z.leb sp_start) l.
Proof.
  assert (Hstart : forall s, span_wf s -> sp_start s ∈ each_minute s).
  { intros s [? _]. apply each_minute_spec. rewrite Z.sub_diag. split; [lia|done]. }
  induction 1 as [|s l Hs Hall IH]; intros Hsort; [constructor|].
  rewrite spans_minutes_cons in Hsort. constructor.
  - apply IH. by eapply StronglySorted_app_1_r.
  - apply Forall_forall. intros x Hx. apply Z.leb_le. apply Z.lt_le_incl.
    eapply StronglySorted_app_1_elem_of; [exact Hsort|by apply Hstart|].
    apply elem_of_concat_fmap. exists x. split; [done|]. apply Hstart.
    by apply (proj1 (Forall_forall _ _) Hall).
Qed.
End Plan.

(** [_missing]: every configured symbol's missing minutes, as spans. *)
Definition missing_of (symbols : list string) (expected : list datetime)
    (present : string -> gset Z) (settled : string -> list (datetime * datetime)) : list Span :=
  concat ((fun s => missing_spans s expected (present s) (settled s)) <$> symbols).

Section MissingOf.
Context (symbols : list string) (w : Window) (is_open : datetime -> bool).
Context (present : string -> gset Z) (settled : string -> list (datetime * datetime)).
Context (Hgrid : w_start w mod MINUTE = 0) (Hnd : NoDup symbols).
Notation expected := (open_minutes w is_open).
Notation spans := (missing_of symbols expected present settled).

Lemma open_minutes_sorted : StronglySorted Z.lt expected.
Proof. apply sorted_filter, minute_range_sorted. Qed.

Lemma missing_of_ok : Forall span_ok spans.
Proof.
  apply Forall_forall. intros s (x & Hx & Hs)%elem_of_concat_fmap.
  destruct (missing_spans_minutes x (present x) (settled x) expected) as [Hmin Hall].
  pose proof (proj1 (Forall_forall _ _) Hall s Hs) as [[Hle Hmod] _].
  assert (Hstart : sp_start s ∈ spans_minutes (missing_spans x expected (present x) (settled x))).
  { apply elem_of_concat_fmap. exists s. split; [done|]. apply each_minute_spec.
    rewrite Z.sub_diag. split; [lia|done]. }
  rewrite Hmin, list_elem_of_In, filter_In, <- list_elem_of_In, open_minutes_spec in Hstart.
  destruct Hstart as [(_ & _ & Hs0) _]. unfold span_ok, MINUTE in *. split_and!; zdivmod.
Qed.

Lemma spans_of_missing x :
  spans_of x spans = if decide (x ∈ symbols) then missing_spans x expected (present x) (settled x) else [].
Proof.
  unfold spans_of, missing_of. rewrite filter_concat_key; [|done|].
  - destruct (decide (x ∈ symbols)); [|done]. apply py_sorted_id.
    destruct (missing_spans_minutes x (present x) (settled x) expected) as [Hmin Hall].
    apply starts_sorted; [by eapply Forall_impl; [exact Hall|]; intros ? []|].
    rewrite Hmin. apply sorted_filter, open_minutes_sorted.
  - intros k s Hs. destruct (missing_spans_minutes k (present k) (settled k) expected) as [_ Hall].
    by apply (proj1 (Forall_forall _ _) Hall s Hs).
Qed.
End MissingOf.

(** Whatever a request asks for is one of its symbol's missing minutes. *)
Lemma plan_request_minutes symbols w is_open present settled n r m :
  1 <= n -> w_start w mod MINUTE = 0 -> NoDup symbols ->
  r ∈ plan_requests (missing_of symbols (open_minutes w is_open) present settled) n ->
  m ∈ spans_minutes (rq_spans r) ->
  rq_symbol r ∈ symbols /\ m ∈ open_minutes w is_open /\
  is_missing (present (rq_symbol r)) (settled (rq_symbol r)) m = true.
Proof.
  intros Hn Hgrid Hnd Hr Hm.
  assert (Hasked : m ∈ asked (rq_symbol r)
    (plan_requests (missing_of symbols (open_minutes w is_open) present settled) n)).
  { apply elem_of_concat_fmap in Hm as (s & Hs & Hm). apply elem_of_concat_fmap. exists s.
    split; [|done]. apply elem_of_concat_fmap. exists r. split; [|done].
    apply elem_of_lfilter. by rewrite bool_decide_eq_true_2. }
  rewrite plan_requests_spec, spans_of_missing in Hasked
    by (done || by apply missing_of_ok).
  destruct (decide (rq_symbol r ∈ symbols)); [|by apply elem_of_nil in Hasked].
  destruct (missing_spans_minutes (rq_symbol r) (present (rq_symbol r)) (settled (rq_symbol r))
    (open_minutes w is_open)) as [Hmin _].
  rewrite Hmin in Hasked. by apply elem_of_lfilter in Hasked.
Qed.

(** A request names its first and last minute, at most [n] calendar days apart. *)
Lemma request_ok_days symbol n r :
  request_ok symbol n r -> exists a b, request_start r = Ok a /\ request_end r = Ok b /\
  date b - date a < n.
Proof.
  intros (_ & _ & first & rest & He & Hd). unfold request_start, request_end.
  destruct (exists_last (l := rq_spans r)) as (init & lst & Hl); [by rewrite He|].
  exists (sp_start first), (sp_end lst). split_and!.
  - rewrite He. by rewrite (py_index_ok _ 0 first).
  - rewrite Hl. by rewrite py_index_last.
  - rewrite Forall_forall in Hd. apply Hd. rewrite Hl. apply elem_of_app. right. apply list_elem_of_here.
Qed.

(** What a request covers, as a list: the open minutes that are missing. *)
Lemma asked_missing symbols w is_open present settled n s :
  1 <= n -> w_start w mod MINUTE = 0 -> NoDup symbols ->
  asked s (plan_requests (missing_of symbols (open_minutes w is_open) present settled) n) =
     if decide (s ∈ symbols)
     then List.filter (is_missing (present s) (settled s)) (open_minutes w is_open) else [].
Proof.
  intros Hn Hgrid Hnd. pose proof (missing_of_ok symbols w is_open present settled Hgrid) as Hok.
  rewrite plan_requests_spec, spans_of_missing by done.
  destruct (decide (s ∈ symbols)); [|done]. by apply missing_spans_minutes.
Qed.

Lemma is_missing_spec stored spans m :
  is_missing stored spans m = true <-> m ∉ stored /\ forall a b, (a, b) ∈ spans -> ~ a <= m <= b.
Proof.
  unfold is_missing. rewrite andb_true_iff, !negb_true_iff, bool_decide_eq_false, <- not_true_iff_false, existsb_exists.
  split; intros [Hm Hs]; (split; [done|]).
  - intros a b Hab Hr. apply Hs. exists (a, b). rewrite <- list_elem_of_In, andb_true_iff, !Z.leb_le. done.
  - intros ([a b] & Hab & Hr). rewrite <- list_elem_of_In in Hab. rewrite andb_true_iff, !Z.leb_le in Hr.
    by apply (Hs a b).
Qed.

(** C28. A recovery plan asks for exactly the missing minutes.  Over a window that
    starts on a minute, whatever rows are stored and whatever spans are settled,
    the requests made for a symbol cover, in order and each once, precisely the
    open minutes of the window that have no row and lie in no settled span; symbols
    that are not configured are not asked for; and every request is one symbol's and
    spans at most [n] UTC calendar days. *)
Theorem plan_asks_exactly_missing symbols w is_open present settled n :
  1 <= n -> w_start w mod MINUTE = 0 -> NoDup symbols ->
  let plan := plan_requests (missing_of symbols (open_minutes w is_open) present settled) n in
  (forall s, StronglySorted Z.lt (asked s plan) /\
     forall m, m ∈ asked s plan <->
       s ∈ symbols /\ w_start w <= m <= w_end w /\ m mod MINUTE = 0 /\ is_open m = true /\
       m ∉ present s /\ (forall a b, (a, b) ∈ settled s -> ~ a <= m <= b)) /\
  (forall r, r ∈ plan -> rq_symbol r ∈ symbols /\ exists a b,
     request_start r = Ok a /\ request_end r = Ok b /\ date b - date a < n).
Proof.
  intros Hn Hgrid Hnd plan. pose proof (missing_of_ok symbols w is_open present settled Hgrid) as Hok.
  split.
  - intros s. unfold plan. rewrite asked_missing by done. destruct (decide (s ∈ symbols)) as [Hs|Hs].
    + split; [apply sorted_filter, open_minutes_sorted|]. intros m.
      rewrite elem_of_lfilter, open_minutes_spec, is_missing_spec, Zminus_mod, Hgrid, Z.sub_0_r, Z.mod_mod by done.
      tauto.
    + split; [constructor|]. intros m. rewrite elem_of_nil. tauto.
  - intros r (x & Hx & Hr)%elem_of_concat_fmap.
    destruct (plan_symbol_spec n Hn _ x Hok) as [_ Hall].
    pose proof (proj1 (Forall_forall _ _) Hall r Hr) as Hreq. split; [|by eapply request_ok_days].
    destruct Hreq as [-> _].
    apply symbols_of_elem in Hx as (s & (y & Hy & Hs)%elem_of_concat_fmap & <-).
    destruct (missing_spans_minutes y (present y) (settled y) (open_minutes w is_open)) as [_ Hall'].
    by destruct (proj1 (Forall_forall _ _) Hall' s Hs) as [_ ->].
Qed.

(* ------------------------------------------------------------------ *)
(** ** Rollup buckets *)

Lemma floor_bucket_eq t width sec :
  0 <= t -> 0 < sec -> width = sec * MICRO -> floor_bucket t width = t / width * width.
Proof.
  intros Ht Hsec ->. unfold floor_bucket, fromtimestamp. rewrite Z.div_mul by done.
  rewrite int_timestamp_nonneg, Z.div_div by done. rewrite (Z.mul_comm MICRO), <- Z.mul_assoc. done.
Qed.

(** A rollup refresh covers exactly the closed buckets it is for: the
    range is made of whole buckets, and a bucket lies in it exactly when it meets
    [first]..[last] and ended at least [end_offset] ago. *)
Theorem refresh_range_closed_buckets first last width end_offset now sec k :
  0 <= first -> 0 <= last -> end_offset <= now -> 0 < sec -> width = sec * MICRO ->
  (exists a b, refresh_range first last width end_offset now = Some (a, b) /\
     a <= k * width /\ k * width + width <= b) <->
  (first < k * width + width /\ k * width <= last /\ k * width + width <= now - end_offset).
Proof.
  intros Hf Hl Hnow Hsec Hw. unfold refresh_range.
  rewrite !(floor_bucket_eq _ width sec) by lia.
  assert (Hpos : 0 < width) by (unfold MICRO in Hw; lia). clear Hw.
  assert (Hcover : first / width * width <= k * width /\
    k * width + width <= Z.min (last / width * width + width) ((now - end_offset) / width * width) <->
    first < k * width + width /\ k * width <= last /\ k * width + width <= now - end_offset).
  { rewrite (floor_le_multiple first), <- (multiple_le_floor last) by done.
    replace (k * width + width) with ((k + 1) * width) by lia.
    rewrite <- (multiple_le_floor (now - end_offset)) by done. lia. }
  rewrite <- Hcover. destruct (Z.ltb_spec (first / width * width)
    (Z.min (last / width * width + width) ((now - end_offset) / width * width))).
  - split; [by intros (a & b & [= <- <-] & ? & ?)|intros []; by eexists _, _].
  - split; [by intros (a & b & ? & _)|lia].
Qed.

(* ------------------------------------------------------------------ *)
(** ** A plan *)

(** 23:57 to 00:04 around a midnight, closed at 00:01, EURUSD stored at 23:58,
    GBPUSD settled from 00:02. *)
Definition demo_minute (k : Z) : datetime := days 19000 + minutes k.
Definition demo_window : Window := {| w_start := demo_minute (-3); w_end := demo_minute 4 |}.
Definition demo_open (t : datetime) : bool := negb (t =? demo_minute 1).
Definition demo_present (s : string) : gset Z :=
  if bool_decide (s = "EURUSD"%string) then {[ demo_minute (-2) ]} else ∅.
Definition demo_settled (s : string) : list (datetime * datetime) :=
  if bool_decide (s = "GBPUSD"%string) then [(demo_minute 2, demo_minute 9)] else [].
Definition demo_symbols : list string := ["GBPUSD"; "EURUSD"]%string.
Definition demo_plan (n : Z) : list Request :=
  plan_requests
    (missing_of demo_symbols (open_minutes demo_window demo_open) demo_present demo_settled) n.

Definition show_plan (l : list Request) : list (string * list (Z * Z)) :=
  (fun r => (rq_symbol r,
    (fun s => ((sp_start s - demo_minute 0) / MINUTE, (sp_end s - demo_minute 0) / MINUTE))
      <$> rq_spans r)) <$> l.

Lemma demo_plan_shown :
  show_plan (demo_plan 1) =
    [("EURUSD"%string, [(-3, -3); (-1, -1)]); ("EURUSD"%string, [(0, 0); (2, 4)]);
     ("GBPUSD"%string, [(-3, -1)]); ("GBPUSD"%string, [(0, 0)])] /\
  show_plan (demo_plan 2) =
    [("EURUSD"%string, [(-3, -3); (-1, 0); (2, 4)]); ("GBPUSD"%string, [(-3, 0)])].
Proof. by split; vm_compute. Qed.

Lemma plan_asks_exactly_missing_witness :
  demo_minute 0 ∈ asked "EURUSD" (demo_plan 1) /\ demo_minute 1 ∉ asked "EURUSD" (demo_plan 1) /\
  demo_minute (-2) ∉ asked "EURUSD" (demo_plan 1) /\ demo_minute 3 ∉ asked "GBPUSD" (demo_plan 1) /\
  StronglySorted Z.lt (asked "EURUSD" (demo_plan 1)).
Proof.
  destruct (plan_asks_exactly_missing demo_symbols demo_window demo_open demo_present demo_settled 1)
    as [Hasked _].
  - lia.
  - done.
  - apply (bool_decide_unpack _). by vm_compute.
  - unfold demo_plan. destruct (Hasked "EURUSD"%string) as [Hsorted Heur].
    destruct (Hasked "GBPUSD"%string) as [_ Hgbp]. rewrite !Heur, Hgbp.
    split; [|split; [|split; [|split; [|done]]]].
    + split; [by apply (bool_decide_unpack _)|]. split; [by vm_compute|]. split; [by vm_compute|].
      split; [done|]. split; [by apply (bool_decide_unpack _)|]. by intros a b ?%elem_of_nil.
    + by intros (_ & _ & _ & ? & _).
    + intros (_ & _ & _ & _ & Hno & _). apply Hno. by apply (bool_decide_unpack _).
    + intros (_ & _ & _ & _ & _ & Hno). apply (Hno (demo_minute 2) (demo_minute 9)); [by left|by vm_compute].
Defined.

(** At 12:10:30 the hour of 11:00 is closed for an offset of five minutes, that
    of 12:00 is not. *)
Lemma refresh_range_closed_buckets_witness :
  exists a b, refresh_range (hours 11) (hours 12) (hours 1) (minutes 5)
    (hours 12 + minutes 10 + seconds 30) = Some (a, b) /\ a <= 11 * hours 1 /\ 11 * hours 1 + hours 1 <= b.
Proof.
  apply (refresh_range_closed_buckets _ _ _ _ _ 3600); by vm_compute.
Defined.
