(* ===== verification/Redis.v ===== *)
(** * Redis sorted sets, as the program uses them

    Redis is a service, so its commands are an interface: [SortedSet] states the
    documented behaviour of the few commands the ledger and the hot cache use,
    over the order [ZRANGE] reports.  [sorted_list] is a concrete instance, for
    evaluation.  Scores are the integers the program writes (seconds and
    milliseconds since 1970), which doubles represent exactly. *)
From S2P Require Import Prelude.

Local Open Scope Z_scope.

Abbreviation entry := (Z * string)%type.

(** The ranks [start..stop] of a list of [n], negative ones from its end, as a
    half-open interval of positions. *)
Definition rank_from (n : nat) (start : Z) : nat :=
  Z.to_nat (if start <? 0 then start + Z.of_nat n else start).
Definition rank_upto (n : nat) (stop : Z) : nat :=
  Z.to_nat ((if stop <? 0 then stop + Z.of_nat n else stop) + 1).

Definition rank_range {A} (start stop : Z) (l : list A) : list A :=
  drop (rank_from (length l) start) (take (rank_upto (length l) stop) l).

Definition without_ranks {A} (start stop : Z) (l : list A) : list A :=
  let from := rank_from (length l) start in
  let upto := rank_upto (length l) stop in
  if (from <? upto)%nat then take from l ++ drop upto l else l.

Lemma sorted_without_ranks {A} (R : A -> A -> Prop) start stop (l : list A) :
  StronglySorted R l -> StronglySorted R (without_ranks start stop l).
Proof.
  intros Hl. unfold without_ranks. cbv zeta. destruct (Nat.ltb_spec
    (rank_from (length l) start) (rank_upto (length l) stop)) as [Hlt|]; [|done].
  set (a := rank_from _ _) in *. set (b := rank_upto _ _) in *.
  assert (Hb : StronglySorted R (drop b l))
    by (rewrite <- (take_drop b l) in Hl; by eapply StronglySorted_app_1_r).
  rewrite <- (take_drop a l) in Hl. apply StronglySorted_app in Hl as (Hx & Ha & _).
  apply StronglySorted_app. split_and!; [|done..]. intros x y Hxa Hyb. apply Hx; [done|].
  replace (drop b l) with (drop (b - a) (drop a l)) in Hyb by (rewrite drop_drop; f_equal; lia).
  rewrite <- (take_drop (b - a) (drop a l)). apply elem_of_app. by right.
Qed.

(** Entries in the order of their scores. *)
Definition by_score (a b : entry) : Prop := a.1 <= b.1.

Lemma StronglySorted_leb l : StronglySorted (key_le Z.leb fst) l -> StronglySorted by_score l.
Proof.
  induction 1 as [|a l Hs IH Hall]; constructor; [done|].
  eapply Forall_impl; [exact Hall|]. intros b Hb. by apply Z.leb_le.
Qed.

Class SortedSet := {
  zset : Type;
  zempty : zset;
  (** [ZRANGE key 0 -1 WITHSCORES] *)
  zentries : zset -> list entry;
  (** [ZADD key score member] *)
  zadd : Z -> string -> zset -> zset;
  (** [ZREMRANGEBYSCORE key -inf hi] and [... lo hi] *)
  zremrangebyscore : option Z -> Z -> zset -> zset;
  (** [ZREMRANGEBYRANK key start stop] *)
  zremrangebyrank : Z -> Z -> zset -> zset;
  zentries_empty : zentries zempty = [];
  zentries_sorted z : StronglySorted by_score (zentries z);
  zadd_entries s m z :
    zentries (zadd s m z) ≡ₚ
    (s, m) :: List.filter (fun e => negb (bool_decide (e.2 = m))) (zentries z);
  zremrangebyscore_entries lo hi z :
    zentries (zremrangebyscore lo hi z) =
    List.filter (fun e => negb (match lo with Some lo => lo <=? e.1 | None => true end && (e.1 <=? hi)))
      (zentries z);
  zremrangebyrank_entries start stop z :
    zentries (zremrangebyrank start stop z) = without_ranks start stop (zentries z);
}.

Section Reads.
Context `{SortedSet}.

Definition zcard (z : zset) : Z := Z.of_nat (length (zentries z)).

(** A Redis key with no member does not exist. *)
Definition zexists (z : zset) : bool := match zentries z with [] => false | _ => true end.

(** [ZRANGEBYSCORE key lo hi] and [ZCOUNT key lo +inf]. *)
Definition zrangebyscore (lo hi : Z) (z : zset) : list entry :=
  List.filter (fun e => (lo <=? e.1) && (e.1 <=? hi)) (zentries z).
Definition zcount_from (lo : Z) (z : zset) : Z :=
  Z.of_nat (length (List.filter (fun e => lo <=? e.1) (zentries z))).

(** [ZRANGE key start stop WITHSCORES] *)
Definition zrange (start stop : Z) (z : zset) : list entry := rank_range start stop (zentries z).

Lemma zadd_fresh s m z :
  m ∉ (snd <$> zentries z) -> zentries (zadd s m z) ≡ₚ (s, m) :: zentries z.
Proof.
  intros Hm. rewrite zadd_entries. f_equiv.
  induction (zentries z) as [|[s' m'] l IH]; [done|]. cbn in *.
  rewrite bool_decide_eq_false_2 by set_solver. cbn. rewrite IH; [done|set_solver].
Qed.
End Reads.

(** Sorted lists with one entry per member. *)
Definition sorted_list : SortedSet.
Proof.
  refine {|
    zset := list entry;
    zempty := [];
    zentries := py_sorted Z.leb fst;
    zadd s m z := (s, m) :: List.filter (fun e => negb (bool_decide (e.2 = m))) z;
    zremrangebyscore lo hi z :=
      List.filter (fun e => negb (match lo with Some lo => lo <=? e.1 | None => true end && (e.1 <=? hi)))
        (py_sorted Z.leb fst z);
    zremrangebyrank start stop z := without_ranks start stop (py_sorted Z.leb fst z);
  |}.
  all: assert (Hsort : forall z : list entry,
    StronglySorted (key_le Z.leb fst) (py_sorted Z.leb fst z))
    by (intros z; apply py_sorted_sorted; intros *; rewrite ?Z.leb_le; lia).
  - done.
  - intros z. apply StronglySorted_leb, Hsort.
  - intros s m z. by rewrite !py_sorted_perm.
  - intros lo hi z. apply py_sorted_id, sorted_filter, Hsort.
  - intros start stop z. apply py_sorted_id, sorted_without_ranks, Hsort.
Defined.
