(* ===== verification/Quota.v ===== *)
(** * The ledger of provider requests ([fx_ingestor/quota.py])

    Every REST request made with the shared token is entered in one Redis sorted
    set, scored by its time in milliseconds.  The script that enters one runs
    atomically, so the calls of every process form one sequence; what can fail is
    reaching Redis ([Unreached]) or hearing back from it ([ReplyLost]). *)
From S2P Require Import Prelude Redis.

Local Open Scope Z_scope.

Definition HOUR_MS : Z := 3_600_000.
Definition DAY_MS : Z := 86_400_000.
Definition UNCAPPED : Z := 10 ^ 12.

Record QuotaLimits := {
  per_hour : Z;
  per_day : Z;
  reserve_per_hour : Z;
  reserve_per_day : Z;
}.

Inductive Fault := Answered | Unreached | ReplyLost.

#[export] Instance fault_eq_dec : EqDecision Fault.
Proof. solve_decision. Defined.

Section Quota.
Context `{SortedSet}.
Implicit Types (z : zset) (now hour_cap day_cap : Z) (member : string).

(** [_TAKE_LUA] *)
Definition take_script z now hour_cap day_cap member : zset * (Z * Z * Z) :=
  let z := zremrangebyscore None (now - 86400000) z in
  let hour := zcount_from (now - 3600000) z in
  let day := zcard z in
  if (hour_cap <=? hour) || (day_cap <=? day) then (z, (0, hour, day))
  else (zadd now member z, (1, hour + 1, day + 1)).

(** [_enter]: the ledger afterwards, and the reply unless a [RedisError] is raised. *)
Definition enter z now hour_cap day_cap member (f : Fault) : zset * option (bool * Z * Z) :=
  match f with
  | Unreached => (z, None)
  | _ =>
      let '(z', (granted, hour, day)) := take_script z now hour_cap day_cap member in
      (z', if bool_decide (f = Answered) then Some (negb (granted =? 0), hour, day) else None)
  end.

(** [record]: entered, never refused; a failure to enter it is only logged. *)
Definition record z now member f : zset :=
  (enter z now UNCAPPED UNCAPPED member f).1.

(** [take]: whether background work may make one request. *)
Definition take (limits : QuotaLimits) z now member f : zset * bool :=
  let hour_cap := per_hour limits - reserve_per_hour limits in
  let day_cap := per_day limits - reserve_per_day limits in
  match enter z now hour_cap day_cap member f with
  | (z', Some (granted, _, _)) => (z', granted)
  | (z', None) => (z', false)
  end.

Definition used z now : Z * Z := (zcount_from (now - HOUR_MS) z, zcount_from (now - DAY_MS) z).

(* ------------------------------------------------------------------ *)
(** ** Every process's calls, in the order Redis runs them *)

Record Call := { c_background : bool; c_now : Z; c_member : string; c_fault : Fault }.

Definition call_step (limits : QuotaLimits) z (c : Call) : result (zset * option (Call * bool)) :=
  if c_background c then
    let '(z', granted) := take limits z (c_now c) (c_member c) (c_fault c) in
    Ok (z', Some (c, granted))
  else Ok (record z (c_now c) (c_member c) (c_fault c), Some (c, true)).
End Quota.

(* ------------------------------------------------------------------ *)
(** ** What the ledger stands for

    A ledger that never forgets: the times of every request entered so far.  A
    background request fits while the last hour and the last day, it included,
    stay within what the reserve leaves. *)

Definition requests_from (lo : Z) (hist : list Z) : Z :=
  Z.of_nat (length (List.filter (fun t => lo <=? t) hist)).

Definition fits (limits : QuotaLimits) (hist : list Z) (c : Call) : bool :=
  let hour_cap := if c_background c then per_hour limits - reserve_per_hour limits else UNCAPPED in
  let day_cap := if c_background c then per_day limits - reserve_per_day limits else UNCAPPED in
  (requests_from (c_now c - HOUR_MS) hist <? hour_cap) &&
  (requests_from (c_now c - DAY_MS + 1) hist <? day_cap).

Definition spec_step (limits : QuotaLimits) (hist : list Z) (c : Call) : list Z * bool :=
  let entered := negb (bool_decide (c_fault c = Unreached)) && fits limits hist c in
  (if entered then c_now c :: hist else hist,
   if c_background c then entered && bool_decide (c_fault c = Answered) else true).

(** The answers a sequence of calls should get. *)
Fixpoint spec_log (limits : QuotaLimits) (hist : list Z) (cs : list Call) : list (Call * bool) :=
  match cs with
  | [] => []
  | c :: cs => let '(hist, ok) := spec_step limits hist c in (c, ok) :: spec_log limits hist cs
  end.

Section Refines.
Context `{SortedSet} (limits : QuotaLimits).
Implicit Types (z : zset) (hist : list Z) (c : Call).

(** The set holds what the ledger remembers of the last day, at least. *)
Definition ledger_rel z hist (last : Z) (seen : list string) : Prop :=
  Forall (fun t => t <= last) hist /\
  (forall m, m ∈ (zentries z).*2 -> m ∈ seen) /\
  exists cut, cut <= last - DAY_MS /\
    (zentries z).*1 ≡ₚ List.filter (fun t => cut <? t) hist.

Lemma ledger_swept z hist last seen now :
  ledger_rel z hist last seen -> last <= now ->
  let z' := zremrangebyscore None (now - 86400000) z in
  (zentries z').*1 ≡ₚ List.filter (fun t => now - DAY_MS <? t) hist /\
  (forall m, m ∈ (zentries z').*2 -> m ∈ seen).
Proof.
  intros (_ & Hseen & cut & Hcut & Hperm) Hnow z'. unfold z'. rewrite zremrangebyscore_entries. split.
  - rewrite <- (lfilter_lfilter _ (fun t => cut <? t)) by (intros; unfold DAY_MS in *; lia).
    rewrite <- Hperm, lfilter_fmap. apply fmap_Permutation. erewrite filter_ext; [done|].
    intros e. cbn. unfold DAY_MS. lia.
  - intros m (e & -> & [He _]%elem_of_lfilter)%list_elem_of_fmap. apply Hseen, list_elem_of_fmap. eauto.
Qed.

Lemma count_perm lo z hist g :
  (zentries z).*1 ≡ₚ List.filter g hist -> (forall t, lo <= t -> g t = true) ->
  zcount_from lo z = requests_from lo hist.
Proof.
  intros Hp Hg. unfold zcount_from, requests_from. f_equal.
  rewrite <- (length_fmap fst), <- (lfilter_fmap (fun t => lo <=? t) fst), Hp, lfilter_lfilter; [done|].
  intros t Ht. apply Hg. lia.
Qed.

Lemma script_spec z hist last seen now hour_cap day_cap m :
  ledger_rel z hist last seen -> last <= now -> m ∉ seen ->
  let ok := (requests_from (now - HOUR_MS) hist <? hour_cap) &&
            (requests_from (now - DAY_MS + 1) hist <? day_cap) in
  exists z' hour day,
    take_script z now hour_cap day_cap m = (z', (if ok then 1 else 0, hour, day)) /\
    ledger_rel z' (if ok then now :: hist else hist) now (m :: seen).
Proof.
  intros Hrel Hnow Hm. pose proof Hrel as (Hlast & _).
  destruct (ledger_swept _ _ _ _ _ Hrel Hnow) as [Hp Hs]. unfold take_script. cbv zeta.
  set (z1 := zremrangebyscore None (now - 86400000) z) in *.
  assert (Hle : Forall (fun t => t <= now) hist) by (eapply Forall_impl; [exact Hlast|]; cbn; lia).
  replace (zcount_from (now - 3600000) z1) with (requests_from (now - HOUR_MS) hist)
    by (symmetry; eapply count_perm; [exact Hp|]; intros; unfold HOUR_MS, DAY_MS in *; lia).
  replace (zcard z1) with (requests_from (now - DAY_MS + 1) hist).
  2:{ unfold zcard, requests_from. f_equal. rewrite <- (length_fmap fst (zentries z1)), Hp.
      f_equal. apply filter_ext. intros t. lia. }
  rewrite !Z.leb_antisym, <- negb_andb. destruct (_ && _); cbn [negb]; eexists _, _, _; (split; [done|]).
  - assert (Hfresh : m ∉ (zentries z1).*2) by (intros Hin; by apply Hm, Hs).
    split_and!.
    + constructor; [lia|done].
    + intros m'. rewrite (zadd_fresh now m z1 Hfresh). cbn. rewrite !elem_of_cons. naive_solver.
    + exists (now - DAY_MS). split; [lia|]. rewrite (zadd_fresh now m z1 Hfresh). cbn.
      rewrite (proj2 (Z.ltb_lt _ _)) by (unfold DAY_MS; lia). by rewrite Hp.
  - split_and!; [done| |exists (now - DAY_MS); split; [lia|done]].
    intros m' Hm'. apply elem_of_cons. right. by apply Hs.
Qed.

Lemma call_step_spec z hist last seen c :
  ledger_rel z hist last seen -> last <= c_now c -> c_member c ∉ seen ->
  let '(hist', ok) := spec_step limits hist c in
  exists z', call_step limits z c = Ok (z', Some (c, ok)) /\
    ledger_rel z' hist' (c_now c) (c_member c :: seen).
Proof.
  intros Hrel Hnow Hm. unfold spec_step, call_step, take, record, enter, fits.
  destruct (script_spec z hist last seen (c_now c)
    (if c_background c then per_hour limits - reserve_per_hour limits else UNCAPPED)
    (if c_background c then per_day limits - reserve_per_day limits else UNCAPPED)
    (c_member c) Hrel Hnow Hm) as (z' & hour & day & Hs & Hrel').
  assert (Hun : ledger_rel z hist (c_now c) (c_member c :: seen)).
  { destruct Hrel as (? & ? & cut & ? & ?). split_and!.
    - eapply Forall_impl; [eassumption|]. cbn; lia.
    - intros m ?. apply elem_of_cons. auto.
    - exists cut. split; [lia|done]. }
  destruct (c_background c), (c_fault c); cbn [negb andb] in *; rewrite ?bool_decide_eq_true_2,
    ?bool_decide_eq_false_2 by done; cbn [negb andb]; try rewrite Hs;
    destruct (_ && _); cbn; eauto.
Qed.

Lemma calls_spec z hist last seen cs :
  ledger_rel z hist last seen -> StronglySorted Z.le (last :: (c_now <$> cs)) ->
  NoDup (c_member <$> cs) -> (forall c, c ∈ cs -> c_member c ∉ seen) ->
  exists z', run_all (call_step limits) z cs = Ok (z', spec_log limits hist cs).
Proof.
  revert z hist last seen. induction cs as [|c cs IH]; intros z hist last seen Hrel Hsort Hnd Hseen;
    [by eexists|].
  apply NoDup_cons in Hnd as [Hc Hnd]. apply StronglySorted_cons in Hsort as [Hall Hsort].
  apply Forall_cons in Hall as [Hnow _].
  pose proof (call_step_spec z hist last seen c Hrel Hnow) as Hstep.
  cbn [spec_log run_all]. destruct (spec_step limits hist c) as [hist' ok].
  destruct Hstep as (z' & -> & Hrel'); [apply Hseen, list_elem_of_here|].
  destruct (IH z' hist' (c_now c) (c_member c :: seen) Hrel' Hsort Hnd) as (z'' & Hr).
  - intros c' Hc'. rewrite elem_of_cons. intros [He|Hin].
    + apply Hc. rewrite <- He. apply list_elem_of_fmap. eauto.
    + eapply Hseen; [by apply list_elem_of_further|done].
  - exists z''. cbn [mbind result_bind]. by rewrite Hr.
Qed.
End Refines.

(** The requests entered by a sequence of calls, none forgotten. *)
Definition entered_by (limits : QuotaLimits) (cs : list Call) : list Z :=
  fold_left (fun hist c => (spec_step limits hist c).1) cs [].

Lemma entered_by_snoc limits pre c :
  entered_by limits (pre ++ [c]) = (spec_step limits (entered_by limits pre) c).1.
Proof. unfold entered_by. by rewrite fold_left_snoc. Qed.

Lemma spec_log_app limits hist cs cs' :
  spec_log limits hist (cs ++ cs') =
  spec_log limits hist cs ++
  spec_log limits (fold_left (fun hist c => (spec_step limits hist c).1) cs hist) cs'.
Proof.
  revert hist. induction cs as [|c cs IH]; intros hist; [done|]. cbn.
  destruct (spec_step limits hist c) as [hist' ok]. cbn. by rewrite IH.
Qed.

Lemma spec_log_length limits hist cs : length (spec_log limits hist cs) = length cs.
Proof.
  revert hist. induction cs as [|c cs IH]; intros hist; [done|]. cbn.
  destruct (spec_step limits hist c). cbn. by rewrite IH.
Qed.

Lemma requests_from_cons lo t hist :
  lo <= t -> requests_from lo (t :: hist) = requests_from lo hist + 1.
Proof. intros. unfold requests_from. cbn. rewrite (proj2 (Z.leb_le _ _)) by done. cbn. lia. Qed.

(** C30. The shared ledger keeps the reserve.  Over any Redis with the documented
    sorted sets, whatever processes call it in whatever order, with clocks that
    do not run backwards and distinct member names, no call raises, live requests
    are never refused, and the bounded ledger answers as one that never forgets:
    a background request is granted exactly when Redis answered and it fits.  So
    when one is granted, the requests entered in the hour and in the day up to
    it, itself included, leave the reserve untouched. *)
Theorem quota_keeps_reserve `{SortedSet} limits cs :
  StronglySorted Z.le (c_now <$> cs) -> NoDup (c_member <$> cs) ->
  exists z log, run_all (call_step limits) zempty cs = Ok (z, log) /\
  forall pre c post, cs = pre ++ c :: post ->
    exists ok, log !! length pre = Some (c, ok) /\
    (c_background c = false -> ok = true) /\
    (c_background c = true ->
      (ok = true <-> c_fault c = Answered /\ fits limits (entered_by limits pre) c = true) /\
      (ok = true ->
       requests_from (c_now c - HOUR_MS) (entered_by limits (pre ++ [c]))
         <= per_hour limits - reserve_per_hour limits /\
       requests_from (c_now c - DAY_MS + 1) (entered_by limits (pre ++ [c]))
         <= per_day limits - reserve_per_day limits)).
Proof.
  intros Hsort Hnd. destruct (calls_spec limits zempty [] (from_option id 0 (head (c_now <$> cs))) [] cs)
    as (z & Hr); [|..|done| |].
  - split_and!; [constructor|intros m; by rewrite zentries_empty|].
    exists (from_option id 0 (head (c_now <$> cs)) - DAY_MS). by rewrite zentries_empty.
  - destruct Hsort as [|t l Hs Hall]; [by repeat constructor|]. cbn.
    constructor; [by constructor|]. by constructor.
  - intros c _. apply not_elem_of_nil.
  - exists z, (spec_log limits [] cs). split; [done|]. intros pre c post ->.
    exists (spec_step limits (entered_by limits pre) c).2. split_and!.
    + rewrite spec_log_app, lookup_app_r, spec_log_length, Nat.sub_diag by (by rewrite spec_log_length).
      cbn. fold (entered_by limits pre). by destruct (spec_step limits (entered_by limits pre) c).
    + unfold spec_step. by intros ->.
    + intros Hb. rewrite !entered_by_snoc. unfold spec_step. rewrite Hb. cbn [fst snd]. split.
      * rewrite !andb_true_iff, negb_true_iff, bool_decide_eq_false, bool_decide_eq_true.
        split; [by intros [[_ ?] ?]|]. intros [-> ?]. by repeat split.
      * intros [[Hu Hfit]%andb_true_iff _]%andb_true_iff. rewrite Hu, Hfit. cbn [andb].
        unfold fits in Hfit. rewrite Hb in Hfit. apply andb_true_iff in Hfit as [Hh Hd].
        rewrite !requests_from_cons by (unfold HOUR_MS, DAY_MS; lia). lia.
Qed.

(* ------------------------------------------------------------------ *)
(** ** A ledger at work *)

(** Three an hour with one reserved: a live request and a background one fill
    the hour for background work; an hour later there is room again. *)
Definition demo_limits : QuotaLimits :=
  {| per_hour := 3; per_day := 10; reserve_per_hour := 1; reserve_per_day := 2 |}.
Definition demo_call (background : bool) (now : Z) (m : string) (f : Fault) : Call :=
  {| c_background := background; c_now := now; c_member := m; c_fault := f |}.
Definition demo_calls : list Call := [
  demo_call false 0 "backfill:a" Answered; demo_call true 1000 "recovery:b" Answered;
  demo_call true 2000 "recovery:c" Answered; demo_call true 3000 "recovery:d" Unreached;
  demo_call false 4000 "backfill:e" Answered; demo_call true 3_605_000 "recovery:f" Answered].

Lemma quota_keeps_reserve_witness :
  exists z log, run_all (@call_step sorted_list demo_limits) (@zempty sorted_list) demo_calls
    = Ok (z, log).
Proof.
  destruct (@quota_keeps_reserve sorted_list demo_limits demo_calls) as (z & log & Hr & _).
  - repeat (constructor; [|repeat (constructor; [by vm_compute|]); by constructor]). constructor.
  - apply (bool_decide_unpack _). by vm_compute.
  - by exists z, log.
Defined.

Lemma demo_answers :
  snd <$> spec_log demo_limits [] demo_calls = [true; true; false; false; true; true].
Proof. by vm_compute. Qed.
