(* ===== verification/Json.v ===== *)
(** * JSON values

    What the program passes to [json.dumps] and reads back with [json.loads].
    The text itself is the Standard Library of Python's: [dumps] and [loads] are
    an interface, [JsonText], with the one fact the program relies on. *)
From S2P Require Import Prelude.

Inductive json (F : Type) :=
  | JNull
  | JBool (b : bool)
  | JInt (n : Z)
  | JFloat (x : F)
  | JStr (s : string)
  | JList (l : list (json F))
  | JObj (o : list (string * json F)).
Arguments JNull {F}.
Arguments JBool {F} b.
Arguments JInt {F} n.
Arguments JFloat {F} x.
Arguments JStr {F} s.
Arguments JList {F} l.
Arguments JObj {F} o.

(** [obj[key]] of a decoded object: the last of equal keys, as a dict keeps it. *)
Definition jget {F} (key : string) (j : json F) : result (json F) :=
  match j with
  | JObj o =>
      match List.find (fun kv => String.eqb (fst kv) key) (rev o) with
      | Some kv => Ok (snd kv)
      | None => Raise KeyError
      end
  | _ => Raise TypeError
  end.

(** [None] is how an absent optional value is written. *)
Definition jopt {F A} (f : A -> json F) (o : option A) : json F :=
  match o with Some a => f a | None => JNull end.

(** [obj.get(key)] *)
Definition jget_opt {F} (key : string) (j : json F) : result (option (json F)) :=
  match j with
  | JObj o => Ok (snd <$> List.find (fun kv => String.eqb (fst kv) key) (rev o))
  | _ => Raise TypeError
  end.

(** A value used as what the program wrote it as; one of another type raises. *)
Definition as_str {F} (j : json F) : result string := match j with JStr s => Ok s | _ => Raise TypeError end.
Definition as_int {F} (j : json F) : result Z := match j with JInt n => Ok n | _ => Raise TypeError end.
Definition as_bool {F} (j : json F) : result bool := match j with JBool b => Ok b | _ => Raise TypeError end.
Definition as_float {F} (j : json F) : result F := match j with JFloat x => Ok x | _ => Raise TypeError end.
Definition as_list {F A} (f : json F -> result A) (j : json F) : result (list A) :=
  match j with JList l => mapR f l | _ => Raise TypeError end.
Definition as_opt {F A} (f : json F -> result A) (j : json F) : result (option A) :=
  match j with JNull => Ok None | _ => Some <$> f j end.

Lemma as_opt_str {F} o : as_opt as_str (jopt JStr o : json F) = Ok o.
Proof. by destruct o. Qed.

Lemma as_list_fmap {F A} (f : json F -> result A) (g : A -> json F) l :
  (forall a, f (g a) = Ok a) -> as_list f (JList (g <$> l)) = Ok l.
Proof.
  intros Hfg. cbn. induction l as [|a l IH]; [done|]. cbn. rewrite Hfg. cbn. by rewrite IH.
Qed.

(** What the decoder reads back of what the encoder wrote. *)
Class JsonText (F : Type) := {
  dumps : json F -> string;
  loads : string -> result (json F);
  loads_dumps j : loads (dumps j) = Ok j;
}.
