(* ===== verification/Text.v ===== *)
(** * Concrete texts

    Python's texts of numbers and JSON values are interfaces of the model.  Here is
    one implementation of each, executable and reading back all it writes, for the
    examples: decimal integers, and floats and JSON values as the bits of an
    encoding. *)
From S2P Require Import Prelude Json.
From Stdlib Require Import Ascii SpecFloat.
From stdpp Require Import countable pretty.

Local Open Scope Z_scope.

(* ------------------------------------------------------------------ *)
(** ** Integers *)

Definition decimal_digit (c : ascii) : option N :=
  let n := N_of_ascii c in
  if ((48 <=? n) && (n <? 58))%N then Some (n - 48)%N else None.

Fixpoint read_decimal (acc : N) (s : string) : option N :=
  match s with
  | EmptyString => Some acc
  | String c s => d ← decimal_digit c; read_decimal (acc * 10 + d)%N s
  end.

(** [int(text)] of a plain decimal number. *)
Definition int_text (s : string) : result Z :=
  match s with
  | String "-" (String c s) => match read_decimal 0 (String c s) with Some n => Ok (- Z.of_N n) | None => Raise ValueError end
  | String c s => match read_decimal 0 (String c s) with Some n => Ok (Z.of_N n) | None => Raise ValueError end
  | EmptyString => Raise ValueError
  end.

Lemma decimal_digit_char n : (n < 10)%N -> decimal_digit (pretty_N_char n) = Some n.
Proof.
  intros Hn. assert (Hcases : n ∈ [0; 1; 2; 3; 4; 5; 6; 7; 8; 9]%N).
  { rewrite !elem_of_cons. lia. }
  revert n Hn Hcases. intros n _. rewrite !elem_of_cons, elem_of_nil. intros Hc.
  destruct_or?; subst; done.
Qed.

Lemma read_pretty_go x s : read_decimal 0 (pretty_N_go x s) = read_decimal x s.
Proof.
  revert s. induction (N.lt_wf_0 x) as [x _ IH]; intros s.
  destruct (decide (x = 0)%N) as [->|Hx]; [by rewrite pretty_N_go_0|].
  rewrite pretty_N_go_step by lia. rewrite IH by (apply N.div_lt; lia). cbn.
  rewrite decimal_digit_char by (by apply N.mod_lt). cbn. f_equal.
  pose proof (N.div_mod x 10). lia.
Qed.

Lemma read_pretty (n : N) : read_decimal 0 (pretty n) = Some n.
Proof.
  unfold pretty, pretty_N. destruct (decide (n = 0)%N) as [->|]; [done|]. by rewrite read_pretty_go.
Qed.

Lemma pretty_go_nonempty x s : s <> ""%string -> pretty_N_go x s <> ""%string.
Proof.
  revert s. induction (N.lt_wf_0 x) as [x _ IH]; intros s Hs.
  destruct (decide (x = 0)%N) as [->|Hx]; [by rewrite pretty_N_go_0|].
  rewrite pretty_N_go_step by lia. apply IH; [apply N.div_lt; lia|done].
Qed.

Lemma pretty_nonempty (n : N) : pretty n <> ""%string.
Proof.
  unfold pretty, pretty_N. destruct (decide (n = 0)%N) as [->|]; [done|].
  rewrite pretty_N_go_step by lia. by apply pretty_go_nonempty.
Qed.

Lemma pretty_no_dash (n : N) s : pretty n <> String "-" s.
Proof.
  unfold pretty, pretty_N. destruct (decide (n = 0)%N) as [->|]; [done|]. by apply (pretty_N_go_ne_dash n "").
Qed.

Lemma int_text_pretty (n : Z) : int_text (pretty n) = Ok n.
Proof.
  assert (Hpos : forall m, int_text (pretty m) = Ok (Z.of_N m)).
  { intros m. pose proof (read_pretty m) as Hr. pose proof (pretty_no_dash m) as Hd.
    unfold int_text. destruct (pretty m) as [|c s] eqn:E; [by apply pretty_nonempty in E|].
    destruct (ascii_dec c "-") as [->|Hc]; [by destruct (Hd s)|].
    destruct c as [[] [] [] [] [] [] [] []]; try (by rewrite Hr); done. }
  destruct n as [|p|p]; [done|exact (Hpos (Npos p))|].
  change (pretty (Zneg p)) with (String "-" (pretty (Npos p))). cbn [int_text].
  pose proof (read_pretty (Npos p)) as Hr. destruct (pretty (Npos p)) as [|c s] eqn:E; [by apply pretty_nonempty in E|].
  by rewrite Hr.
Qed.

(* ------------------------------------------------------------------ *)
(** ** Anything countable, in bits *)

Fixpoint bits_of (p : positive) : string :=
  match p with
  | xH => "."
  | xO p => String "0" (bits_of p)
  | xI p => String "1" (bits_of p)
  end.

Fixpoint of_bits (s : string) : option positive :=
  match s with
  | String "." EmptyString => Some xH
  | String "0" s => xO <$> of_bits s
  | String "1" s => xI <$> of_bits s
  | _ => None
  end.

Lemma of_bits_of p : of_bits (bits_of p) = Some p.
Proof. induction p as [p IH|p IH|]; cbn; [by rewrite IH..|done]. Qed.

Lemma bits_nonempty p : bits_of p <> ""%string.
Proof. by destruct p. Qed.

Section Bits.
Context {A : Type} `{Countable A}.

Definition write_bits (a : A) : string := bits_of (encode a).
Definition read_bits (s : string) : result A :=
  match p ← of_bits s; decode p with Some a => Ok a | None => Raise ValueError end.

Lemma read_write_bits a : read_bits (write_bits a) = Ok a.
Proof. unfold read_bits, write_bits. rewrite of_bits_of. cbn. by rewrite decode_encode. Qed.
End Bits.

(* ------------------------------------------------------------------ *)
(** ** Floats and JSON *)

#[export] Instance spec_float_eq_dec : EqDecision spec_float.
Proof. solve_decision. Defined.

#[export] Instance spec_float_countable : Countable spec_float.
Proof.
  refine (inj_countable' (A := ((bool + bool) + (unit + bool * positive * Z))%type)
    (fun x => match x with
              | S754_zero b => inl (inl b)
              | S754_infinity b => inl (inr b)
              | S754_nan => inr (inl tt)
              | S754_finite b m e => inr (inr (b, m, e))
              end)
    (fun y => match y with
              | inl (inl b) => S754_zero b
              | inl (inr b) => S754_infinity b
              | inr (inl _) => S754_nan
              | inr (inr (b, m, e)) => S754_finite b m e
              end) _).
  by intros [].
Defined.

Section JsonBits.
Context {F : Type} `{Countable F}.

Abbreviation leaf := (bool + Z + string + F)%type.

Fixpoint tree_of (j : json F) : gen_tree leaf :=
  match j with
  | JNull => GenNode 0 []
  | JBool b => GenLeaf (inl (inl (inl b)))
  | JInt n => GenLeaf (inl (inl (inr n)))
  | JStr s => GenLeaf (inl (inr s))
  | JFloat x => GenLeaf (inr x)
  | JList l => GenNode 1 (tree_of <$> l)
  | JObj o => GenNode 2 ((fun kv => GenNode 3 [GenLeaf (inl (inr kv.1)); tree_of kv.2]) <$> o)
  end.

Fixpoint json_of (t : gen_tree leaf) : json F :=
  match t with
  | GenLeaf (inl (inl (inl b))) => JBool b
  | GenLeaf (inl (inl (inr n))) => JInt n
  | GenLeaf (inl (inr s)) => JStr s
  | GenLeaf (inr x) => JFloat x
  | GenNode 1 ts => JList (json_of <$> ts)
  | GenNode 2 ts =>
      JObj ((fun t => match t with
                      | GenNode _ [GenLeaf (inl (inr k)); v] => (k, json_of v)
                      | _ => (""%string, JNull)
                      end) <$> ts)
  | GenNode _ _ => JNull
  end.

Lemma json_of_tree : forall j, json_of (tree_of j) = j.
Proof.
  fix IH 1. intros [|b|n|x|s|l|o]; [reflexivity..| |]; cbn; f_equal.
  - induction l as [|j l IHl]; [reflexivity|]. cbn. by rewrite IH, IHl.
  - induction o as [|[k j] o IHo]; [reflexivity|]. cbn. by rewrite IH, IHo.
Qed.

Definition json_bits : JsonText F.
Proof.
  refine {| dumps j := write_bits (tree_of j); loads s := json_of <$> read_bits s |}.
  intros j. rewrite read_write_bits. cbn. by rewrite json_of_tree.
Defined.
End JsonBits.
