(* ===== verification/RecoveryStore.v ===== *)
(** * What a recovery run reads and writes ([fx_ingestor/recovery.py], store part)

    PostgreSQL's tables as finite maps on their primary keys and the Redis hot
    caches as sorted sets.  Each statement of [RecoveryStore] is the function of
    the tables its SQL text denotes; [_STALE_ROLLUP] and the continuous
    aggregates it compares are TimescaleDB's, so its answer is an argument and a
    refresh is entered in a list; [Rollups.v] gives both their meaning. *)
From S2P Require Import Prelude PyFloat Models Database Json Redis RecoveryPlan.

Local Open Scope Z_scope.

(** [SpanResult] *)
Record SpanResult := {
  res_span : Span;
  res_status : string;
  res_received : Z;
  res_inserted : Z;
  res_present : Z;
  res_silent : Z;
  res_error : option string;
}.

(** A row of [history_recovery_spans], on (run, symbol, start). *)
Record SpanRow := { sr_result : SpanResult; sr_minutes : Z; sr_fetched_at : datetime }.

(** [RunReport]; the status is one of idle, skipped, dry_run, succeeded, partial,
    failed, aborted, and running while the run is on. *)
Record RunReport := {
  rep_status : string;
  rep_reason : string;
  rep_run_id : option string;
  rep_window : option Window;
  rep_minutes_missing : Z;
  rep_requests_planned : Z;
  rep_requests : Z;
  rep_bars_received : Z;
  rep_bars_inserted : Z;
  rep_bars_present : Z;
  rep_minutes_silent : Z;
  rep_cache_added : Z;
  rep_rollups_refreshed : list (string * datetime * datetime);
  rep_stale_runs_aborted : Z;
  rep_spans : list SpanResult;
}.

(** A row of [history_recovery_runs]. *)
Record RunRow := {
  run_trigger : string;
  run_instance : string;
  run_provider : string;
  run_window : Window;
  run_missing : Z;
  run_status : string;
  run_report : option RunReport;
  run_error : option string;
}.

Definition RunReport_new (status reason : string) (window : option Window) : RunReport := {|
  rep_status := status; rep_reason := reason; rep_run_id := None; rep_window := window;
  rep_minutes_missing := 0; rep_requests_planned := 0; rep_requests := 0;
  rep_bars_received := 0; rep_bars_inserted := 0; rep_bars_present := 0;
  rep_minutes_silent := 0; rep_cache_added := 0; rep_rollups_refreshed := [];
  rep_stale_runs_aborted := 0; rep_spans := [] |}.

Section Store.
Context {F : Type} `{PyFloat F} `{SortedSet}.
Context (dumps : json F -> string).

Record Store := {
  bars : gmap (string * Z) (Row F);
  spans : gmap (string * string * Z) SpanRow;
  runs : gmap string RunRow;
  caches : gmap string zset;
  refreshed : list (string * datetime * datetime);
}.
Implicit Types (s : Store).

Definition set_bars s b := {| bars := b; spans := spans s; runs := runs s; caches := caches s;
  refreshed := refreshed s |}.
Definition set_spans s x := {| bars := bars s; spans := x; runs := runs s; caches := caches s;
  refreshed := refreshed s |}.
Definition set_runs s x := {| bars := bars s; spans := spans s; runs := x; caches := caches s;
  refreshed := refreshed s |}.
Definition set_caches s x := {| bars := bars s; spans := spans s; runs := runs s; caches := x;
  refreshed := refreshed s |}.

(* ------------------------------------------------------------------ *)
(** ** Minute bars *)

(** The row [_INSERT_BARS] writes. *)
Definition backfill_row (b : Bar F) (run_id : string) : Row F := {|
  r_open := open b; r_high := high b; r_low := low b; r_close := close b;
  r_tick_count := 0; r_sum_ret := f_zero; r_sum_ret_sq := f_zero;
  r_source := "backfill"; r_last_stream_id := (0, 0); r_recovery_run_id := Some run_id |}.

(** One row of the INSERT: [ON CONFLICT (symbol, bucket) DO NOTHING RETURNING bucket]. *)
Definition insert_one (symbol run_id : string) (st : gmap (string * Z) (Row F) * list datetime)
    (b : Bar F) : gmap (string * Z) (Row F) * list datetime :=
  let '(t, returned) := st in
  match t !! (symbol, bucket b) with
  | Some _ => (t, returned)
  | None => (<[(symbol, bucket b) := backfill_row b run_id]> t, returned ++ [bucket b])
  end.

Definition insert s (symbol : string) (bs : list (Bar F)) (run_id : string)
    : Store * list datetime :=
  let '(t, returned) := fold_left (insert_one symbol run_id) bs (bars s, []) in
  (set_bars s t, returned).

(** [present]: the buckets stored for a symbol in a window. *)
Definition present s (symbol : string) (w : Window) : gset Z :=
  list_to_set (C := gset Z) ((fun kr => kr.1.2) <$>
    List.filter (fun kr => bool_decide (kr.1.1 = symbol) &&
      (w_start w <=? kr.1.2) && (kr.1.2 <=? w_end w)) (map_to_list (bars s))).

(** [recovered_since]: a symbol's rows recovered by any run, oldest first. *)
Definition recovered_since s (symbol : string) (since : datetime) : list (Bar F * string) :=
  py_sorted Z.leb (fun br => bucket br.1)
    (omap (fun kr : (string * Z) * Row F =>
      let '((sym, b), r) := kr in
      match r_recovery_run_id r with
      | Some run_id =>
          if bool_decide (sym = symbol) && (since <=? b) then
            Some ({| bar_symbol := symbol; bucket := b; open := r_open r; high := r_high r;
                     low := r_low r; close := r_close r; tick_count := 0; sum_ret := f_zero;
                     sum_ret_sq := f_zero; source := BACKFILL |}, run_id)
          else None
      | None => None
      end) (map_to_list (bars s))).

(* ------------------------------------------------------------------ *)
(** ** Spans and runs *)

(** [status IN ('recovered', 'partial', 'silent')] *)
Definition answered (status : string) : bool :=
  bool_decide (status = "recovered"%string \/ status = "partial"%string \/ status = "silent"%string).

Definition span_row_ends (kr : (string * string * Z) * SpanRow) : datetime * datetime :=
  (sp_start (res_span (sr_result kr.2)), sp_end (res_span (sr_result kr.2))).

(** The rows of a symbol's spans that meet a window. *)
Definition in_window (symbol : string) (w : Window) (kr : (string * string * Z) * SpanRow) : bool :=
  let '(a, b) := span_row_ends kr in
  bool_decide (kr.1.1.2 = symbol) && (w_start w <=? b) && (a <=? w_end w).

Definition settled s (symbol : string) (w : Window) : list (datetime * datetime) :=
  span_row_ends <$> List.filter (fun kr =>
    in_window symbol w kr && answered (res_status (sr_result kr.2)) &&
    ((span_row_ends kr).2 + SETTLE <=? sr_fetched_at kr.2)) (map_to_list (spans s)).

Definition asked_since s (symbol : string) (w : Window) (since : datetime)
    : list (datetime * datetime) :=
  span_row_ends <$> List.filter (fun kr =>
    in_window symbol w kr && (since <? sr_fetched_at kr.2)) (map_to_list (spans s)).

(** [ON CONFLICT (run_id, symbol, span_start) DO NOTHING], row after row. *)
Definition record_span (run_id : string) (fetched_at : datetime)
    (t : gmap (string * string * Z) SpanRow) (r : SpanResult) : gmap (string * string * Z) SpanRow :=
  let k := (run_id, sp_symbol (res_span r), sp_start (res_span r)) in
  match t !! k with
  | Some _ => t
  | None => <[k := {| sr_result := r; sr_minutes := span_minutes (res_span r);
                      sr_fetched_at := fetched_at |}]> t
  end.

Definition record_spans s (run_id : string) (results : list SpanResult) (fetched_at : datetime)
    : Store :=
  set_spans s (fold_left (record_span run_id fetched_at) results (spans s)).

Definition abort_row (r : RunRow) : RunRow :=
  if bool_decide (run_status r = "running"%string) then {|
    run_trigger := run_trigger r; run_instance := run_instance r; run_provider := run_provider r;
    run_window := run_window r; run_missing := run_missing r; run_status := "aborted";
    run_report := run_report r;
    run_error := Some (match run_error r with Some e => e ++ "; " | None => "" end ++
      "the process ended before the run finished")%string |}
  else r.

(** [abort_stale_runs]: the rows changed are counted. *)
Definition abort_stale_runs s : Store * Z :=
  (set_runs s (abort_row <$> runs s),
   Z.of_nat (length (List.filter (fun kr => bool_decide (run_status kr.2 = "running"%string))
     (map_to_list (runs s))))).

Definition begin_run s (run_id trigger instance provider : string) (w : Window) (missing : Z)
    : Store :=
  set_runs s (<[run_id := {|
    run_trigger := trigger; run_instance := instance; run_provider := provider;
    run_window := w; run_missing := missing; run_status := "running"; run_report := None;
    run_error := None |}]> (runs s)).

Definition finish_row (report : RunReport) (error : option string) (r : RunRow) : RunRow := {|
  run_trigger := run_trigger r; run_instance := run_instance r; run_provider := run_provider r;
  run_window := run_window r; run_missing := run_missing r; run_status := rep_status report;
  run_report := Some report; run_error := error |}.

Definition finish_run s (report : RunReport) (error : option string) : Store :=
  match rep_run_id report with
  | Some run_id => set_runs s (alter (finish_row report error) run_id (runs s))
  | None => s
  end.

Definition refresh_rollup s (view : string) (a b : datetime) : Store := {|
  bars := bars s; spans := spans s; runs := runs s; caches := caches s;
  refreshed := refreshed s ++ [(view, a, b)] |}.

(* ------------------------------------------------------------------ *)
(** ** The hot cache *)

Definition cache_horizon (now : datetime) : datetime := floor_minute now - HOT_CACHE_BARS * MINUTE.

Definition cache_member (b : Bar F) (run_id : string) : string :=
  dumps (JObj [("t"%string, JInt (int_timestamp (bucket b))); ("o"%string, JFloat (open b));
    ("h"%string, JFloat (high b)); ("l"%string, JFloat (low b)); ("c"%string, JFloat (close b));
    ("n"%string, JInt 0); ("src"%string, JStr "backfill"); ("run"%string, JStr run_id)]).

Definition cache_of s (symbol : string) : zset := default zempty (caches s !! symbol).

(** One pass of the loop of [_CACHE_ADD_LUA]. *)
Definition cache_add_one (cap : Z) (st : zset * Z) (score_member : entry) : zset * Z :=
  let '(z, added) := st in
  let '(score, member) := score_member in
  match take 1 (zrangebyscore score score z) with
  | _ :: _ => (z, added)
  | [] =>
      let keep :=
        if cap <=? zcard z then
          match zrange (- cap) (- cap) z with
          | (oldest_kept, _) :: _ => oldest_kept <? score
          | [] => true
          end
        else true in
      if keep then (zremrangebyrank 0 (- (cap + 1)) (zadd score member z), added + 1)
      else (z, added)
  end.

Definition cache_add_script (z : zset) (cap : Z) (args : list entry) : zset * Z :=
  if zexists z then fold_left (cache_add_one cap) args (z, 0) else (z, 0).

Definition cache_args (run_id : string) (bs : list (Bar F)) : list entry :=
  (fun b => (int_timestamp (bucket b), cache_member b run_id)) <$> bs.

Definition cache_add s (symbol : string) (bs : list (Bar F)) (run_id : string) : Store * Z :=
  match bs with
  | [] => (s, 0)
  | _ =>
      let '(z, added) := cache_add_script (cache_of s symbol) HOT_CACHE_BARS (cache_args run_id bs) in
      (set_caches s (<[symbol := z]> (caches s)), added)
  end.

Definition zmin (l : list Z) : Z := match l with [] => 0 | x :: l => foldr Z.min x l end.
Definition zmax (l : list Z) : Z := match l with [] => 0 | x :: l => foldr Z.max x l end.

(** [cache_would_take]: the minutes [cache_add] would add now. *)
Definition cache_would_take s (symbol : string) (ms : list datetime) : gset Z :=
  let z := cache_of s symbol in
  if bool_decide (ms = []) || negb (zexists z) then ∅
  else
    let times : gmap Z Z := fold_left (fun t m => <[int_timestamp m := m]> t) ms ∅ in
    let ts := (map_to_list times).*1 in
    let taken := fst <$> zrangebyscore (zmin ts) (zmax ts) z in
    let floor :=
      if HOT_CACHE_BARS <=? zcard z then
        match zrange (- HOT_CACHE_BARS) (- HOT_CACHE_BARS) z with
        | (score, _) :: _ => Some score
        | [] => None
        end
      else None in
    list_to_set (C := gset Z) (snd <$> List.filter (fun tm : Z * Z =>
      negb (bool_decide (tm.1 ∈ taken)) &&
      match floor with Some f => f <? tm.1 | None => true end) (map_to_list times)).
End Store.
Arguments Store F {_}.

(* ------------------------------------------------------------------ *)
(** ** Insert if absent *)

Section Inserts.
Context {F : Type} `{PyFloat F} `{SortedSet}.
Implicit Types (t : gmap (string * Z) (Row F)) (b : Bar F) (bs : list (Bar F)).

(** [t'] is [t] with rows of [bs] added where [t] had none. *)
Definition inserted_into (symbol run_id : string) t bs t' (returned : list datetime) : Prop :=
  t ⊆ t' /\
  (forall k r, t !! k = None -> t' !! k = Some r ->
     exists b, b ∈ bs /\ k = (symbol, bucket b) /\ r = backfill_row b run_id) /\
  (forall b, b ∈ bs -> is_Some (t' !! (symbol, bucket b))) /\
  NoDup returned /\
  (forall m, m ∈ returned <-> t !! (symbol, m) = None /\ is_Some (t' !! (symbol, m))) /\
  size t' = (size t + length returned)%nat.

Lemma insert_fold symbol run_id t bs :
  let '(t', returned) := fold_left (insert_one symbol run_id) bs (t, []) in
  inserted_into symbol run_id t bs t' returned.
Proof.
  induction bs as [|b bs IH] using rev_ind; cbn.
  { split_and!; [done|congruence|intros b Hb; by apply elem_of_nil in Hb|constructor| |cbn; lia].
    intros m. split; [by intros ?%elem_of_nil|]. intros [? [? ?]]; congruence. }
  rewrite fold_left_snoc. destruct (fold_left _ bs _) as [t' returned].
  destruct IH as (Hsub & Hnew & Hall & Hnd & Hret & Hsize). cbn.
  destruct (t' !! (symbol, bucket b)) as [r0|] eqn:E.
  - split_and!; [done| |  |done|done|done].
    + intros k r Hk Hr. destruct (Hnew k r Hk Hr) as (b' & ? & ? & ?). exists b'. set_solver.
    + intros b' [Hb'| ->%list_elem_of_singleton]%elem_of_app; [by apply Hall|by rewrite E].
  - assert (Ht : t !! (symbol, bucket b) = None) by (by eapply lookup_weaken_None).
    split_and!.
    + etrans; [exact Hsub|]. by apply insert_subseteq.
    + intros k r Hk. rewrite lookup_insert_Some. intros [[<- <-]|[_ Hr]].
      * exists b. set_solver.
      * destruct (Hnew k r Hk Hr) as (b' & ? & ? & ?). exists b'. set_solver.
    + intros b' [Hb'| ->%list_elem_of_singleton]%elem_of_app.
      * destruct (Hall b' Hb') as [r Hr]. destruct (decide (bucket b' = bucket b)) as [->|];
          [by rewrite lookup_insert_eq|rewrite lookup_insert_ne by congruence; by exists r].
      * by rewrite lookup_insert_eq.
    + apply NoDup_app. split_and!; [done| |apply NoDup_singleton].
      intros m Hm ->%list_elem_of_singleton. apply Hret in Hm as [_ [r Hr]]. congruence.
    + intros m. rewrite elem_of_app, list_elem_of_singleton, Hret.
      destruct (decide (m = bucket b)) as [->|].
      * rewrite lookup_insert_eq. naive_solver.
      * rewrite lookup_insert_ne by congruence. naive_solver.
    + rewrite map_size_insert_None, length_app, Hsize by done. cbn. lia.
Qed.

Lemma insert_spec (s : Store F) symbol bs run_id s' returned :
  insert s symbol bs run_id = (s', returned) ->
  inserted_into symbol run_id (bars s) bs (bars s') returned /\ spans s' = spans s /\
  runs s' = runs s /\ caches s' = caches s.
Proof.
  unfold insert. pose proof (insert_fold symbol run_id (bars s) bs) as Hf.
  destruct (fold_left _ _ _) as [t ret]. by intros [= <- <-].
Qed.
End Inserts.

(* ------------------------------------------------------------------ *)
(** ** The hot cache *)

Section Cache.
Context {F : Type} `{PyFloat F} `{SortedSet}.
Context (dumps : json F -> string).
Implicit Types (z : zset) (s : Store F) (b : Bar F).

(** Trimming to the newest [cap] entries. *)
Lemma trim_length {A} cap (l : list A) :
  0 <= cap -> (length (without_ranks 0 (- (cap + 1)) l) = Nat.min (Z.to_nat cap) (length l))%nat.
Proof.
  intros Hc. unfold without_ranks. cbv zeta. replace (rank_from (length l) 0) with O by done.
  unfold rank_upto. rewrite (proj2 (Z.ltb_lt (- (cap + 1)) 0)) by lia.
  destruct (Nat.ltb_spec 0 (Z.to_nat (- (cap + 1) + Z.of_nat (length l) + 1))); [|lia].
  rewrite take_0. cbn [app]. rewrite length_drop. lia.
Qed.

Lemma cache_add_one_bound cap z added score member z' added' :
  0 <= cap -> cache_add_one cap (z, added) (score, member) = (z', added') ->
  zcard z' <= Z.max cap (zcard z) /\ (added' = added /\ z' = z \/ added' = added + 1 /\ zcard z' <= cap).
Proof.
  intros Hc. unfold cache_add_one. destruct (take 1 _); [|intros [= <- <-]; split; [lia|by left]].
  destruct (if cap <=? zcard z then _ else true); intros [= <- <-]; [|split; [lia|by left]].
  unfold zcard. rewrite zremrangebyrank_entries, trim_length by done. split; [lia|]. right. lia.
Qed.

Lemma cache_add_script_bound cap z args z' added :
  0 <= cap -> cache_add_script z cap args = (z', added) ->
  zcard z' <= Z.max cap (zcard z) /\ (0 <= added <= Z.of_nat (length args)) /\
  (zexists z = false -> z' = z).
Proof.
  intros Hc. unfold cache_add_script. destruct (zexists z); [|intros [= <- <-]; split_and!; (done || lia)].
  assert (Hgen : forall n z0, fold_left (cache_add_one cap) args (z0, n) = (z', added) ->
    zcard z' <= Z.max cap (zcard z0) /\ n <= added <= n + Z.of_nat (length args)).
  { induction args as [|[score member] args IH]; intros n z0; [intros [= <- <-]; cbn; lia|].
    intros Hf. cbn [fold_left] in Hf.
    destruct (cache_add_one cap (z0, n) (score, member)) as [z1 n1] eqn:E.
    apply cache_add_one_bound in E as [Hz [[-> ->]|[-> ?]]]; [..|done];
      destruct (IH _ _ Hf); cbn [length]; lia. }
  intros Hf. destruct (Hgen 0 z Hf). split_and!; (done || lia).
Qed.

(** A minute is taken exactly when one of its score is held. *)
Lemma held_score z t :
  t ∈ (zrangebyscore t t z).*1 <-> take 1 (zrangebyscore t t z) <> [].
Proof.
  assert (Hall : forall e, e ∈ zrangebyscore t t z -> e.1 = t)
    by (intros e [_ He]%elem_of_lfilter; lia).
  destruct (zrangebyscore t t z) as [|e l]; cbn; [by rewrite elem_of_nil|].
  split; [done|]. intros _. rewrite (Hall e) by apply list_elem_of_here. apply list_elem_of_here.
Qed.

(** Whether one bar is added depends on its score alone, and is what the
    preview says. *)
Lemma would_take_one s symbol m member :
  zexists (cache_of s symbol) = true ->
  ((cache_add_one HOT_CACHE_BARS (cache_of s symbol, 0) (int_timestamp m, member)).2 = 1 <->
   m ∈ cache_would_take s symbol [m]).
Proof.
  intros Hex. unfold cache_would_take, cache_add_one. rewrite Hex.
  rewrite (bool_decide_eq_false_2 ([m] = [])) by done. cbn [orb negb fold_left].
  rewrite insert_empty, map_to_list_singleton. cbn [fmap list_fmap fst zmin zmax foldr List.filter].
  set (t := int_timestamp m). set (z := cache_of s symbol). pose proof (held_score z t) as Hheld.
  destruct (take 1 (zrangebyscore t t z)).
  - rewrite bool_decide_eq_false_2 by tauto. cbn [negb andb].
    destruct (HOT_CACHE_BARS <=? zcard z); [destruct (zrange _ _ z) as [|[f ?] ?]; [|destruct (f <? t)]|];
      cbn; set_solver by lia.
  - rewrite bool_decide_eq_true_2 by (by apply Hheld). cbn. set_solver by lia.
Qed.

(** The hot cache stays bounded and its preview is exact.  Adding recovered
    bars never takes a cache past its 1,440 entries (nor past its size, if it was
    beyond), never creates a cache, and touches no other pair's; and
    [cache_would_take] names a single minute exactly when [cache_add] adds its bar. *)
Theorem cache_add_bounded s symbol bs run_id s' n :
  cache_add dumps s symbol bs run_id = (s', n) ->
  zcard (cache_of s' symbol) <= Z.max HOT_CACHE_BARS (zcard (cache_of s symbol)) /\
  0 <= n <= Z.of_nat (length bs) /\
  (zexists (cache_of s symbol) = false -> n = 0 /\ cache_of s' symbol = cache_of s symbol) /\
  (forall other, other <> symbol -> cache_of s' other = cache_of s other) /\
  (forall b, bs = [b] -> (n = 1 <-> bucket b ∈ cache_would_take s symbol [bucket b])).
Proof.
  unfold cache_add. destruct bs as [|b0 bs]; [intros [= <- <-]; split_and!; (done || cbn; lia)|].
  destruct (cache_add_script _ _ _) as [z added] eqn:E. intros [= <- <-].
  pose proof (cache_add_script_bound HOT_CACHE_BARS _ _ _ _ ltac:(done) E) as (Hb & Ha & Hno).
  assert (Hz : cache_of (set_caches s (<[symbol:=z]> (caches s))) symbol = z)
    by (unfold cache_of; cbn; by rewrite lookup_insert_eq).
  rewrite Hz. unfold cache_args in Ha. rewrite length_fmap in Ha. split_and!; try done; try lia.
  - intros Hex. split; [|by apply Hno]. unfold cache_add_script in E. rewrite Hex in E. congruence.
  - intros other Hne. unfold cache_of. cbn. by rewrite lookup_insert_ne.
  - intros b [= -> ->]. unfold cache_add_script in E. destruct (zexists _) eqn:Hex.
    + rewrite <- (would_take_one s symbol (bucket b) (cache_member dumps b run_id) Hex).
      cbn [cache_args fmap list_fmap fold_left] in E. by rewrite E.
    + injection E as <- <-. unfold cache_would_take. rewrite Hex, orb_true_r. set_solver by lia.
Qed.
End Cache.

Section CacheDemo.
#[local] Existing Instance plain64.
#[local] Existing Instance sorted_list.

Definition demo_cache_bar (m : Z) : Bar SpecFloat.spec_float := {|
  bar_symbol := "EURUSD"; bucket := minutes m; open := f_of_Z 1; high := f_of_Z 1; low := f_of_Z 1;
  close := f_of_Z 1; tick_count := 0; sum_ret := f_zero; sum_ret_sq := f_zero; source := BACKFILL |}.

(** A cache holding minute 1, to which minute 2 is added. *)
Definition demo_cache : Store SpecFloat.spec_float := {|
  bars := ∅; spans := ∅; runs := ∅; caches := {[ "EURUSD"%string := [(60, "a"%string)] ]};
  refreshed := [] |}.

Lemma cache_add_bounded_witness :
  (cache_add (fun _ => "b"%string) demo_cache "EURUSD" [demo_cache_bar 2] "r").2 = 1.
Proof.
  destruct (cache_add (fun _ => "b"%string) demo_cache "EURUSD" [demo_cache_bar 2] "r")
    as [s' n] eqn:E.
  apply (cache_add_bounded (fun _ => "b"%string)) in E as (_ & _ & _ & _ & Hone). cbn [snd].
  apply (Hone (demo_cache_bar 2)); [done|]. apply (bool_decide_unpack _). by vm_compute.
Defined.
End CacheDemo.
