(* ===== verification/RecoveryRun.v ===== *)
(** * A recovery run ([fx_ingestor/recovery.py], [HistoryRecovery])

    One call of [run_once]: the plan, the requests within the run's budget, the
    writes and the report.  The provider's replies, the shared quota's answers and
    the stop flag are arguments, indexed by the request they belong to; the run
    lock and the schema check are given with the call. *)
From S2P Require Import Prelude PyFloat Models Database Json Redis RecoveryPlan RecoveryStore.

Local Open Scope Z_scope.

(** What [backfill] returns or raises; the seconds of [retry_after_s] are given
    as a duration. *)
Inductive Reply F :=
  | Bars (bs : list (Bar F))
  | AuthError (msg : string)
  | RateLimitError (msg : string) (retry_after : option timedelta)
  | EntitlementError (msg : string)
  | OtherError (msg : string).
Arguments Bars {F} bs.
Arguments AuthError {F} msg.
Arguments RateLimitError {F} msg retry_after.
Arguments EntitlementError {F} msg.
Arguments OtherError {F} msg.

Record RecoveryConfig := {
  lookback : timedelta;
  horizon : timedelta;
  max_requests : Z;
  days_per_request : Z;
  include_settled : bool;
}.

Definition RecoveryConfig_default : RecoveryConfig := {|
  lookback := days 7; horizon := seconds (900 + 120); max_requests := 20;
  days_per_request := 3; include_settled := false |}.

(** The error a reply raises, with its message. *)
Definition reply_error {F} (r : Reply F) : option string :=
  match r with
  | Bars _ => None
  | AuthError m | RateLimitError m _ | EntitlementError m | OtherError m => Some m
  end.

Section Run.
Context {F : Type} `{PyFloat F} `{SortedSet}.
Context (dumps : json F -> string).
Context (symbols : list string) (cfg : RecoveryConfig) (is_open : datetime -> bool).
Context (instance provider_name : string).
(** The world a run meets: the reply to each request, whether the quota grants it
    and whether the run was told to stop before it. *)
Context (reply : nat -> Request -> Reply F) (quota : nat -> bool) (stop : nat -> bool).

(** [HistoryRecovery]'s own state, with the tables and the requests made,
    each with its place in the plan. *)
Record Recovery := {
  store : Store F;
  blocked_until : option datetime;
  symbol_blocked_until : gmap string datetime;
  calls : list (nat * Request * Reply F);
}.
Implicit Types (st : Recovery) (rep : RunReport) (now : datetime).

Definition set_store st s : Recovery := {| store := s; blocked_until := blocked_until st;
  symbol_blocked_until := symbol_blocked_until st; calls := calls st |}.
Definition set_blocked st t : Recovery := {| store := store st; blocked_until := Some t;
  symbol_blocked_until := symbol_blocked_until st; calls := calls st |}.
Definition block_symbol st symbol t : Recovery := {| store := store st;
  blocked_until := blocked_until st;
  symbol_blocked_until := <[symbol := t]> (symbol_blocked_until st); calls := calls st |}.
Definition called st c : Recovery := {| store := store st; blocked_until := blocked_until st;
  symbol_blocked_until := symbol_blocked_until st; calls := calls st ++ [c] |}.

(* ------------------------------------------------------------------ *)
(** ** The report *)

Definition rep_status_set rep (status : string) : RunReport := {|
  rep_status := status; rep_reason := rep_reason rep; rep_run_id := rep_run_id rep;
  rep_window := rep_window rep; rep_minutes_missing := rep_minutes_missing rep;
  rep_requests_planned := rep_requests_planned rep; rep_requests := rep_requests rep;
  rep_bars_received := rep_bars_received rep; rep_bars_inserted := rep_bars_inserted rep;
  rep_bars_present := rep_bars_present rep; rep_minutes_silent := rep_minutes_silent rep;
  rep_cache_added := rep_cache_added rep; rep_rollups_refreshed := rep_rollups_refreshed rep;
  rep_stale_runs_aborted := rep_stale_runs_aborted rep; rep_spans := rep_spans rep |}.

Definition rep_requested rep : RunReport := {|
  rep_status := rep_status rep; rep_reason := rep_reason rep; rep_run_id := rep_run_id rep;
  rep_window := rep_window rep; rep_minutes_missing := rep_minutes_missing rep;
  rep_requests_planned := rep_requests_planned rep; rep_requests := rep_requests rep + 1;
  rep_bars_received := rep_bars_received rep; rep_bars_inserted := rep_bars_inserted rep;
  rep_bars_present := rep_bars_present rep; rep_minutes_silent := rep_minutes_silent rep;
  rep_cache_added := rep_cache_added rep; rep_rollups_refreshed := rep_rollups_refreshed rep;
  rep_stale_runs_aborted := rep_stale_runs_aborted rep; rep_spans := rep_spans rep |}.

(** What one request adds to the report. *)
Definition rep_add rep (received inserted silent cached : Z) (results : list SpanResult)
    : RunReport := {|
  rep_status := rep_status rep; rep_reason := rep_reason rep; rep_run_id := rep_run_id rep;
  rep_window := rep_window rep; rep_minutes_missing := rep_minutes_missing rep;
  rep_requests_planned := rep_requests_planned rep; rep_requests := rep_requests rep;
  rep_bars_received := rep_bars_received rep + received;
  rep_bars_inserted := rep_bars_inserted rep + inserted;
  rep_bars_present := rep_bars_present rep + (received - inserted);
  rep_minutes_silent := rep_minutes_silent rep + silent;
  rep_cache_added := rep_cache_added rep + cached;
  rep_rollups_refreshed := rep_rollups_refreshed rep;
  rep_stale_runs_aborted := rep_stale_runs_aborted rep; rep_spans := rep_spans rep ++ results |}.

Definition rep_refreshed rep (r : string * datetime * datetime) : RunReport := {|
  rep_status := rep_status rep; rep_reason := rep_reason rep; rep_run_id := rep_run_id rep;
  rep_window := rep_window rep; rep_minutes_missing := rep_minutes_missing rep;
  rep_requests_planned := rep_requests_planned rep; rep_requests := rep_requests rep;
  rep_bars_received := rep_bars_received rep; rep_bars_inserted := rep_bars_inserted rep;
  rep_bars_present := rep_bars_present rep; rep_minutes_silent := rep_minutes_silent rep;
  rep_cache_added := rep_cache_added rep;
  rep_rollups_refreshed := rep_rollups_refreshed rep ++ [r];
  rep_stale_runs_aborted := rep_stale_runs_aborted rep; rep_spans := rep_spans rep |}.

(* ------------------------------------------------------------------ *)
(** ** One request *)

Definition wanted (r : Request) : gset Z := list_to_set (C := gset Z) (spans_minutes (rq_spans r)).

(** [received]: the last bar the provider gave for each wanted minute. *)
Definition received_bars (r : Request) (bs : list (Bar F)) : gmap Z (Bar F) :=
  fold_left (fun m b => <[bucket b := b]> m)
    (List.filter (fun b => bool_decide (bar_symbol b = rq_symbol r) &&
      bool_decide (bucket b ∈ wanted r) && (bucket b =? floor_minute (bucket b))) bs) ∅.

(** [[received[m] for m in sorted(received)]] *)
Definition in_minute_order (m : gmap Z (Bar F)) : list (Bar F) :=
  omap (fun k => m !! k) (py_sorted Z.leb id (map_to_list m).*1).

Definition count_in (s : Span) (p : Z -> bool) : Z := Z.of_nat (length (List.filter p (each_minute s))).

Definition span_result (received : gmap Z (Bar F)) (done : gset Z) (s : Span) : SpanResult :=
  let got := count_in s (fun m => bool_decide (is_Some (received !! m))) in
  let new := count_in s (fun m => bool_decide (m ∈ done)) in
  {| res_span := s;
     res_status := if got =? span_minutes s then "recovered" else if got =? 0 then "silent" else "partial";
     res_received := got; res_inserted := new; res_present := got - new;
     res_silent := span_minutes s - got; res_error := None |}.

Definition failed_result (msg : string) (s : Span) : SpanResult := {|
  res_span := s; res_status := "failed"; res_received := 0; res_inserted := 0; res_present := 0;
  res_silent := 0; res_error := Some msg |}.

Definition zsum (l : list Z) : Z := foldr Z.add 0 l.

(** [_fetch]: the state and report after the request, and the minutes inserted
    unless the provider raised. *)
Definition fetch (i : nat) (run_id : string) (now : datetime) st rep (r : Request)
    : Recovery * RunReport * (Reply F + list datetime) :=
  let rep := rep_requested rep in
  let answer := reply i r in
  let st := called st (i, r, answer) in
  match answer with
  | Bars bs =>
      let received := received_bars r bs in
      let '(s, inserted) := insert (store st) (rq_symbol r) (in_minute_order received) run_id in
      let recent := cache_horizon now in
      let '(s, cached) := cache_add dumps s (rq_symbol r)
        (omap (fun m => received !! m) (List.filter (fun m => recent <=? m) inserted)) run_id in
      let done := list_to_set (C := gset Z) inserted in
      let results := span_result received done <$> rq_spans r in
      let s := record_spans s run_id results now in
      (set_store st s,
       rep_add rep (Z.of_nat (size received)) (Z.of_nat (length inserted))
         (zsum (res_silent <$> results)) cached results,
       inr inserted)
  | _ =>
      let failed := failed_result (default ""%string (reply_error answer)) <$> rq_spans r in
      (set_store st (record_spans (store st) run_id failed now), rep_add rep 0 0 0 0 failed, inl answer)
  end.

(* ------------------------------------------------------------------ *)
(** ** The requests of a run *)

Definition STOPPED_MSG : string := "leadership or shutdown ended the run".
Definition POSTPONED_MSG : string :=
  "postponed: the provider allowance left is reserved for the feed".

(** [_request_all]'s result: the minutes inserted, whether anything was left
    undone and the last error. *)
Abbreviation outcome := (list datetime * bool * option string)%type.

(** The loop of [_request_all] from request [i] on. *)
Fixpoint request_loop (i : nat) (run_id : string) (now : datetime) (requests : list Request) st rep
    (changed : list datetime) (incomplete : bool) (error : option string) (refused : gset string)
    : Recovery * RunReport * outcome :=
  match requests with
  | [] => (st, rep, (changed, incomplete, error))
  | r :: requests =>
      if stop i then (st, rep_status_set rep "aborted", (changed, true, Some STOPPED_MSG))
      else if bool_decide (rq_symbol r ∈ refused) then
        request_loop (S i) run_id now requests st rep changed incomplete error refused
      else if negb (quota i) then (st, rep, (changed, true, Some POSTPONED_MSG))
      else
        match fetch i run_id now st rep r with
        | (st, rep, inr inserted) =>
            request_loop (S i) run_id now requests st rep (changed ++ inserted) incomplete error refused
        | (st, rep, inl (AuthError msg)) =>
            (set_blocked st (now + AUTH_BACKOFF), rep_status_set rep "failed",
             (changed, true, Some msg))
        | (st, rep, inl (RateLimitError msg retry_after)) =>
            (set_blocked st (now + Z.max (default 0 retry_after) RATE_LIMIT_BACKOFF), rep,
             (changed, true, Some msg))
        | (st, rep, inl (EntitlementError msg)) =>
            request_loop (S i) run_id now requests
              (block_symbol st (rq_symbol r) (now + AUTH_BACKOFF)) rep changed true (Some msg)
              ({[ rq_symbol r ]} ∪ refused)
        | (st, rep, inl answer) =>
            request_loop (S i) run_id now requests st rep changed true (reply_error answer) refused
        end
  end.

Definition request_all (requests : list Request) (run_id : string) (now : datetime) st rep
    : Recovery * RunReport * outcome :=
  let incomplete := max_requests cfg <? Z.of_nat (length requests) in
  request_loop 0 run_id now (slice_to requests (max_requests cfg)) st rep [] incomplete None ∅.

(* ------------------------------------------------------------------ *)
(** ** Detection and repair *)

(** [_missing]: the missing minutes as spans, and the part not asked for lately. *)
Definition missing (s : Store F) (w : Window) (ready : bool) (now : datetime)
    : list Span * list Span :=
  let expected := open_minutes w is_open in
  let look := ready && negb (include_settled cfg) in
  let settled_of x := if look then settled s x w else [] in
  let asked_of x := if look then asked_since s x w (now - SETTLE) else [] in
  (missing_of symbols expected (fun x => present s x w) settled_of,
   missing_of symbols expected (fun x => present s x w) (fun x => settled_of x ++ asked_of x)).

(** [_cache_repairs]: recovered rows the hot cache lacks. *)
Definition cache_repairs (s : Store F) (now : datetime) : list (Bar F * string) :=
  let since := cache_horizon now in
  concat ((fun x =>
    let recovered := recovered_since s x since in
    let wanted := cache_would_take s x ((fun br => bucket br.1) <$> recovered) in
    List.filter (fun br => bool_decide (bucket br.1 ∈ wanted)) recovered) <$> symbols).

Definition repair_one (sa : Store F * Z) (br : Bar F * string) : Store F * Z :=
  let '(s, added) := sa in
  let '(s, n) := cache_add dumps s (bar_symbol br.1) [br.1] br.2 in (s, added + n).

Definition repair_cache (s : Store F) (now : datetime) : Store F * Z :=
  fold_left repair_one (cache_repairs s now) (s, 0).

(** [stale_rollups], over TimescaleDB's answer for each view: the first and last
    bucket that no longer match, when there are any. *)
Context (stale_row : Store F -> string -> datetime * datetime -> option (datetime * datetime)).

Definition stale_rollups (s : Store F) (w : Window) (now : datetime)
    : list (string * datetime * datetime) :=
  omap (fun v : string * timedelta * timedelta =>
    let '(view, width, offset) := v in
    bounds ← refresh_range (w_start w) (w_end w) width offset now;
    row ← stale_row s view bounds;
    found ← refresh_range row.1 row.2 width offset now;
    Some (view, found.1, found.2)) ROLLUPS.

Definition rollup_targets (changed : list datetime) (stale : list (string * datetime * datetime))
    (now : datetime) : list (string * datetime * datetime) :=
  stale ++
  match changed with
  | [] => []
  | _ =>
      omap (fun v : string * timedelta * timedelta =>
        let '(view, width, offset) := v in
        bounds ← refresh_range (zmin changed) (zmax changed) width offset now;
        Some (view, bounds.1, bounds.2)) ROLLUPS
  end.

(** One view's refresh; the views are a Python set, whose order is not defined:
    here it is that of their first target. *)
Definition refresh_view (targets : list (string * datetime * datetime))
    (sr : Store F * RunReport) (view : string) : Store F * RunReport :=
  let '(s, rep) := sr in
  let mine := List.filter (fun t => bool_decide (t.1.1 = view)) targets in
  let a := zmin ((fun t => t.1.2) <$> mine) in
  let b := zmax ((fun t => t.2) <$> mine) in
  (refresh_rollup s view a b, rep_refreshed rep (view, a, b)).

Definition refresh_rollups (s : Store F) rep (changed : list datetime)
    (stale : list (string * datetime * datetime)) (now : datetime) : Store F * RunReport :=
  let targets := rollup_targets changed stale now in
  fold_left (refresh_view targets) (remove_dups ((fun t => t.1.1) <$> targets)) (s, rep).

(* ------------------------------------------------------------------ *)
(** ** A run *)

(** The requests of a run: those of the plan whose pair is not blocked. *)
Definition unblocked (st : Recovery) (now : datetime) (r : Request) : bool :=
  match symbol_blocked_until st !! rq_symbol r with Some t => t <=? now | None => true end.

Definition with_status (status : string) (w : Window) (spans_missing : list Span)
    (planned aborted : Z) : RunReport := {|
  rep_status := status; rep_reason := ""; rep_run_id := None; rep_window := Some w;
  rep_minutes_missing := zsum (span_minutes <$> spans_missing); rep_requests_planned := planned;
  rep_requests := 0; rep_bars_received := 0; rep_bars_inserted := 0; rep_bars_present := 0;
  rep_minutes_silent := 0; rep_cache_added := 0; rep_rollups_refreshed := [];
  rep_stale_runs_aborted := aborted; rep_spans := [] |}.

Definition rep_reason_set rep (reason : string) : RunReport := {|
  rep_status := rep_status rep; rep_reason := reason; rep_run_id := rep_run_id rep;
  rep_window := rep_window rep; rep_minutes_missing := rep_minutes_missing rep;
  rep_requests_planned := rep_requests_planned rep; rep_requests := rep_requests rep;
  rep_bars_received := rep_bars_received rep; rep_bars_inserted := rep_bars_inserted rep;
  rep_bars_present := rep_bars_present rep; rep_minutes_silent := rep_minutes_silent rep;
  rep_cache_added := rep_cache_added rep; rep_rollups_refreshed := rep_rollups_refreshed rep;
  rep_stale_runs_aborted := rep_stale_runs_aborted rep; rep_spans := rep_spans rep |}.

Definition rep_started rep (run_id : string) : RunReport := {|
  rep_status := "running"; rep_reason := rep_reason rep; rep_run_id := Some run_id;
  rep_window := rep_window rep; rep_minutes_missing := rep_minutes_missing rep;
  rep_requests_planned := rep_requests_planned rep; rep_requests := rep_requests rep;
  rep_bars_received := rep_bars_received rep; rep_bars_inserted := rep_bars_inserted rep;
  rep_bars_present := rep_bars_present rep; rep_minutes_silent := rep_minutes_silent rep;
  rep_cache_added := rep_cache_added rep; rep_rollups_refreshed := rep_rollups_refreshed rep;
  rep_stale_runs_aborted := rep_stale_runs_aborted rep; rep_spans := rep_spans rep |}.

(** What a dry run reports instead of doing it. *)
Definition rep_dry rep (spans_missing : list Span) (stale : list (string * datetime * datetime))
    (repairs : Z) : RunReport := {|
  rep_status := rep_status rep; rep_reason := rep_reason rep; rep_run_id := rep_run_id rep;
  rep_window := rep_window rep; rep_minutes_missing := rep_minutes_missing rep;
  rep_requests_planned := rep_requests_planned rep; rep_requests := rep_requests rep;
  rep_bars_received := rep_bars_received rep; rep_bars_inserted := rep_bars_inserted rep;
  rep_bars_present := rep_bars_present rep; rep_minutes_silent := rep_minutes_silent rep;
  rep_cache_added := repairs; rep_rollups_refreshed := stale;
  rep_stale_runs_aborted := rep_stale_runs_aborted rep;
  rep_spans := (fun s => {| res_span := s; res_status := "planned"; res_received := 0;
    res_inserted := 0; res_present := 0; res_silent := 0; res_error := None |}) <$> spans_missing |}.

Definition is_nil {A} (l : list A) : bool := match l with [] => true | _ => false end.

(** The end of an applied run, once its requests are made: rollups, the cache,
    the status and the run's record. *)
Definition finish (st : Recovery) rep (changed : list datetime) (incomplete : bool)
    (error : option string) (stale : list (string * datetime * datetime)) (now : datetime)
    : Recovery * RunReport :=
  let '(s, rep) := refresh_rollups (store st) rep changed stale now in
  let '(s, repaired) := repair_cache s now in
  let rep := rep_add rep 0 0 0 repaired [] in
  let rep :=
    if bool_decide (rep_status rep = "running"%string)
    then rep_status_set rep (if incomplete then "partial" else "succeeded") else rep in
  (set_store st (finish_run s rep error), rep).

Definition locked (st : Recovery) (trigger run_id : string) (apply ready : bool) (w : Window)
    (now : datetime) : Recovery * RunReport :=
  let '(s, aborted) := if apply then abort_stale_runs (store st) else (store st, 0) in
  let st := set_store st s in
  let '(spans_missing, askable) := missing s w ready now in
  let requests := List.filter (unblocked st now) (plan_requests askable (days_per_request cfg)) in
  let stale := stale_rollups s w now in
  let repairs := if ready then cache_repairs s now else [] in
  let rep := with_status (if apply then "idle" else "dry_run") w spans_missing
    (Z.of_nat (length requests)) aborted in
  if negb apply then (st, rep_dry rep spans_missing stale (Z.of_nat (length repairs)))
  else if is_nil spans_missing && is_nil stale && is_nil repairs then
    (st, rep_reason_set rep "nothing missing")
  else if is_nil askable && is_nil stale && is_nil repairs then
    (st, rep_reason_set rep "every missing minute was asked for within the hour")
  else
    let rep := rep_started rep run_id in
    let st := set_store st
      (begin_run s run_id trigger instance provider_name w (rep_minutes_missing rep)) in
    let '(st, rep, (changed, incomplete, error)) := request_all requests run_id now st rep in
    finish st rep changed incomplete error stale now.

(** [run_once]: [lock_free] is whether the advisory lock was granted, [ready]
    whether the schema is. *)
Definition run_once (st : Recovery) (trigger run_id : string) (apply : bool)
    (window : option Window) (now : datetime) (ready lock_free : bool) : Recovery * RunReport :=
  if match blocked_until st with Some t => now <? t | None => false end
  then (st, RunReport_new "skipped" "provider back-off" None)
  else
    match match window with Some w => Some w | None => recovery_window now (lookback cfg) (horizon cfg) end with
    | None => (st, RunReport_new "skipped" "empty window" None)
    | Some w =>
        if apply && negb ready
        then (st, RunReport_new "skipped" "migration 004 is not applied" (Some w))
        else if negb lock_free
        then (st, RunReport_new "skipped" "another recovery run holds the lock" (Some w))
        else locked st trigger run_id apply ready w now
    end.
End Run.
Arguments Recovery F {_}.

(* ------------------------------------------------------------------ *)
(** ** What a run adds *)

Section Adds.
Context {F : Type} `{PyFloat F} `{SortedSet}.
Context (dumps : json F -> string).
Context (reply : nat -> Request -> Reply F) (quota : nat -> bool) (stop : nat -> bool).
Implicit Types (st : Recovery F) (s : Store F) (rep : RunReport) (b : Bar F) (r : Request).
Implicit Types (t : gmap (string * Z) (Row F)).

Lemma received_bars_spec r (bs : list (Bar F)) m b :
  received_bars r bs !! m = Some b ->
  b ∈ bs /\ bar_symbol b = rq_symbol r /\ bucket b = m /\ m ∈ wanted r /\ m = floor_minute m.
Proof.
  unfold received_bars. set (ok := fun b : Bar F => _).
  assert (Hgen : forall l (acc : gmap Z (Bar F)),
    fold_left (fun m b => <[bucket b := b]> m) l acc !! m = Some b ->
    acc !! m = Some b \/ b ∈ l /\ bucket b = m).
  { induction l as [|b' l IH]; intros acc Hacc; [by left|]. cbn in Hacc.
    destruct (IH _ Hacc) as [Hi|[? ?]]; [|right; set_solver].
    apply lookup_insert_Some in Hi as [[? ?]|[_ ?]]; [right; set_solver|by left]. }
  intros [Hno|[Hb Hm]]%Hgen; [by rewrite lookup_empty in Hno|].
  apply elem_of_lfilter in Hb as [Hb Hok]. unfold ok in Hok. rewrite Hm in Hok. boolify.
  split_and!; done.
Qed.

Lemma elem_of_in_minute_order (m : gmap Z (Bar F)) b :
  b ∈ in_minute_order m -> exists k, m !! k = Some b.
Proof. unfold in_minute_order. intros (k & _ & Hk)%list_elem_of_omap. eauto. Qed.

Lemma cache_add_tables s symbol bs run_id s' n :
  cache_add dumps s symbol bs run_id = (s', n) ->
  bars s' = bars s /\ spans s' = spans s /\ runs s' = runs s.
Proof.
  unfold cache_add. destruct bs; [by intros [= <- <-]|].
  destruct (cache_add_script _ _ _). by intros [= <- <-].
Qed.

(** Where a new row came from: a bar the provider gave in one of [cs], for a
    minute that call asked for. *)
Definition from_provider (run_id : string) (cs : list (nat * Request * Reply F))
    (k : string * Z) (row : Row F) : Prop :=
  exists i r bs b, (i, r, Bars bs) ∈ cs /\ b ∈ bs /\ bar_symbol b = rq_symbol r /\
    k = (rq_symbol r, bucket b) /\ bucket b ∈ wanted r /\ row = backfill_row b run_id.

(** [t'] keeps every row of [t], and its other rows are the provider's. *)
Definition grows (run_id : string) (cs : list (nat * Request * Reply F)) t t' : Prop :=
  t ⊆ t' /\ forall k row, t !! k = None -> t' !! k = Some row -> from_provider run_id cs k row.

Lemma grows_refl run_id cs t : grows run_id cs t t.
Proof. split; [done|]. intros; congruence. Qed.

Lemma from_provider_weaken run_id cs cs' k row :
  (forall c, c ∈ cs -> c ∈ cs') -> from_provider run_id cs k row -> from_provider run_id cs' k row.
Proof. intros Hsub (i & r & bs & b & ? & ?). exists i, r, bs, b. split; auto. Qed.

Lemma grows_trans run_id cs cs' t t' t'' :
  grows run_id cs t t' -> grows run_id cs' t' t'' -> grows run_id (cs ++ cs') t t''.
Proof.
  intros [Hs Hn] [Hs' Hn']. split; [by etrans|]. intros k row Hk Hr.
  destruct (t' !! k) as [row'|] eqn:E.
  - assert (Some row' = Some row) as [= ->] by (rewrite <- Hr; symmetry; by eapply lookup_weaken).
    eapply from_provider_weaken; [|by eapply Hn]. set_solver.
  - eapply from_provider_weaken; [|by eapply Hn']. set_solver.
Qed.

Lemma fetch_spec i run_id now st rep r st' rep' out :
  fetch dumps reply i run_id now st rep r = (st', rep', out) ->
  calls st' = calls st ++ [(i, r, reply i r)] /\
  grows run_id [(i, r, reply i r)] (bars (store st)) (bars (store st')) /\
  blocked_until st' = blocked_until st /\ symbol_blocked_until st' = symbol_blocked_until st /\
  rep_requests rep' = rep_requests rep + 1 /\ rep_run_id rep' = rep_run_id rep /\
  match out with inl a => a = reply i r /\ is_Some (reply_error a) | inr _ => exists bs, reply i r = Bars bs end.
Proof.
  unfold fetch. destruct (reply i r) as [bs|msg|msg ra|msg|msg] eqn:Hrep;
    try (intros [= <- <- <-]; split_and!; try done; apply grows_refl).
  destruct (insert _ _ _ _) as [s1 inserted] eqn:Hins.
  destruct (cache_add _ _ _ _ _) as [s2 cached] eqn:Hcache. intros [= <- <- <-].
  apply insert_spec in Hins as ((Hsub & Hnew & _) & _).
  apply cache_add_tables in Hcache as (Hb & _). cbn. split_and!; try done; [|by eexists].
  unfold grows, from_provider. rewrite Hb. split; [done|]. intros k row Hk Hrow.
  destruct (Hnew k row Hk Hrow) as (b & (m & Hm)%elem_of_in_minute_order & -> & ->).
  apply received_bars_spec in Hm as (? & ? & <- & ? & _).
  exists i, r, bs, b. split_and!; try done. apply list_elem_of_here.
Qed.

(** The calls a run may make after [refused] pairs: none for a refused pair,
    none after a refused credential or a rate limit. *)
Fixpoint calls_ok (refused : gset string) (cs : list (nat * Request * Reply F)) : Prop :=
  match cs with
  | [] => True
  | (_, r, a) :: cs =>
      rq_symbol r ∉ refused /\
      match a with
      | AuthError _ | RateLimitError _ _ => cs = []
      | EntitlementError _ => calls_ok ({[ rq_symbol r ]} ∪ refused) cs
      | _ => calls_ok refused cs
      end
  end.

(** Each call is the request at its place, allowed by the quota and not stopped. *)
Definition call_allowed (i : nat) (requests : list Request) (c : nat * Request * Reply F) : Prop :=
  let '(j, r, a) := c in
  (i <= j)%nat /\ requests !! (j - i)%nat = Some r /\ a = reply j r /\ quota j = true /\ stop j = false.

(** How the last call leaves the back-off. *)
Definition back_off (now : datetime) (before : option datetime) (cs : list (nat * Request * Reply F))
    : option datetime :=
  match last cs with
  | Some (_, _, AuthError _) => Some (now + AUTH_BACKOFF)
  | Some (_, _, RateLimitError _ ra) => Some (now + Z.max (default 0 ra) RATE_LIMIT_BACKOFF)
  | _ => before
  end.

Lemma call_allowed_later i requests r0 c :
  call_allowed (S i) requests c -> call_allowed i (r0 :: requests) c.
Proof.
  destruct c as [[j r] a]. intros (Hj & Hl & ? & ? & ?). split_and!; [lia| |done..].
  by replace (j - i)%nat with (S (j - S i)) by lia.
Qed.

Definition loop_spec i run_id now requests st rep refused st' rep' : Prop :=
  exists cs, calls st' = calls st ++ cs /\
  grows run_id cs (bars (store st)) (bars (store st')) /\
  calls_ok refused cs /\ Forall (call_allowed i requests) cs /\
  (length cs <= length requests)%nat /\
  StronglySorted (fun c c' => (c.1.1 < c'.1.1)%nat) cs /\
  blocked_until st' = back_off now (blocked_until st) cs /\
  rep_requests rep' = rep_requests rep + Z.of_nat (length cs) /\
  rep_run_id rep' = rep_run_id rep.

Lemma back_off_cons now before c cs :
  cs <> [] \/ (forall x, back_off now x [c] = x) -> back_off now before (c :: cs) = back_off now before cs.
Proof.
  intros Hcs. unfold back_off. destruct cs as [|c' cs]; [|done].
  destruct Hcs as [|Hb]; [done|]. apply (Hb before).
Qed.

Lemma call_allowed_here i r requests :
  quota i = true -> stop i = false -> call_allowed i (r :: requests) (i, r, reply i r).
Proof. intros. unfold call_allowed. by rewrite Nat.sub_diag. Qed.

(** One more call in front of a loop's. *)
Lemma loop_spec_call i run_id now requests st rep refused refused' r st1 rep1 st' rep' out :
  fetch dumps reply i run_id now st rep r = (st1, rep1, out) ->
  rq_symbol r ∉ refused -> quota i = true -> stop i = false ->
  match reply i r with
  | AuthError _ | RateLimitError _ _ => False
  | EntitlementError _ => refused' = {[ rq_symbol r ]} ∪ refused
  | _ => refused' = refused
  end ->
  forall st2, store st2 = store st1 -> calls st2 = calls st1 -> blocked_until st2 = blocked_until st1 ->
  loop_spec (S i) run_id now requests st2 rep1 refused' st' rep' ->
  loop_spec i run_id now (r :: requests) st rep refused st' rep'.
Proof.
  intros Hf Href Hq Hst Ha st2 Hs2 Hc2 Hb2 (cs & Hcs & Hg & Hok & Hall & Hlen & Hsort & Hblk & Hreq & Hrun).
  apply fetch_spec in Hf as (Hc & Hg1 & Hb & _ & Hr & Hid & _).
  exists ((i, r, reply i r) :: cs). split_and!.
  - by rewrite Hcs, Hc2, Hc, <- app_assoc.
  - rewrite Hs2 in Hg. by apply (grows_trans _ [_] cs _ _ _ Hg1).
  - split; [done|]. destruct (reply i r); try done; by subst refused'.
  - constructor; [by apply call_allowed_here|].
    eapply Forall_impl; [exact Hall|]. intros c. apply call_allowed_later.
  - cbn. lia.
  - constructor; [done|]. eapply Forall_impl; [exact Hall|].
    intros [[j r'] a] (? & _). cbn. lia.
  - rewrite Hblk, Hb2, Hb. symmetry. apply back_off_cons. right. intros x. cbn.
    by destruct (reply i r).
  - rewrite Hreq, Hr. cbn [length]. lia.
  - by rewrite Hrun.
Qed.

(** A call that ends the run. *)
Lemma loop_spec_last i run_id now requests st rep refused r st1 rep1 out st' rep' :
  fetch dumps reply i run_id now st rep r = (st1, rep1, out) ->
  rq_symbol r ∉ refused -> quota i = true -> stop i = false ->
  match reply i r with AuthError _ | RateLimitError _ _ => True | _ => False end ->
  store st' = store st1 -> calls st' = calls st1 ->
  blocked_until st' = back_off now (blocked_until st1) [(i, r, reply i r)] ->
  rep_requests rep' = rep_requests rep1 -> rep_run_id rep' = rep_run_id rep1 ->
  loop_spec i run_id now (r :: requests) st rep refused st' rep'.
Proof.
  intros Hf Href Hq Hst Ha Hs' Hc' Hb' Hr' Hid'.
  apply fetch_spec in Hf as (Hc & Hg & Hb & _ & Hr & Hid & _).
  exists [(i, r, reply i r)]. split_and!.
  - by rewrite Hc', Hc.
  - by rewrite Hs'.
  - split; [done|]. by destruct (reply i r).
  - apply Forall_singleton. by apply call_allowed_here.
  - cbn. lia.
  - repeat constructor.
  - by rewrite Hb', Hb.
  - rewrite Hr', Hr. cbn. lia.
  - congruence.
Qed.

Lemma loop_spec_none i run_id now requests st rep rep' refused :
  rep_requests rep' = rep_requests rep -> rep_run_id rep' = rep_run_id rep ->
  loop_spec i run_id now requests st rep refused st rep'.
Proof.
  intros. exists []. split_and!; try done;
    first [by rewrite app_nil_r|apply grows_refl|by constructor|cbn; lia].
Qed.

Lemma request_loop_spec run_id now requests : forall i st rep changed incomplete error refused,
  let '(st', rep', _) := request_loop dumps reply quota stop i run_id now requests st rep
    changed incomplete error refused in
  loop_spec i run_id now requests st rep refused st' rep'.
Proof.
  induction requests as [|r requests IH]; intros; cbn [request_loop]; [by apply loop_spec_none|].
  destruct (stop i) eqn:Hstop; [by apply loop_spec_none|].
  destruct (bool_decide (rq_symbol r ∈ refused)) eqn:Href.
  { specialize (IH (S i) st rep changed incomplete error refused).
    destruct (request_loop _ _ _ _ _ _ _ _ _ _ _ _ _ _) as [[st' rep'] ?].
    destruct IH as (cs & ? & ? & ? & Hall & ? & ? & ? & ? & ?). exists cs. split_and!; try done;
      first [cbn; lia|eapply Forall_impl; [exact Hall|]; intros c; apply call_allowed_later]. }
  apply bool_decide_eq_false in Href.
  destruct (quota i) eqn:Hq; [|by apply loop_spec_none]. cbn [negb].
  destruct (fetch _ _ _ _ _ _ _ _) as [[st1 rep1] out] eqn:Hf.
  pose proof (fetch_spec _ _ _ _ _ _ _ _ _ Hf) as (_ & _ & _ & _ & _ & _ & Hout).
  destruct out as [a|inserted].
  - destruct Hout as [-> Herr]. destruct (reply i r) eqn:Hrep.
    + by destruct Herr.
    + eapply loop_spec_last; try done; by rewrite ?Hrep.
    + eapply loop_spec_last; try done; by rewrite ?Hrep.
    + match goal with |- context [request_loop _ _ _ _ _ _ _ _ ?st2 _ _ _ _ ?ref] =>
        specialize (IH (S i) st2 rep1 changed true (Some msg) ref) end.
      destruct (request_loop _ _ _ _ _ _ _ _ _ _ _ _ _ _) as [[st' rep'] ?].
      by eapply loop_spec_call; [done..|by rewrite Hrep| | | |exact IH].
    + specialize (IH (S i) st1 rep1 changed true (Some msg) refused). cbn [reply_error].
      destruct (request_loop _ _ _ _ _ _ _ _ _ _ _ _ _ _) as [[st' rep'] ?].
      by eapply loop_spec_call; [done..|by rewrite Hrep| | | |exact IH].
  - destruct Hout as [bs Hrep].
    specialize (IH (S i) st1 rep1 (changed ++ inserted) incomplete error refused).
    destruct (request_loop _ _ _ _ _ _ _ _ _ _ _ _ _ _) as [[st' rep'] ?].
    by eapply loop_spec_call; [done..|by rewrite Hrep| | | |exact IH].
Qed.
End Adds.

(* ------------------------------------------------------------------ *)
(** ** The whole run *)

Section Whole.
Context {F : Type} `{PyFloat F} `{SortedSet}.
Context (dumps : json F -> string).
Context (symbols : list string) (cfg : RecoveryConfig) (is_open : datetime -> bool).
Context (instance provider_name : string).
Context (reply : nat -> Request -> Reply F) (quota : nat -> bool) (stop : nat -> bool).
Context (stale_row : Store F -> string -> datetime * datetime -> option (datetime * datetime)).
Implicit Types (st : Recovery F) (s : Store F) (rep : RunReport).

Lemma refresh_rollups_bars s rep changed stale now s' rep' :
  refresh_rollups s rep changed stale now = (s', rep') ->
  bars s' = bars s /\ rep_requests rep' = rep_requests rep.
Proof.
  unfold refresh_rollups. set (targets := rollup_targets _ _ _).
  generalize (remove_dups ((fun t => t.1.1) <$> targets)) as views.
  intros views. revert s rep. induction views as [|v views IH]; intros s rep; cbn; [by intros [= <- <-]|].
  intros Hf. by apply IH in Hf.
Qed.

Lemma repair_cache_bars s now s' n : repair_cache dumps symbols s now = (s', n) -> bars s' = bars s.
Proof.
  unfold repair_cache. generalize (cache_repairs symbols s now) as l. intros l.
  assert (Hgen : forall sa, fold_left (repair_one dumps) l sa = (s', n) -> bars s' = bars sa.1).
  { induction l as [|br l IH]; intros [s0 a]; cbn; [by intros [= <- <-]|].
    intros Hf. apply IH in Hf. rewrite Hf. unfold repair_one.
    by destruct (cache_add_script _ _ _). }
  apply (Hgen (s, 0)).
Qed.

Lemma finish_spec st rep changed incomplete error stale now st' rep' :
  finish dumps symbols st rep changed incomplete error stale now = (st', rep') ->
  bars (store st') = bars (store st) /\ calls st' = calls st /\
  blocked_until st' = blocked_until st /\ rep_requests rep' = rep_requests rep.
Proof.
  unfold finish. destruct (refresh_rollups _ _ _ _ _) as [s1 rep1] eqn:E1.
  destruct (repair_cache _ _ _ _) as [s2 n] eqn:E2. intros [= <- <-].
  apply refresh_rollups_bars in E1 as [Hb Hr]. apply repair_cache_bars in E2. cbn.
  split_and!; [|done..|].
  - unfold finish_run. case_match; cbn; congruence.
  - by case_bool_decide.
Qed.

(** What one run does: nothing, or the calls of a loop over part of the plan. *)
Definition run_spec st (run_id : string) (apply : bool) (w : Window) (now : datetime) st' rep' : Prop :=
  exists cs settled, calls st' = calls st ++ cs /\
  grows run_id cs (bars (store st)) (bars (store st')) /\ calls_ok ∅ cs /\
  (0 <= max_requests cfg -> Z.of_nat (length cs) <= max_requests cfg) /\
  Forall (fun c => quota c.1.1 = true /\ stop c.1.1 = false /\ unblocked st now c.1.2 = true /\
    c.2 = reply c.1.1 c.1.2 /\
    c.1.2 ∈ plan_requests (missing_of symbols (open_minutes w is_open)
      (fun x => present (store st) x w) settled) (days_per_request cfg)) cs /\
  blocked_until st' = back_off now (blocked_until st) cs /\
  rep_requests rep' = Z.of_nat (length cs) /\
  (apply = false -> cs = [] /\ store st' = store st).

Lemma run_spec_none st run_id apply w now st' rep' :
  calls st' = calls st -> bars (store st') = bars (store st) ->
  blocked_until st' = blocked_until st -> rep_requests rep' = 0 ->
  (apply = false -> store st' = store st) -> run_spec st run_id apply w now st' rep'.
Proof.
  intros Hc Hb Hbl Hr Ha. exists [], (fun _ => []). rewrite Hb. split_and!; try done;
    first [by rewrite app_nil_r|apply grows_refl|by constructor|cbn; lia|auto].
Qed.

Lemma locked_spec st trigger run_id apply ready w now st' rep' :
  locked dumps symbols cfg is_open instance provider_name reply quota stop stale_row
    st trigger run_id apply ready w now = (st', rep') ->
  run_spec st run_id apply w now st' rep'.
Proof.
  unfold locked.
  destruct (if apply then _ else _) as [s aborted] eqn:Es.
  assert (Hs : bars s = bars (store st) /\ spans s = spans (store st) /\ (apply = false -> s = store st)).
  { destruct apply; [|by injection Es as <- <-]. unfold abort_stale_runs in Es. by injection Es as <- <-. }
  destruct Hs as (Hbars & Hspans & Hdry). clear Es.
  unfold missing. set (asked := fun x => _ ++ _). set (requests := List.filter _ _).
  destruct apply; cbn [negb]; [|intros [= <- <-]; by apply run_spec_none; auto].
  destruct (is_nil _ && _ && _); [intros [= <- <-]; by apply run_spec_none|].
  destruct (is_nil _ && _ && _); [intros [= <- <-]; by apply run_spec_none|].
  unfold request_all. match goal with |- context [request_loop ?d ?a ?b ?c ?i ?x ?n ?l ?st0 ?rep0 ?ch ?inc ?err ?ref] =>
    pose proof (request_loop_spec d a b c x n l i st0 rep0 ch inc err ref) as Hloop;
    destruct (request_loop d a b c i x n l st0 rep0 ch inc err ref) as [[st1 rep1] [[changed inc1] err1]] end.
  intros Hf. apply finish_spec in Hf as (Hb & Hc & Hbl & Hr).
  destruct Hloop as (cs & Hcs & Hg & Hok & Hall & Hlen & _ & Hblk & Hreq & _).
  exists cs, asked. rewrite Hb, Hc, Hbl, Hr. split_and!; try done.
  - cbn in Hg. by rewrite Hbars in Hg.
  - intros Hmax. rewrite slice_to_nonneg, length_take in Hlen by done. lia.
  - eapply Forall_impl; [exact Hall|]. intros [[j r] a] (_ & Hl & -> & Hq & Hst). cbn.
    apply lookup_take_Some in Hl as [Hl _]. apply list_elem_of_lookup_2 in Hl.
    apply elem_of_lfilter in Hl as [Hl Hu]. split_and!; try done.
    unfold present in *. by rewrite Hbars in Hl.
Qed.

(** The window a run looks at. *)
Definition run_window_of (window : option Window) (now : datetime) : option Window :=
  match window with Some w => Some w | None => recovery_window now (lookback cfg) (horizon cfg) end.

Notation run_once := (run_once dumps symbols cfg is_open instance provider_name reply quota stop stale_row).

Lemma run_once_spec st trigger run_id apply window now ready lock_free st' rep :
  run_once st trigger run_id apply window now ready lock_free = (st', rep) ->
  (st' = st /\ rep_status rep = "skipped"%string /\ rep_requests rep = 0) \/
  (exists w, run_window_of window now = Some w /\ lock_free = true /\
     (forall t, blocked_until st = Some t -> t <= now) /\ run_spec st run_id apply w now st' rep).
Proof.
  unfold run_once. destruct (match blocked_until st with Some _ => _ | None => _ end) eqn:Hblk;
    [intros [= <- <-]; by left|].
  fold (run_window_of window now). destruct (run_window_of window now) as [w|]; [|intros [= <- <-]; by left].
  destruct (apply && negb ready); [intros [= <- <-]; by left|].
  destruct lock_free; cbn [negb]; [|intros [= <- <-]; by left].
  intros Hl. right. exists w. split_and!; try done; [|by eapply locked_spec].
  intros t Ht. rewrite Ht in Hblk. by apply Z.ltb_ge in Hblk.
Qed.

Lemma floor_minute_grid t : floor_minute t mod MINUTE = 0.
Proof. unfold floor_minute, MINUTE. zdivmod. Qed.

(** A row that was not there is a bar the provider returned in this run for an
    open minute of the window, and the run was to apply it. *)
Lemma run_once_adds st trigger run_id apply window now ready lock_free st' rep :
  1 <= days_per_request cfg -> NoDup symbols ->
  (forall w, window = Some w -> w_start w mod MINUTE = 0) ->
  run_once st trigger run_id apply window now ready lock_free = (st', rep) ->
  bars (store st) ⊆ bars (store st') /\
  (apply = false -> store st' = store st /\ calls st' = calls st) /\
  forall symbol m row, bars (store st) !! (symbol, m) = None -> bars (store st') !! (symbol, m) = Some row ->
    symbol ∈ symbols /\ is_open m = true /\
    (exists w, run_window_of window now = Some w /\ w_start w <= m <= w_end w) /\
    exists i r bs b, (i, r, Bars bs) ∈ drop (length (calls st)) (calls st') /\ b ∈ bs /\
      bar_symbol b = symbol /\ bucket b = m /\ row = backfill_row b run_id.
Proof.
  intros Hn Hnd Hgrid Hrun. apply run_once_spec in Hrun as [(-> & _ & _)|(w & Hw & _ & _ & Hspec)].
  { split_and!; [done|done|intros; congruence]. }
  assert (Hg : w_start w mod MINUTE = 0).
  { unfold run_window_of in Hw. destruct window as [w0|]; [by apply Hgrid|].
    unfold recovery_window in Hw. destruct (_ <=? _); [|done]. injection Hw as <-.
    apply floor_minute_grid. }
  destruct Hspec as (cs & sett & Hcs & [Hsub Hnew] & _ & _ & Hall & _ & _ & Hdry). split_and!; [done| |].
  - intros Ha. destruct (Hdry Ha) as [-> ?]. split; [done|]. by rewrite Hcs, app_nil_r.
  - intros symbol m row Hk Hrow.
    destruct (Hnew _ _ Hk Hrow) as (i & r & bs & b & Hin & Hb & Hsym & [= -> ->] & Hwant & ->).
    pose proof (proj1 (Forall_forall _ _) Hall _ Hin) as (_ & _ & _ & _ & Hplan). cbn in Hplan.
    apply elem_of_list_to_set in Hwant.
    destruct (plan_request_minutes _ _ _ _ _ _ _ _ Hn Hg Hnd Hplan Hwant) as (? & Hm & _).
    apply open_minutes_spec in Hm as (? & ? & _). split; [done|]. split; [done|].
    split; [by exists w|].
    exists i, r, bs, b. split_and!; try done. by rewrite Hcs, drop_app_length.
Qed.

(** C12. Recovery only adds.  Whatever the tables hold and whatever the provider
    replies, a run leaves every stored row exactly as it was, and each row it adds
    is, unchanged, a bar the provider returned in this run for a configured pair
    and an open minute of the window that had no row, marked as recovered by this
    run with no ticks and no returns; without [apply] it writes nothing at all. *)
Theorem recovery_only_adds st trigger run_id apply window now ready lock_free st' rep :
  1 <= days_per_request cfg -> NoDup symbols ->
  (forall w, window = Some w -> w_start w mod MINUTE = 0) ->
  run_once st trigger run_id apply window now ready lock_free = (st', rep) ->
  bars (store st) ⊆ bars (store st') /\
  (forall symbol m row, bars (store st) !! (symbol, m) = None ->
     bars (store st') !! (symbol, m) = Some row ->
     symbol ∈ symbols /\ is_open m = true /\
     (exists w, run_window_of window now = Some w /\ w_start w <= m <= w_end w) /\
     exists i r bs b, (i, r, Bars bs) ∈ drop (length (calls st)) (calls st') /\ b ∈ bs /\
       bar_symbol b = symbol /\ bucket b = m /\ row = backfill_row b run_id) /\
  (apply = false -> store st' = store st /\ calls st' = calls st).
Proof.
  intros Hn Hnd Hgrid Hrun. destruct (run_once_adds _ _ _ _ _ _ _ _ _ _ Hn Hnd Hgrid Hrun) as (Hsub & Hdry & Hnew).
  by split_and!.
Qed.

(** A run keeps within its budget.  It makes at most [max_requests] requests (the
    configuration gives 1 to 200; a negative number on the command line leaves out
    that many requests of the plan instead, [negative_budget_asks]),
    reports as many as it makes, and makes none while the provider is to be left
    alone or another run holds the lock.  Each request is one of the plan, granted
    by the shared quota, made before any stop, for a pair that is not blocked; a
    pair the account may not read is not asked again in the run; a refused
    credential or a rate limit ends the requests and leaves the provider alone for
    six hours, or for the provider's hint but at least a quarter of an hour. *)
Theorem recovery_within_budget st trigger run_id apply window now ready lock_free st' rep :
  run_once st trigger run_id apply window now ready lock_free = (st', rep) ->
  exists cs, calls st' = calls st ++ cs /\
  (0 <= max_requests cfg -> Z.of_nat (length cs) <= max_requests cfg) /\ rep_requests rep = Z.of_nat (length cs) /\
  (cs <> [] -> lock_free = true /\ apply = true /\ forall t, blocked_until st = Some t -> t <= now) /\
  Forall (fun c => quota c.1.1 = true /\ stop c.1.1 = false /\ unblocked st now c.1.2 = true /\
    c.2 = reply c.1.1 c.1.2) cs /\
  calls_ok ∅ cs /\ blocked_until st' = back_off now (blocked_until st) cs.
Proof.
  intros Hrun. apply run_once_spec in Hrun as [(-> & _ & Hr)|(w & Hw & Hl & Hb & Hspec)].
  { exists []. split_and!; try done; first [by rewrite app_nil_r|cbn; lia|by constructor]. }
  destruct Hspec as (cs & sett & Hcs & _ & Hok & Hlen & Hall & Hblk & Hreq & Hdry). exists cs.
  split_and!; try done.
  - intros Hne. split; [done|]. split; [|done]. destruct apply; [done|]. by destruct Hdry.
  - eapply Forall_impl; [exact Hall|]. cbn. tauto.
Qed.
End Whole.

(* ------------------------------------------------------------------ *)
(** ** A run *)

Section Demo.
#[local] Existing Instance plain64.
#[local] Existing Instance sorted_list.
Notation F := SpecFloat.spec_float.

Definition demo_bar (symbol : string) (m : datetime) : Bar F := {|
  bar_symbol := symbol; bucket := m; open := f_of_Z 1; high := f_of_Z 2; low := f_of_Z 1;
  close := f_of_Z 1; tick_count := 0; sum_ret := f_zero; sum_ret_sq := f_zero; source := BACKFILL |}.

(** EURUSD is stored at 23:58 already; the provider has 23:57, 23:59 and, not
    asked for, 23:58; it may not be asked for GBPUSD. *)
Definition demo_row : Row F := {|
  r_open := f_of_Z 7; r_high := f_of_Z 7; r_low := f_of_Z 7; r_close := f_of_Z 7;
  r_tick_count := 12; r_sum_ret := f_zero; r_sum_ret_sq := f_zero; r_source := "stream";
  r_last_stream_id := (5, 0); r_recovery_run_id := None |}.
Definition demo_store : Store F := {|
  bars := {[ ("EURUSD"%string, demo_minute (-2)) := demo_row ]}; spans := ∅; runs := ∅;
  caches := ∅; refreshed := [] |}.
Definition demo_recovery : Recovery F := {|
  store := demo_store; blocked_until := None; symbol_blocked_until := ∅; calls := [] |}.
Definition demo_cfg : RecoveryConfig := {|
  lookback := days 7; horizon := minutes 17; max_requests := 2; days_per_request := 1;
  include_settled := false |}.
Definition demo_reply (i : nat) (r : Request) : Reply F :=
  if bool_decide (rq_symbol r = "EURUSD"%string)
  then Bars (demo_bar "EURUSD" <$> [demo_minute (-3); demo_minute (-2); demo_minute (-1)])
  else EntitlementError "403".
Definition demo_run : Recovery F * RunReport :=
  run_once (fun _ => "x"%string) demo_symbols demo_cfg demo_open "i" "tiingo" demo_reply
    (fun _ => true) (fun _ => false) (fun _ _ _ => None) demo_recovery "leadership" "run-1" true
    (Some demo_window) (demo_minute 60) true true.

Lemma demo_run_report :
  (rep_status demo_run.2, rep_requests demo_run.2, rep_bars_inserted demo_run.2,
   rep_minutes_silent demo_run.2, size (bars (store demo_run.1))) =
  ("partial"%string, 2, 2, 4, 3%nat).
Proof. by vm_compute. Qed.

Lemma recovery_only_adds_witness : bars demo_store ⊆ bars (store demo_run.1).
Proof.
  destruct demo_run as [st' rep] eqn:E. unfold demo_run in E.
  apply recovery_only_adds in E as (Hsub & _).
  - exact Hsub.
  - done.
  - apply (bool_decide_unpack _). by vm_compute.
  - intros w [= <-]. by vm_compute.
Defined.

Lemma recovery_within_budget_witness :
  exists cs, calls demo_run.1 = cs /\ Z.of_nat (length cs) <= 2.
Proof.
  destruct demo_run as [st' rep] eqn:E. unfold demo_run in E.
  apply recovery_within_budget in E as (cs & Hcs & Hlen & _). exists cs. split; [done|]. by apply Hlen.
Defined.

(** [--max-requests -1] is not a budget: the run asks for all of its plan but the last
    request. *)
Lemma negative_budget_asks :
  let run n := run_once (fun _ => "x"%string) demo_symbols
    {| lookback := days 7; horizon := minutes 17; max_requests := n; days_per_request := 1;
       include_settled := false |} demo_open "i" "tiingo" demo_reply
    (fun _ => true) (fun _ => false) (fun _ _ _ => None) demo_recovery "leadership" "run-1" true
    (Some demo_window) (demo_minute 60) true true in
  (length (calls (run 0).1), length (calls (run 2).1), length (calls (run (-1)).1)) = (0, 2, 3)%nat.
Proof. by vm_compute. Qed.
End Demo.
