(* ===== verification/RecoverySteps.v ===== *)
(** * Recovery runs side by side ([fx_ingestor/recovery.py], [exclusive])

    [RecoveryRun.v] gives a run as one function of the tables.  Here it is the
    program it is written as: each of its calls to PostgreSQL and Redis is a step,
    between two of which other processes write the same tables, the run's process
    may die, a call may fail or the connection that holds the run lock may close.
    [undisturbed_run] says that a run that meets none of this is [run_once];
    [records_stay_true] what survives all of it; [one_run_at_a_time] what the lock
    gives as long as no living run loses it. *)
From S2P Require Import Prelude PyFloat Models Database Json Redis RecoveryPlan RecoveryStore RecoveryRun.

Local Open Scope Z_scope.

(* ------------------------------------------------------------------ *)
(** ** Programs *)

Section Programs.
Context {F : Type} `{PyFloat F} `{SortedSet}.
Implicit Types (s : Store F).

(** One call to PostgreSQL or Redis, with the type of its answer. *)
Inductive Op : Type -> Type :=
  | AbortStaleRuns : Op Z
  | Present (symbol : string) (w : Window) : Op (gset Z)
  | Settled (symbol : string) (w : Window) : Op (list (datetime * datetime))
  | AskedSince (symbol : string) (w : Window) (since : datetime) : Op (list (datetime * datetime))
  | StaleRow (view : string) (bounds : datetime * datetime) : Op (option (datetime * datetime))
  | RecoveredSince (symbol : string) (since : datetime) : Op (list (Bar F * string))
  | CacheExists (symbol : string) : Op bool
  | CacheHeld (symbol : string) (lo hi : Z) : Op (list entry)
  | CacheCard (symbol : string) : Op Z
  | CacheOldest (symbol : string) : Op (list entry)
  | BeginRun (run_id trigger instance provider : string) (w : Window) (missing : Z) : Op unit
  | Insert (symbol : string) (bs : list (Bar F)) (run_id : string) : Op (list datetime)
  | CacheAdd (symbol : string) (bs : list (Bar F)) (run_id : string) : Op Z
  | RecordSpans (run_id : string) (results : list SpanResult) (fetched_at : datetime) : Op unit
  | RefreshRollup (view : string) (a b : datetime) : Op unit
  | FinishRun (rep : RunReport) (error : option string) : Op unit.

Context (dumps : json F -> string).
Context (stale_row : Store F -> string -> datetime * datetime -> option (datetime * datetime)).

(** What the call does to the tables, and its answer. *)
Definition perform {R} (op : Op R) s : Store F * R :=
  match op with
  | AbortStaleRuns => abort_stale_runs s
  | Present symbol w => (s, present s symbol w)
  | Settled symbol w => (s, settled s symbol w)
  | AskedSince symbol w since => (s, asked_since s symbol w since)
  | StaleRow view bounds => (s, stale_row s view bounds)
  | RecoveredSince symbol since => (s, recovered_since s symbol since)
  | CacheExists symbol => (s, zexists (cache_of s symbol))
  | CacheHeld symbol lo hi => (s, zrangebyscore lo hi (cache_of s symbol))
  | CacheCard symbol => (s, zcard (cache_of s symbol))
  | CacheOldest symbol => (s, zrange (- HOT_CACHE_BARS) (- HOT_CACHE_BARS) (cache_of s symbol))
  | BeginRun run_id trigger instance provider w missing =>
      (begin_run s run_id trigger instance provider w missing, tt)
  | Insert symbol bs run_id => insert s symbol bs run_id
  | CacheAdd symbol bs run_id => cache_add dumps s symbol bs run_id
  | RecordSpans run_id results fetched_at => (record_spans s run_id results fetched_at, tt)
  | RefreshRollup view a b => (refresh_rollup s view a b, tt)
  | FinishRun rep error => (finish_run s rep error, tt)
  end.

(** A program: its result, an exception, or a call and what follows its answer. *)
Inductive prog (A : Type) : Type :=
  | Ret (a : A)
  | Throw
  | Do {R : Type} (op : Op R) (k : R -> prog A).
#[global] Arguments Ret {A} a.
#[global] Arguments Throw {A}.
#[global] Arguments Do {A R} op k.

Fixpoint prog_then {A B} (k : A -> prog B) (p : prog A) : prog B :=
  match p with
  | Ret a => k a
  | Throw => Throw
  | Do op f => Do op (fun r => prog_then k (f r))
  end.

(** The program run with nothing in between. *)
Fixpoint alone {A} (p : prog A) s : Store F * option A :=
  match p with
  | Ret a => (s, Some a)
  | Throw => (s, None)
  | Do op k => let '(s, r) := perform op s in alone (k r) s
  end.

Lemma alone_then {A B} (k : A -> prog B) p s :
  alone (prog_then k p) s =
  let '(s', a) := alone p s in match a with Some a => alone (k a) s' | None => (s', None) end.
Proof.
  revert s. induction p as [a| |R op f IH]; intros s; [done..|].
  cbn. destruct (perform op s). apply IH.
Qed.
End Programs.
#[global] Arguments Op F _ : clear implicits.
#[global] Arguments prog F A : clear implicits.

Notation "x ⇠ p ; k" := (prog_then (fun x => k) p)
  (at level 20, p at level 100, k at level 200, right associativity, only parsing).

Definition call {F R} (op : Op F R) : prog F R := Do op Ret.

(* ------------------------------------------------------------------ *)
(** ** The run as a program *)

(** [HistoryRecovery]'s own state: [Recovery] without the tables. *)
Record Own F := {
  own_blocked : option datetime;
  own_symbols : gmap string datetime;
  own_calls : list (nat * Request * Reply F);
}.
#[global] Arguments own_blocked {F} _.
#[global] Arguments own_symbols {F} _.
#[global] Arguments own_calls {F} _.

Section Steps.
Context {F : Type} `{PyFloat F} `{SortedSet}.
Context (symbols : list string) (cfg : RecoveryConfig) (is_open : datetime -> bool).
Context (instance provider_name : string).
Context (reply : nat -> Request -> Reply F) (quota : nat -> bool) (stop : nat -> bool).
Implicit Types (o : Own F) (rep : RunReport).

Definition own_set_blocked o t : Own F :=
  {| own_blocked := Some t; own_symbols := own_symbols o; own_calls := own_calls o |}.
Definition own_block_symbol o symbol t : Own F :=
  {| own_blocked := own_blocked o; own_symbols := <[symbol := t]> (own_symbols o); own_calls := own_calls o |}.
Definition own_called o c : Own F :=
  {| own_blocked := own_blocked o; own_symbols := own_symbols o; own_calls := own_calls o ++ [c] |}.

(** [cache_would_take]: four reads; an index into an answer that came back empty
    raises. *)
Definition would_take_steps (symbol : string) (ms : list datetime) : prog F (gset Z) :=
  if bool_decide (ms = []) then Ret ∅
  else
    held ⇠ call (CacheExists symbol);
    if negb held then Ret ∅
    else
      let times : gmap Z Z := fold_left (fun t m => <[int_timestamp m := m]> t) ms ∅ in
      let ts := (map_to_list times).*1 in
      taken ⇠ call (CacheHeld symbol (zmin ts) (zmax ts));
      card ⇠ call (CacheCard symbol);
      floor ⇠ (if HOT_CACHE_BARS <=? card then
                 oldest_kept ⇠ call (CacheOldest symbol);
                 match oldest_kept with (score, _) :: _ => Ret (Some score) | [] => Throw end
               else Ret None);
      Ret (list_to_set (C := gset Z) (snd <$> List.filter (fun tm : Z * Z =>
        negb (bool_decide (tm.1 ∈ fst <$> taken)) &&
        match floor with Some f => f <? tm.1 | None => true end) (map_to_list times))).

(** [_missing], pair after pair. *)
Fixpoint missing_steps (w : Window) (ready : bool) (now : datetime) (todo : list string)
    : prog F (list Span * list Span) :=
  match todo with
  | [] => Ret ([], [])
  | x :: todo =>
      let look := ready && negb (include_settled cfg) in
      present ⇠ call (Present x w);
      settled ⇠ (if look then call (Settled x w) else Ret []);
      asked ⇠ (if look then call (AskedSince x w (now - SETTLE)) else Ret []);
      rest ⇠ missing_steps w ready now todo;
      let expected := open_minutes w is_open in
      Ret (missing_spans x expected present settled ++ rest.1,
           missing_spans x expected present (settled ++ asked) ++ rest.2)
  end.

(** [stale_rollups], view after view. *)
Fixpoint stale_steps (w : Window) (now : datetime) (views : list (string * timedelta * timedelta))
    : prog F (list (string * datetime * datetime)) :=
  match views with
  | [] => Ret []
  | (view, width, offset) :: views =>
      match refresh_range (w_start w) (w_end w) width offset now with
      | None => stale_steps w now views
      | Some bounds =>
          row ⇠ call (StaleRow view bounds);
          rest ⇠ stale_steps w now views;
          Ret match row with
              | None => rest
              | Some row =>
                  match refresh_range row.1 row.2 width offset now with
                  | Some found => (view, found.1, found.2) :: rest
                  | None => rest
                  end
              end
      end
  end.

(** [_cache_repairs] *)
Fixpoint repairs_steps (now : datetime) (todo : list string) : prog F (list (Bar F * string)) :=
  match todo with
  | [] => Ret []
  | x :: todo =>
      recovered ⇠ call (RecoveredSince x (cache_horizon now));
      wanted ⇠ would_take_steps x ((fun br => bucket br.1) <$> recovered);
      rest ⇠ repairs_steps now todo;
      Ret (List.filter (fun br : Bar F * string => bool_decide (bucket br.1 ∈ wanted)) recovered ++ rest)
  end.

(** The loop of [_repair_cache] *)
Fixpoint repair_steps (repairs : list (Bar F * string)) (added : Z) : prog F Z :=
  match repairs with
  | [] => Ret added
  | br :: repairs =>
      n ⇠ call (CacheAdd (bar_symbol br.1) [br.1] br.2);
      repair_steps repairs (added + n)
  end.

(** The loop of [_refresh_rollups] over the views. *)
Fixpoint refresh_steps (targets : list (string * datetime * datetime)) (views : list string) rep
    : prog F RunReport :=
  match views with
  | [] => Ret rep
  | view :: views =>
      let mine := List.filter (fun t => bool_decide (t.1.1 = view)) targets in
      let a := zmin ((fun t => t.1.2) <$> mine) in
      let b := zmax ((fun t => t.2) <$> mine) in
      _ ⇠ call (RefreshRollup view a b);
      refresh_steps targets views (rep_refreshed rep (view, a, b))
  end.

(** [insert] and [cache_add] return at once when given no bar. *)
Definition insert_steps (symbol : string) (bs : list (Bar F)) (run_id : string) : prog F (list datetime) :=
  if is_nil bs then Ret [] else call (Insert symbol bs run_id).
Definition cache_steps (symbol : string) (bs : list (Bar F)) (run_id : string) : prog F Z :=
  if is_nil bs then Ret 0 else call (CacheAdd symbol bs run_id).

(** [_fetch] *)
Definition fetch_steps (i : nat) (run_id : string) (now : datetime) o rep (r : Request)
    : prog F (Own F * RunReport * (Reply F + list datetime)) :=
  let rep := rep_requested rep in
  let answer := reply i r in
  let o := own_called o (i, r, answer) in
  match answer with
  | Bars bs =>
      let received := received_bars r bs in
      inserted ⇠ insert_steps (rq_symbol r) (in_minute_order received) run_id;
      let recent := cache_horizon now in
      cached ⇠ cache_steps (rq_symbol r)
        (omap (fun m => received !! m) (List.filter (fun m => recent <=? m) inserted)) run_id;
      let done := list_to_set (C := gset Z) inserted in
      let results := span_result received done <$> rq_spans r in
      _ ⇠ call (RecordSpans run_id results now);
      Ret (o, rep_add rep (Z.of_nat (size received)) (Z.of_nat (length inserted))
             (zsum (res_silent <$> results)) cached results, inr inserted)
  | _ =>
      let failed := failed_result (default ""%string (reply_error answer)) <$> rq_spans r in
      _ ⇠ call (RecordSpans run_id failed now);
      Ret (o, rep_add rep 0 0 0 0 failed, inl answer)
  end.

(** [_request_all] from request [i] on. *)
Fixpoint requests_steps (i : nat) (run_id : string) (now : datetime) (requests : list Request) o rep
    (changed : list datetime) (incomplete : bool) (error : option string) (refused : gset string)
    : prog F (Own F * RunReport * (list datetime * bool * option string)) :=
  match requests with
  | [] => Ret (o, rep, (changed, incomplete, error))
  | r :: requests =>
      if stop i then Ret (o, rep_status_set rep "aborted", (changed, true, Some STOPPED_MSG))
      else if bool_decide (rq_symbol r ∈ refused) then
        requests_steps (S i) run_id now requests o rep changed incomplete error refused
      else if negb (quota i) then Ret (o, rep, (changed, true, Some POSTPONED_MSG))
      else
        fetched ⇠ fetch_steps i run_id now o rep r;
        match fetched with
        | (o, rep, inr inserted) =>
            requests_steps (S i) run_id now requests o rep (changed ++ inserted) incomplete error refused
        | (o, rep, inl (AuthError msg)) =>
            Ret (own_set_blocked o (now + AUTH_BACKOFF), rep_status_set rep "failed",
                 (changed, true, Some msg))
        | (o, rep, inl (RateLimitError msg retry_after)) =>
            Ret (own_set_blocked o (now + Z.max (default 0 retry_after) RATE_LIMIT_BACKOFF), rep,
                 (changed, true, Some msg))
        | (o, rep, inl (EntitlementError msg)) =>
            requests_steps (S i) run_id now requests
              (own_block_symbol o (rq_symbol r) (now + AUTH_BACKOFF)) rep changed true (Some msg)
              ({[ rq_symbol r ]} ∪ refused)
        | (o, rep, inl answer) =>
            requests_steps (S i) run_id now requests o rep changed true (reply_error answer) refused
        end
  end.

(** The end of an applied run. *)
Definition finish_steps o rep (changed : list datetime) (incomplete : bool) (error : option string)
    (stale : list (string * datetime * datetime)) (now : datetime) : prog F (Own F * RunReport) :=
  let targets := rollup_targets changed stale now in
  rep ⇠ refresh_steps targets (remove_dups ((fun t => t.1.1) <$> targets)) rep;
  repairs ⇠ repairs_steps now symbols;
  repaired ⇠ repair_steps repairs 0;
  let rep := rep_add rep 0 0 0 repaired [] in
  let rep :=
    if bool_decide (rep_status rep = "running"%string)
    then rep_status_set rep (if incomplete then "partial" else "succeeded") else rep in
  _ ⇠ call (FinishRun rep error);
  Ret (o, rep).

(** [now >= self.symbol_blocked_until.get(r.symbol, now)] *)
Definition own_unblocked o (now : datetime) (r : Request) : bool :=
  match own_symbols o !! rq_symbol r with Some t => t <=? now | None => true end.

(** [_locked] *)
Definition locked_steps o (trigger run_id : string) (apply ready : bool) (w : Window) (now : datetime)
    : prog F (Own F * RunReport) :=
  aborted ⇠ (if apply then call AbortStaleRuns else Ret 0);
  found ⇠ missing_steps w ready now symbols;
  let '(spans_missing, askable) := found in
  let requests := List.filter (own_unblocked o now) (plan_requests askable (days_per_request cfg)) in
  stale ⇠ stale_steps w now ROLLUPS;
  repairs ⇠ (if ready then repairs_steps now symbols else Ret []);
  let rep := with_status (if apply then "idle" else "dry_run") w spans_missing
    (Z.of_nat (length requests)) aborted in
  if negb apply then Ret (o, rep_dry rep spans_missing stale (Z.of_nat (length repairs)))
  else if is_nil spans_missing && is_nil stale && is_nil repairs then
    Ret (o, rep_reason_set rep "nothing missing")
  else if is_nil askable && is_nil stale && is_nil repairs then
    Ret (o, rep_reason_set rep "every missing minute was asked for within the hour")
  else
    let rep := rep_started rep run_id in
    _ ⇠ call (BeginRun run_id trigger instance provider_name w (rep_minutes_missing rep));
    requested ⇠ requests_steps 0 run_id now (slice_to requests (max_requests cfg)) o rep []
      (max_requests cfg <? Z.of_nat (length requests)) None ∅;
    let '(o, rep, (changed, incomplete, error)) := requested in
    finish_steps o rep changed incomplete error stale now.
End Steps.

(* ------------------------------------------------------------------ *)
(** ** Undisturbed, the program is the run *)

Section Undisturbed.
Context {F : Type} `{PyFloat F} `{SortedSet}.
Context (dumps : json F -> string).
Context (stale_row : Store F -> string -> datetime * datetime -> option (datetime * datetime)).
Context (symbols : list string) (cfg : RecoveryConfig) (is_open : datetime -> bool).
Context (instance provider_name : string).
Context (reply : nat -> Request -> Reply F) (quota : nat -> bool) (stop : nat -> bool).
Implicit Types (st : Recovery F) (s : Store F) (rep : RunReport).
Notation alone := (alone dumps stale_row).

Definition own st : Own F := {|
  own_blocked := blocked_until st; own_symbols := symbol_blocked_until st; own_calls := calls st |}.

Lemma alone_call {R A} (op : Op F R) (k : R -> prog F A) s :
  alone (prog_then k (call op)) s =
  let '(s', r) := perform dumps stale_row op s in alone (k r) s'.
Proof. done. Qed.

Lemma alone_if {A B} (b : bool) (p q : prog F A) (k : A -> prog F B) s :
  alone (prog_then k (if b then p else q)) s = alone (if b then prog_then k p else prog_then k q) s.
Proof. by destruct b. Qed.

(** A full cache has an oldest kept entry. *)
Lemma oldest_kept_some (z : zset) : HOT_CACHE_BARS <= zcard z ->
  zrange (- HOT_CACHE_BARS) (- HOT_CACHE_BARS) z <> [].
Proof.
  unfold zrange, rank_range, rank_from, rank_upto, zcard, HOT_CACHE_BARS. intros Hc Hnil.
  apply (f_equal length) in Hnil. rewrite length_drop, length_take in Hnil.
  change (- (1440) <? 0) with true in Hnil. cbv iota in Hnil. cbn [length] in Hnil. lia.
Qed.

Lemma would_take_alone symbol ms s :
  alone (would_take_steps symbol ms) s = (s, Some (cache_would_take s symbol ms)).
Proof.
  unfold would_take_steps, cache_would_take. case_bool_decide; [done|]. rewrite alone_call. cbn.
  destruct (zexists _); [|done]. cbn. pose proof (oldest_kept_some (cache_of s symbol)) as Hold.
  destruct (Z.leb_spec HOT_CACHE_BARS (zcard (cache_of s symbol))); [|done]. cbn.
  destruct (zrange _ _ _) as [|[score m] ?]; [by destruct Hold|done].
Qed.

Lemma missing_alone w ready now s :
  alone (missing_steps cfg is_open w ready now symbols) s =
  (s, Some (missing symbols cfg is_open s w ready now)).
Proof.
  unfold missing, missing_of. induction symbols as [|x todo IH]; [done|].
  cbn [missing_steps]. rewrite alone_call. cbn [perform]. rewrite alone_if.
  destruct (ready && negb (include_settled cfg)); cbn; rewrite alone_then, IH; done.
Qed.

Lemma stale_alone w now s :
  alone (stale_steps w now ROLLUPS) s = (s, Some (stale_rollups stale_row s w now)).
Proof.
  unfold stale_rollups, ROLLUPS. cbn [stale_steps omap list_omap mbind option_bind].
  destruct (refresh_range _ _ _ _ _) as [b1|]; cbn; destruct (refresh_range _ _ _ _ _) as [b2|]; cbn;
    repeat match goal with |- context [stale_row ?s ?v ?b] => destruct (stale_row s v b); cbn
           | |- context [refresh_range ?a ?b ?c ?d ?e] => destruct (refresh_range a b c d e); cbn end; done.
Qed.

Lemma repairs_alone now s :
  alone (repairs_steps now symbols) s = (s, Some (cache_repairs symbols s now)).
Proof.
  unfold cache_repairs. induction symbols as [|x todo IH]; [done|].
  cbn [repairs_steps]. rewrite alone_call. cbn [perform]. rewrite alone_then, would_take_alone.
  by rewrite alone_then, IH.
Qed.

Lemma repair_alone l n s :
  alone (repair_steps l n) s = let '(s', a) := fold_left (repair_one dumps) l (s, n) in (s', Some a).
Proof.
  revert n s. induction l as [|br l IH]; intros n s; [done|].
  cbn [repair_steps fold_left]. rewrite alone_call. cbn [perform]. unfold repair_one at 2.
  destruct (cache_add _ _ _ _ _). apply IH.
Qed.

Lemma refresh_alone targets views rep s :
  alone (refresh_steps targets views rep) s =
  let '(s', rep') := fold_left (refresh_view targets) views (s, rep) in (s', Some rep').
Proof. revert rep s. induction views as [|v views IH]; intros rep s; [done|]. apply IH. Qed.

Lemma insert_alone symbol bs run_id s :
  alone (insert_steps symbol bs run_id) s = let '(s', l) := insert s symbol bs run_id in (s', Some l).
Proof. destruct bs; [by destruct s|]. cbn. by destruct (insert _ _ _ _). Qed.

Lemma cache_alone symbol bs run_id s :
  alone (cache_steps symbol bs run_id) s = let '(s', n) := cache_add dumps s symbol bs run_id in (s', Some n).
Proof. destruct bs; [done|]. unfold cache_steps. cbn [is_nil alone call]. cbn [perform]. by destruct (cache_add _ _ _ _ _). Qed.

Lemma fetch_alone i run_id now st rep r :
  alone (fetch_steps reply i run_id now (own st) rep r) (store st) =
  let '(st', rep', out) := fetch dumps reply i run_id now st rep r in
  (store st', Some (own st', rep', out)).
Proof.
  unfold fetch_steps, fetch. destruct (reply i r) as [bs|msg|msg ra|msg|msg]; try done.
  rewrite alone_then, insert_alone. cbn [store called].
  destruct (insert _ _ _ _) as [s1 inserted]. rewrite alone_then, cache_alone.
  by destruct (cache_add _ _ _ _ _).
Qed.

Lemma requests_alone run_id now requests : forall i st rep changed incomplete error refused,
  alone (requests_steps reply quota stop i run_id now requests (own st) rep changed incomplete error refused)
    (store st) =
  let '(st', rep', out) := request_loop dumps reply quota stop i run_id now requests st rep
    changed incomplete error refused in
  (store st', Some (own st', rep', out)).
Proof.
  induction requests as [|r requests IH]; intros; [done|]. cbn [requests_steps request_loop].
  destruct (stop i); [done|]. case_bool_decide; [apply IH|]. destruct (quota i); [|done]. cbn [negb].
  rewrite alone_then, fetch_alone. destruct (fetch _ _ _ _ _ _ _ _) as [[st1 rep1] [a|inserted]]; [|apply IH].
  destruct a; try done; try apply IH.
  exact (IH (S i) (block_symbol st1 (rq_symbol r) (now + AUTH_BACKOFF)) rep1 changed true (Some msg) _).
Qed.

Lemma finish_alone st rep changed incomplete error stale now :
  alone (finish_steps symbols (own st) rep changed incomplete error stale now) (store st) =
  let '(st', rep') := finish dumps symbols st rep changed incomplete error stale now in
  (store st', Some (own st', rep')).
Proof.
  unfold finish_steps, finish, refresh_rollups, repair_cache. rewrite alone_then, refresh_alone.
  destruct (fold_left (refresh_view _) _ _) as [s1 rep1]. rewrite alone_then, repairs_alone, alone_then, repair_alone.
  by destruct (fold_left _ _ _).
Qed.

(** Undisturbed, the program's calls are the run. *)
Lemma locked_alone st trigger run_id apply ready w now :
  alone (locked_steps symbols cfg is_open instance provider_name reply quota stop (own st) trigger run_id
    apply ready w now) (store st) =
  let '(st', rep') := locked dumps symbols cfg is_open instance provider_name reply quota stop stale_row
    st trigger run_id apply ready w now in
  (store st', Some (own st', rep')).
Proof.
  assert (Hrep : forall (k : list (Bar F * string) -> prog F (Own F * RunReport)) s,
    alone (prog_then k (if ready then repairs_steps now symbols else Ret [])) s =
    alone (k (if ready then cache_repairs symbols s now else [])) s).
  { intros k s. destruct ready; [|done]. by rewrite alone_then, repairs_alone. }
  unfold locked_steps, locked. destruct apply; cbn [negb].
  - rewrite alone_call. cbn [perform]. destruct (abort_stale_runs _) as [s aborted].
    rewrite alone_then, missing_alone. destruct (missing _ _ _ _ _ _ _) as [spans_missing askable].
    rewrite alone_then, stale_alone, Hrep.
    destruct (is_nil spans_missing && _ && _); [done|]. destruct (is_nil askable && _ && _); [done|].
    rewrite alone_call. cbn [perform]. rewrite alone_then. unfold request_all.
    set (st1 := set_store (set_store st s) _). change (begin_run s _ _ _ _ _ _) with (store st1).
    change (own st) with (own st1). rewrite requests_alone.
    change (own_unblocked (own st1)) with (unblocked (set_store st s)).
    destruct (request_loop _ _ _ _ _ _ _ _ _ _ _ _ _ _) as [[st2 rep2] [[changed incomplete] error]].
    apply finish_alone.
  - cbn [prog_then]. rewrite alone_then, missing_alone.
    destruct (missing _ _ _ _ _ _ _) as [spans_missing askable].
    by rewrite alone_then, stale_alone, Hrep.
Qed.
End Undisturbed.

(* ------------------------------------------------------------------ *)
(** ** What a run records *)

Section Truth.
Context {F : Type} `{PyFloat F} `{SortedSet}.
Context (dumps : json F -> string).
Context (stale_row : Store F -> string -> datetime * datetime -> option (datetime * datetime)).
Implicit Types (s : Store F) (d : datetime) (K : string * Z -> Prop).
Notation does := (perform dumps stale_row).

(** The minute has a row, or is older than [d], what retention has dropped. *)
Definition heldb d s (k : string * Z) : bool := (k.2 <? d) || bool_decide (is_Some (bars s !! k)).

(** A span's record is true: at least the minutes it says were received are held,
    and all of them if it says the span is recovered. *)
Definition true_result (h : string * Z -> bool) (r : SpanResult) : Prop :=
  let has m := h (sp_symbol (res_span r), m) in
  res_received r <= count_in (res_span r) has /\
  (res_status r = "recovered"%string -> Forall (fun m => has m = true) (each_minute (res_span r))).

Definition told d s : Prop := map_Forall (fun _ row => true_result (heldb d s) (sr_result row)) (spans s).

Definition knows d s K : Prop := forall k, K k -> heldb d s k = true.

(** Whatever the tables are at each call, as long as the minutes of [K] are still
    held and the records true, the program changes no row, keeps the records true
    and ends with [Q] of what is held then. *)
Fixpoint safe {A} K (p : prog F A) (Q : (string * Z -> Prop) -> A -> Prop) : Prop :=
  match p with
  | Ret a => Q K a
  | Throw => True
  | Do op k => forall d s, knows d s K -> told d s ->
      let '(s', r) := does op s in
      bars s ⊆ bars s' /\ told d s' /\
      exists K', (forall key, K key -> K' key) /\ knows d s' K' /\ safe K' (k r) Q
  end.

Lemma safe_then {A B} K (p : prog F A) (k : A -> prog F B) Q Q' :
  safe K p Q' -> (forall K' a, Q' K' a -> safe K' (k a) Q) -> safe K (prog_then k p) Q.
Proof.
  intros Hp Hk. revert K Hp. induction p as [a| |R op f IH]; intros K Hp; [by apply Hk|done|].
  intros d s HK Ht. specialize (Hp d s HK Ht). destruct (does op s) as [s' r].
  destruct Hp as (? & ? & K' & ? & ? & Hr). split_and!; [done..|]. exists K'. split_and!; [done..|]. by apply IH.
Qed.

(** Every call a program makes meets [P]. *)
Fixpoint all_ops {A} (P : forall R, Op F R -> Prop) (p : prog F A) : Prop :=
  match p with
  | Ret _ | Throw => True
  | @Do _ _ R op k => P R op /\ forall r, all_ops P (k r)
  end.

Lemma all_ops_then {A B} P (p : prog F A) (k : A -> prog F B) :
  all_ops P p -> (forall a, all_ops P (k a)) -> all_ops P (prog_then k p).
Proof.
  intros Hp Hk. induction p as [a| |R op f IH]; [apply Hk|done|].
  destruct Hp as [? Hp]. split; [done|]. intros r. by apply IH.
Qed.

(** Calls that write neither bars nor spans, and calls that write nothing. *)
Definition quiet R (op : Op F R) : Prop :=
  match op with Insert _ _ _ | RecordSpans _ _ _ => False | _ => True end.
Definition reads R (op : Op F R) : Prop :=
  match op with
  | Present _ _ | Settled _ _ | AskedSince _ _ _ | StaleRow _ _ | RecoveredSince _ _
  | CacheExists _ | CacheHeld _ _ _ | CacheCard _ | CacheOldest _ => True
  | _ => False
  end.

Lemma reads_perform R (op : Op F R) s : reads R op -> (does op s).1 = s.
Proof. by destruct op. Qed.

Lemma reads_quiet R (op : Op F R) : reads R op -> quiet R op.
Proof. by destruct op. Qed.

Lemma all_ops_weaken {A} (P Q : forall R, Op F R -> Prop) (p : prog F A) :
  (forall R op, P R op -> Q R op) -> all_ops P p -> all_ops Q p.
Proof. intros HPQ. induction p as [a| |R op f IH]; [done..|]. cbn. intros [? Hp]. split; auto. Qed.

Lemma quiet_perform R (op : Op F R) s s' r :
  quiet R op -> does op s = (s', r) -> bars s' = bars s /\ spans s' = spans s.
Proof.
  destruct op; cbn [quiet perform]; try done; try (by intros _ [= <- <-]).
  - by intros _ (? & ? & _)%cache_add_tables.
  - intros _ [= <- <-]. unfold finish_run. by case_match.
Qed.

Lemma told_same d s s' : bars s' = bars s -> spans s' = spans s -> told d s -> told d s'.
Proof. unfold told, heldb. by intros -> ->. Qed.
Lemma knows_same d s s' K : bars s' = bars s -> knows d s K -> knows d s' K.
Proof. unfold knows, heldb. by intros ->. Qed.

Lemma safe_quiet {A} K (p : prog F A) Q : all_ops quiet p -> (forall a, Q K a) -> safe K p Q.
Proof.
  intros Hp HQ. induction p as [a| |R op f IH]; [apply HQ|done|]. destruct Hp as [Hop Hp].
  intros d s HK Ht. destruct (does op s) as [s' r] eqn:E. apply quiet_perform in E as [Hb Hs]; [|done].
  split_and!; [by rewrite Hb|by eapply told_same|]. exists K. split_and!; [done|by eapply knows_same|auto].
Qed.

Lemma safe_call {R} K (op : Op F R) Q :
  (forall d s, knows d s K -> told d s -> let '(s', r) := does op s in
     bars s ⊆ bars s' /\ told d s' /\ exists K', (forall key, K key -> K' key) /\ knows d s' K' /\ Q K' r) ->
  safe K (call op) Q.
Proof. done. Qed.

(* ------------------------------------------------------------------ *)
(** ** Rows and records *)

Lemma count_in_le (sp : Span) (p q : Z -> bool) :
  (forall m, m ∈ each_minute sp -> p m = true -> q m = true) -> count_in sp p <= count_in sp q.
Proof.
  unfold count_in. induction (each_minute sp) as [|m l IH]; intros Hpq; [done|]. cbn.
  assert (IH' := IH ltac:(set_solver)). specialize (Hpq m ltac:(set_solver)).
  destruct (p m), (q m); cbn in *; lia.
Qed.

Lemma true_result_weaken (h h' : string * Z -> bool) r :
  (forall k, h k = true -> h' k = true) -> true_result h r -> true_result h' r.
Proof.
  intros Hh [Hn Hr]. split.
  - etrans; [exact Hn|]. apply count_in_le. intros m _. apply Hh.
  - intros He. eapply Forall_impl; [by apply Hr|]. intros m. apply Hh.
Qed.

Lemma heldb_mono d s s' k : bars s ⊆ bars s' -> heldb d s k = true -> heldb d s' k = true.
Proof.
  unfold heldb. intros Hs [?|Hb]%orb_true_iff; apply orb_true_iff; [by left|right].
  apply bool_decide_eq_true in Hb as [row Hb]. apply bool_decide_eq_true. exists row. by eapply lookup_weaken.
Qed.

Lemma told_more d s s' : bars s ⊆ bars s' -> spans s' = spans s -> told d s -> told d s'.
Proof.
  intros Hb Hs Ht k row Hk. rewrite Hs in Hk. eapply true_result_weaken; [|by apply (Ht k)].
  intros k'. by apply heldb_mono.
Qed.

Lemma safe_insert K symbol bs run_id :
  safe K (insert_steps symbol bs run_id) (fun K' _ => forall b, b ∈ bs -> K' (symbol, bucket b)).
Proof.
  unfold insert_steps. destruct bs as [|b0 bs]; [by intros b ?%elem_of_nil|]. cbn [is_nil].
  apply safe_call. intros d s HK Ht. cbn [perform].
  destruct (insert _ _ _ _) as [s' l] eqn:E. apply insert_spec in E as ((Hsub & _ & Hin & _) & Hs & _).
  split_and!; [done|by eapply told_more|].
  exists (fun k => K k \/ exists b, b ∈ b0 :: bs /\ k = (symbol, bucket b)). split_and!; [by left| |eauto].
  intros k [Hk|(b & Hb & ->)]; [eapply heldb_mono; [done|by apply HK]|].
  unfold heldb. by rewrite (bool_decide_eq_true_2 (is_Some _)), orb_true_r by auto.
Qed.

Lemma told_record d s run_id results at_ :
  told d s -> Forall (true_result (heldb d s)) results -> told d (record_spans s run_id results at_).
Proof.
  intros Ht Hr. unfold told, record_spans. cbn [spans set_spans].
  change (heldb d (set_spans s _)) with (heldb d s).
  unfold told in Ht. revert Ht. generalize (spans s) as t.
  induction Hr as [|r results Hr _ IH]; intros t Ht; [done|]. cbn [fold_left]. apply IH.
  unfold record_span. destruct (t !! _); [done|]. by apply map_Forall_insert_2.
Qed.

Lemma safe_record K run_id results at_ Q :
  (forall h, (forall k, K k -> h k = true) -> Forall (true_result h) results) -> Q K tt ->
  safe K (call (RecordSpans run_id results at_)) Q.
Proof.
  intros Hr HQ. apply safe_call. intros d s HK Ht. cbn [perform].
  split_and!; [done|by apply told_record; auto|]. exists K. by split_and!.
Qed.

Lemma minutes_from_length fuel a b : (length (minutes_from fuel a b) <= fuel)%nat.
Proof. revert a. induction fuel as [|fuel IH]; intros a; cbn; [done|]. case_match; cbn; [|lia]. specialize (IH (a + MINUTE)). lia. Qed.

(** A span of which as many minutes were counted as it has, has them all. *)
Lemma count_in_all (sp : Span) (p : Z -> bool) :
  count_in sp p = span_minutes sp -> Forall (fun m => p m = true) (each_minute sp).
Proof.
  unfold count_in, span_minutes. intros Hc.
  assert (Hlen : (length (each_minute sp) <= Z.to_nat ((sp_end sp - sp_start sp) / MINUTE + 1))%nat)
    by apply minutes_from_length.
  assert (Hall : (length (each_minute sp) <= length (List.filter p (each_minute sp)))%nat).
  { destruct (Z.le_gt_cases (sp_start sp) (sp_end sp)).
    - rewrite Z.quot_div_nonneg in Hc by (unfold MINUTE; lia). lia.
    - assert ((sp_end sp - sp_start sp) / MINUTE < 0) by (apply Z.div_lt_upper_bound; unfold MINUTE; lia). lia. }
  clear Hc Hlen. induction (each_minute sp) as [|m l IH]; [done|]. cbn in Hall.
  pose proof (List.filter_length_le p l) as Hle. destruct (p m) eqn:Hp; cbn in Hall; [|lia].
  constructor; [done|]. apply IH. lia.
Qed.

(** What [_fetch] says of a span is true once the bars it received have rows. *)
Lemma span_result_true (h : string * Z -> bool) (received : gmap Z (Bar F)) done sp :
  (forall m b, received !! m = Some b -> h (sp_symbol sp, m) = true) ->
  true_result h (span_result received done sp).
Proof.
  intros Hh. assert (Hin : forall m, bool_decide (is_Some (received !! m)) = true -> h (sp_symbol sp, m) = true)
    by (intros m [b Hb]%bool_decide_eq_true; by eapply Hh).
  unfold true_result, span_result. cbn. split.
  - apply count_in_le. intros m _. apply Hin.
  - destruct (Z.eqb_spec (count_in sp (fun m => bool_decide (is_Some (received !! m)))) (span_minutes sp)) as [Hc|];
      [|by case_match]. intros _. eapply Forall_impl; [by apply count_in_all|]. intros m. apply Hin.
Qed.

Lemma failed_result_true (h : string * Z -> bool) msg sp : true_result h (failed_result msg sp).
Proof. split; [cbn; unfold count_in; lia|done]. Qed.

Lemma in_minute_order_elem (m : gmap Z (Bar F)) k b : m !! k = Some b -> b ∈ in_minute_order m.
Proof.
  intros Hk. unfold in_minute_order. apply list_elem_of_omap. exists k. split; [|done].
  apply elem_of_py_sorted, list_elem_of_fmap. exists (k, b). split; [done|]. by apply elem_of_map_to_list.
Qed.

(* ------------------------------------------------------------------ *)
(** ** The run's program is safe *)

Context (symbols : list string) (cfg : RecoveryConfig) (is_open : datetime -> bool).
Context (instance provider_name : string).
Context (reply : nat -> Request -> Reply F) (quota : nat -> bool) (stop : nat -> bool).
Implicit Types (o : Own F) (rep : RunReport).

(** The spans of a request are its pair's. *)
Definition one_pair (r : Request) : Prop := Forall (fun sp => sp_symbol sp = rq_symbol r) (rq_spans r).

Lemma split_from_symbol fuel symbol a b n : Forall (fun sp => sp_symbol sp = symbol) (split_from fuel symbol a b n).
Proof. revert a. induction fuel as [|fuel IH]; intros a; cbn; [done|]. case_match; [|done]. by constructor. Qed.

Lemma plan_symbol_one_pair sps n symbol : Forall one_pair (plan_symbol sps n symbol).
Proof.
  unfold plan_symbol. set (parts := concat _).
  assert (Hparts : Forall (fun sp => sp_symbol sp = symbol) parts).
  { apply Forall_forall. intros p (sp & [_ <-]%spans_of_elem & Hp)%elem_of_concat_fmap.
    exact (proj1 (Forall_forall _ _) (split_from_symbol _ _ _ _ _) p Hp). }
  assert (Hgen : forall st, Forall one_pair st.1 -> Forall (fun sp => sp_symbol sp = symbol) st.2 ->
    let '(requests, current) := fold_left (plan_part symbol n) parts st in
    Forall one_pair requests /\ Forall (fun sp => sp_symbol sp = symbol) current).
  { induction Hparts as [|p parts Hp _ IH]; intros [reqs cur] Hreqs Hcur; [done|]. cbn [fold_left]. apply IH;
      unfold plan_part; (destruct cur; [|case_match]); cbn [fst snd] in *;
      rewrite ?Forall_app, ?Forall_singleton; split_and?; done. }
  specialize (Hgen ([], []) ltac:(done) ltac:(done)). destruct (fold_left _ _ _) as [reqs cur].
  destruct Hgen as [Hreqs Hcur]. destruct cur; [done|]. apply Forall_app. split; [done|]. by apply Forall_singleton.
Qed.

Lemma plan_one_pair sps n r : r ∈ plan_requests sps n -> one_pair r.
Proof.
  intros (x & _ & Hr)%elem_of_concat_fmap. exact (proj1 (Forall_forall _ _) (plan_symbol_one_pair _ _ _) r Hr).
Qed.

(** A program made of calls that meet [P], by its structure. *)
Ltac by_calls := repeat first
  [ done | progress intros | split | apply all_ops_then
  | match goal with |- context [match ?x with _ => _ end] => destruct x end ].

Lemma would_take_reads symbol ms : all_ops reads (would_take_steps symbol ms).
Proof. unfold would_take_steps. by_calls. Qed.

Lemma missing_reads w ready now todo : all_ops reads (missing_steps cfg is_open w ready now todo).
Proof. induction todo; [done|]. cbn [missing_steps]. by_calls. Qed.

Lemma stale_reads w now views : all_ops reads (stale_steps (F:=F) w now views).
Proof. induction views as [|[[view width] offset] views IH]; [done|]. cbn [stale_steps]. by_calls. Qed.

Lemma repairs_reads now todo : all_ops reads (repairs_steps now todo).
Proof.
  induction todo; [done|]. cbn [repairs_steps]. apply all_ops_then; [done|]. intros r.
  apply all_ops_then; [apply would_take_reads|by_calls].
Qed.

Lemma repair_quiet l n : all_ops quiet (repair_steps l n).
Proof. revert n. induction l; intros n; [done|]. cbn [repair_steps]. by_calls. Qed.

Lemma refresh_quiet targets views rep : all_ops quiet (refresh_steps (F:=F) targets views rep).
Proof. revert rep. induction views; intros rep; [done|]. cbn [refresh_steps]. by_calls. Qed.

Lemma finish_quiet o rep changed incomplete error stale now :
  all_ops quiet (finish_steps symbols o rep changed incomplete error stale now).
Proof.
  unfold finish_steps. apply all_ops_then; [apply refresh_quiet|]. intros rep'.
  apply all_ops_then; [eapply all_ops_weaken; [apply reads_quiet|apply repairs_reads]|].
  intros repairs. apply all_ops_then; [apply repair_quiet|by_calls].
Qed.

Lemma safe_true {A} K (p : prog F A) : all_ops quiet p -> safe K p (fun _ _ => True).
Proof. intros. by apply safe_quiet. Qed.

Lemma fetch_safe K i run_id now o rep r :
  one_pair r -> safe K (fetch_steps reply i run_id now o rep r) (fun _ _ => True).
Proof.
  intros Hone. unfold fetch_steps. destruct (reply i r) as [bs| | | |].
  2-5: eapply safe_then; [|by intros]; apply (safe_record _ _ _ _ (fun _ _ => True)); [|done];
    intros h _; apply Forall_fmap, Forall_true; intros; apply failed_result_true.
  eapply safe_then; [apply safe_insert|]. intros K1 inserted HK1.
  eapply safe_then; [apply (safe_quiet _ _ (fun K' _ => K' = K1)); [|done]|].
  { unfold cache_steps. by_calls. }
  intros K2 cached ->. eapply safe_then; [|by intros]. apply (safe_record _ _ _ _ (fun _ _ => True)); [|done].
  intros h Hh. apply Forall_fmap. eapply Forall_impl; [exact Hone|]. intros sp Hsp. cbn.
  apply span_result_true. intros m b Hb. apply Hh. rewrite Hsp.
  pose proof (received_bars_spec _ _ _ _ Hb) as (_ & _ & <- & _). apply HK1.
  by eapply in_minute_order_elem.
Qed.

Lemma requests_safe run_id now requests : Forall one_pair requests ->
  forall K i o rep changed incomplete error refused,
  safe K (requests_steps reply quota stop i run_id now requests o rep changed incomplete error refused)
    (fun _ _ => True).
Proof.
  induction 1 as [|r requests Hr _ IH]; intros; [done|]. cbn [requests_steps].
  destruct (stop i); [done|]. case_bool_decide; [apply IH|]. destruct (quota i); [|done]. cbn [negb].
  eapply safe_then; [by apply fetch_safe|]. intros K' [[o' rep'] [a|inserted]] _; [|apply IH].
  destruct a; try done; apply IH.
Qed.

Lemma locked_safe K o trigger run_id apply ready w now :
  safe K (locked_steps symbols cfg is_open instance provider_name reply quota stop o trigger run_id
    apply ready w now) (fun _ _ => True).
Proof.
  unfold locked_steps. eapply safe_then; [apply safe_true; by destruct apply|]. intros K1 aborted _.
  eapply safe_then; [apply safe_true; eapply all_ops_weaken; [apply reads_quiet|apply missing_reads]|].
  intros K2 [spans_missing askable] _.
  eapply safe_then; [apply safe_true; eapply all_ops_weaken; [apply reads_quiet|apply stale_reads]|].
  intros K3 stale _. eapply safe_then; [apply safe_true|].
  { destruct ready; [|done]. eapply all_ops_weaken; [apply reads_quiet|apply repairs_reads]. }
  intros K4 repairs _. repeat (case_match; [done|]).
  eapply safe_then; [by apply safe_true|]. intros K5 ? _.
  eapply safe_then; [apply requests_safe|].
  - apply Forall_take, Forall_forall. intros r [Hr _]%elem_of_lfilter. by eapply plan_one_pair.
  - intros K6 [[o' rep'] [[changed incomplete] error]] _. apply safe_true, finish_quiet.
Qed.

(** A dry run only reads. *)
Lemma dry_run_reads o trigger run_id ready w now :
  all_ops reads (locked_steps symbols cfg is_open instance provider_name reply quota stop o trigger run_id
    false ready w now).
Proof.
  unfold locked_steps. cbn [prog_then negb]. apply all_ops_then; [apply missing_reads|]. intros [? ?].
  apply all_ops_then; [apply stale_reads|]. intros stale.
  apply all_ops_then; [destruct ready; [apply repairs_reads|done]|done].
Qed.
End Truth.

(* ------------------------------------------------------------------ *)
(** ** Processes over the same tables *)

(** What a call of [run_once] is given, the [HistoryRecovery] it is made on
    included. *)
Record RunCall F := {
  rn_symbols : list string;
  rn_cfg : RecoveryConfig;
  rn_is_open : datetime -> bool;
  rn_instance : string;
  rn_provider : string;
  rn_own : Own F;
  rn_trigger : string;
  rn_apply : bool;
  rn_ready : bool;
  rn_window : option Window;
  rn_now : datetime;
  rn_reply : nat -> Request -> Reply F;
  rn_quota : nat -> bool;
  rn_stop : nat -> bool;
}.
#[global] Arguments rn_symbols {F} _.
#[global] Arguments rn_cfg {F} _.
#[global] Arguments rn_is_open {F} _.
#[global] Arguments rn_instance {F} _.
#[global] Arguments rn_provider {F} _.
#[global] Arguments rn_own {F} _.
#[global] Arguments rn_trigger {F} _.
#[global] Arguments rn_apply {F} _.
#[global] Arguments rn_ready {F} _.
#[global] Arguments rn_window {F} _.
#[global] Arguments rn_now {F} _.
#[global] Arguments rn_reply {F} _.
#[global] Arguments rn_quota {F} _.
#[global] Arguments rn_stop {F} _.

Section Server.
Context {F : Type} `{PyFloat F} `{SortedSet}.
Context (dumps : json F -> string).
Context (stale_row : Store F -> string -> datetime * datetime -> option (datetime * datetime)).
Notation does := (perform dumps stale_row).

(** [run_once] up to the lock: the window to look at, or the report that says why
    there is none. *)
Definition starting (x : RunCall F) : Window + RunReport :=
  if match own_blocked (rn_own x) with Some t => rn_now x <? t | None => false end
  then inr (RunReport_new "skipped" "provider back-off" None)
  else
    match match rn_window x with
          | Some w => Some w
          | None => recovery_window (rn_now x) (lookback (rn_cfg x)) (horizon (rn_cfg x))
          end with
    | None => inr (RunReport_new "skipped" "empty window" None)
    | Some w =>
        if rn_apply x && negb (rn_ready x)
        then inr (RunReport_new "skipped" "migration 004 is not applied" (Some w)) else inl w
    end.

Definition run_program (x : RunCall F) (run_id : string) (w : Window) : prog F (Own F * RunReport) :=
  locked_steps (rn_symbols x) (rn_cfg x) (rn_is_open x) (rn_instance x) (rn_provider x)
    (rn_reply x) (rn_quota x) (rn_stop x) (rn_own x) (rn_trigger x) run_id (rn_apply x) (rn_ready x)
    w (rn_now x).

(** The tables, the runs in progress by their ids, the session that holds the
    advisory lock, the ids given out, what retention has dropped and what the ended
    calls returned. *)
Record Server := {
  sv_store : Store F;
  sv_runs : string -> option (prog F (Own F * RunReport));
  sv_lock : option string;
  sv_used : gset string;
  sv_dropped : datetime;
  sv_done : list (string * (Own F * RunReport));
}.
Implicit Types (sv : Server) (id : string).

Definition set_run {P} (f : string -> option P) id (v : option P) : string -> option P :=
  fun id' => if bool_decide (id' = id) then v else f id'.

Lemma set_run_same {P} (f : string -> option P) id v : set_run f id v id = v.
Proof. unfold set_run. by rewrite bool_decide_eq_true_2. Qed.
Lemma set_run_other {P} (f : string -> option P) id id' v : id' <> id -> set_run f id v id' = f id'.
Proof. intros. unfold set_run. by rewrite bool_decide_eq_false_2. Qed.

Definition put_run sv id (s : Store F) (p : prog F (Own F * RunReport)) : Server := {|
  sv_store := s; sv_runs := set_run (sv_runs sv) id (Some p); sv_lock := sv_lock sv;
  sv_used := sv_used sv; sv_dropped := sv_dropped sv; sv_done := sv_done sv |}.

(** The [finally] of [exclusive]: the session's own lock is released. *)
Definition leave_run sv id (result : list (string * (Own F * RunReport))) : Server := {|
  sv_store := sv_store sv; sv_runs := set_run (sv_runs sv) id None;
  sv_lock := if bool_decide (sv_lock sv = Some id) then None else sv_lock sv;
  sv_used := sv_used sv; sv_dropped := sv_dropped sv; sv_done := sv_done sv ++ result |}.

(** What can happen: a call of [run_once] with a fresh id; the next call to
    PostgreSQL or Redis of a run, or its end; a call that raises, its effect made or
    not, or the run's task being cancelled; the death of a run's process; the end of the connection
    that holds a run's lock; the writes of others, the worker's upserts and the hot
    caches' live writer; the retention policy. *)
Inductive ServerEvent :=
  | Enter id (x : RunCall F)
  | Turn id
  | Fails id (written : bool)
  | Crash id
  | SessionEnds id
  | Writes (t : gmap (string * Z) (Row F)) (c : gmap string zset)
  | Retention (upto : datetime).

Definition server_step sv (ev : ServerEvent) : Server :=
  match ev with
  | Enter id x =>
      if bool_decide (id ∈ sv_used sv) then sv
      else
        let sv := {| sv_store := sv_store sv; sv_runs := sv_runs sv; sv_lock := sv_lock sv;
          sv_used := {[ id ]} ∪ sv_used sv; sv_dropped := sv_dropped sv; sv_done := sv_done sv |} in
        match starting x with
        | inr rep => leave_run sv id [(id, (rn_own x, rep))]
        | inl w =>
            match sv_lock sv with
            | Some _ => leave_run sv id [(id, (rn_own x,
                RunReport_new "skipped" "another recovery run holds the lock" (Some w)))]
            | None => {|
                sv_store := sv_store sv; sv_runs := set_run (sv_runs sv) id (Some (run_program x id w));
                sv_lock := Some id; sv_used := sv_used sv; sv_dropped := sv_dropped sv;
                sv_done := sv_done sv |}
            end
        end
  | Turn id =>
      match sv_runs sv id with
      | Some (Do op k) => let '(s, r) := does op (sv_store sv) in put_run sv id s (k r)
      | Some (Ret result) => leave_run sv id [(id, result)]
      | Some Throw => leave_run sv id []
      | None => sv
      end
  | Fails id written =>
      match sv_runs sv id with
      | Some (Do op _) =>
          put_run sv id (if written then (does op (sv_store sv)).1 else sv_store sv) Throw
      | _ => sv
      end
  | Crash id => {|
      sv_store := sv_store sv; sv_runs := set_run (sv_runs sv) id None; sv_lock := sv_lock sv;
      sv_used := sv_used sv; sv_dropped := sv_dropped sv; sv_done := sv_done sv |}
  | SessionEnds id => {|
      sv_store := sv_store sv; sv_runs := sv_runs sv;
      sv_lock := if bool_decide (sv_lock sv = Some id) then None else sv_lock sv;
      sv_used := sv_used sv; sv_dropped := sv_dropped sv; sv_done := sv_done sv |}
  | Writes t c =>
      if bool_decide (dom (bars (sv_store sv)) ⊆ dom t) then {|
        sv_store := set_caches (set_bars (sv_store sv) t) c; sv_runs := sv_runs sv; sv_lock := sv_lock sv;
        sv_used := sv_used sv; sv_dropped := sv_dropped sv; sv_done := sv_done sv |}
      else sv
  | Retention upto => {|
      sv_store := set_bars (sv_store sv) (filter (fun kr => upto <= kr.1.2) (bars (sv_store sv)));
      sv_runs := sv_runs sv; sv_lock := sv_lock sv; sv_used := sv_used sv;
      sv_dropped := Z.max (sv_dropped sv) upto; sv_done := sv_done sv |}
  end.

Definition server_run sv (evs : list ServerEvent) : Server := fold_left server_step evs sv.

(** No run in progress. *)
Definition idle sv : Prop := forall id, sv_runs sv id = None.

(** The writes of no recovery run. *)
Definition foreign (ev : ServerEvent) : bool :=
  match ev with Writes _ _ | Retention _ => true | _ => false end.

(* ------------------------------------------------------------------ *)
(** ** Records stay true *)

Definition sound sv : Prop :=
  told (sv_dropped sv) (sv_store sv) /\
  forall id p, sv_runs sv id = Some p ->
    exists K, knows (sv_dropped sv) (sv_store sv) K /\ safe dumps stale_row K p (fun _ _ => True).

(** Fewer runs, more minutes held, the same spans. *)
Lemma sound_weaken sv sv' :
  sound sv -> (forall k, heldb (sv_dropped sv) (sv_store sv) k = true ->
    heldb (sv_dropped sv') (sv_store sv') k = true) ->
  spans (sv_store sv') = spans (sv_store sv) ->
  (forall id p, sv_runs sv' id = Some p -> sv_runs sv id = Some p) -> sound sv'.
Proof.
  intros [Ht Hr] Hh Hs Hsub. split.
  - intros k row Hk. rewrite Hs in Hk. eapply true_result_weaken; [exact Hh|by apply (Ht k)].
  - intros id p Hp. destruct (Hr id p (Hsub _ _ Hp)) as (K & HK & Hp'). exists K. split; [|done].
    intros k Hk. by apply Hh, HK.
Qed.

(** One run's own write. *)
Lemma sound_put sv id s p K :
  sound sv -> bars (sv_store sv) ⊆ bars s -> told (sv_dropped sv) s ->
  knows (sv_dropped sv) s K -> safe dumps stale_row K p (fun _ _ => True) -> sound (put_run sv id s p).
Proof.
  intros [_ Hr] Hsub Ht HK Hp. split; [done|]. cbn. intros id' p'.
  destruct (decide (id' = id)) as [->|]; [rewrite set_run_same; intros [= <-]; by exists K|].
  rewrite set_run_other by done. intros (K' & HK' & Hp')%Hr. exists K'. split; [|done].
  intros k Hk. eapply heldb_mono; [done|by apply HK'].
Qed.

Lemma leave_sub sv id l id' p : sv_runs (leave_run sv id l) id' = Some p -> sv_runs sv id' = Some p.
Proof.
  cbn. destruct (decide (id' = id)) as [->|]; [by rewrite set_run_same|by rewrite set_run_other].
Qed.

Lemma held_same_rows sv sv' :
  bars (sv_store sv') = bars (sv_store sv) -> sv_dropped sv' = sv_dropped sv ->
  forall k, heldb (sv_dropped sv) (sv_store sv) k = true -> heldb (sv_dropped sv') (sv_store sv') k = true.
Proof. unfold heldb. by intros -> ->. Qed.

Lemma sound_leave sv id l : sound sv -> sound (leave_run sv id l).
Proof.
  intros Hs. eapply sound_weaken; [done|by apply held_same_rows|done|]. apply leave_sub.
Qed.

Lemma sound_enter sv id x : sound sv -> sound (server_step sv (Enter id x)).
Proof.
  intros Hs. cbn [server_step]. case_bool_decide; [done|]. set (sv1 := {| sv_used := _ |}).
  assert (Hs1 : sound sv1) by (eapply sound_weaken; [exact Hs|by apply held_same_rows|done|done]).
  destruct (starting x) as [w|rep]; [|by apply sound_leave].
  cbn [sv_lock]. destruct (sv_lock sv); [by apply sound_leave|]. split; [apply Hs|]. cbn. intros id' p.
  destruct (decide (id' = id)) as [->|].
  - rewrite set_run_same. intros [= <-]. exists (fun _ => False). split; [by intros k|apply locked_safe].
  - rewrite set_run_other by done. apply Hs.
Qed.

(** A call of a run, whether or not its answer arrives. *)
Lemma sound_call sv id R (op : Op F R) k s r p :
  sound sv -> sv_runs sv id = Some (Do op k) -> does op (sv_store sv) = (s, r) ->
  p = k r \/ p = Throw -> sound (put_run sv id s p).
Proof.
  intros Hs Hid Hop Hp. pose proof Hs as [Ht Hr]. destruct (Hr _ _ Hid) as (K & HK & Hsafe).
  specialize (Hsafe _ _ HK Ht). rewrite Hop in Hsafe. destruct Hsafe as (Hsub & Ht' & K' & _ & HK' & Hk).
  apply (sound_put _ _ _ _ K'); try done. by destruct Hp as [-> | ->].
Qed.

Lemma sound_step sv ev : sound sv -> sound (server_step sv ev).
Proof.
  intros Hs. destruct ev as [id x|id|id written|id|id|t c|upto]; cbn [server_step].
  - by apply sound_enter.
  - destruct (sv_runs sv id) as [[result| |R op k]|] eqn:Hid; [by apply sound_leave..| |done].
    destruct (does op (sv_store sv)) as [s r] eqn:Hop. eapply sound_call; [done..|by left].
  - destruct (sv_runs sv id) as [[result| |R op k]|] eqn:Hid; [done..| |done].
    destruct written; [|by apply (sound_put _ _ _ _ (fun _ => False)); [|done|apply Hs|by intros ?|done]].
    destruct (does op (sv_store sv)) as [s r] eqn:Hop. eapply sound_call; [done..|by right].
  - eapply sound_weaken; [done|by apply held_same_rows|done|]. apply (leave_sub sv id []).
  - eapply sound_weaken; [done|by apply held_same_rows|done|done].
  - case_bool_decide as Hdom; [|done]. eapply sound_weaken; [done| |done|done].
    intros k. unfold heldb. cbn. rewrite !orb_true_iff, !bool_decide_eq_true, <- !elem_of_dom. set_solver.
  - eapply sound_weaken; [done| |done|done]. intros k. unfold heldb. cbn.
    rewrite !orb_true_iff, !bool_decide_eq_true, !Z.ltb_lt. intros [?|[row Hrow]]; [left; lia|].
    destruct (Z.lt_ge_cases k.2 upto); [left; lia|right]. exists row. by apply map_lookup_filter_Some_2.
Qed.

Lemma sound_run sv evs : sound sv -> sound (server_run sv evs).
Proof. intros Hs. apply (fold_left_inv sound); [|done]. intros. by apply sound_step. Qed.

(** Only others change a stored row. *)
Lemma own_step_keeps_rows sv ev :
  sound sv -> foreign ev = false -> bars (sv_store sv) ⊆ bars (sv_store (server_step sv ev)).
Proof.
  intros [Ht Hr] Hf. destruct ev as [id x|id|id written|id|id|t c|upto]; cbn [server_step]; try done.
  - case_bool_decide; [done|]. destruct (starting x); [|done]. cbn [sv_lock]. by destruct (sv_lock sv).
  - destruct (sv_runs sv id) as [[result| |R op k]|] eqn:Hid; try done.
    destruct (Hr _ _ Hid) as (K & HK & Hsafe). specialize (Hsafe _ _ HK Ht).
    destruct (does op (sv_store sv)). apply Hsafe.
  - destruct (sv_runs sv id) as [[result| |R op k]|] eqn:Hid; try done. destruct written; [|done].
    destruct (Hr _ _ Hid) as (K & HK & Hsafe). specialize (Hsafe _ _ HK Ht). cbn.
    destruct (does op (sv_store sv)). apply Hsafe.
Qed.

(** C13. Records stay true.  However the calls of recovery runs fall between one
    another and between the writes of the worker, the live feed and the retention
    policy, whichever calls fail with or without effect, whichever processes die and
    whichever runs lose their lock: what [history_recovery_spans] says stays true - of
    every span at least the minutes counted as received have a row, or are older than
    what retention has dropped, and all of them if it says [recovered]; and no run ever
    changes or removes a stored row. *)
Theorem records_stay_true sv evs :
  idle sv -> told (sv_dropped sv) (sv_store sv) ->
  told (sv_dropped (server_run sv evs)) (sv_store (server_run sv evs)) /\
  forall ev, foreign ev = false ->
    bars (sv_store (server_run sv evs)) ⊆ bars (sv_store (server_step (server_run sv evs) ev)).
Proof.
  intros Hidle Ht. assert (Hs : sound (server_run sv evs)).
  { apply sound_run. split; [done|]. intros id p Hp. by rewrite Hidle in Hp. }
  split; [apply Hs|]. intros ev. by apply own_step_keeps_rows.
Qed.

(* ------------------------------------------------------------------ *)
(** ** One run at a time *)

(** No run loses its lock while it is in progress. *)
Definition orderly sv (ev : ServerEvent) : Prop :=
  match ev with SessionEnds id => sv_runs sv id = None | _ => True end.

Fixpoint orderly_run sv (evs : list ServerEvent) : Prop :=
  match evs with
  | [] => True
  | ev :: evs => orderly sv ev /\ orderly_run (server_step sv ev) evs
  end.

Definition exclusive_lock sv : Prop := forall id p, sv_runs sv id = Some p -> sv_lock sv = Some id.

Lemma exclusive_leave sv id l : exclusive_lock sv -> exclusive_lock (leave_run sv id l).
Proof.
  intros Hx id' p. cbn. destruct (decide (id' = id)) as [->|]; [by rewrite set_run_same|].
  rewrite set_run_other by done. intros Hp%Hx. rewrite Hp, bool_decide_eq_false_2; [done|]. by intros [= ->].
Qed.

Lemma exclusive_put sv id s p p0 :
  exclusive_lock sv -> sv_runs sv id = Some p0 -> exclusive_lock (put_run sv id s p).
Proof.
  intros Hx Hid id' p'. cbn. destruct (decide (id' = id)) as [->|]; [intros _; by eapply Hx|].
  rewrite set_run_other by done. apply Hx.
Qed.

Lemma exclusive_step sv ev : exclusive_lock sv -> orderly sv ev -> exclusive_lock (server_step sv ev).
Proof.
  intros Hx Ho. destruct ev as [id x|id|id written|id|id|t c|upto]; cbn [server_step]; try done.
  - case_bool_decide; [done|]. set (sv1 := {| sv_used := _ |}). assert (Hx1 : exclusive_lock sv1) by exact Hx.
    destruct (starting x) as [w|rep]; [|by apply exclusive_leave].
    destruct (sv_lock sv1) eqn:Hl; [by apply exclusive_leave|]. intros id' p. cbn.
    destruct (decide (id' = id)) as [->|]; [done|]. rewrite set_run_other by done.
    intros Hp%Hx. cbn in Hl. congruence.
  - destruct (sv_runs sv id) as [[result| |R op k]|] eqn:Hid; try done; try by apply exclusive_leave.
    destruct (does op (sv_store sv)). by eapply exclusive_put.
  - destruct (sv_runs sv id) as [[result| |R op k]|] eqn:Hid; try done. by eapply exclusive_put.
  - intros id' p. cbn. destruct (decide (id' = id)) as [->|]; [by rewrite set_run_same|].
    rewrite set_run_other by done. apply Hx.
  - intros id' p. cbn. intros Hp. pose proof (Hx _ _ Hp) as Hl. rewrite Hl, bool_decide_eq_false_2; [done|].
    intros [= ->]. cbn in Ho. congruence.
  - by case_bool_decide.
Qed.

Lemma exclusive_run sv evs : exclusive_lock sv -> orderly_run sv evs -> exclusive_lock (server_run sv evs).
Proof.
  revert sv. induction evs as [|ev evs IH]; intros sv Hx Ho; [done|]. destruct Ho as [? Ho].
  by apply IH; [apply exclusive_step|].
Qed.

(** The event is a step of that run. *)
Definition step_of id (ev : ServerEvent) : bool :=
  match ev with Turn id' | Fails id' _ => bool_decide (id' = id) | _ => false end.

(** The run lock.  As long as no run's connection closes while the run goes on,
    whatever starts, fails, dies or writes: at most one run is in progress, and while
    it is, nothing but its own steps changes what is recorded of any run or span - so
    that a run still [running] when another begins, and is marked aborted by it, is
    dead. *)
Theorem one_run_at_a_time sv evs :
  idle sv -> orderly_run sv evs ->
  (forall id id' p p', sv_runs (server_run sv evs) id = Some p ->
     sv_runs (server_run sv evs) id' = Some p' -> id' = id) /\
  (forall id p ev, sv_runs (server_run sv evs) id = Some p -> step_of id ev = false ->
     runs (sv_store (server_step (server_run sv evs) ev)) = runs (sv_store (server_run sv evs)) /\
     spans (sv_store (server_step (server_run sv evs) ev)) = spans (sv_store (server_run sv evs))).
Proof.
  intros Hidle Ho. assert (Hx : exclusive_lock (server_run sv evs)).
  { apply exclusive_run; [|done]. intros id p Hp. by rewrite Hidle in Hp. }
  assert (Hone : forall id id' p p', sv_runs (server_run sv evs) id = Some p ->
    sv_runs (server_run sv evs) id' = Some p' -> id' = id).
  { intros id id' p p' Hp%Hx Hp'%Hx. congruence. }
  split; [exact Hone|]. intros id p ev Hp Hev. set (sv1 := server_run sv evs) in *.
  destruct ev as [id' x|id'|id' written|id'|id'|t c|upto]; cbn [server_step]; try done.
  - case_bool_decide; [done|]. destruct (starting x); [|done]. cbn [sv_lock]. by destruct (sv_lock sv1).
  - destruct (sv_runs sv1 id') as [p'|] eqn:Hp'; [|done].
    cbn in Hev. rewrite bool_decide_eq_true_2 in Hev; [done|by eapply Hone].
  - destruct (sv_runs sv1 id') as [p'|] eqn:Hp'; [|done].
    cbn in Hev. rewrite bool_decide_eq_true_2 in Hev; [done|by eapply Hone].
  - by case_bool_decide.
Qed.

(* ------------------------------------------------------------------ *)
(** ** An undisturbed run *)

(** The steps a program takes to its end, when nothing comes between. *)
Lemma turns_alone id p : forall sv s result,
  sv_runs sv id = Some p -> alone dumps stale_row p (sv_store sv) = (s, Some result) ->
  exists n, let sv' := server_run sv (repeat (Turn id) n) in
  sv_store sv' = s /\ sv_lock sv' = (if bool_decide (sv_lock sv = Some id) then None else sv_lock sv) /\
  sv_runs sv' id = None /\ (forall id', id' <> id -> sv_runs sv' id' = sv_runs sv id') /\
  sv_done sv' = sv_done sv ++ [(id, result)].
Proof.
  induction p as [a| |R op k IH]; intros sv s result Hid Ha; [..|].
  - injection Ha as <- <-. exists 1%nat. cbn. rewrite Hid. cbn. rewrite set_run_same. split_and!; try done.
    intros id' ?. by rewrite set_run_other.
  - done.
  - cbn in Ha. destruct (does op (sv_store sv)) as [s1 r] eqn:Hop.
    destruct (IH r (put_run sv id s1 (k r)) s result) as (n & Hn); [by cbn; rewrite set_run_same|done|].
    exists (S n). cbn [repeat server_run fold_left server_step]. rewrite Hid, Hop. cbv zeta in *.
    destruct Hn as (? & ? & ? & Hother & ?). split_and!; try done.
    intros id' ?. unfold server_run in *. rewrite Hother by done. cbn. by rewrite set_run_other.
Qed.

Lemma enter_free sv id x w :
  id ∉ sv_used sv -> starting x = inl w -> sv_lock sv = None ->
  let sv1 := server_step sv (Enter id x) in
  sv_store sv1 = sv_store sv /\ sv_runs sv1 = set_run (sv_runs sv) id (Some (run_program x id w)) /\
  sv_lock sv1 = Some id /\ sv_done sv1 = sv_done sv.
Proof. intros Hid Hs Hl. cbn [server_step]. rewrite bool_decide_eq_false_2, Hs by done. cbn. by rewrite Hl. Qed.

(** C33. Undisturbed, a run is [run_once].  When the lock is free and nothing comes
    between, a call of [run_once], taken one call to PostgreSQL or Redis at a time,
    ends after finitely many; it leaves the tables, its object and the report exactly as
    the function [run_once] of [RecoveryRun.v] says; it holds the lock meanwhile and
    gives it back. *)
Theorem undisturbed_run sv id (x : RunCall F) st st' rep :
  idle sv -> sv_lock sv = None -> id ∉ sv_used sv ->
  store st = sv_store sv -> own st = rn_own x ->
  run_once dumps (rn_symbols x) (rn_cfg x) (rn_is_open x) (rn_instance x) (rn_provider x)
    (rn_reply x) (rn_quota x) (rn_stop x) stale_row st (rn_trigger x) id (rn_apply x)
    (rn_window x) (rn_now x) (rn_ready x) true = (st', rep) ->
  exists n, let sv' := server_run sv (Enter id x :: repeat (Turn id) n) in
  sv_store sv' = store st' /\ idle sv' /\ sv_lock sv' = None /\
  sv_done sv' = sv_done sv ++ [(id, (own st', rep))].
Proof.
  intros Hidle Hl Hid Hst Hown Hrun.
  assert (Hstart : match starting x with
    | inr rep' => (st', rep) = (st, rep')
    | inl w => locked dumps (rn_symbols x) (rn_cfg x) (rn_is_open x) (rn_instance x) (rn_provider x)
        (rn_reply x) (rn_quota x) (rn_stop x) stale_row st (rn_trigger x) id (rn_apply x) (rn_ready x)
        w (rn_now x) = (st', rep) end).
  { unfold run_once in Hrun. unfold starting. rewrite <- Hown. cbn [own_blocked own].
    destruct (match blocked_until st with Some _ => _ | None => _ end); [done|].
    destruct (match rn_window x with Some _ => _ | None => _ end); [|done]. by destruct (rn_apply x && _). }
  destruct (starting x) as [w|rep'] eqn:Hs.
  - pose proof (locked_alone dumps stale_row (rn_symbols x) (rn_cfg x) (rn_is_open x) (rn_instance x)
      (rn_provider x) (rn_reply x) (rn_quota x) (rn_stop x) st (rn_trigger x) id (rn_apply x) (rn_ready x)
      w (rn_now x)) as Halone. rewrite Hstart, Hown, Hst in Halone.
    destruct (enter_free sv id x w Hid Hs Hl) as (Hst1 & Hruns1 & Hl1 & Hd1).
    destruct (turns_alone id (run_program x id w) (server_step sv (Enter id x)) (store st') (own st', rep))
      as (n & Hn); [by rewrite Hruns1, set_run_same|by rewrite Hst1|].
    exists n. destruct Hn as (? & Hlock & Hme & Hother & Hdone). split_and!; [done| | |].
    + intros id'. destruct (decide (id' = id)) as [->|]; [done|].
      etrans; [by apply Hother|]. rewrite Hruns1, set_run_other by done. apply Hidle.
    + etrans; [exact Hlock|]. by rewrite Hl1, bool_decide_eq_true_2.
    + etrans; [exact Hdone|]. by rewrite Hd1.
  - injection Hstart as -> ->. exists O. cbn. rewrite bool_decide_eq_false_2, Hs by done. cbn.
    rewrite Hl, Hown, Hst. split_and!; try done. intros id'. cbn. unfold set_run. case_bool_decide; [done|apply Hidle].
Qed.
End Server.

(* ------------------------------------------------------------------ *)
(** ** Two runs *)

Section Demo.
#[local] Existing Instance plain64.
#[local] Existing Instance sorted_list.
Notation F := SpecFloat.spec_float.

Definition demo_call (trigger : string) : RunCall F := {|
  rn_symbols := demo_symbols; rn_cfg := demo_cfg; rn_is_open := demo_open; rn_instance := "i";
  rn_provider := "tiingo"; rn_own := own demo_recovery; rn_trigger := trigger; rn_apply := true;
  rn_ready := true; rn_window := Some demo_window; rn_now := demo_minute 60; rn_reply := demo_reply;
  rn_quota := fun _ => true; rn_stop := fun _ => false |}.

Definition demo_server : Server (F:=F) := {|
  sv_store := demo_store; sv_runs := fun _ => None; sv_lock := None; sv_used := ∅; sv_dropped := 0;
  sv_done := [] |}.

Notation go := (server_run (fun _ => "x"%string) (fun _ _ _ => None)).

(** A leader's run has begun; its lock's connection closes; an operator's run
    starts; then the first goes on. *)
Definition demo_lost : list (ServerEvent (F:=F)) :=
  Enter "run-1" (demo_call "leadership") :: repeat (Turn "run-1") 14 ++
  [SessionEnds "run-1"; Enter "run-2" (demo_call "manual"); Turn "run-2"].

Definition run_status_of (sv : Server (F:=F)) (id : string) : option string :=
  run_status <$> runs (sv_store sv) !! id.
Definition in_progress (sv : Server (F:=F)) (id : string) : bool :=
  match sv_runs sv id with Some _ => true | None => false end.

(** The second run holds the lock and takes the first for dead while it goes on; the
    first then records its own end over that. *)
Lemma lost_lock_aborts_living :
  run_status_of (go demo_server demo_lost) "run-1" = Some "aborted"%string /\
  in_progress (go demo_server demo_lost) "run-1" = true /\
  in_progress (go demo_server demo_lost) "run-2" = true /\
  run_status_of (go demo_server (demo_lost ++ repeat (Turn "run-1") 9)) "run-1" = Some "partial"%string.
Proof. split_and!; by vm_compute. Qed.

(** A call that fails in a process that lives on: the run stays [running]. *)
Lemma failed_run_stays_running :
  let sv := go demo_server (Enter "run-1" (demo_call "leadership") :: repeat (Turn "run-1") 14 ++
    [Fails "run-1" false; Turn "run-1"]) in
  run_status_of sv "run-1" = Some "running"%string /\ in_progress sv "run-1" = false /\ sv_lock sv = None.
Proof. split_and!; by vm_compute. Qed.

Lemma demo_told : told 0 demo_store.
Proof. apply map_Forall_empty. Qed.

Lemma records_stay_true_witness :
  let sv := go demo_server (demo_lost ++ repeat (Turn "run-2") 22 ++ repeat (Turn "run-1") 9) in
  size (spans (sv_store sv)) = 7%nat /\ told (sv_dropped sv) (sv_store sv).
Proof. split; [by vm_compute|]. apply records_stay_true; [done|apply demo_told]. Defined.

Lemma one_run_at_a_time_witness :
  forall id id' p p', sv_runs (go demo_server (take 15 demo_lost)) id = Some p ->
  sv_runs (go demo_server (take 15 demo_lost)) id' = Some p' -> id' = id.
Proof. apply one_run_at_a_time; [done|by repeat split]. Qed.

Lemma undisturbed_run_witness :
  exists n, sv_store (go demo_server (Enter "run-1" (demo_call "leadership") :: repeat (Turn "run-1") n)) =
  store demo_run.1.
Proof.
  destruct demo_run as [st' rep] eqn:E. unfold demo_run in E.
  destruct (undisturbed_run (fun _ => "x"%string) (fun _ _ _ => None) demo_server "run-1"
    (demo_call "leadership") demo_recovery st' rep) as (n & Hn & _);
    [intros id; reflexivity|reflexivity|apply not_elem_of_empty|reflexivity|reflexivity|exact E|]. by exists n.
Defined.
End Demo.
