(* ===== verification/Rollups.v ===== *)
(** * What a recovery leaves of the rollups ([_STALE_ROLLUP] of [fx_ingestor/recovery.py])

    [bars_5m] and [bars_1h] hold what TimescaleDB materialised of [bars_1m], some
    time ago.  A run asks which closed buckets of its window no longer match and
    refreshes them with those it wrote to.  What the code relies on of TimescaleDB
    and PostgreSQL is the class [Timescale]; the query is the function its text
    denotes; [run_leaves_rollups_fresh] is what the refreshes are for. *)
From S2P Require Import Prelude PyFloat Models Database Json Redis RecoveryPlan RecoveryStore RecoveryRun.

Local Open Scope Z_scope.

(** What the query compares of a row of a rollup. *)
Record VRow F := { v_o : F; v_h : F; v_l : F; v_c : F; v_n : Z }.
Arguments v_o {F} _.
Arguments v_h {F} _.
Arguments v_l {F} _.
Arguments v_c {F} _.
Arguments v_n {F} _.

(** A rollup, or a fold of [bars_1m], by pair and bucket. *)
Abbreviation View F := (gmap (string * Z) (VRow F)).

(** [time_bucket], [max], [min] and [IS DISTINCT FROM] on floats, and
    [refresh_continuous_aggregate], which replaces the buckets of a range by those of
    the defining query. *)
Class Timescale (F : Type) := {
  time_bucket : timedelta -> datetime -> datetime;
  agg_max : list F -> F;
  agg_min : list F -> F;
  distinct_from : F -> F -> bool;
  materialise : View F -> View F -> datetime -> datetime -> View F;
  time_bucket_floor w t : 0 < w -> (w | days 1) -> time_bucket w t = t / w * w;
  distinct_from_irrefl x : distinct_from x x = false;
  materialise_lookup V fold a b k :
    materialise V fold a b !! k = if (a <=? k.2) && (k.2 <? b) then fold !! k else V !! k;
}.

Lemma zmin_elem (l : list Z) : l <> [] -> zmin l ∈ l /\ forall x, x ∈ l -> zmin l <= x.
Proof.
  destruct l as [|y l]; [done|]. intros _. cbn. induction l as [|z l [IH Hle]]; cbn; [split; [set_solver|]|].
  - intros x ->%list_elem_of_singleton. done.
  - split; [destruct (Z.min_spec z (foldr Z.min y l)) as [[_ ->]|[_ ->]]; set_solver|].
    intros x Hx. assert (x = z \/ x ∈ y :: l) as [->|?%Hle] by set_solver; lia.
Qed.

Lemma zmax_elem (l : list Z) : l <> [] -> zmax l ∈ l /\ forall x, x ∈ l -> x <= zmax l.
Proof.
  destruct l as [|y l]; [done|]. intros _. cbn. induction l as [|z l [IH Hle]]; cbn; [split; [set_solver|]|].
  - intros x ->%list_elem_of_singleton. done.
  - split; [destruct (Z.max_spec z (foldr Z.max y l)) as [[_ ->]|[_ ->]]; set_solver|].
    intros x Hx. assert (x = z \/ x ∈ y :: l) as [->|?%Hle] by set_solver; lia.
Qed.

Lemma zmin_le (l : list Z) x : x ∈ l -> zmin l <= x.
Proof. intros Hx. apply zmin_elem; [|done]. intros ->. by apply elem_of_nil in Hx. Qed.
Lemma zmax_ge (l : list Z) x : x ∈ l -> x <= zmax l.
Proof. intros Hx. apply zmax_elem; [|done]. intros ->. by apply elem_of_nil in Hx. Qed.

(* ------------------------------------------------------------------ *)
(** ** The query *)

Section Query.
Context {F : Type} `{PyFloat F} `{!Timescale F}.
Notation Bars := (gmap (string * Z) (Row F)).
Implicit Types (bars : Bars) (V : View F).

(** The rows of a group, oldest first. *)
Definition group_rows bars (w : timedelta) (k : string * Z) : list ((string * Z) * Row F) :=
  py_sorted Z.leb (fun kr => kr.1.2)
    (map_to_list (filter (fun kr => kr.1.1 = k.1 /\ time_bucket w kr.1.2 = k.2) bars)).

(** [first(open, bucket), max(high), min(low), last(close, bucket), sum(tick_count)] *)
Definition aggregate (rows : list (Row F)) : option (VRow F) :=
  match rows, last rows with
  | first :: _, Some final => Some {|
      v_o := r_open first; v_h := agg_max (r_high <$> rows); v_l := agg_min (r_low <$> rows);
      v_c := r_close final; v_n := foldr Z.add 0 (r_tick_count <$> rows) |}
  | _, _ => None
  end.

Definition fold_at bars (w : timedelta) (k : string * Z) : option (VRow F) :=
  aggregate (snd <$> group_rows bars w k).

(** [GROUP BY symbol, time_bucket(width, bucket)] *)
Definition fold_rows bars (w : timedelta) : View F :=
  map_imap (fun k _ => fold_at bars w k)
    (gset_to_gmap tt (list_to_set (C := gset (string * Z))
      ((fun kr => (kr.1.1, time_bucket w kr.1.2)) <$> map_to_list bars))).

Definition in_range (a b : datetime) (k : string * Z) : bool := (a <=? k.2) && (k.2 <? b).

(** The [WHERE] of the query: a row on one side only, or with a column that differs. *)
Definition differs (f s : option (VRow F)) : bool :=
  match f, s with
  | None, None => false
  | Some f, Some s =>
      distinct_from (v_o f) (v_o s) || distinct_from (v_h f) (v_h s) || distinct_from (v_l f) (v_l s) ||
      distinct_from (v_c f) (v_c s) || negb (v_n f =? v_n s)
  | _, _ => true
  end.

(** [_STALE_ROLLUP]: the first and the last bucket of the range that differ. *)
Definition stale_query bars V (w : timedelta) (bounds : datetime * datetime) : option (datetime * datetime) :=
  let '(a, b) := bounds in
  let fold := fold_rows (filter (fun kr => in_range a b kr.1 = true) bars) w in
  let stored := filter (fun kv => in_range a b kv.1 = true) V in
  match snd <$> List.filter (fun k => differs (fold !! k) (stored !! k)) (elements (dom fold ∪ dom stored)) with
  | [] => None
  | buckets => Some (zmin buckets, zmax buckets)
  end.

(* ------------------------------------------------------------------ *)
(** ** What the query finds *)

Lemma group_none bars w k :
  (forall m row, bars !! (k.1, m) = Some row -> time_bucket w m <> k.2) -> fold_at bars w k = None.
Proof.
  intros Hno. unfold fold_at, group_rows. replace (filter _ bars) with (∅ : Bars); [done|].
  symmetry. apply map_eq. intros [x m]. rewrite lookup_empty. apply map_lookup_filter_None. right.
  intros row Hrow [Hx Hm]. cbn in *. subst x. by apply (Hno m row).
Qed.

Lemma fold_rows_lookup bars w k : fold_rows bars w !! k = fold_at bars w k.
Proof.
  unfold fold_rows. rewrite map_lookup_imap, lookup_gset_to_gmap. case_guard as Hk; [done|].
  symmetry. apply group_none. intros m row Hrow Hm. apply Hk, elem_of_list_to_set, list_elem_of_fmap.
  exists ((k.1, m), row). split; [by destruct k; cbn in *; subst|]. by apply elem_of_map_to_list.
Qed.

(** A group's rows are all of it that counts. *)
Lemma fold_at_ext bars bars' w k :
  (forall m, time_bucket w m = k.2 -> bars !! (k.1, m) = bars' !! (k.1, m)) ->
  fold_at bars w k = fold_at bars' w k.
Proof.
  intros Heq. unfold fold_at, group_rows. do 4 f_equal. apply map_eq. intros [x m].
  apply option_eq. intros row. rewrite !map_lookup_filter_Some. cbn.
  split; intros [Hrow [-> Hm]]; (split; [|done]); [rewrite <- Heq|rewrite Heq]; done.
Qed.

Section Range.
Context (w : timedelta) (Hpos : 0 < w) (Hday : (w | days 1)).

Lemma bucket_bounds m : time_bucket w m <= m < time_bucket w m + w.
Proof.
  rewrite time_bucket_floor by done. pose proof (Z.mul_div_le m w Hpos). pose proof (Z.mod_pos_bound m w Hpos).
  pose proof (Z.div_mod m w ltac:(lia)). lia.
Qed.

Lemma bucket_in_range a b m :
  (w | a) -> (w | b) -> a <= m < b <-> a <= time_bucket w m /\ time_bucket w m < b.
Proof.
  intros [i ->] [j ->]. rewrite time_bucket_floor by done. rewrite multiple_le_floor by done.
  pose proof (multiple_le_floor m w j Hpos) as Hj. split; intros [? ?]; (split; [done|]).
  - destruct (Z.lt_ge_cases (m / w * w) (j * w)) as [|Hge]; [done|]. apply Hj in Hge. lia.
  - destruct (Z.lt_ge_cases m (j * w)) as [|Hge]; [done|]. apply Hj in Hge. lia.
Qed.

Context (a b : datetime) (Ha : (w | a)) (Hb : (w | b)).
Notation ranged bars := (filter (fun kr => in_range a b kr.1 = true) bars).

Lemma in_range_spec (k : string * Z) : in_range a b k = true <-> a <= k.2 /\ k.2 < b.
Proof. unfold in_range. by rewrite andb_true_iff, Z.leb_le, Z.ltb_lt. Qed.

Lemma fold_ranged bars k : in_range a b k = true -> fold_at (ranged bars) w k = fold_at bars w k.
Proof.
  intros Hk%in_range_spec. apply fold_at_ext. intros m Hm. apply option_eq. intros row.
  rewrite map_lookup_filter_Some. split; [by intros []|]. intros Hrow. split; [done|].
  apply in_range_spec. cbn. apply bucket_in_range; [done..|]. by rewrite Hm.
Qed.

Lemma ranged_only bars k : is_Some (fold_at (ranged bars) w k) -> in_range a b k = true.
Proof.
  intros [v Hv]. destruct (in_range a b k) eqn:Hk; [done|]. rewrite group_none in Hv; [done|].
  intros m row [_ Hm%in_range_spec]%map_lookup_filter_Some Heq. cbn in Hm.
  apply bucket_in_range in Hm; [|done..]. rewrite Heq in Hm. apply in_range_spec in Hm. congruence.
Qed.

(** The differing keys of the query are those of the range whose group and stored row
    differ. *)
Lemma stale_keys bars V k :
  k ∈ List.filter (fun k => differs (fold_rows (ranged bars) w !! k) (ranged V !! k))
    (elements (dom (fold_rows (ranged bars) w) ∪ dom (ranged V))) <->
  in_range a b k = true /\ differs (fold_at bars w k) (V !! k) = true.
Proof.
  rewrite elem_of_lfilter, elem_of_elements, elem_of_union, !elem_of_dom, fold_rows_lookup.
  assert (Hv : in_range a b k = true -> ranged V !! k = V !! k).
  { intros Hk. apply option_eq. intros v. rewrite map_lookup_filter_Some. naive_solver. }
  assert (Hin : is_Some (fold_at (ranged bars) w k) \/ is_Some (ranged V !! k) -> in_range a b k = true).
  { intros [?|[v [_ Hk]%map_lookup_filter_Some]]; [by eapply ranged_only|done]. }
  split.
  - intros [Hk%Hin Hd]. by rewrite fold_ranged, Hv in Hd.
  - intros [Hk Hd]. rewrite fold_ranged, Hv by done. split; [|done].
    destruct (fold_at bars w k), (V !! k); (done || eauto).
Qed.

(** The query answers nothing exactly when every bucket of the range matches, and
    otherwise the first and the last bucket that do not. *)
Theorem stale_query_spec bars V :
  match stale_query bars V w (a, b) with
  | None => forall k, in_range a b k = true -> differs (fold_at bars w k) (V !! k) = false
  | Some (first, last) =>
      (exists x, in_range a b (x, first) = true /\ differs (fold_at bars w (x, first)) (V !! (x, first)) = true) /\
      (exists x, in_range a b (x, last) = true /\ differs (fold_at bars w (x, last)) (V !! (x, last)) = true) /\
      (forall k, in_range a b k = true -> differs (fold_at bars w k) (V !! k) = true -> first <= k.2 <= last)
  end.
Proof.
  pose proof (stale_keys bars V) as Hkeys. unfold stale_query.
  set (ks := List.filter _ _) in *. clearbody ks.
  assert (Hall : forall k, in_range a b k = true -> differs (fold_at bars w k) (V !! k) = true -> k.2 ∈ snd <$> ks).
  { intros k Hk Hd. apply list_elem_of_fmap. exists k. split; [done|]. by apply Hkeys. }
  assert (Hback : forall t, t ∈ snd <$> ks -> exists x, in_range a b (x, t) = true /\
    differs (fold_at bars w (x, t)) (V !! (x, t)) = true).
  { intros t ([x t'] & -> & Hx%Hkeys)%list_elem_of_fmap. by exists x. }
  destruct (snd <$> ks) as [|t l].
  - intros k Hk. destruct (differs _ _) eqn:Hd; [|done]. specialize (Hall k Hk Hd). by apply elem_of_nil in Hall.
  - destruct (zmin_elem (t :: l)) as [Hmin Hle]; [done|]. destruct (zmax_elem (t :: l)) as [Hmax Hge]; [done|].
    split_and!; [by apply Hback..|]. intros k Hk Hd. split; [by apply Hle, Hall|by apply Hge, Hall].
Qed.
End Range.
End Query.

(* ------------------------------------------------------------------ *)
(** ** What a run reports as changed *)

Section Changed.
Context {F : Type} `{PyFloat F} `{SortedSet}.
Context (dumps : json F -> string).
Context (reply : nat -> Request -> Reply F) (quota : nat -> bool) (stop : nat -> bool).
Implicit Types (st : Recovery F) (s : Store F) (rep : RunReport).

(** [ms] are the minutes [t'] has rows for that [t] had not. *)
Definition new_minutes (t t' : gmap (string * Z) (Row F)) (ms : list datetime) : Prop :=
  t ⊆ t' /\ (forall k, t !! k = None -> is_Some (t' !! k) -> k.2 ∈ ms) /\
  (forall m, m ∈ ms -> exists x, t !! (x, m) = None /\ is_Some (t' !! (x, m))).

Lemma new_minutes_none t : new_minutes t t [].
Proof. split_and!; [done|by intros k -> []|by intros m ?%elem_of_nil]. Qed.

Lemma new_minutes_app t t' t'' ms ms' :
  new_minutes t t' ms -> new_minutes t' t'' ms' -> new_minutes t t'' (ms ++ ms').
Proof.
  intros (Hs & Hn & He) (Hs' & Hn' & He'). split_and!.
  - by etrans.
  - intros k Hk Hk''. apply elem_of_app. destruct (t' !! k) as [row|] eqn:Hk'; [left|right; by apply Hn'].
    apply Hn; [done|by exists row].
  - intros m [(x & ? & [row ?])%He|(x & Hx & ?)%He']%elem_of_app; exists x; split; try done.
    + exists row. by eapply lookup_weaken.
    + by eapply lookup_weaken_None.
Qed.

Lemma insert_new_minutes s symbol bs run_id s' ms :
  insert s symbol bs run_id = (s', ms) -> new_minutes (bars s) (bars s') ms.
Proof.
  intros ((Hsub & Hnew & _ & _ & Hret & _) & _)%insert_spec. split_and!; [done| |].
  - intros k Hk [row Hrow]. destruct (Hnew k row Hk Hrow) as (b & _ & -> & _). apply Hret. by split; [|exists row].
  - intros m Hm%Hret. by exists symbol.
Qed.

Lemma cache_add_refreshed s symbol bs run_id s' n :
  cache_add dumps s symbol bs run_id = (s', n) -> refreshed s' = refreshed s.
Proof. unfold cache_add. destruct bs; [by intros [= <- <-]|]. destruct (cache_add_script _ _ _). by intros [= <- <-]. Qed.

Lemma fetch_changed i run_id now st rep r st' rep' out :
  fetch dumps reply i run_id now st rep r = (st', rep', out) ->
  refreshed (store st') = refreshed (store st) /\
  new_minutes (bars (store st)) (bars (store st')) (match out with inr ms => ms | inl _ => [] end).
Proof.
  unfold fetch. destruct (reply i r) as [bs| | | |];
    try (intros [= <- <- <-]; split; [done|apply new_minutes_none]).
  destruct (insert _ _ _ _) as [s1 inserted] eqn:Hins.
  destruct (cache_add _ _ _ _ _) as [s2 cached] eqn:Hcache. intros [= <- <- <-]. cbn.
  assert (Href : refreshed s1 = refreshed (store st)).
  { unfold insert in Hins. destruct (fold_left _ _ _). by injection Hins as <- <-. }
  apply insert_new_minutes in Hins. pose proof (cache_add_tables _ _ _ _ _ _ _ Hcache) as (Hb & _).
  apply cache_add_refreshed in Hcache. by rewrite Hcache, Hb.
Qed.

(** The minutes a run calls changed are those it gave rows. *)
Lemma request_loop_changed run_id now requests : forall i st rep changed incomplete error refused t,
  new_minutes t (bars (store st)) changed ->
  let '(st', rep', (changed', _, _)) := request_loop dumps reply quota stop i run_id now requests st rep
    changed incomplete error refused in
  refreshed (store st') = refreshed (store st) /\ new_minutes t (bars (store st')) changed'.
Proof.
  induction requests as [|r requests IH]; intros i st rep changed incomplete error refused t Ht;
    cbn [request_loop]; [done|].
  destruct (stop i); [done|]. case_bool_decide; [by apply IH|]. destruct (quota i); [|done]. cbn [negb].
  destruct (fetch _ _ _ _ _ _ _ _) as [[st1 rep1] out] eqn:Hf. apply fetch_changed in Hf as [Href Hnew].
  assert (Ht1 := new_minutes_app _ _ _ _ _ Ht Hnew).
  destruct out as [a|inserted]; [rewrite app_nil_r in Ht1; destruct a|]; try done;
    match goal with |- context [request_loop _ _ _ _ ?i ?a ?b ?c ?st ?rep ?ch ?inc ?err ?ref] =>
      specialize (IH i st rep ch inc err ref t Ht1);
      destruct (request_loop _ _ _ _ i a b c st rep ch inc err ref) as [[st2 rep2] [[changed' ?] ?]] end;
    destruct IH as [IHr ?]; (split; [|done]); by rewrite IHr.
Qed.

(* ------------------------------------------------------------------ *)
(** ** What a run refreshes *)

Definition refresh_entry (targets : list (string * datetime * datetime)) (view : string)
    : string * datetime * datetime :=
  let mine := List.filter (fun t => bool_decide (t.1.1 = view)) targets in
  (view, zmin ((fun t => t.1.2) <$> mine), zmax ((fun t => t.2) <$> mine)).

Lemma refresh_rollups_log s rep changed stale now s' rep' :
  refresh_rollups s rep changed stale now = (s', rep') ->
  refreshed s' = refreshed s ++
    (refresh_entry (rollup_targets changed stale now) <$>
      remove_dups ((fun t => t.1.1) <$> rollup_targets changed stale now)).
Proof.
  unfold refresh_rollups. set (targets := rollup_targets _ _ _).
  generalize (remove_dups ((fun t => t.1.1) <$> targets)) as views. intros views. revert s rep.
  induction views as [|v views IH]; intros s rep; cbn; [intros [= <- <-]; by rewrite app_nil_r|].
  intros ->%IH. cbn. by rewrite <- app_assoc.
Qed.

Lemma repair_cache_refreshed symbols s now s' n : repair_cache dumps symbols s now = (s', n) -> refreshed s' = refreshed s.
Proof.
  unfold repair_cache. generalize (cache_repairs symbols s now) as l. intros l.
  assert (Hgen : forall sa, fold_left (repair_one dumps) l sa = (s', n) -> refreshed s' = refreshed sa.1).
  { induction l as [|br l IH]; intros [s0 a]; cbn; [by intros [= <- <-]|].
    intros Hf. apply IH in Hf. rewrite Hf. unfold repair_one.
    by destruct (cache_add_script _ _ _). }
  apply (Hgen (s, 0)).
Qed.

Lemma finish_log symbols st rep changed incomplete error stale now st' rep' :
  finish dumps symbols st rep changed incomplete error stale now = (st', rep') ->
  refreshed (store st') = refreshed (store st) ++
    (refresh_entry (rollup_targets changed stale now) <$>
      remove_dups ((fun t => t.1.1) <$> rollup_targets changed stale now)).
Proof.
  unfold finish. destruct (refresh_rollups _ _ _ _ _) as [s1 rep1] eqn:E1.
  destruct (repair_cache _ _ _ _) as [s2 n] eqn:E2. intros [= <- <-].
  apply refresh_rollups_log in E1. apply repair_cache_refreshed in E2. cbn.
  unfold finish_run. case_match; cbn; congruence.
Qed.

(** A target of a view lies within the view's refresh. *)
Lemma refresh_entry_covers targets view a b :
  (view, a, b) ∈ targets ->
  exists a' b', (view, a', b') ∈ (refresh_entry targets <$> remove_dups ((fun t => t.1.1) <$> targets)) /\
    a' <= a /\ b <= b'.
Proof.
  intros Hin. set (mine := List.filter (fun t => bool_decide (t.1.1 = view)) targets).
  assert (Hmine : (view, a, b) ∈ mine) by (apply elem_of_lfilter; split; [done|by apply bool_decide_eq_true]).
  exists (zmin ((fun t => t.1.2) <$> mine)), (zmax ((fun t => t.2) <$> mine)). split_and!.
  - apply list_elem_of_fmap. exists view. split; [done|]. apply elem_of_remove_dups, list_elem_of_fmap. by exists (view, a, b).
  - apply zmin_le, list_elem_of_fmap. by exists (view, a, b).
  - apply zmax_ge, list_elem_of_fmap. by exists (view, a, b).
Qed.
End Changed.

(* ------------------------------------------------------------------ *)
(** ** After the run *)

Section Fresh.
Context {F : Type} `{PyFloat F} `{SortedSet} `{!Timescale F}.
Context (dumps : json F -> string).
Context (symbols : list string) (cfg : RecoveryConfig) (is_open : datetime -> bool).
Context (instance provider_name : string).
Context (reply : nat -> Request -> Reply F) (quota : nat -> bool) (stop : nat -> bool).
Notation Bars := (gmap (string * Z) (Row F)).
Implicit Types (st : Recovery F) (s : Store F) (rep : RunReport) (V : View F) (views : string -> View F).

Definition width_of (view : string) : option timedelta :=
  (fun v => v.1.2) <$> List.find (fun v : string * timedelta * timedelta => String.eqb v.1.1 view) ROLLUPS.

(** What PostgreSQL answers a run that meets these views. *)
Definition stale_in views s (view : string) (bounds : datetime * datetime) : option (datetime * datetime) :=
  w ← width_of view; stale_query (bars s) (views view) w bounds.

(** A view after refreshes over the tables as they are. *)
Definition refresh_one (t : Bars) (view : string) (w : timedelta) V (e : string * datetime * datetime) : View F :=
  if String.eqb e.1.1 view then materialise V (fold_rows t w) e.1.2 e.2 else V.
Definition refreshed_views (t : Bars) (log : list (string * datetime * datetime)) views (view : string) : View F :=
  match width_of view with
  | Some w => fold_left (refresh_one t view w) log (views view)
  | None => views view
  end.

Lemma differs_same (x : option (VRow F)) : differs x x = false.
Proof. destruct x; cbn; [|done]. by rewrite !distinct_from_irrefl, Z.eqb_refl. Qed.

(** A bucket matches after the refreshes if it did before or if one covers it. *)
Lemma refreshed_matches (t : Bars) view w k log : forall V,
  differs (fold_at t w k) (V !! k) = false \/
    (exists a b, (view, a, b) ∈ log /\ a <= k.2 < b) ->
  differs (fold_at t w k) (fold_left (refresh_one t view w) log V !! k) = false.
Proof.
  induction log as [|[[v a] b] log IH]; intros V Hk; cbn [fold_left].
  { destruct Hk as [?|(a & b & Hin & _)]; [done|by apply elem_of_nil in Hin]. }
  apply IH. unfold refresh_one. cbn [fst snd]. destruct (String.eqb_spec v view) as [->|Hv].
  - rewrite materialise_lookup, fold_rows_lookup.
    destruct ((a <=? k.2) && (k.2 <? b)) eqn:Hr; [left; apply differs_same|].
    destruct Hk as [?|(a' & b' & [[= -> ->]|?]%elem_of_cons & ?)]; [by left| |right; eauto].
    apply andb_false_iff in Hr as [Hr%Z.leb_gt|Hr%Z.ltb_ge]; lia.
  - destruct Hk as [?|(a' & b' & [[= ? ? ?]|?]%elem_of_cons & ?)]; [by left|congruence|right; eauto].
Qed.

Lemma omap_none {A B} (f : A -> option B) (l : list A) : (forall x, x ∈ l -> f x = None) -> omap f l = [].
Proof.
  induction l as [|x l IH]; intros Hf; [done|]. cbn. rewrite (Hf x) by apply list_elem_of_here.
  apply IH. intros y Hy. apply Hf. by apply list_elem_of_further.
Qed.

Section View.
Context (w offset now : timedelta) (sec : Z).
Context (Hsec : 0 < sec) (Hw : w = sec * MICRO) (Hday : (w | days 1)) (Hnow : offset <= now).
Notation refresh_range first last := (refresh_range first last w offset now).
Notation open_from := (time_bucket w (now - offset)).

Lemma width_pos : 0 < w.
Proof. unfold MICRO in Hw. lia. Qed.

Lemma bucket_eq t : 0 <= t -> floor_bucket t w = time_bucket w t.
Proof.
  intros. rewrite (floor_bucket_eq t w sec) by done. symmetry. apply time_bucket_floor; [apply width_pos|done].
Qed.

Lemma bucket_mono t u : t <= u -> time_bucket w t <= time_bucket w u.
Proof.
  pose proof width_pos. intros. rewrite !time_bucket_floor by done.
  apply Z.mul_le_mono_nonneg_r; [lia|]. by apply Z.div_le_mono.
Qed.

Lemma bucket_aligned t : (w | time_bucket w t).
Proof. rewrite time_bucket_floor by (done || apply width_pos). by exists (t / w). Qed.

Lemma refresh_range_eq first last : 0 <= first -> 0 <= last ->
  refresh_range first last =
  let b := Z.min (time_bucket w last + w) open_from in
  if time_bucket w first <? b then Some (time_bucket w first, b) else None.
Proof. intros. unfold RecoveryPlan.refresh_range. by rewrite !bucket_eq by lia. Qed.

(** The range for some minutes covers their buckets that are closed. *)
Lemma refresh_range_covers first last t : 0 <= first -> 0 <= last ->
  time_bucket w first <= t -> t < time_bucket w last + w -> t < open_from ->
  exists a b, refresh_range first last = Some (a, b) /\ a <= t < b.
Proof.
  intros. rewrite refresh_range_eq by done. cbv zeta. rewrite (proj2 (Z.ltb_lt _ _)) by lia.
  eexists _, _. split; [done|]. lia.
Qed.

Lemma refresh_range_bounds first last a b : 0 <= first -> 0 <= last ->
  refresh_range first last = Some (a, b) -> (w | a) /\ (w | b) /\ a = time_bucket w first /\ b <= open_from.
Proof.
  intros ? ? Hr. rewrite refresh_range_eq in Hr by done. cbv zeta in Hr. case_match; [|done].
  injection Hr as <- <-. split_and!; [apply bucket_aligned| |done|lia].
  destruct (Z.min_spec (time_bucket w last + w) open_from) as [[_ ->]|[_ ->]]; [|apply bucket_aligned].
  apply Z.divide_add_r; [apply bucket_aligned|by exists 1; lia].
Qed.

(** The view's part of a run: the buckets of the window match once the targets the
    run computes for the view have been refreshed. *)
Lemma view_fresh (view : string) (t t' : Bars) V (changed : list datetime) (ws we A B : datetime) log :
  0 <= ws -> 0 <= we -> Forall (fun m => 0 <= m) changed ->
  new_minutes t t' changed ->
  refresh_range ws we = Some (A, B) ->
  (forall first last found, stale_query t V w (A, B) = Some (first, last) ->
     refresh_range first last = Some found ->
     exists a b, (view, a, b) ∈ log /\ a <= found.1 /\ found.2 <= b) ->
  (forall found, changed <> [] -> refresh_range (zmin changed) (zmax changed) = Some found ->
     exists a b, (view, a, b) ∈ log /\ a <= found.1 /\ found.2 <= b) ->
  stale_query t' (fold_left (refresh_one t' view w) log V) w (A, B) = None.
Proof.
  intros Hws Hwe Hch (Hsub & Hnew & _) Hrange Hstale Hchanged.
  pose proof (refresh_range_bounds _ _ _ _ Hws Hwe Hrange) as (HA & HB & HA0 & Hopen).
  pose proof width_pos as Hpos.
  assert (HA1 : 0 <= A).
  { rewrite HA0, time_bucket_floor by done. apply Z.mul_nonneg_nonneg; [apply Z.div_pos|]; lia. }
  pose proof (stale_query_spec w Hpos Hday A B HA HB t V) as Hpre.
  pose proof (stale_query_spec w Hpos Hday A B HA HB t' (fold_left (refresh_one t' view w) log V)) as Hpost.
  destruct (stale_query t' _ w (A, B)) as [[f l]|]; [exfalso|done].
  destruct Hpost as ((x & Hk & Hd) & _ & _). set (k := (x, f)) in *.
  pose proof (proj1 (in_range_spec A B k) Hk) as Hin.
  rewrite refreshed_matches in Hd; [done|].
  assert (Hcov : forall found, (exists a b, (view, a, b) ∈ log /\ a <= found.1 /\ found.2 <= b) ->
    found.1 <= k.2 < found.2 -> exists a b, (view, a, b) ∈ log /\ a <= k.2 < b).
  { intros found (a & b & ? & ? & ?) ?. exists a, b. split; [done|lia]. }
  destruct (decide (Exists (fun m => time_bucket w m = k.2) changed)) as [Hex|Hno].
  - right. apply Exists_exists in Hex as (m & Hm & Hmk). rewrite Forall_forall in Hch.
    assert (Hne : changed <> []) by (intros ->; by apply elem_of_nil in Hm).
    pose proof (zmin_elem changed Hne) as [Hmin Hle]. pose proof (zmax_elem changed Hne) as [Hmax Hge].
    pose proof (bucket_mono _ _ (Hle m Hm)). pose proof (bucket_mono _ _ (Hge m Hm)).
    destruct (refresh_range_covers (zmin changed) (zmax changed) k.2) as (a & b & Hr & Hab);
      [by apply Hch|by apply Hch|lia..|].
    eapply (Hcov (a, b)); [by apply Hchanged|exact Hab].
  - assert (Hsame : fold_at t' w k = fold_at t w k).
    { apply fold_at_ext. intros m Hm. destruct (t !! (k.1, m)) as [row|] eqn:Ht; [by eapply lookup_weaken|].
      apply eq_None_not_Some. intros Hrow. apply Hno, Exists_exists. exists m. split; [|done].
      exact (Hnew (k.1, m) Ht Hrow). }
    rewrite Hsame. destruct (differs (fold_at t w k) (V !! k)) eqn:Hdk; [right|by left].
    destruct (stale_query t V w (A, B)) as [[first last]|]; [|by rewrite Hpre in Hdk].
    destruct Hpre as ((x1 & H1 & _) & (x2 & H2 & _) & Hall). specialize (Hall k Hk Hdk).
    apply in_range_spec in H1, H2. cbn [snd] in H1, H2.
    pose proof (bucket_bounds w Hpos Hday first). pose proof (bucket_bounds w Hpos Hday last).
    destruct (refresh_range_covers first last k.2) as (a & b & Hr & Hab); [lia..|].
    eapply (Hcov (a, b)); [by eapply Hstale|exact Hab].
Qed.
End View.

Lemma rollup_facts view w offset : (view, w, offset) ∈ ROLLUPS ->
  width_of view = Some w /\ (exists sec, 0 < sec /\ w = sec * MICRO) /\ (w | days 1) /\ offset <= minutes 5.
Proof.
  intros [[= -> -> ->]|[[= -> -> ->]|Hin]%elem_of_cons]%elem_of_cons; [..|by apply elem_of_nil in Hin];
    (split_and!; [done| | |by vm_compute]).
  - by exists 300.
  - by exists 288.
  - by exists 3600.
  - by exists 24.
Qed.

(** Everything a run finds stale or changes is in what it refreshes. *)
Lemma locked_refreshes stale_row st trigger run_id ready w now st' rep :
  locked dumps symbols cfg is_open instance provider_name reply quota stop stale_row
    st trigger run_id true ready w now = (st', rep) ->
  let s := (abort_stale_runs (store st)).1 in
  exists changed log, refreshed (store st') = refreshed (store st) ++ log /\
    new_minutes (bars (store st)) (bars (store st')) changed /\
    forall view a b, (view, a, b) ∈ rollup_targets changed (stale_rollups stale_row s w now) now ->
      exists a' b', (view, a', b') ∈ log /\ a' <= a /\ b <= b'.
Proof.
  unfold locked. cbn [abort_stale_runs fst negb]. set (s := set_runs _ _).
  destruct (missing _ _ _ _ _ _ _) as [spans_missing askable].
  set (stale := stale_rollups _ _ _ _). set (repairs := if ready then _ else _).
  assert (Hidle : stale = [] -> exists changed log, refreshed (store st) = refreshed (store st) ++ log /\
    new_minutes (bars (store st)) (bars (store st)) changed /\
    forall view a b, (view, a, b) ∈ rollup_targets changed stale now ->
      exists a' b', (view, a', b') ∈ log /\ a' <= a /\ b <= b').
  { intros ->. exists [], []. split_and!; [by rewrite app_nil_r|apply new_minutes_none|].
    intros view a b Hin. by apply elem_of_nil in Hin. }
  destruct (is_nil spans_missing && is_nil stale && is_nil repairs) eqn:E1.
  { intros [= <- <-]. apply Hidle. by destruct stale; [|destruct spans_missing]. }
  destruct (is_nil askable && is_nil stale && is_nil repairs) eqn:E2.
  { intros [= <- <-]. apply Hidle. by destruct stale; [|destruct askable]. }
  unfold request_all. match goal with |- context [request_loop _ _ _ _ ?i ?a ?b ?c ?st0 ?rep0 ?ch ?inc ?err ?ref] =>
    pose proof (request_loop_changed dumps reply quota stop a b c i st0 rep0 ch inc err ref (bars (store st))
      (new_minutes_none _)) as Hloop;
    destruct (request_loop _ _ _ _ i a b c st0 rep0 ch inc err ref) as [[st1 rep1] [[changed inc1] err1]] end.
  destruct Hloop as [Href Hnew]. intros Hf. pose proof (finish_log _ _ _ _ _ _ _ _ _ _ _ Hf) as Hlog.
  apply finish_spec in Hf as (Hb & _). eexists changed, _. rewrite Hlog, Href, Hb. split_and!; [done..|].
  intros view a b Hin. by apply refresh_entry_covers.
Qed.

(** C35. A run leaves the rollups right.  Whatever the rollups held, whatever the run
    finds missing and however its requests end - an error, a limit, a stop, the budget -
    once it has run, every closed bucket of its window in [bars_5m] and [bars_1h]
    is what a fold of [bars_1m] gives now: the query it started from, asked again,
    finds nothing. *)
Theorem run_leaves_rollups_fresh views st trigger run_id window now ready lock_free st' rep w :
  1 <= days_per_request cfg -> NoDup symbols ->
  (forall w, window = Some w -> w_start w mod MINUTE = 0) ->
  run_window_of cfg window now = Some w -> 0 <= w_start w -> 0 <= w_end w -> minutes 5 <= now ->
  run_once dumps symbols cfg is_open instance provider_name reply quota stop (stale_in views)
    st trigger run_id true window now ready lock_free = (st', rep) ->
  rep_status rep <> "skipped"%string ->
  let log := drop (length (refreshed (store st))) (refreshed (store st')) in
  stale_rollups (stale_in (refreshed_views (bars (store st')) log views)) (store st') w now = [].
Proof.
  intros Hdays Hnd Hgrid Hw Hws Hwe Hnow Hrun Hstatus log.
  destruct (run_once_adds _ _ _ _ _ _ _ _ _ _ _ _ _ _ _ _ _ _ _ _ Hdays Hnd Hgrid Hrun) as (_ & _ & Hadds).
  assert (Hl : locked dumps symbols cfg is_open instance provider_name reply quota stop (stale_in views)
    st trigger run_id true ready w now = (st', rep)).
  { unfold run_once in Hrun. fold (run_window_of cfg window now) in Hrun. rewrite Hw in Hrun.
    destruct (match blocked_until st with Some _ => _ | None => _ end); [by injection Hrun as _ <-|].
    destruct (true && negb ready); [by injection Hrun as _ <-|].
    destruct lock_free; [done|by injection Hrun as _ <-]. }
  apply locked_refreshes in Hl as (changed & log' & Hlog & Hnew & Hcov). cbv zeta in Hcov.
  assert (log = log') as -> by (unfold log; by rewrite Hlog, drop_app_length).
  assert (Hpos : Forall (fun m => 0 <= m) changed).
  { apply Forall_forall. intros m Hm. destruct (proj2 (proj2 Hnew) m Hm) as (x & Hx & [row Hrow]).
    destruct (Hadds x m row Hx Hrow) as (_ & _ & (w' & Hw' & Hm') & _). simplify_eq. lia. }
  apply omap_none. intros [[view wd] offset] Hview.
  pose proof (rollup_facts _ _ _ Hview) as (Hwidth & (sec & Hsec & Hwd) & Hday & Hoff).
  destruct (refresh_range (w_start w) (w_end w) wd offset now) as [[A B]|] eqn:Hrange;
    [cbn [mbind option_bind]|done].
  assert (Hq : forall vs s, stale_in vs s view (A, B) = stale_query (bars s) (vs view) wd (A, B))
    by (intros; unfold stale_in; by rewrite Hwidth).
  assert (Hvs : forall t vs, refreshed_views t log' vs view = fold_left (refresh_one t view wd) log' (vs view))
    by (intros; unfold refreshed_views; by rewrite Hwidth).
  rewrite Hq, Hvs, (view_fresh wd offset now sec Hsec Hwd Hday ltac:(lia) view (bars (store st))
    (bars (store st')) (views view) changed _ _ A B log' Hws Hwe Hpos Hnew Hrange); [done| |].
  - intros first last found Hs Hf. apply Hcov. unfold rollup_targets. apply elem_of_app. left.
    apply list_elem_of_omap. exists (view, wd, offset). split; [done|]. cbn [mbind option_bind].
    rewrite Hrange. cbn [mbind option_bind]. rewrite Hq. cbn [abort_stale_runs fst bars set_runs].
    rewrite Hs. cbn [mbind option_bind fst snd]. by rewrite Hf.
  - intros found Hne Hf. apply Hcov. unfold rollup_targets. apply elem_of_app. right.
    destruct changed as [|m changed]; [done|]. apply list_elem_of_omap. exists (view, wd, offset).
    split; [done|]. cbn [mbind option_bind]. by rewrite Hf.
Qed.
End Fresh.

(* ------------------------------------------------------------------ *)
(** ** A run *)

Section Demo.
#[local] Existing Instance plain64.
#[local] Existing Instance sorted_list.
Notation F := SpecFloat.spec_float.

#[local] Instance spec_float_dec : EqDecision F.
Proof. solve_decision. Defined.

(** A database where the largest is the last that no other exceeds. *)
Definition demo_materialise (V fold : View F) (a b : datetime) : View F :=
  filter (fun kv => in_range a b kv.1 = true) fold ∪ filter (fun kv => in_range a b kv.1 <> true) V.

Lemma demo_materialise_lookup V fold a b k :
  demo_materialise V fold a b !! k = if in_range a b k then fold !! k else V !! k.
Proof.
  apply option_eq. intros v. unfold demo_materialise.
  rewrite lookup_union_Some by (apply map_disjoint_spec;
    intros ? ? ? [? ?]%map_lookup_filter_Some [? ?]%map_lookup_filter_Some; done).
  rewrite !map_lookup_filter_Some. cbn. destruct (in_range a b k); naive_solver.
Qed.

#[local] Instance demo_timescale : Timescale F.
Proof.
  refine {|
    time_bucket w t := t / w * w;
    agg_max l := foldr py_max f_zero l;
    agg_min l := match l with [] => f_zero | x :: l => foldr py_min x l end;
    distinct_from x y := negb (bool_decide (x = y));
    materialise := demo_materialise |}.
  - done.
  - intros x. by rewrite bool_decide_eq_true_2.
  - apply demo_materialise_lookup.
Defined.

Definition no_data (view : string) : View F := ∅.
Definition demo_rolled : Recovery F * RunReport :=
  run_once (fun _ => "x"%string) demo_symbols demo_cfg demo_open "i" "tiingo" demo_reply
    (fun _ => true) (fun _ => false) (stale_in no_data) demo_recovery "leadership" "run-1" true
    (Some demo_window) (demo_minute 120) true true.

Definition demo_views : string -> View F :=
  refreshed_views (bars (store demo_rolled.1)) (refreshed (store demo_rolled.1)) no_data.

(** The run refreshes the buckets its new minutes fall in, and the five-minute one
    before midnight is then the fold of its three rows. *)
Lemma demo_rolled_report :
  rep_rollups_refreshed demo_rolled.2 =
    [("bars_5m"%string, demo_minute (-5), demo_minute 0); ("bars_1h"%string, demo_minute (-60), demo_minute 0)] /\
  v_n <$> demo_views "bars_5m" !! ("EURUSD"%string, demo_minute (-5)) = Some 12 /\
  stale_rollups (stale_in no_data) (store demo_rolled.1) demo_window (demo_minute 120) <> [].
Proof. split_and!; by vm_compute. Qed.

Lemma run_leaves_rollups_fresh_witness :
  stale_rollups (stale_in demo_views) (store demo_rolled.1) demo_window (demo_minute 120) = [].
Proof.
  unfold demo_views. destruct demo_rolled as [st' rep] eqn:E.
  assert (Hs : rep_status rep <> "skipped"%string)
    by (replace rep with demo_rolled.2 by (by rewrite E); apply (bool_decide_unpack _); by vm_compute).
  unfold demo_rolled in E.
  apply (run_leaves_rollups_fresh _ _ _ _ _ _ _ _ _ _ _ _ _ _ _ _ _ _ _ demo_window) in E;
    [exact E|done|apply (bool_decide_unpack _); by vm_compute|by intros w [= <-]; vm_compute|done|done|done|done|exact Hs].
Defined.
End Demo.
