(* ===== verification/Streams.v ===== *)
(** * Redis streams and their consumer groups

    Redis is a service: [ConsumerGroup] states the documented behaviour of the
    commands both persisters use, over what a group has not delivered yet and what
    it has delivered and nobody acknowledged, both in the order of the stream.
    [list_group] is a concrete instance, for evaluation. *)
From S2P Require Import Prelude Database.

Local Open Scope Z_scope.

Record Entry := { e_id : stream_id; e_fields : gmap string string }.

(** What the commands do to the pending list, as functions of it. *)
Definition owned_by (c : string) (l : list (Entry * string)) : list (Entry * string) :=
  List.filter (fun ec => bool_decide (ec.2 = c)) l.

Definition from_id (start : stream_id) (l : list (Entry * string)) : list (Entry * string) :=
  List.filter (fun ec => negb (id_lt (e_id ec.1) start)) l.

Definition reassign (c : string) (ids : list stream_id) (l : list (Entry * string))
    : list (Entry * string) :=
  (fun ec => if bool_decide (e_id ec.1 ∈ ids) then (ec.1, c) else ec) <$> l.

Definition acked (ids : list stream_id) (l : list (Entry * string)) : list (Entry * string) :=
  List.filter (fun ec => negb (bool_decide (e_id ec.1 ∈ ids))) l.

(** The id at which a scan stopped: that of the next candidate, or 0-0. *)
Definition next_cursor (l : list (Entry * string)) : stream_id :=
  match l with [] => (0, 0) | ec :: _ => e_id ec.1 end.

Class ConsumerGroup := {
  group : Type;
  waiting : group -> list Entry;
  pending : group -> list (Entry * string);
  (** [XADD stream] *)
  xadd : Entry -> group -> group;
  (** [XREADGROUP GROUP g consumer COUNT n STREAMS s >] and [... 0] *)
  xreadgroup_new : string -> nat -> group -> group * list Entry;
  xreadgroup_own : string -> nat -> group -> list Entry;
  (** [XAUTOCLAIM s g consumer 0 start COUNT n]: the cursor and the entries *)
  xautoclaim : string -> stream_id -> nat -> group -> group * (stream_id * list Entry);
  (** [XAUTOCLAIM s g consumer min-idle start COUNT n], given which entries have
      been idle for so long *)
  xautoclaim_idle : (stream_id -> bool) -> string -> stream_id -> nat -> group ->
    group * (stream_id * list Entry);
  (** [XACK s g id ...] *)
  xack : list stream_id -> group -> group;
  xadd_spec e g :
    waiting (xadd e g) = waiting g ++ [e] /\ pending (xadd e g) = pending g;
  xreadgroup_new_spec c n g :
    let '(g', es) := xreadgroup_new c n g in
    es = take n (waiting g) /\ waiting g' = drop n (waiting g) /\
    pending g' = pending g ++ ((fun e => (e, c)) <$> es);
  xreadgroup_own_spec c n g : xreadgroup_own c n g = fst <$> take n (owned_by c (pending g));
  xautoclaim_spec c start n g :
    let '(g', (cursor, es)) := xautoclaim c start n g in
    let candidates := from_id start (pending g) in
    es = (take n candidates).*1 /\ cursor = next_cursor (drop n candidates) /\
    waiting g' = waiting g /\ pending g' = reassign c (e_id <$> es) (pending g);
  xautoclaim_idle_spec idle c start n g :
    let '(g', (cursor, es)) := xautoclaim_idle idle c start n g in
    es ⊆ (pending g).*1 /\ Forall (fun e => idle (e_id e) = true) es /\
    waiting g' = waiting g /\ pending g' = reassign c (e_id <$> es) (pending g);
  xack_spec ids g :
    waiting (xack ids g) = waiting g /\ pending (xack ids g) = acked ids (pending g);
}.

Definition list_group : ConsumerGroup.
Proof.
  refine {|
    group := list Entry * list (Entry * string);
    waiting := fst; pending := snd;
    xadd e g := (g.1 ++ [e], g.2);
    xreadgroup_new c n g :=
      ((drop n g.1, g.2 ++ ((fun e => (e, c)) <$> take n g.1)), take n g.1);
    xreadgroup_own c n g := fst <$> take n (owned_by c g.2);
    xautoclaim c start n g :=
      let es := (take n (from_id start g.2)).*1 in
      ((g.1, reassign c (e_id <$> es) g.2), (next_cursor (drop n (from_id start g.2)), es));
    xautoclaim_idle idle c start n g :=
      let l := List.filter (fun ec => idle (e_id ec.1)) (from_id start g.2) in
      let es := (take n l).*1 in
      ((g.1, reassign c (e_id <$> es) g.2), (next_cursor (drop n l), es));
    xack ids g := (g.1, acked ids g.2);
  |}; try by intros.
  intros idle c start n g. cbn. set (l := List.filter _ (from_id start g.2)).
  assert (Hl : forall ec, ec ∈ take n l -> idle (e_id ec.1) = true /\ ec ∈ g.2).
  { intros ec Hec. apply elem_of_take in Hec as (i & Hec & _). apply list_elem_of_lookup_2 in Hec.
    apply elem_of_lfilter in Hec as [Hin ?]. by apply elem_of_lfilter in Hin as [? _]. }
  split_and!; [| |done..].
  - intros e (ec & -> & Hec)%list_elem_of_fmap. by apply list_elem_of_fmap_2, Hl.
  - apply Forall_forall. intros e (ec & -> & Hec)%list_elem_of_fmap. by apply Hl.
Defined.

(* ------------------------------------------------------------------ *)
(** ** Order of a stream *)

Definition before (a b : Entry) : Prop := id_lt (e_id a) (e_id b) = true.

Lemma before_trans a b c : before a b -> before b c -> before a c.
Proof. apply id_lt_trans. Qed.

Lemma stream_nodup l : StronglySorted before l -> NoDup (e_id <$> l).
Proof.
  induction 1 as [|e l Hs IH Hall]; [constructor|]. cbn. constructor; [|done].
  intros (e' & He & Hin)%list_elem_of_fmap. rewrite Forall_forall in Hall.
  apply Hall in Hin. unfold before in Hin. rewrite He, id_lt_irrefl in Hin. done.
Qed.

Lemma entry_unique (l : list Entry) (a b : Entry) :
  NoDup (e_id <$> l) -> a ∈ l -> b ∈ l -> e_id a = e_id b -> a = b.
Proof.
  intros Hd [i Ha]%list_elem_of_lookup_1 [j Hb]%list_elem_of_lookup_1 Heq.
  assert (i = j) as <-; [|congruence].
  eapply (proj1 (NoDup_alt _) Hd i j (e_id a)); rewrite list_lookup_fmap, ?Ha, ?Hb; cbn; congruence.
Qed.

(** Acknowledging the first entries of a pending list leaves the others. *)
Lemma acked_prefix (l1 l2 : list (Entry * string)) :
  StronglySorted before (l1 ++ l2).*1 -> acked (e_id <$> l1.*1) (l1 ++ l2) = l2.
Proof.
  intros Hs. apply stream_nodup in Hs. rewrite !fmap_app in Hs. apply NoDup_app in Hs as (_ & Hd & _).
  unfold acked. rewrite List.filter_app.
  assert (H1 : forall ids : list stream_id, (forall ec, ec ∈ l1 -> e_id ec.1 ∈ ids) ->
    List.filter (fun ec => negb (bool_decide (e_id ec.1 ∈ ids))) l1 = []).
  { intros ids. clear Hd. induction l1 as [|ec l IH]; intros Hin; [done|]. cbn.
    rewrite bool_decide_eq_true_2 by (apply Hin, list_elem_of_here). apply IH.
    intros. apply Hin. by apply list_elem_of_further. }
  rewrite H1 by (intros ec Hec; apply list_elem_of_fmap; exists ec.1;
    split; [done|]; apply list_elem_of_fmap; eauto). cbn.
  assert (Hd2 : forall ec, ec ∈ l2 -> e_id ec.1 ∉ (e_id <$> l1.*1)).
  { intros ec Hec Hin. apply (Hd _ Hin). apply list_elem_of_fmap. exists ec.1. split; [done|].
    apply list_elem_of_fmap. eauto. }
  clear Hd H1. induction l2 as [|ec l IH]; [done|]. cbn.
  rewrite bool_decide_eq_false_2 by (apply Hd2, list_elem_of_here). cbn. f_equal. apply IH.
  intros. apply Hd2. by apply list_elem_of_further.
Qed.

Lemma reassign_entries c ids l : (reassign c ids l).*1 = l.*1.
Proof.
  unfold reassign. rewrite <- list_fmap_compose. apply list_fmap_ext. intros _ ec _. cbn.
  by destruct (bool_decide _).
Qed.

Lemma owned_all c (l : list Entry) : owned_by c ((fun e => (e, c)) <$> l) = (fun e => (e, c)) <$> l.
Proof.
  induction l as [|e l IH]; [done|]. cbn. rewrite bool_decide_eq_true_2 by done. by f_equal.
Qed.
