(* ===== verification/Persister.v ===== *)
(** * From the tick stream to [bars_1m] ([fx_worker/persister.py])

    The consumer: entries are folded into one accumulator per bar, the batch is
    committed and only then acknowledged.  A step of [worker_step] is one trip to
    Redis and what follows it; where a trip or a commit can fail, and where the
    process can die, is an input of the step. *)
From S2P Require Import Prelude PyFloat Models Buckets Database Streams.

Local Open Scope Z_scope.

Abbreviation key := (string * Z)%type.

(** What can go wrong in a flush: nothing, the commit is refused, or it is made and
    the acknowledgement does not arrive. *)
Inductive FlushFault := FlushOk | CommitFailed | AckFailed.

Section Persister.
Context {F : Type} `{PyFloat F} `{IsoFormat} `{ConsumerGroup}.
(** Python's [float(text)]. *)
Context (float_of : string -> result F).
Context (bucket_seconds : Z) (flush_max_rows : nat).

Record Persister := {
  accs : gmap key (BucketAccumulator F);
  last_price : gmap string F;
  last_seen_bucket : gmap string datetime;
  provider : gmap string string;
  max_id : gmap key stream_id;
  unacked : list stream_id;
}.
Implicit Types (p : Persister) (e : Entry).

Definition Persister_new : Persister := {|
  accs := ∅; last_price := ∅; last_seen_bucket := ∅; provider := ∅; max_id := ∅; unacked := [] |}.

(* ------------------------------------------------------------------ *)
(** ** Parsing *)

Definition field (fs : gmap string string) (k : string) : result string :=
  match fs !! k with Some v => Ok v | None => Raise KeyError end.

Record Parsed := { ps_symbol : string; ps_bid : F; ps_ask : F; ps_ts : datetime }.

(** The body of the [try].  [fromisoformat] gives the instant of the text, one
    without an offset being in UTC. *)
Definition parse (fs : gmap string string) : result Parsed :=
  symbol ← field fs "s";
  b ← field fs "b"; bid ← float_of b;
  a ← field fs "a"; ask ← float_of a;
  t ← field fs "t"; ts ← fromisoformat t;
  Ok {| ps_symbol := symbol; ps_bid := bid; ps_ask := ask; ps_ts := ts |}.

Definition parsed_mid (q : Parsed) : F := f_div (f_add (ps_bid q) (ps_ask q)) (f_of_Z 2).
Definition parsed_bucket (q : Parsed) : datetime := floor_to_bucket (ps_ts q) bucket_seconds.
Definition parsed_key (q : Parsed) : key := (ps_symbol q, int_timestamp (parsed_bucket q)).

(** The previous price, unless the feed changed or an outage lies between. *)
Definition return_base p (q : Parsed) (from : string) : option F :=
  let symbol := ps_symbol q in
  if negb (bool_decide (default from (provider p !! symbol) = from)) then None
  else if seconds (bucket_seconds * GAP_BAR_MULTIPLE) <?
            parsed_bucket q - default (parsed_bucket q) (last_seen_bucket p !! symbol) then None
  else last_price p !! symbol.

(** [_ingest_entry] on a parsed entry; the logarithm of an underflowing ratio
    raises once the price is folded in. *)
Definition ingest_parsed p e (q : Parsed) : Persister * result unit :=
  let symbol := ps_symbol q in
  let from := default ""%string (e_fields e !! "p"%string) in
  let mid := parsed_mid q in
  let k := parsed_key q in
  let base := return_base p q from in
  let acc := default (acc_start symbol (ps_ts q) mid bucket_seconds STREAM) (accs p !! k) in
  let '(acc, ended) := acc_add acc mid base in
  let dropped := match base with None => delete symbol (last_price p) | Some _ => last_price p end in
  let raised := {|
    accs := <[k := acc]> (accs p); last_price := dropped;
    last_seen_bucket := <[symbol := parsed_bucket q]> (last_seen_bucket p);
    provider := <[symbol := from]> (provider p);
    max_id := max_id p; unacked := unacked p |} in
  match ended with
  | Raise ex => (raised, Raise ex)
  | Ok _ =>
      ({| accs := accs raised; last_price := <[symbol := mid]> dropped;
          last_seen_bucket := last_seen_bucket raised; provider := provider raised;
          max_id := match max_id p !! k with
                    | Some prev => if id_lt prev (e_id e) then <[k := e_id e]> (max_id p) else max_id p
                    | None => <[k := e_id e]> (max_id p)
                    end;
          unacked := unacked p |}, Ok tt)
  end.

Definition ingest_entry p e : Persister * result unit :=
  match parse (e_fields e) with
  | Ok q => ingest_parsed p e q
  | Raise KeyError | Raise ValueError => (p, Ok tt)
  | Raise ex => (p, Raise ex)
  end.

Definition note_unacked p (id : stream_id) : Persister := {|
  accs := accs p; last_price := last_price p; last_seen_bucket := last_seen_bucket p;
  provider := provider p; max_id := max_id p; unacked := unacked p ++ [id] |}.

(** [for entry_id, fields in entries: ...], stopping at the first exception. *)
Fixpoint ingest_all p (es : list Entry) : Persister * result unit :=
  match es with
  | [] => (p, Ok tt)
  | e :: es =>
      match ingest_entry p e with
      | (p, Ok _) => ingest_all (note_unacked p (e_id e)) es
      | (p, Raise ex) => (p, Raise ex)
      end
  end.

(* ------------------------------------------------------------------ *)
(** ** Flushing *)

(** [(acc.seal(), self._max_id[key]) for key, acc in self._accs.items()] *)
Definition sealed p (ka : key * BucketAccumulator F) : result (Bar F * stream_id) :=
  match max_id p !! ka.1 with Some id => Ok (acc_seal ka.2, id) | None => Raise KeyError end.

Definition batch p : result (list (Bar F * stream_id)) := mapR (sealed p) (map_to_list (accs p)).

Definition cleared p : Persister := {|
  accs := ∅; last_price := last_price p; last_seen_bucket := last_seen_bucket p;
  provider := provider p; max_id := ∅; unacked := [] |}.

(** [flush]: the tables, the group and the rows written. *)
Definition flush p (t : bar_table F) (g : group) (f : FlushFault)
    : Persister * bar_table F * group * result Z :=
  if bool_decide (accs p = ∅) then (p, t, g, Ok 0)
  else
    match batch p with
    | Raise ex => (p, t, g, Raise ex)
    | Ok bs =>
        match f with
        | CommitFailed => (p, t, g, Raise DatabaseError)
        | _ =>
            match upsert_bars t bs with
            | Raise ex => (p, t, g, Raise ex)
            | Ok (t, written) =>
                match f with
                | AckFailed => (p, t, g, Raise RuntimeError)
                | _ => (cleared p, t, xack (unacked p) g, Ok written)
                end
            end
        end
    end.

(* ------------------------------------------------------------------ *)
(** ** The life of a worker

    [run] drains what the consumer already holds, then claims what others left,
    then reads new entries; an exception leaves [run], and the process, or the
    next one, enters it again. *)

Inductive Phase :=
  | Stopped
  | Draining
  | Claiming (cursor : stream_id)
  | Steady
  (** the periodic claim of the steady state, between two of its trips *)
  | Sweeping (cursor : stream_id).

Record World := {
  table : bar_table F;
  grp : group;
  proc : Persister;
  consumer : string;
  phase : Phase;
}.
Implicit Types (w : World).

Definition in_phase w (ph : Phase) p : World :=
  {| table := table w; grp := grp w; proc := p; consumer := consumer w; phase := ph |}.

(** A flush within [run], and the phase after it when it does not raise. *)
Definition flush_to w (f : FlushFault) (next : Phase) : World :=
  let '(p, t, g, r) := flush (proc w) (table w) (grp w) f in
  {| table := t; grp := g; proc := p; consumer := consumer w;
     phase := match r with Ok _ => next | Raise _ => Stopped end |}.

(** A batch read from Redis is folded in; an exception leaves [run]. *)
Definition take_in w g (es : list Entry) : World * bool :=
  let '(p, r) := ingest_all (proc w) es in
  ({| table := table w; grp := g; proc := p; consumer := consumer w;
      phase := if is_ok r then phase w else Stopped |}, is_ok r).

Inductive Event :=
  | Produce (e : Entry)
  (** [run] is entered, by this process again or by another with its own memory *)
  | Start (c : string) (memory : Persister)
  | Drain (f : FlushFault)
  | Claim (f : FlushFault)
  | Read
  | Flush (f : FlushFault)
  (** the clock says it is time to sweep *)
  | Sweep
  (** one trip of the sweep, given which entries have been idle for long enough;
      [None]: Redis does not answer *)
  | SweepTrip (idle : stream_id -> bool) (f : option FlushFault)
  | Die.

(** [drain_own_pending] forgets what was not committed before it reads. *)
Definition forget p : Persister := {|
  accs := ∅; last_price := ∅; last_seen_bucket := last_seen_bucket p; provider := provider p;
  max_id := ∅; unacked := [] |}.

(** One trip of the loop of [drain_own_pending]. *)
Definition drain_own_pending w (f : FlushFault) : World :=
  match xreadgroup_own (consumer w) flush_max_rows (grp w) with
  | [] => in_phase w (Claiming (0, 0)) (proc w)
  | es =>
      let '(w, ok) := take_in w (grp w) es in
      if ok then flush_to w f Draining else w
  end.

(** One trip of the loop of [claim_abandoned]. *)
Definition claim_abandoned w (cursor : stream_id) (f : FlushFault) : World :=
  let '(g, (next, es)) := xautoclaim (consumer w) cursor flush_max_rows (grp w) in
  match es with
  | [] => {| table := table w; grp := g; proc := proc w; consumer := consumer w; phase := Steady |}
  | _ =>
      let '(w, ok) := take_in w g es in
      if ok then flush_to w f (if bool_decide (next = (0, 0)) then Steady else Claiming next)
      else w
  end.

(** The same, as [run] sweeps: what Redis raises is suppressed, and the loop goes on
    with what is in memory; what the database raises leaves [run]. *)
Definition sweep_flush w (f : FlushFault) (next : Phase) : World :=
  let '(p, t, g, r) := flush (proc w) (table w) (grp w) f in
  {| table := t; grp := g; proc := p; consumer := consumer w;
     phase := match r with
              | Ok _ => next
              | Raise RuntimeError => Steady
              | Raise _ => Stopped
              end |}.

Definition sweep_abandoned w (cursor : stream_id) (idle : stream_id -> bool) (f : FlushFault) : World :=
  let '(g, (next, es)) := xautoclaim_idle idle (consumer w) cursor flush_max_rows (grp w) in
  match es with
  | [] => {| table := table w; grp := g; proc := proc w; consumer := consumer w; phase := Steady |}
  | _ =>
      let '(w, ok) := take_in w g es in
      if ok then sweep_flush w f (if bool_decide (next = (0, 0)) then Steady else Sweeping next)
      else w
  end.

(** The read of [run]'s loop. *)
Definition read_new w : World :=
  let '(g, es) := xreadgroup_new (consumer w) flush_max_rows (grp w) in
  (take_in w g es).1.

Definition worker_step w (ev : Event) : World :=
  match ev, phase w with
  | Produce e, _ =>
      {| table := table w; grp := xadd e (grp w); proc := proc w; consumer := consumer w;
         phase := phase w |}
  | Start c memory, Stopped =>
      {| table := table w; grp := grp w; proc := forget memory; consumer := c; phase := Draining |}
  | Drain f, Draining => drain_own_pending w f
  | Claim f, Claiming cursor => claim_abandoned w cursor f
  | Read, Steady => read_new w
  | Flush f, Steady => flush_to w f Steady
  | Sweep, Steady => in_phase w (Sweeping (0, 0)) (proc w)
  | SweepTrip idle (Some f), Sweeping cursor => sweep_abandoned w cursor idle f
  | SweepTrip _ None, Sweeping _ => in_phase w Steady (proc w)
  | Die, _ => in_phase w Stopped (proc w)
  | _, _ => w
  end.

Definition worker_run w (evs : list Event) : World := fold_left worker_step evs w.
End Persister.
Arguments Persister F : clear implicits.
Arguments World F {_}.
Arguments Event F : clear implicits.
