(* ===== verification/ExactlyOnce.v ===== *)
(** * The tick persister counts every tick once

    The abstract specification of the worker is a table to which every entry of
    the stream is applied on its own, in the order of the stream.  The detailed
    model of [Persister] keeps accumulators, commits batches, is redelivered what
    it did not acknowledge and can die anywhere; [worker_exactly_once] shows that
    its rows are those of the specification, entry for entry.  The return sums are
    left out: the first return after a restart is lost (see the findings). *)
From S2P Require Import Prelude PyFloat Binary64 Civil Models Buckets Database Streams Persister.

From Stdlib Require Import SpecFloat.
Local Open Scope Z_scope.

(* ------------------------------------------------------------------ *)
(** ** [GREATEST] and [LEAST] *)

Section Extremes.
Context {F : Type} `{PyFloat F, !PyFloatOrder F}.
Implicit Types a b c : F.

Lemma f_le_self a : f_le a a = negb (f_isnan a).
Proof.
  destruct (f_isnan a) eqn:E; [|by apply f_le_refl].
  apply not_true_iff_false. intros Hle. apply f_le_not_nan in Hle. cbn in *. destruct Hle. congruence.
Qed.

Lemma sql_greatest_number a b :
  f_isnan a = false -> f_isnan b = false -> sql_greatest a b = py_max a b.
Proof. intros Ha Hb. unfold sql_greatest. by rewrite !f_le_self, Ha, Hb. Qed.

Lemma sql_least_number a b :
  f_isnan a = false -> f_isnan b = false -> sql_least a b = py_min a b.
Proof. intros Ha Hb. unfold sql_least. by rewrite !f_le_self, Ha, Hb. Qed.

Lemma py_max_number a b : f_isnan a = false -> f_isnan b = false -> f_isnan (py_max a b) = false.
Proof. destruct (py_max_cases a b) as [->| ->]; done. Qed.

Lemma py_min_number a b : f_isnan a = false -> f_isnan b = false -> f_isnan (py_min a b) = false.
Proof. destruct (py_min_cases a b) as [->| ->]; done. Qed.

Lemma py_max_assoc a b c :
  f_isnan a = false -> f_isnan b = false -> f_isnan c = false ->
  py_max (py_max a b) c = py_max a (py_max b c).
Proof.
  intros Ha Hb Hc. unfold py_max. destruct (f_lt a b) eqn:Eab, (f_lt b c) eqn:Ebc; rewrite ?Eab; try done.
  - by rewrite (f_lt_trans _ _ _ Eab Ebc).
  - destruct (f_lt a c) eqn:Eac; [|done]. pose proof (f_total _ _ Ha Hb Eab) as Hba.
    rewrite (f_le_lt_trans _ _ _ Hba Eac) in Ebc. done.
Qed.

Lemma py_min_assoc a b c :
  f_isnan a = false -> f_isnan b = false -> f_isnan c = false ->
  py_min (py_min a b) c = py_min a (py_min b c).
Proof.
  intros Ha Hb Hc. unfold py_min. destruct (f_lt b a) eqn:Eba, (f_lt c b) eqn:Ecb; rewrite ?Eba; try done.
  - by rewrite (f_lt_trans _ _ _ Ecb Eba).
  - destruct (f_lt c a) eqn:Eca; [|done]. pose proof (f_total _ _ Hb Ha Eba) as Hab.
    rewrite (f_lt_le_trans _ _ _ Eca Hab) in Ecb. done.
Qed.

Lemma sql_greatest_assoc a b c :
  sql_greatest (sql_greatest a b) c = sql_greatest a (sql_greatest b c).
Proof.
  unfold sql_greatest. rewrite !f_le_self, !negb_involutive.
  destruct (f_isnan a) eqn:Ha; rewrite ?Ha; [done|].
  destruct (f_isnan b) eqn:Hb; rewrite ?Hb; [done|]. rewrite py_max_number by done.
  destruct (f_isnan c) eqn:Hc; rewrite ?Hc; [done|]. rewrite py_max_number by done.
  by apply py_max_assoc.
Qed.

Lemma sql_least_assoc a b c : sql_least (sql_least a b) c = sql_least a (sql_least b c).
Proof.
  unfold sql_least. rewrite !f_le_self, !negb_involutive.
  destruct (f_isnan a) eqn:Ha; rewrite ?Ha.
  - destruct (f_isnan b) eqn:Hb; done.
  - destruct (f_isnan b) eqn:Hb; rewrite ?Hb, ?Ha.
    + destruct (f_isnan c) eqn:Hc; rewrite ?Hc, ?Ha; done.
    + rewrite py_min_number by done. destruct (f_isnan c) eqn:Hc; rewrite ?Hb, ?Hc; [done|].
      rewrite py_min_number by done. by apply py_min_assoc.
Qed.
End Extremes.

(* ------------------------------------------------------------------ *)
(** ** The specification *)

(** A row without its return sums. *)
Record Core F := {
  co_open : F;
  co_high : F;
  co_low : F;
  co_close : F;
  co_count : Z;
  co_source : string;
  co_id : stream_id;
}.
Arguments co_open {F} _.
Arguments co_high {F} _.
Arguments co_low {F} _.
Arguments co_close {F} _.
Arguments co_count {F} _.
Arguments co_source {F} _.
Arguments co_id {F} _.

Definition core_of {F} (r : Row F) : Core F := {|
  co_open := r_open r; co_high := r_high r; co_low := r_low r; co_close := r_close r;
  co_count := r_tick_count r; co_source := r_source r; co_id := r_last_stream_id r |}.

Section Spec.
Context {F : Type} `{PyFloat F, !PyFloatOrder F} `{IsoFormat}.
Context (float_of : string -> result F) (bucket_seconds : Z).
Implicit Types (e : Entry) (es : list Entry) (c : Core F) (t : gmap key (Core F)).

(** One tick's row, and merging a later row into an earlier one. *)
Definition tick_core (id : stream_id) (mid : F) : Core F := {|
  co_open := mid; co_high := mid; co_low := mid; co_close := mid; co_count := 1;
  co_source := "stream"; co_id := id |}.

Definition merge_core c new : Core F := {|
  co_open := co_open c;
  co_high := sql_greatest (co_high c) (co_high new);
  co_low := sql_least (co_low c) (co_low new);
  co_close := co_close new;
  co_count := co_count c + co_count new;
  co_source := if bool_decide (co_source c = "stream"%string) then co_source c else co_source new;
  co_id := co_id new |}.

Definition join_core (old new : option (Core F)) : option (Core F) :=
  match old, new with
  | Some c, Some d => Some (merge_core c d)
  | Some c, None => Some c
  | None, o => o
  end.

(** The bar a well-formed entry belongs to, and its price. *)
Definition tick_of e : option (key * F) :=
  match parse float_of (e_fields e) with
  | Ok q => Some ((ps_symbol q, parsed_bucket bucket_seconds q), parsed_mid q)
  | Raise _ => None
  end.

(** Every entry on its own, in the order of the stream. *)
Definition apply_entry t e : gmap key (Core F) :=
  match tick_of e with
  | Some (k, mid) => partial_alter (fun old => join_core old (Some (tick_core (e_id e) mid))) k t
  | None => t
  end.

Definition apply_all t es : gmap key (Core F) := fold_left apply_entry es t.

(** A well-formed entry with a price that is a number. *)
Definition good e : Prop := exists k mid, tick_of e = Some (k, mid) /\ f_isnan mid = false.

Lemma merge_core_assoc (a b c : Core F) : merge_core (merge_core a b) c = merge_core a (merge_core b c).
Proof.
  unfold merge_core; cbn. f_equal; [apply sql_greatest_assoc|apply sql_least_assoc|lia|].
  repeat case_bool_decide; congruence.
Qed.

Lemma join_core_assoc (a b c : option (Core F)) : join_core (join_core a b) c = join_core a (join_core b c).
Proof. destruct a, b, c; cbn; try done. by rewrite merge_core_assoc. Qed.

Lemma apply_all_snoc t es e : apply_all t (es ++ [e]) = apply_entry (apply_all t es) e.
Proof. apply fold_left_snoc. Qed.

Lemma apply_all_app t es es' : apply_all t (es ++ es') = apply_all (apply_all t es) es'.
Proof. apply fold_left_app. Qed.

Lemma apply_entry_lookup t e k :
  apply_entry t e !! k =
  match tick_of e with
  | Some (k', mid) => if decide (k' = k) then join_core (t !! k) (Some (tick_core (e_id e) mid)) else t !! k
  | None => t !! k
  end.
Proof.
  unfold apply_entry. destruct (tick_of e) as [[k' mid]|]; [|done].
  destruct (decide (k' = k)) as [->|]; [by rewrite lookup_partial_alter_eq|by rewrite lookup_partial_alter_ne].
Qed.

(** Applying entries is joining what they amount to on their own. *)
Lemma apply_all_join t es k : apply_all t es !! k = join_core (t !! k) (apply_all ∅ es !! k).
Proof.
  induction es as [|e es IH] using rev_ind; [cbn; rewrite lookup_empty; by destruct (t !! k)|].
  rewrite !apply_all_snoc, !apply_entry_lookup. destruct (tick_of e) as [[k' mid]|]; [|done].
  destruct (decide (k' = k)); [|done]. by rewrite IH, join_core_assoc.
Qed.

(** A row's watermark is the id of an entry, and no entry of its bar is beyond. *)
Lemma apply_all_id t es k c :
  apply_all t es !! k = Some c ->
  (exists c0, t !! k = Some c0 /\ co_id c = co_id c0) \/ exists e, e ∈ es /\ co_id c = e_id e.
Proof.
  revert c. induction es as [|e es IH] using rev_ind; intros c; [cbn; eauto|].
  rewrite apply_all_snoc, apply_entry_lookup. destruct (tick_of e) as [[k' mid]|].
  - destruct (decide (k' = k)) as [->|].
    + intros Hj. right. exists e. split; [set_solver|]. destruct (apply_all t es !! k); by injection Hj as <-.
    + intros Hc%IH. destruct Hc as [?|(e' & ? & ?)]; [by left|right; exists e'; set_solver].
  - intros Hc%IH. destruct Hc as [?|(e' & ? & ?)]; [by left|right; exists e'; set_solver].
Qed.

Lemma apply_all_last es k c :
  apply_all ∅ es !! k = Some c -> exists e mid, e ∈ es /\ tick_of e = Some (k, mid) /\ co_id c = e_id e.
Proof.
  revert c. induction es as [|e es IH] using rev_ind; intros c; [done|].
  rewrite apply_all_snoc, apply_entry_lookup. destruct (tick_of e) as [[k' mid]|] eqn:Ht.
  - destruct (decide (k' = k)) as [->|].
    + intros Hj. exists e, mid. split_and!; [set_solver|done|]. destruct (apply_all ∅ es !! k); by injection Hj as <-.
    + intros (e' & mid' & ? & ? & ?)%IH. exists e', mid'. set_solver.
  - intros (e' & mid' & ? & ? & ?)%IH. exists e', mid'. set_solver.
Qed.

Lemma apply_all_reaches t es e k mid :
  StronglySorted before es -> e ∈ es -> tick_of e = Some (k, mid) ->
  exists c, apply_all t es !! k = Some c /\ id_lt (co_id c) (e_id e) = false.
Proof.
  induction es as [|e' es IH] using rev_ind; intros Hs He Ht; [by apply elem_of_nil in He|].
  rewrite apply_all_snoc, apply_entry_lookup.
  apply StronglySorted_app in Hs as (Hb & Hs & _).
  apply elem_of_app in He as [He| ->%list_elem_of_singleton].
  - destruct (IH Hs He Ht) as (c & Hc & Hid). destruct (tick_of e') as [[k' mid']|]; [|eauto].
    destruct (decide (k' = k)); [|eauto]. rewrite Hc. eexists. split; [done|]. cbn.
    apply id_lt_nlt. apply Hb; [done|]. apply list_elem_of_here.
  - rewrite Ht. rewrite decide_True by done. destruct (apply_all t es !! k); eexists;
      (split; [done|]); apply id_lt_irrefl.
Qed.

(** Rows that good entries alone amount to hold numbers. *)
Lemma apply_all_numbers es k c :
  Forall good es -> apply_all ∅ es !! k = Some c ->
  f_isnan (co_high c) = false /\ f_isnan (co_low c) = false.
Proof.
  revert c. induction es as [|e es IH] using rev_ind; intros c Hg; [done|].
  apply Forall_app in Hg as [Hg He]. apply Forall_cons in He as [(k' & mid & Ht & Hmid) _].
  rewrite apply_all_snoc, apply_entry_lookup, Ht. destruct (decide (k' = k)); [|by apply IH].
  destruct (apply_all ∅ es !! k) as [d|] eqn:Hd; intros [= <-]; [|done]. cbn.
  destruct (IH d Hg eq_refl). rewrite sql_greatest_number, sql_least_number by done.
  auto using py_max_number, py_min_number.
Qed.
End Spec.

(* ------------------------------------------------------------------ *)
(** ** The memory *)

Section Memory.
Context {F : Type} `{PyFloat F, !PyFloatOrder F} `{IsoFormat}.
Context (float_of : string -> result F) (bucket_seconds : Z).
Implicit Types (e : Entry) (es : list Entry) (p : Persister F).
Notation ingest_entry := (ingest_entry float_of bucket_seconds).
Notation ingest_all := (ingest_all float_of bucket_seconds).
Notation apply_all := (apply_all float_of bucket_seconds).
Notation good := (good float_of bucket_seconds).

(** The row a bar in memory would be committed as. *)
Definition mem_core p (k : key) : option (Core F) :=
  match accs p !! k, max_id p !! k with
  | Some a, Some i => Some (core_of (row_of (acc_seal a) i))
  | _, _ => None
  end.

(** The memory is what the entries [es] amount to. *)
Definition mem_ok p es : Prop :=
  unacked p = (e_id <$> es) /\
  (forall s z, mem_core p (s, z) = apply_all ∅ es !! (s, fromtimestamp z)) /\
  (forall k a, accs p !! k = Some a ->
     acc_symbol a = k.1 /\ acc_bucket a = fromtimestamp k.2 /\ acc_source a = STREAM) /\
  (forall k, is_Some (accs p !! k) <-> is_Some (max_id p !! k)) /\
  (forall kb c, apply_all ∅ es !! kb = Some c -> exists z, kb.2 = fromtimestamp z).

Lemma parsed_bucket_ts q :
  fromtimestamp (int_timestamp (parsed_bucket bucket_seconds q)) = parsed_bucket (F := F) bucket_seconds q.
Proof. unfold parsed_bucket, floor_to_bucket. by rewrite int_timestamp_fromtimestamp. Qed.

Lemma fromtimestamp_inj a b : fromtimestamp a = fromtimestamp b -> a = b.
Proof. unfold fromtimestamp, MICRO. lia. Qed.

Lemma mem_ok_empty p : accs p = ∅ -> max_id p = ∅ -> unacked p = [] -> mem_ok p [].
Proof.
  intros Ha Hi Hu. unfold mem_ok, mem_core. rewrite Ha, Hi, Hu. split_and!; try done.
  intros k. rewrite !lookup_empty. done.
Qed.

(** A bar in memory after one more tick. *)
Lemma acc_add_core (a : BucketAccumulator F) mid base i :
  core_of (row_of (acc_seal (acc_add a mid base).1) i) =
  {| co_open := acc_open a; co_high := py_max (acc_high a) mid; co_low := py_min (acc_low a) mid;
     co_close := mid; co_count := acc_tick_count a + 1; co_source := source_str (acc_source a);
     co_id := i |}.
Proof.
  destruct (acc_add_fields a mid base) as (H1 & H2 & H3 & H4 & H5 & _ & _ & H8).
  unfold core_of, row_of, acc_seal. cbn. by rewrite H1, H2, H3, H4, H5, H8.
Qed.

(** The state [ingest_parsed] leaves when the logarithm does not raise. *)
Lemma ingest_parsed_ok p e q p' :
  ingest_parsed bucket_seconds p e q = (p', Ok tt) ->
  let k := parsed_key bucket_seconds q in
  let mid := parsed_mid q in
  exists base,
    accs p' = <[k := (acc_add (default (acc_start (ps_symbol q) (ps_ts q) mid bucket_seconds STREAM)
                         (accs p !! k)) mid base).1]> (accs p) /\
    max_id p' = match max_id p !! k with
                | Some prev => if id_lt prev (e_id e) then <[k := e_id e]> (max_id p) else max_id p
                | None => <[k := e_id e]> (max_id p)
                end /\
    unacked p' = unacked p.
Proof.
  unfold ingest_parsed. cbv zeta. destruct (acc_add _ _ _) as [acc ended] eqn:E.
  destruct ended; [|done]. intros [= <-]. eexists. cbn. rewrite E. done.
Qed.

Lemma good_parse e : good e -> exists q, parse float_of (e_fields e) = Ok q /\
  tick_of float_of bucket_seconds e =
    Some ((ps_symbol q, parsed_bucket bucket_seconds q), parsed_mid q) /\
  f_isnan (parsed_mid q) = false.
Proof.
  intros (k & mid & Ht & Hn). unfold tick_of in *. destruct (parse _ _) as [q|]; [|done].
  injection Ht as <- <-. eauto.
Qed.

(** The bar a tick goes to, before and after. *)
Lemma ingest_same_bar p es e q base :
  mem_ok p es -> Forall good es -> (forall e', e' ∈ es -> before e' e) ->
  f_isnan (parsed_mid q) = false ->
  let k := parsed_key bucket_seconds q in
  let mid := parsed_mid q in
  let a := default (acc_start (ps_symbol q) (ps_ts q) mid bucket_seconds STREAM) (accs p !! k) in
  (match max_id p !! k with
   | Some prev => if id_lt prev (e_id e) then <[k := e_id e]> (max_id p) else max_id p
   | None => <[k := e_id e]> (max_id p)
   end) = <[k := e_id e]> (max_id p) /\
  Some (core_of (row_of (acc_seal (acc_add a mid base).1) (e_id e))) =
    join_core (apply_all ∅ es !! (ps_symbol q, parsed_bucket bucket_seconds q))
      (Some (tick_core (e_id e) mid)).
Proof.
  intros (_ & Hcore & Hacc & Hdom & _) Hg Hb Hn k mid a.
  specialize (Hcore (ps_symbol q) (int_timestamp (parsed_bucket bucket_seconds q))).
  rewrite parsed_bucket_ts in Hcore. change (ps_symbol q, int_timestamp (parsed_bucket bucket_seconds q)) with k in Hcore.
  unfold mem_core in Hcore. rewrite acc_add_core. subst a.
  destruct (accs p !! k) as [a|] eqn:Ha; cbn [default].
  - destruct (Hacc k a Ha) as (_ & _ & Hsrc).
    assert (is_Some (max_id p !! k)) as [i Hi] by (apply Hdom; eauto).
    rewrite Hi in Hcore |- *.
    destruct (apply_all_numbers float_of bucket_seconds es _ _ Hg (eq_sym Hcore)) as [Hh Hl].
    pose proof (apply_all_id float_of bucket_seconds _ _ _ _ (eq_sym Hcore)) as [(c0 & Hc0 & _)|(e' & He' & Hid)];
      [by rewrite lookup_empty in Hc0|].
    cbn in Hid. subst i. split; [by rewrite (Hb e' He')|].
    rewrite <- Hcore. cbn. unfold merge_core; cbn. cbn in Hh, Hl.
    rewrite sql_greatest_number, sql_least_number, Hsrc by done. done.
  - destruct (max_id p !! k) eqn:Hi; [|split; [done|]].
    + assert (is_Some (accs p !! k)) as [? ?] by (apply Hdom; eauto). congruence.
    + rewrite <- Hcore. cbn. unfold tick_core, py_max, py_min. by rewrite f_lt_irrefl.
Qed.

Lemma ingest_ok p es e p' :
  mem_ok p es -> Forall good (es ++ [e]) -> StronglySorted before (es ++ [e]) ->
  ingest_entry p e = (p', Ok tt) -> mem_ok (note_unacked p' (e_id e)) (es ++ [e]).
Proof.
  intros Hm Hg Hs Hi. apply Forall_app in Hg as [Hg He]. apply Forall_cons in He as [He _].
  apply good_parse in He as (q & Hq & Ht & Hn). unfold Persister.ingest_entry in Hi. rewrite Hq in Hi.
  assert (Hb : forall e', e' ∈ es -> before e' e).
  { intros e' He'. eapply StronglySorted_app_1_elem_of; [exact Hs|done|apply list_elem_of_here]. }
  apply ingest_parsed_ok in Hi as (base & Haccs & Hmax & Hun).
  destruct (ingest_same_bar p es e q base Hm Hg Hb Hn) as [Hid Hrow].
  set (k := parsed_key bucket_seconds q) in *. set (mid := parsed_mid q) in *.
  set (a := default _ _) in *. rewrite Hid in Hmax. clear Hid.
  destruct Hm as (Hu & Hcore & Hacc & Hdom & Hkeys).
  destruct (acc_add_fields a mid base) as (_ & _ & _ & _ & _ & Hbk & Hsym & Hsrc).
  assert (Ha : acc_symbol a = k.1 /\ acc_bucket a = fromtimestamp k.2 /\ acc_source a = STREAM).
  { subst a. destruct (accs p !! k) as [a|] eqn:E; [by apply (Hacc k)|]. cbn.
    by rewrite parsed_bucket_ts. }
  unfold mem_ok, mem_core. cbn. rewrite Haccs, Hmax, Hun, Hu. split_and!.
  - by rewrite fmap_app.
  - intros s z. rewrite apply_all_snoc, apply_entry_lookup, Ht.
    destruct (decide ((s, z) = k)) as [Heq|Hne].
    + rewrite Heq, !lookup_insert_eq, Hrow. subst k. unfold parsed_key in Heq. injection Heq as -> ->.
      by rewrite parsed_bucket_ts, decide_True.
    + rewrite !lookup_insert_ne by done. rewrite decide_False; [apply Hcore|].
      intros [= <- Hz]. apply Hne. subst k. unfold parsed_key. f_equal. apply fromtimestamp_inj.
      by rewrite parsed_bucket_ts.
  - intros k' a'. rewrite lookup_insert_Some. intros [[<- <-]|[_ Hl]]; [|by apply Hacc].
    destruct Ha as (? & ? & ?). split_and!; congruence.
  - intros k'. destruct (decide (k = k')) as [->|].
    + rewrite !lookup_insert_eq. split; intros _; eauto.
    + rewrite !lookup_insert_ne by done. apply Hdom.
  - intros kb c. rewrite apply_all_snoc, apply_entry_lookup, Ht. destruct (decide _) as [<-|].
    + intros _. exists k.2. subst k. cbn. by rewrite parsed_bucket_ts.
    + apply Hkeys.
Qed.

Lemma ingest_all_ok p es new p' :
  mem_ok p es -> Forall good (es ++ new) -> StronglySorted before (es ++ new) ->
  ingest_all p new = (p', Ok tt) -> mem_ok p' (es ++ new).
Proof.
  revert p es. induction new as [|e new IH]; intros p es Hm Hg Hs Hi; cbn in Hi.
  - injection Hi as <-. by rewrite app_nil_r.
  - destruct (ingest_entry p e) as [p1 [[]|]] eqn:E; [|done].
    replace (es ++ e :: new) with ((es ++ [e]) ++ new) in * by (by rewrite <- app_assoc).
    apply (IH _ (es ++ [e])) in Hi; [done| |done..].
    apply (ingest_ok p); [done|..|done].
    + by apply Forall_app in Hg as [? _].
    + by apply StronglySorted_app_1_l in Hs.
Qed.
End Memory.

(* ------------------------------------------------------------------ *)
(** ** Committing a batch *)

Section Commit.
Context {F : Type} `{PyFloat F, !PyFloatOrder F} `{IsoFormat}.
Context (float_of : string -> result F) (bucket_seconds : Z).
Implicit Types (e : Entry) (es : list Entry) (p : Persister F) (t : bar_table F) (bs : list (Bar F * stream_id)).
Notation apply_all := (apply_all float_of bucket_seconds).
Notation good := (good float_of bucket_seconds).
Notation mem_ok := (mem_ok float_of bucket_seconds).
Notation tick_of := (tick_of float_of bucket_seconds).

Lemma upsert_fold_other bs t k :
  k ∉ (bar_key <$> bs) -> fold_left upsert_bar bs t !! k = t !! k.
Proof.
  revert t. induction bs as [|bi bs IH]; intros t Hk; [done|]. cbn in *.
  apply not_elem_of_cons in Hk as [Hne Hk]. rewrite IH by done. unfold upsert_bar.
  by rewrite lookup_insert_ne.
Qed.

Lemma upsert_fold_in bs t bi :
  NoDup (bar_key <$> bs) -> bi ∈ bs ->
  fold_left upsert_bar bs t !! bar_key bi = Some (upsert_row (t !! bar_key bi) (row_of bi.1 bi.2)).
Proof.
  revert t. induction bs as [|b bs IH]; intros t Hd Hin; [by apply elem_of_nil in Hin|].
  cbn [fold_left]. rewrite fmap_cons in Hd. apply NoDup_cons in Hd as [Hb Hd]. apply elem_of_cons in Hin as [->|Hin].
  - rewrite upsert_fold_other by done. unfold upsert_bar. by rewrite lookup_insert_eq.
  - rewrite IH by done. unfold upsert_bar. rewrite lookup_insert_ne; [done|].
    intros Heq. apply Hb. rewrite Heq. by apply list_elem_of_fmap_2.
Qed.

(** The batch of a memory: one row for every bar its entries amount to. *)
Lemma batch_ok p es :
  mem_ok p es ->
  exists bs, batch p = Ok bs /\ NoDup (bar_key <$> bs) /\
    (forall kb c, apply_all ∅ es !! kb = Some c ->
       exists bi, bi ∈ bs /\ bar_key bi = kb /\ core_of (row_of bi.1 bi.2) = c) /\
    (forall bi, bi ∈ bs -> is_Some (apply_all ∅ es !! bar_key bi)).
Proof.
  intros (_ & Hcore & Hacc & Hdom & Hkeys). unfold batch.
  assert (Hsome : forall ka, ka ∈ map_to_list (accs p) -> exists bi, sealed p ka = Ok bi).
  { intros [k a] Hin%elem_of_map_to_list. unfold sealed. cbn.
    assert (is_Some (max_id p !! k)) as [i ->] by (apply Hdom; eauto). eauto. }
  destruct (mapR_exists _ _ Hsome) as (bs & -> & Hbs). exists bs.
  assert (Hkey : forall ka bi, ka ∈ map_to_list (accs p) -> sealed p ka = Ok bi ->
    bar_key bi = (ka.1.1, fromtimestamp ka.1.2) /\
    apply_all ∅ es !! bar_key bi = Some (core_of (row_of bi.1 bi.2))).
  { intros [[s z] a] bi Hin%elem_of_map_to_list Hs. unfold sealed in Hs. cbn in Hs.
    destruct (max_id p !! (s, z)) as [i|] eqn:Hi; [|done]. injection Hs as <-.
    destruct (Hacc _ _ Hin) as (H1 & H2 & _). cbn in H1, H2.
    specialize (Hcore s z). unfold mem_core in Hcore. rewrite Hin, Hi in Hcore.
    unfold bar_key, acc_seal. cbn. rewrite H1, H2. split; [done|]. by rewrite <- Hcore. }
  split; [done|]. split_and!.
  - assert (Hmap : bar_key <$> bs = (fun k => (k.1, fromtimestamp k.2)) <$> (map_to_list (accs p)).*1).
    { clear Hsome. induction Hbs as [|ka bi l bs Hs Hbs IH]; [done|]. cbn. f_equal.
      - by apply Hkey; [apply list_elem_of_here|].
      - apply IH. intros. apply Hkey; [by apply list_elem_of_further|done]. }
    rewrite Hmap. apply NoDup_fmap; [|apply NoDup_fst_map_to_list].
    intros [s z] [s' z'] [= -> Hz]. f_equal. by apply fromtimestamp_inj.
  - intros [s kz] c Hc. destruct (Hkeys _ _ Hc) as [z Hz]. cbn in Hz. subst kz.
    rewrite <- Hcore in Hc. unfold mem_core in Hc.
    destruct (accs p !! (s, z)) as [a|] eqn:Ha; [|done]. apply elem_of_map_to_list in Ha.
    destruct (Forall2_elem_l _ _ _ _ Hbs Ha) as (bi & Hbi & Hs). exists bi.
    destruct (Hkey _ _ Ha Hs) as [Hk Hc']. cbn in Hk. rewrite Hk in Hc'. split_and!; [done..|].
    rewrite <- Hcore in Hc'. unfold mem_core in Hc'. apply elem_of_map_to_list in Ha.
    rewrite Ha in Hc'. congruence.
  - intros bi Hbi. destruct (Forall2_elem_r _ _ _ _ Hbs Hbi) as (ka & Hka & Hs).
    destruct (Hkey _ _ Hka Hs) as [_ ->]. eauto.
Qed.

(** Every entry is beyond the rows, or none is beyond the row of its bar. *)
Definition fresh (T : gmap key (Core F)) es : Prop :=
  forall k c e, T !! k = Some c -> e ∈ es -> id_lt (co_id c) (e_id e) = true.

Definition stale (T : gmap key (Core F)) es : Prop :=
  forall k mid e, e ∈ es -> tick_of e = Some (k, mid) ->
    exists c, T !! k = Some c /\ id_lt (co_id c) (e_id e) = false.

Lemma commit_counts p t es :
  mem_ok p es ->
  exists bs t' n, batch p = Ok bs /\ upsert_bars t bs = Ok (t', n) /\
    (fresh (core_of <$> t) es -> core_of <$> t' = apply_all (core_of <$> t) es) /\
    (stale (core_of <$> t) es -> core_of <$> t' = core_of <$> t).
Proof.
  intros Hm. destruct (batch_ok p es Hm) as (bs & Hbs & Hd & Hin & Hout).
  exists bs, (fold_left upsert_bar bs t), (Z.of_nat (length bs)). split; [done|].
  split; [destruct bs; [done|]; cbn [upsert_bars]; by rewrite bool_decide_eq_true_2|].
  assert (Hnone : forall kb, apply_all ∅ es !! kb = None -> kb ∉ (bar_key <$> bs)).
  { intros kb Hkb (bi & -> & Hbi)%list_elem_of_fmap. apply Hout in Hbi as [? ?]. congruence. }
  assert (Hrow : forall kb c, apply_all ∅ es !! kb = Some c -> exists bi, bi ∈ bs /\ bar_key bi = kb /\
    core_of (row_of bi.1 bi.2) = c /\ exists e mid, e ∈ es /\ tick_of e = Some (kb, mid) /\ bi.2 = e_id e).
  { intros kb c Hc. destruct (Hin kb c Hc) as (bi & Hbi & Hk & Hrow). exists bi. split_and!; [done..|].
    destruct (apply_all_last float_of bucket_seconds _ _ _ Hc) as (e & mid & He & Ht & Hid).
    exists e, mid. split_and!; [done..|]. rewrite <- Hrow in Hid. done. }
  split.
  - intros Hf. apply map_eq. intros kb. rewrite apply_all_join, !lookup_fmap.
    destruct (apply_all ∅ es !! kb) as [c|] eqn:Hc.
    + destruct (Hrow _ _ Hc) as (bi & Hbi & <- & <- & e & mid & He & _ & Hid).
      rewrite upsert_fold_in by done. cbn [fmap option_fmap option_map]. unfold upsert_row.
      destruct (t !! bar_key bi) as [r|] eqn:Hr; [|done]. cbn [fmap option_fmap option_map].
      assert (Hlt : id_lt (r_last_stream_id r) (e_id e) = true).
      { apply (Hf (bar_key bi) (core_of r) e); [by rewrite lookup_fmap, Hr|done]. }
      cbn. by rewrite Hid, Hlt.
    + rewrite upsert_fold_other by auto. cbn. by destruct (t !! kb).
  - intros Hs. apply map_eq. intros kb. rewrite !lookup_fmap.
    destruct (apply_all ∅ es !! kb) as [c|] eqn:Hc; [|by rewrite upsert_fold_other by auto].
    destruct (Hrow _ _ Hc) as (bi & Hbi & <- & _ & e & mid & He & Ht & Hid).
    rewrite upsert_fold_in by done. destruct (Hs _ _ _ He Ht) as (c0 & Hc0 & Hlt).
    rewrite lookup_fmap in Hc0. destruct (t !! bar_key bi) as [r|]; [|done].
    injection Hc0 as <-. cbn in *. by rewrite Hid, Hlt.
Qed.
End Commit.

(* ------------------------------------------------------------------ *)
(** ** The invariant *)

Section Books.
Context {F : Type} `{PyFloat F, !PyFloatOrder F} `{IsoFormat} `{ConsumerGroup}.
Context (float_of : string -> result F) (bucket_seconds : Z) (T0 : gmap key (Core F)).
Implicit Types (e : Entry) (es : list Entry) (p : Persister F) (t : bar_table F) (g : group).
Notation apply_all := (apply_all float_of bucket_seconds).
Notation good := (good float_of bucket_seconds).
Notation mem_ok := (mem_ok float_of bucket_seconds).

(** A stream of well-formed entries with increasing ids, beyond the rows there
    were to begin with. *)
Definition log_ok es : Prop :=
  Forall good es /\ StronglySorted before es /\ Forall (fun e => id_lt (0, 0) (e_id e) = true) es /\
  fresh T0 es.

Lemma log_ok_app es es' : log_ok (es ++ es') -> log_ok es /\ log_ok es'.
Proof.
  intros (Hg & Hs & Hz & Hf). apply Forall_app in Hg as [? ?]. apply Forall_app in Hz as [? ?].
  pose proof (StronglySorted_app_1_l _ _ _ Hs). pose proof (StronglySorted_app_1_r _ _ _ Hs).
  unfold fresh in Hf. split; (split_and!; [done..|]); intros k c e Hc He; apply (Hf k c e Hc); set_solver.
Qed.

Context (n : nat) (Hn : (0 < n)%nat).

(** What was acknowledged, what was committed only, and the rest. *)
Definition books es t g (A P1 P2 : list Entry) : Prop :=
  es = A ++ P1 ++ P2 ++ waiting g /\ (pending g).*1 = P1 ++ P2 /\
  core_of <$> t = apply_all T0 (A ++ P1) /\ (P1 = [] \/ P2 = [] \/ length P1 = n).

Lemma chunk_cases (C R P1 P2 : list Entry) :
  C ++ R = P1 ++ P2 -> (P1 = [] \/ P2 = [] \/ length P1 = n) ->
  (R = [] /\ (P1 = [] \/ (length C <= n)%nat)) \/ length C = n ->
  (P1 = [] /\ P2 = C ++ R /\ (R = [] \/ length C = n)) \/
  exists P1', P1 = C ++ P1' /\ R = P1' ++ P2 /\ (P1' = [] \/ P2 = []).
Proof.
  intros Heq Hal Hc. destruct (decide (P1 = [])) as [->|Hne]; [left; naive_solver|]. right.
  assert (Hle : (length C <= length P1)%nat).
  { apply (f_equal length) in Heq. rewrite !length_app in Heq.
    destruct Hal as [?|[->|Hl]]; [done|cbn in Heq; lia|].
    destruct Hc as [[-> [?|Hc]]|Hc]; [done|lia|lia]. }
  exists (drop (length C) P1). assert (HC : C = take (length C) P1).
  { apply (f_equal (take (length C))) in Heq.
    by rewrite take_app_length, take_app_le in Heq by done. }
  split_and!; [rewrite HC at 1; by rewrite take_drop| |].
  - apply (f_equal (drop (length C))) in Heq. by rewrite drop_app_length, drop_app_le in Heq by done.
  - destruct Hal as [?|[->|Hl]]; [done|by right|].
    destruct Hc as [[-> _]|Hc]; [|left; apply drop_ge; lia].
    right. rewrite app_nil_r in Heq. apply (f_equal length) in Heq. rewrite length_app in Heq.
    apply nil_length_inv. lia.
Qed.

(** No bar in memory: no entry either. *)
Lemma mem_ok_nothing p C : Forall good C -> mem_ok p C -> accs p = ∅ -> C = [].
Proof.
  intros Hg (_ & Hcore & _ & _ & Hkeys) Hacc. induction C as [|e C _] using rev_ind; [done|].
  apply Forall_app in Hg as [_ Hg]. apply Forall_singleton in Hg as (k & mid & Ht & _).
  assert (exists c, apply_all ∅ (C ++ [e]) !! k = Some c) as [c Hc].
  { rewrite apply_all_snoc, apply_entry_lookup, Ht, decide_True by done.
    destruct (apply_all ∅ C !! k); eauto. }
  destruct (Hkeys _ _ Hc) as [z Hz]. destruct k as [s kz]. cbn in Hz. subst kz.
  rewrite <- Hcore in Hc. unfold mem_core in Hc. rewrite Hacc, lookup_empty in Hc. done.
Qed.

(** The rows before the entries [C] of the stream [A ++ C ++ B]. *)
Lemma log_fresh A C B : log_ok (A ++ C ++ B) -> fresh (apply_all T0 A) C.
Proof.
  intros (_ & Hs & _ & Hf) k c e Hc He.
  destruct (apply_all_id float_of bucket_seconds _ _ _ _ Hc) as [(c0 & Hc0 & ->)|(e' & He' & ->)].
  - apply (Hf k c0 e Hc0). set_solver.
  - eapply (StronglySorted_app_1_elem_of before A (C ++ B)); set_solver.
Qed.

Lemma log_stale A C X B : log_ok (A ++ C ++ X ++ B) -> stale float_of bucket_seconds (apply_all T0 (A ++ C ++ X)) C.
Proof.
  intros (_ & Hs & _ & _) k mid e He Ht. eapply apply_all_reaches; [|set_solver|done].
  rewrite !(app_assoc A), (app_assoc (A ++ C)) in Hs. apply StronglySorted_app_1_l in Hs.
  by rewrite <- app_assoc in Hs.
Qed.

(** Committing the first pending entries [C] leaves [C ++ X] committed. *)
Lemma commit_books es p t g (A P1 P2 C R : list Entry) :
  log_ok es -> books es t g A P1 P2 -> mem_ok p C -> (pending g).*1 = C ++ R ->
  (R = [] /\ (P1 = [] \/ (length C <= n)%nat)) \/ length C = n ->
  exists bs t' k, batch p = Ok bs /\ upsert_bars t bs = Ok (t', k) /\
    exists X P2', R = X ++ P2' /\ (X = [] \/ P2' = []) /\ (P1 = [] -> X = []) /\
      books es t' g A (C ++ X) P2'.
Proof.
  intros Hlog (Hes & Hp & Ht & Hal) Hm HC Hshape. rewrite Hp in HC.
  destruct (commit_counts float_of bucket_seconds p t C Hm) as (bs & t' & k & Hb & Hu & Hfresh & Hstale).
  exists bs, t', k. split_and!; [done..|]. unfold books. rewrite Hp, HC.
  destruct (chunk_cases C R P1 P2 (eq_sym HC) Hal Hshape) as [(-> & -> & Hend)|(X & -> & -> & Hend)].
  - exists [], R. rewrite !app_nil_r in *. cbn in Hes. rewrite <- !app_assoc in *.
    split_and!; [done|by left|done|done|done| |tauto].
    rewrite Hfresh, Ht; [by rewrite apply_all_app|]. rewrite Ht. apply (log_fresh A C (R ++ waiting g)).
    by rewrite <- Hes.
  - exists X, P2. split_and!; [done|done|by intros [_ ?]%app_nil|done|by rewrite <- app_assoc| |done].
    rewrite Hstale; [done|]. rewrite Ht. apply (log_stale A C X (P2 ++ waiting g)).
    rewrite <- app_assoc in Hes. by rewrite <- Hes.
Qed.

Lemma ack_books es t g (A C X P2 : list Entry) :
  log_ok es -> books es t g A (C ++ X) P2 -> (X = [] \/ P2 = []) ->
  pending (xack (e_id <$> C) g) = drop (length C) (pending g) /\
  books es t (xack (e_id <$> C) g) (A ++ C) X P2.
Proof.
  intros (_ & Hs & _) (Hes & Hp & Ht & Hal) HX. destruct (xack_spec (e_id <$> C) g) as [Hw Hk].
  assert (Htake : (take (length C) (pending g)).*1 = C).
  { rewrite fmap_take, Hp, <- app_assoc. by rewrite take_app_length. }
  assert (Hdrop : acked (e_id <$> C) (pending g) = drop (length C) (pending g)).
  { rewrite <- Htake at 1. rewrite <- (take_drop (length C) (pending g)) at 2. apply acked_prefix.
    rewrite take_drop, Hp. rewrite Hes in Hs. apply StronglySorted_app_1_r in Hs.
    rewrite app_assoc in Hs. by apply StronglySorted_app_1_l in Hs. }
  rewrite Hk, Hdrop. split; [done|]. unfold books. rewrite Hw, Hk, Hdrop, fmap_drop, Hp.
  rewrite <- !app_assoc in *. rewrite drop_app_length. split_and!; [done..|]. tauto.
Qed.

(** A flush of the first pending entries, whatever goes wrong. *)
Lemma flush_books es p t g f (A P1 P2 C R : list Entry) p' t' g' r :
  log_ok es -> books es t g A P1 P2 -> mem_ok p C -> (pending g).*1 = C ++ R ->
  (R = [] /\ (P1 = [] \/ (length C <= n)%nat)) \/ length C = n ->
  flush p t g f = (p', t', g', r) ->
  match r with
  | Ok _ => mem_ok p' [] /\ pending g' = drop (length C) (pending g) /\
      exists A' P1' P2', books es t' g' A' P1' P2' /\ (P1 = [] -> P1' = [])
  | Raise _ => g' = g /\ exists P1' P2', books es t' g A P1' P2'
  end.
Proof.
  intros Hlog Hbooks Hm HC Hshape Hfl.
  destruct (commit_books es p t g A P1 P2 C R) as (bs & t1 & k & Hb & Hu & X & P2' & HR & HX & Hnil & Hcommit);
    [done..|].
  unfold flush in Hfl. case_bool_decide as Hacc.
  - injection Hfl as <- <- <- <-. destruct Hbooks as (Hes & Hp & Hrest).
    assert (C = []) as ->.
    { apply (mem_ok_nothing p); [|done..]. destruct Hlog as (Hg & _). rewrite Forall_forall in Hg |- *.
      intros e He. apply Hg. rewrite Hes. assert (e ∈ P1 ++ P2) by (rewrite <- Hp, HC; set_solver).
      set_solver. }
    split_and!; [done..|]. exists A, P1, P2. done.
  - rewrite Hb, Hu in Hfl. destruct (ack_books es t1 g A C X P2') as [Hpend Hacked]; [done..|].
    pose proof Hm as (Hun & _).
    destruct f; injection Hfl as <- <- <- <-; [|by eauto..]. rewrite Hun.
    split_and!; [by apply mem_ok_empty|done|]. eauto 6.
Qed.

(** Folding in the first pending entries and flushing them. *)
Lemma take_flush es w g f next (A P1 P2 C R : list Entry) :
  log_ok es -> books es (table w) g A P1 P2 -> mem_ok (proc w) [] -> (pending g).*1 = C ++ R ->
  R = [] /\ (length C <= n)%nat \/ length C = n ->
  let '(w', ok) := take_in float_of bucket_seconds w g C in
  let w2 := if ok then flush_to w' f next else w' in
  (phase w2 = Stopped /\ grp w2 = g /\ exists A' P1' P2', books es (table w2) g A' P1' P2') \/
  (phase w2 = next /\ mem_ok (proc w2) [] /\ consumer w2 = consumer w /\
   pending (grp w2) = drop (length C) (pending g) /\
   exists A' P1' P2', books es (table w2) (grp w2) A' P1' P2').
Proof.
  intros Hlog Hbooks Hm HC Hshape. unfold take_in.
  destruct (ingest_all _ _ (proc w) C) as [p [[]|ex]] eqn:Hi; cbn; [|left; eauto 6].
  assert (Hm' : mem_ok p ([] ++ C)).
  { assert (Hes : es = A ++ C ++ R ++ waiting g).
    { destruct Hbooks as (-> & Hp & _). rewrite (app_assoc P1), <- Hp, HC. by rewrite <- app_assoc. }
    rewrite Hes in Hlog. apply log_ok_app in Hlog as [_ Hlog]. apply log_ok_app in Hlog as [(? & ? & _) _].
    eapply ingest_all_ok; done. }
  unfold flush_to. cbn. destruct (flush p (table w) g f) as [[[p' t'] g'] r] eqn:Hf.
  eapply flush_books in Hf; [|done..|naive_solver].
  destruct r; [right|left]; cbn; [|naive_solver]. destruct Hf as (? & ? & ? & ? & ? & ? & _). eauto 10.
Qed.

(* ------------------------------------------------------------------ *)
(** *** Who owns the pending entries *)

(** Two owners at most, the first of one batch. *)
Definition owners (l : list (Entry * string)) : Prop :=
  exists Q1 Q2 a b, l = Q1 ++ Q2 /\ Forall (fun ec => ec.2 = a) Q1 /\ Forall (fun ec => ec.2 = b) Q2 /\
    (Q1 = [] \/ length Q1 = n).

(** What [c] owns comes first. *)
Definition own_first (c : string) (l : list (Entry * string)) : Prop :=
  exists O R, l = O ++ R /\ owned_by c l = O /\ owned_by c R = [].

Lemma owned_by_app c l l' : owned_by c (l ++ l') = owned_by c l ++ owned_by c l'.
Proof. apply List.filter_app. Qed.

Lemma owned_by_all c l : Forall (fun ec => ec.2 = c) l <-> owned_by c l = l.
Proof.
  split.
  - induction 1 as [|ec l Hec _ IH]; [done|]. cbn. rewrite bool_decide_eq_true_2 by done. by f_equal.
  - intros <-. apply Forall_forall. intros ec [_ Hec]%elem_of_lfilter. by apply bool_decide_eq_true in Hec.
Qed.

Lemma owned_by_drop_nil c k l : owned_by c l = [] -> owned_by c (drop k l) = [].
Proof. rewrite <- (take_drop k l) at 1. rewrite owned_by_app. by intros [_ ?]%app_nil. Qed.

Lemma own_first_intro c l : owned_by c l = take (length (owned_by c l)) l -> own_first c l.
Proof.
  set (k := length (owned_by c l)). intros Hown. exists (take k l), (drop k l).
  split_and!; [by rewrite take_drop|done|].
  assert (Ht : owned_by c (take k l) = take k l).
  { rewrite <- Hown. apply owned_by_all, Forall_forall. intros ec [_ Hec]%elem_of_lfilter.
    by apply bool_decide_eq_true in Hec. }
  rewrite <- (take_drop k l) in Hown at 1. rewrite owned_by_app, Ht in Hown.
  rewrite <- (app_nil_r (take k l)) in Hown at 2. by apply app_inv_head in Hown.
Qed.

Lemma own_first_drop c k l : own_first c l -> own_first c (drop k l).
Proof.
  intros (O & R & -> & HO & HR). rewrite owned_by_app, HR, app_nil_r in HO.
  exists (drop k O), (drop (k - length O) R). rewrite drop_app, owned_by_app.
  rewrite (owned_by_drop_nil c _ R) by done. rewrite app_nil_r. split_and!; [done| |done].
  apply owned_by_all. apply owned_by_all in HO. by apply Forall_drop.
Qed.

Lemma owners_drop l : owners l -> exists b, Forall (fun ec => ec.2 = b) (drop n l).
Proof.
  intros (Q1 & Q2 & a & b & -> & _ & Hq2 & [->|Hl]); exists b; [by apply Forall_drop|].
  by rewrite <- Hl, drop_app_length.
Qed.

Lemma owners_one b l : Forall (fun ec => ec.2 = b) l -> owners l.
Proof. intros Hl. exists [], l, b, b. split_and!; [done|constructor|done|by left]. Qed.

Lemma owners_claimed c l R b :
  (R = [] \/ length l = n) -> Forall (fun ec => ec.2 = c) l -> Forall (fun ec => ec.2 = b) R -> owners (l ++ R).
Proof.
  intros [->|Hl] Hc Hb; [|by exists l, R, c, b; split_and!; [..|right]].
  rewrite app_nil_r. by apply (owners_one c).
Qed.

Lemma two_owners (Q1 Q2 : list (Entry * string)) a b i ec :
  Forall (fun ec => ec.2 = a) Q1 -> Forall (fun ec => ec.2 = b) Q2 ->
  (Q1 ++ Q2) !! i = Some ec -> ec.2 = if decide (i < length Q1)%nat then a else b.
Proof.
  rewrite !Forall_lookup. intros Hq1 Hq2 [Hi|[Hle Hi]]%lookup_app_Some.
  - rewrite decide_True by (by eapply lookup_lt_Some). eauto.
  - rewrite decide_False by lia. eauto.
Qed.

(** The entries a drain reads are the first pending ones. *)
Lemma drain_chunk c l :
  owners l -> own_first c l -> owned_by c l <> [] -> take n (owned_by c l) = take n l.
Proof.
  intros Ho (O & R & -> & HO & HR) Hne. rewrite HO. rewrite owned_by_app, HR, app_nil_r in HO.
  assert (HOne : O <> []) by (intros ->; by rewrite owned_by_app, HR in Hne).
  apply owned_by_all in HO. destruct R as [|ec R]; [by rewrite app_nil_r|].
  assert (Hec : ec.2 <> c).
  { intros Hec. cbn in HR. by rewrite bool_decide_eq_true_2 in HR. }
  destruct Ho as (Q1 & Q2 & a & b & Heq & Hq1 & Hq2 & Hl).
  assert (Hin : forall i x, (O ++ ec :: R) !! i = Some x -> x.2 = if decide (i < length Q1)%nat then a else b).
  { rewrite Heq. intros i x. by apply two_owners. }
  pose proof (Hin (length O) ec (list_lookup_middle _ _ _ _ eq_refl)) as Hmid.
  assert (HOc : forall i, (i < length O)%nat -> c = if decide (i < length Q1)%nat then a else b).
  { intros i [x Hx]%lookup_lt_is_Some. rewrite Forall_lookup in HO. rewrite <- (HO _ _ Hx).
    apply Hin. by apply lookup_app_l_Some. }
  assert (HOlen : (0 < length O)%nat) by (destruct O; cbn; [done|lia]).
  assert (length O = n) as <-; [|by rewrite firstn_all, take_app_length].
  pose proof (HOc 0%nat HOlen) as Hhd. destruct Hl as [->|Hl].
  - rewrite decide_False in Hhd by (cbn; lia). rewrite decide_False in Hmid by (cbn; lia). congruence.
  - rewrite Hl in *. rewrite decide_True in Hhd by done. destruct (decide (length O < n)%nat).
    + congruence.
    + destruct (decide (length O = n)); [done|]. pose proof (HOc n ltac:(lia)) as Hb.
      rewrite decide_False in Hb by lia. congruence.
Qed.

(* ------------------------------------------------------------------ *)
(** *** The steps *)

Definition phase_ok (w : World F) (P1 : list Entry) : Prop :=
  match phase w with
  | Stopped => True
  | Draining => mem_ok (proc w) [] /\ own_first (consumer w) (pending (grp w))
  | Claiming cursor =>
      mem_ok (proc w) [] /\ Forall (fun ec => id_lt (e_id ec.1) cursor = false) (pending (grp w))
  | Steady | Sweeping _ =>
      P1 = [] /\ Forall (fun ec => ec.2 = consumer w) (pending (grp w)) /\
      mem_ok (proc w) (pending (grp w)).*1
  end.

Definition worker_inv es (w : World F) : Prop :=
  exists A P1 P2, books es (table w) (grp w) A P1 P2 /\ owners (pending (grp w)) /\ phase_ok w P1.

Notation worker_step := (worker_step float_of bucket_seconds n).

Definition produced (ev : Event F) : list Entry := match ev with Produce e => [e] | _ => [] end.

(** A worker finds its own entries, if any, first in the pending list; and what has
    been idle for as long as the sweep asks, [flush] has dealt with. *)
Definition start_ok (w : World F) (ev : Event F) : Prop :=
  match ev, phase w with
  | Start c _, Stopped =>
      let own := owned_by c (pending (grp w)) in own = take (length own) (pending (grp w))
  | SweepTrip idle (Some _), Sweeping _ => Forall (fun ec => idle (e_id ec.1) = false) (pending (grp w))
  | _, _ => True
  end.

Lemma books_pending es t g A P1 P2 : log_ok es -> books es t g A P1 P2 -> StronglySorted before (pending g).*1.
Proof.
  intros (_ & Hs & _) (-> & -> & _). apply StronglySorted_app_1_r in Hs.
  rewrite app_assoc in Hs. by apply StronglySorted_app_1_l in Hs.
Qed.

Lemma fst_chunk (l : list (Entry * string)) :
  l.*1 = (take n l).*1 ++ (drop n l).*1 /\
  ((drop n l).*1 = [] /\ (length (take n l).*1 <= n)%nat \/ length (take n l).*1 = n).
Proof.
  split; [by rewrite <- fmap_app, take_drop|]. rewrite length_fmap, length_take.
  destruct (decide (n <= length l)%nat); [right; lia|]. left. rewrite drop_ge by lia. split; [done|lia].
Qed.

Lemma drop_chunk {A} (l : list A) : drop (length (take n l)) l = drop n l.
Proof.
  rewrite length_take. destruct (decide (n <= length l)%nat); [f_equal; lia|]. rewrite !drop_ge by lia. done.
Qed.

Lemma pending_positive es t g A P1 P2 :
  log_ok es -> books es t g A P1 P2 -> Forall (fun ec => id_lt (0, 0) (e_id ec.1) = true) (pending g).
Proof.
  intros (_ & _ & Hz & _) (-> & Hp & _). rewrite Forall_forall in Hz. rewrite Forall_forall.
  intros ec Hec. apply Hz. assert (ec.1 ∈ P1 ++ P2) by (rewrite <- Hp; by apply list_elem_of_fmap_2).
  set_solver.
Qed.

Lemma stopped_inv es w A P1 P2 :
  books es (table w) (grp w) A P1 P2 -> owners (pending (grp w)) -> phase w = Stopped -> worker_inv es w.
Proof. intros Hb Ho Hs. exists A, P1, P2. split_and!; [done..|]. unfold phase_ok. by rewrite Hs. Qed.

(** The trips to Redis a start can still make. *)
Definition startup_left (w : World F) : nat :=
  match phase w with
  | Draining => S (S (length (pending (grp w))))
  | Claiming _ => S (length (pending (grp w)))
  | _ => 0
  end.

(** Once the start is over nothing is pending. *)
Definition started_clean (w : World F) : Prop :=
  match phase w with Steady => pending (grp w) = [] | Sweeping _ => False | _ => True end.

Lemma drop_shorter {A} (l : list A) : take n l <> [] -> (length (drop n l) < length l)%nat.
Proof. intros Hne. rewrite length_drop. destruct l; [by rewrite take_nil in Hne|cbn; lia]. Qed.

Lemma step_drain es w f :
  log_ok es -> worker_inv es w -> phase w = Draining ->
  let w' := worker_step w (Drain f) in
  worker_inv es w' /\ (startup_left w' < startup_left w)%nat /\ started_clean w'.
Proof.
  intros Hlog (A & P1 & P2 & Hb & Ho & Hph) Hd. unfold phase_ok in Hph. rewrite Hd in Hph.
  destruct Hph as [Hm Hown]. unfold startup_left at 2. unfold Persister.worker_step, drain_own_pending. rewrite Hd, xreadgroup_own_spec.
  destruct (decide (owned_by (consumer w) (pending (grp w)) = [])) as [Hnil|Hne].
  - rewrite Hnil, take_nil. cbn. split; [|split; [lia|done]]. exists A, P1, P2. split_and!; [done..|]. unfold phase_ok. cbn.
    split; [done|]. pose proof (pending_positive _ _ _ _ _ _ Hlog Hb) as Hz.
    eapply Forall_impl; [exact Hz|]. intros ec. apply id_lt_nlt.
  - rewrite drain_chunk by done. destruct (fst_chunk (pending (grp w))) as [HC Hshape].
    pose proof (take_flush es w (grp w) f Draining A P1 P2 _ _ Hlog Hb Hm HC Hshape) as Hstep.
    destruct ((take n (pending (grp w))).*1) as [|e C] eqn:HCeq.
    + apply fmap_nil_inv in HCeq. rewrite <- (take_drop n (pending (grp w))), HCeq in Hne.
      destruct Hshape as [[Hdr%fmap_nil_inv _]|Hlen]; [by rewrite Hdr in Hne|cbn in Hlen; lia].
    + destruct (take_in _ _ w (grp w) (e :: C)) as [w' ok].
      destruct Hstep as [(Hst & Hg & A' & P1' & P2' & Hb')|(Hst & Hm' & Hc & Hp & A' & P1' & P2' & Hb')].
      * split; [eapply stopped_inv; [by rewrite Hg|by rewrite Hg|done]|].
        unfold startup_left, started_clean. rewrite Hst. split; [lia|done].
      * rewrite <- HCeq, length_fmap, drop_chunk in Hp. split; [|split; [|unfold started_clean; by rewrite Hst]].
        -- exists A', P1', P2'. split_and!; [done| |].
           ++ rewrite Hp. destruct (owners_drop _ Ho) as [b Hbo]. by apply (owners_one b).
           ++ unfold phase_ok. rewrite Hst, Hc, Hp. split; [done|by apply own_first_drop].
        -- unfold startup_left. rewrite Hst, Hp.
           pose proof (drop_shorter (pending (grp w))) as Hlt. rewrite <- !Nat.succ_lt_mono. apply Hlt.
           intros Hnil. by rewrite Hnil in HCeq.
Qed.

(** The first [n] pending entries change hands. *)
Lemma reassign_chunk c (l : list (Entry * string)) :
  StronglySorted before l.*1 ->
  reassign c (e_id <$> (take n l).*1) l = ((fun ec => (ec.1, c)) <$> take n l) ++ drop n l.
Proof.
  intros Hs%stream_nodup. rewrite <- (take_drop n l) in Hs at 1. rewrite !fmap_app in Hs.
  apply NoDup_app in Hs as (_ & Hd & _). rewrite <- (take_drop n l) at 2. unfold reassign.
  rewrite fmap_app. f_equal.
  - apply list_fmap_ext. intros i ec Hec. rewrite bool_decide_eq_true_2; [done|].
    apply list_elem_of_fmap_2, list_elem_of_fmap_2. by eapply list_elem_of_lookup_2.
  - rewrite <- (list_fmap_id (drop n l)) at 2. apply list_fmap_ext. intros i ec Hec.
    rewrite bool_decide_eq_false_2; [done|]. intros Hin. apply (Hd _ Hin).
    apply list_elem_of_fmap_2, list_elem_of_fmap_2. by eapply list_elem_of_lookup_2.
Qed.

Lemma from_id_all cur (l : list (Entry * string)) :
  Forall (fun ec => id_lt (e_id ec.1) cur = false) l -> from_id cur l = l.
Proof. induction 1 as [|ec l Hec _ IH]; [done|]. cbn. rewrite Hec. cbn. by f_equal. Qed.

(** The cursor an exhausted or an interrupted scan leaves. *)
Lemma next_cursor_first (l : list (Entry * string)) :
  StronglySorted before l.*1 -> Forall (fun ec => id_lt (0, 0) (e_id ec.1) = true) l ->
  if bool_decide (next_cursor l = (0, 0)) then l = []
  else Forall (fun ec => id_lt (e_id ec.1) (next_cursor l) = false) l.
Proof.
  intros Hs Hz. destruct l as [|ec l]; [done|]. cbn. apply Forall_cons in Hz as [Hz _].
  rewrite bool_decide_eq_false_2 by (intros Heq; rewrite Heq, id_lt_irrefl in Hz; done).
  cbn in Hs. apply StronglySorted_inv in Hs as [_ Hs]. constructor; [apply id_lt_irrefl|].
  rewrite Forall_fmap in Hs. eapply Forall_impl; [exact Hs|]. intros x. apply id_lt_nlt.
Qed.

Lemma step_claim es w f cur :
  log_ok es -> worker_inv es w -> phase w = Claiming cur ->
  let w' := worker_step w (Claim f) in
  worker_inv es w' /\ (startup_left w' < startup_left w)%nat /\ started_clean w'.
Proof.
  intros Hlog (A & P1 & P2 & Hb & Ho & Hph) Hd. unfold phase_ok in Hph. rewrite Hd in Hph.
  destruct Hph as [Hm Hcur]. unfold startup_left at 2. unfold Persister.worker_step, claim_abandoned. rewrite Hd.
  pose proof (xautoclaim_spec (consumer w) cur n (grp w)) as Hspec.
  destruct (xautoclaim _ _ _ _) as [g [next es']]. rewrite from_id_all in Hspec by done.
  destruct Hspec as (-> & -> & Hw & Hp). pose proof (books_pending _ _ _ _ _ _ Hlog Hb) as Hs.
  rewrite reassign_chunk in Hp by done.
  assert (Hfst : (pending g).*1 = (pending (grp w)).*1).
  { rewrite Hp, fmap_app, <- list_fmap_compose. cbn.
    change (fun x : Entry * string => x.1) with (@fst Entry string). by rewrite <- fmap_app, take_drop. }
  assert (Hb' : books es (table w) g A P1 P2).
  { destruct Hb as (Hes & Hpend & Hrest). unfold books. by rewrite Hw, Hfst. }
  assert (Ho' : owners (pending g)).
  { rewrite Hp. destruct (owners_drop _ Ho) as [b Hbo].
    destruct (fst_chunk (pending (grp w))) as [_ Hlen]. rewrite length_fmap in Hlen.
    apply (owners_claimed (consumer w) _ _ b); [|by apply Forall_fmap, Forall_true|done].
    rewrite length_fmap. destruct Hlen as [[->%fmap_nil_inv _]|]; auto. }
  destruct (fst_chunk (pending (grp w))) as [HC Hshape].
  pose proof (next_cursor_first (drop n (pending (grp w)))) as Hnext.
  assert (Hsd : StronglySorted before (drop n (pending (grp w))).*1).
  { rewrite HC in Hs. by apply StronglySorted_app_1_r in Hs. }
  specialize (Hnext Hsd).
  specialize (Hnext (Forall_drop _ _ _ (pending_positive _ _ _ _ _ _ Hlog Hb))).
  pose proof (take_flush es w g f (if bool_decide (next_cursor (drop n (pending (grp w))) = (0, 0))
    then Steady else Claiming (next_cursor (drop n (pending (grp w))))) A P1 P2 _ _ Hlog Hb' Hm
    (eq_trans Hfst HC) Hshape) as Hstep.
  assert (Hdrop : drop (length (take n (pending (grp w))).*1) (pending g) = drop n (pending (grp w))).
  { rewrite Hp, length_fmap. rewrite <- (length_fmap (fun ec => (ec.1, consumer w)) (take n _)).
    by rewrite drop_app_length. }
  destruct ((take n (pending (grp w))).*1) as [|e C] eqn:HCeq.
  - destruct Hshape as [[Hdr%fmap_nil_inv _]|Hlen]; [|cbn in Hlen; lia]. apply fmap_nil_inv in HCeq.
    assert (Hnil : pending g = []) by (by rewrite Hp, HCeq, Hdr).
    split; [|split; [unfold startup_left; cbn; lia|done]].
    exists A, P1, P2. split_and!; [done..|]. unfold phase_ok. cbn. rewrite Hnil. split_and!; [|done..].
    destruct Hb' as (_ & Hpp & _). rewrite Hnil in Hpp. symmetry in Hpp. by apply app_nil in Hpp as [? _].
  - destruct (take_in _ _ w g (e :: C)) as [w' ok].
    destruct Hstep as [(Hst & Hg & A' & P1' & P2' & Hb2)|(Hst & Hm' & Hc & Hp' & A' & P1' & P2' & Hb2)].
    + split; [eapply stopped_inv; [by rewrite Hg|by rewrite Hg|done]|]. unfold startup_left, started_clean.
      rewrite Hst. split; [lia|done].
    + rewrite Hdrop in Hp'. split; [|split].
      * exists A', P1', P2'. split_and!; [done| |].
        -- rewrite Hp'. destruct (owners_drop _ Ho) as [b Hbo]. by apply (owners_one b).
        -- unfold phase_ok. rewrite Hst, Hp'. case_bool_decide; [|done]. rewrite Hnext in *. cbn.
           split_and!; [|constructor|done]. destruct Hb2 as (_ & Hnil & _). rewrite Hp' in Hnil.
           symmetry in Hnil. by apply app_nil in Hnil as [? _].
      * unfold startup_left. rewrite Hst. case_bool_decide; [lia|]. rewrite Hp', <- Nat.succ_lt_mono.
        apply drop_shorter. intros Hnil. by rewrite Hnil in HCeq.
      * unfold started_clean. rewrite Hp', Hst. by case_bool_decide.
Qed.

Lemma step_read es w :
  log_ok es -> worker_inv es w -> phase w = Steady -> worker_inv es (worker_step w Read).
Proof.
  intros Hlog (A & P1 & P2 & Hb & Ho & Hph) Hd. unfold phase_ok in Hph. rewrite Hd in Hph.
  destruct Hph as (-> & Hown & Hm). unfold Persister.worker_step, read_new. rewrite Hd.
  pose proof (xreadgroup_new_spec (consumer w) n (grp w)) as Hspec.
  destruct (xreadgroup_new _ _ _) as [g new]. destruct Hspec as (-> & Hw & Hp).
  set (new := take n (waiting (grp w))) in *. destruct Hb as (Hes & Hpend & Ht & _). cbn in Hes, Hpend.
  assert (Hfst : (pending g).*1 = P2 ++ new).
  { rewrite Hp, fmap_app, Hpend, <- list_fmap_compose. cbn. by rewrite list_fmap_id. }
  assert (Hes' : es = A ++ P2 ++ new ++ waiting g).
  { rewrite Hw. subst new. by rewrite take_drop. }
  assert (Hb : books es (table w) g A [] (P2 ++ new)).
  { split_and!; [by rewrite Hes', <- app_assoc|done|done|by left]. }
  assert (Hall : Forall (fun ec => ec.2 = consumer w) (pending g)).
  { rewrite Hp. apply Forall_app. split; [done|]. by apply Forall_fmap, Forall_true. }
  unfold take_in. destruct (ingest_all _ _ (proc w) new) as [p r] eqn:Hi.
  exists A, [], (P2 ++ new). cbn. split_and!; [done|by apply (owners_one (consumer w))|].
  unfold phase_ok. cbn. destruct r as [[]|]; [|done]. cbn. rewrite Hd, Hfst. split_and!; [done..|].
  rewrite Hpend in Hm. rewrite Hes' in Hlog. apply log_ok_app in Hlog as [_ Hlog].
  rewrite app_assoc in Hlog. apply log_ok_app in Hlog as [(? & ? & _) _]. by eapply ingest_all_ok.
Qed.

Lemma step_flush es w f :
  log_ok es -> worker_inv es w -> phase w = Steady -> worker_inv es (worker_step w (Flush f)).
Proof.
  intros Hlog (A & P1 & P2 & Hb & Ho & Hph) Hd. unfold phase_ok in Hph. rewrite Hd in Hph.
  destruct Hph as (-> & Hown & Hm). unfold Persister.worker_step. rewrite Hd. unfold flush_to.
  destruct (flush _ _ _ _) as [[[p t] g] r] eqn:Hf.
  eapply flush_books in Hf; [|done|done|done|by rewrite app_nil_r|left; split; [done|by left]].
  destruct r as [?|?].
  - destruct Hf as (Hm' & Hp & A' & P1' & P2' & Hb' & Hnil).
    assert (Hp' : pending g = []) by (rewrite Hp, length_fmap; by apply drop_all).
    exists A', P1', P2'. cbn. split; [done|]. split; [rewrite Hp'; by apply (owners_one (consumer w))|].
    unfold phase_ok. cbn. rewrite Hp'. auto.
  - destruct Hf as (-> & P1' & P2' & Hb'). by eapply stopped_inv.
Qed.

(** A sweep that finds nothing changes nothing. *)
Lemma step_sweep es w cursor idle f :
  worker_inv es w -> phase w = Sweeping cursor -> Forall (fun ec => idle (e_id ec.1) = false) (pending (grp w)) ->
  worker_inv es (sweep_abandoned float_of bucket_seconds n w cursor idle f).
Proof.
  intros (A & P1 & P2 & Hb & Ho & Hph) Hd Hidle. unfold phase_ok in Hph. rewrite Hd in Hph. unfold sweep_abandoned.
  pose proof (xautoclaim_idle_spec idle (consumer w) cursor n (grp w)) as Hspec.
  destruct (xautoclaim_idle _ _ _ _ _) as [g [next es']]. destruct Hspec as (Hsub & Hall & Hw & Hp).
  destruct es' as [|e es'].
  - assert (Hpend : pending g = pending (grp w)).
    { rewrite Hp. unfold reassign. rewrite <- (list_fmap_id (pending (grp w))) at 2.
      apply list_fmap_ext. by intros. }
    exists A, P1, P2. unfold books, phase_ok. cbn. rewrite Hw, Hpend. done.
  - apply Forall_cons in Hall as [He _]. pose proof (Hsub e ltac:(by left)) as (ec & -> & Hec)%list_elem_of_fmap.
    rewrite Forall_forall in Hidle. by rewrite Hidle in He.
Qed.

(** Every step keeps the books. *)
Lemma step_inv es w ev :
  log_ok (es ++ produced ev) -> worker_inv es w -> start_ok w ev ->
  worker_inv (es ++ produced ev) (worker_step w ev).
Proof.
  intros Hlog Hw Hstart. pose proof Hw as (A & P1 & P2 & Hb & Ho & Hph).
  destruct ev as [e|c memory|f|f| |f| |idle [f|]|]; cbn [produced] in *.
  1: { destruct (xadd_spec e (grp w)) as [Hwait Hp]. destruct Hb as (-> & Hpend & Ht & Hal).
    exists A, P1, P2. unfold Persister.worker_step, books, phase_ok in *. cbn.
    rewrite Hp, Hwait, <- !app_assoc. done. }
  all: rewrite app_nil_r in *.
  - unfold start_ok, Persister.worker_step in *. destruct (phase w) eqn:Hd; try done.
    exists A, P1, P2. unfold phase_ok. cbn. split_and!; [done..|by apply mem_ok_empty|].
    by apply own_first_intro.
  - destruct (phase w) eqn:Hd; try by unfold Persister.worker_step; rewrite Hd. by apply step_drain.
  - destruct (phase w) eqn:Hd; try by unfold Persister.worker_step; rewrite Hd. by eapply step_claim.
  - destruct (phase w) eqn:Hd; try by unfold Persister.worker_step; rewrite Hd. by apply step_read.
  - destruct (phase w) eqn:Hd; try by unfold Persister.worker_step; rewrite Hd. by apply step_flush.
  - unfold Persister.worker_step. destruct (phase w) eqn:Hd; try done.
    exists A, P1, P2. unfold phase_ok in *. rewrite Hd in Hph. done.
  - unfold start_ok, Persister.worker_step in *. destruct (phase w) eqn:Hd; try done. by eapply step_sweep.
  - unfold Persister.worker_step. destruct (phase w) eqn:Hd; try done.
    exists A, P1, P2. unfold phase_ok in *. rewrite Hd in Hph. done.
  - eapply stopped_inv; [exact Hb|done|]. unfold Persister.worker_step. by destruct (phase w).
Qed.
End Books.

(* ------------------------------------------------------------------ *)
(** ** Every tick counts once *)

Section Exactly.
Context {F : Type} `{PyFloat F, !PyFloatOrder F} `{IsoFormat} `{ConsumerGroup}.
Context (float_of : string -> result F) (bucket_seconds : Z) (n : nat).
Implicit Types (evs : list (Event F)) (w : World F).
Notation worker_step := (worker_step float_of bucket_seconds n).
Notation worker_run := (worker_run float_of bucket_seconds n).
Notation apply_all := (apply_all float_of bucket_seconds).

(** Everything that was ever appended to the stream. *)
Definition stream evs : list Entry := evs ≫= produced.

(** At every start the worker's own entries, if any, are the first pending ones, and
    no sweep finds one that is idle. *)
Fixpoint starts_ok w evs : Prop :=
  match evs with
  | [] => True
  | ev :: evs => start_ok w ev /\ starts_ok (worker_step w ev) evs
  end.

Lemma run_books T0 evs : forall es w,
  (0 < n)%nat -> log_ok float_of bucket_seconds T0 (es ++ stream evs) ->
  worker_inv float_of bucket_seconds T0 n es w -> starts_ok w evs ->
  worker_inv float_of bucket_seconds T0 n (es ++ stream evs) (worker_run w evs).
Proof.
  induction evs as [|ev evs IH]; intros es w Hn Hlog Hinv Hst; cbn in *; [by rewrite app_nil_r|].
  destruct Hst as [Hev Hst]. unfold stream in *. cbn in *. rewrite app_assoc in *.
  apply IH; try done. apply step_inv; try done. by apply log_ok_app in Hlog as [? _].
Qed.

(** A worker that begins on an empty group, a stream of well-formed entries with
    increasing ids, starts in order and flushes more frequent than what counts as idle. *)
Definition orderly w0 evs : Prop :=
  (0 < n)%nat /\ phase w0 = Stopped /\ waiting (grp w0) = [] /\ pending (grp w0) = [] /\
  log_ok float_of bucket_seconds (core_of <$> table w0) (stream evs) /\ starts_ok w0 evs.

Lemma orderly_books w0 evs :
  orderly w0 evs ->
  worker_inv float_of bucket_seconds (core_of <$> table w0) n (stream evs) (worker_run w0 evs).
Proof.
  intros (Hn & Hph & Hw & Hp & Hlog & Hst). apply (run_books _ evs [] w0 Hn Hlog); [|done].
  exists [], [], []. split_and!; [|rewrite Hp; by apply (owners_one _ ""%string)|by unfold phase_ok; rewrite Hph].
  unfold books. rewrite Hp, Hw. split_and!; [done..|by left].
Qed.

(** C3. Exactly once, for an [orderly] history: the group is empty when the worker first
    starts, every entry of the stream is well formed - its prices numbers, its id later
    than those before - each start finds the worker's own pending entries ahead of any
    that others left, and no sweep finds an entry idle long enough to be claimed, which
    flushes more frequent than [claim_idle_ms] give.  Then, whatever else the worker goes
    through - crashes, failed commits, lost acknowledgements, restarts under another
    name, entries left by others - its table (return sums apart) is the one in which
    each entry of some prefix of the stream was counted exactly once and no other was;
    what Redis no longer keeps is in that prefix; and once nothing is left in the group
    the prefix is the whole stream.  Outside of an orderly history it may not be:
    [failover_out_of_order_loses], [slow_flush_counts_twice],
    [lost_sweep_ack_counts_twice] and [malformed_drain_never_ends]. *)
Theorem worker_exactly_once w0 evs :
  orderly w0 evs ->
  let w := worker_run w0 evs in
  exists acknowledged committed,
    (acknowledged <= committed <= length (stream evs) - length (waiting (grp w)))%nat /\
    (pending (grp w)).*1 ++ waiting (grp w) = drop acknowledged (stream evs) /\
    core_of <$> table w = apply_all (core_of <$> table w0) (take committed (stream evs)) /\
    (pending (grp w) = [] -> waiting (grp w) = [] ->
     core_of <$> table w = apply_all (core_of <$> table w0) (stream evs)).
Proof.
  intros Hord w. destruct (orderly_books _ _ Hord) as (A & P1 & P2 & (Hes & Hpend & Ht & _) & _).
  fold w in Hes, Hpend, Ht. rewrite Hes. exists (length A), (length (A ++ P1)).
  rewrite drop_app_length, app_assoc, take_app_length, Hpend, !length_app. split_and!; [lia|lia|by rewrite <- app_assoc|done|].
  intros Hnil Hwn. rewrite Hnil in Hpend. symmetry in Hpend. apply app_nil in Hpend as [-> ->].
  rewrite app_nil_r in Ht. by rewrite Hwn, !app_nil_r.
Qed.

(** [run] up to its steady state: a drain until nothing is left, then claims. *)
Definition startup_step w (f : FlushFault) : World F :=
  worker_step w (match phase w with Draining => Drain f | _ => Claim f end).

(** C39. In an [orderly] history a start comes to an end: after at most two more trips to
    Redis than there are pending entries, whatever goes wrong on the way, the worker has
    either left [run] with an exception or reached the steady state, and it reaches the
    steady state with nothing pending.  The condition that entries are well formed is
    needed: a pending list of malformed ones is drained for ever
    ([malformed_drain_never_ends]). *)
Theorem worker_startup_terminates w0 evs fs :
  orderly w0 evs -> phase (worker_run w0 evs) = Draining ->
  (length (pending (grp (worker_run w0 evs))) + 2 <= length fs)%nat ->
  let w := fold_left startup_step fs (worker_run w0 evs) in
  phase w = Stopped \/ phase w = Steady /\ pending (grp w) = [].
Proof.
  intros Hord Hph Hlen. pose proof (orderly_books _ _ Hord) as Hinv.
  destruct Hord as (Hn & _ & _ & _ & Hlog & _).
  assert (Hleft : (startup_left (worker_run w0 evs) <= length fs)%nat) by (unfold startup_left; rewrite Hph; lia).
  assert (Hst : started_clean (worker_run w0 evs)) by (unfold started_clean; by rewrite Hph).
  clear Hph Hlen. revert Hinv Hleft Hst. generalize (worker_run w0 evs) as w.
  induction fs as [|f fs IH]; intros w Hinv Hleft Hst; cbn [fold_left length] in *.
  - unfold startup_left in Hleft. unfold started_clean in Hst.
    destruct (phase w) eqn:E; [by left|lia|lia|auto|done].
  - assert (Hstep : worker_inv float_of bucket_seconds (core_of <$> table w0) n (stream evs) (startup_step w f) /\
      (startup_left (startup_step w f) <= length fs)%nat /\ started_clean (startup_step w f));
      [|destruct Hstep as (? & ? & ?); by apply IH].
    unfold startup_step. destruct (phase w) eqn:E.
    + unfold Persister.worker_step. rewrite E. unfold startup_left. rewrite E. split_and!; [done|lia|done].
    + destruct (step_drain _ _ _ _ Hn _ w f Hlog Hinv E) as (? & ? & ?). split_and!; [done|lia|done].
    + destruct (step_claim _ _ _ _ Hn _ w f _ Hlog Hinv E) as (? & ? & ?). split_and!; [done|lia|done].
    + unfold Persister.worker_step. rewrite E. unfold startup_left. rewrite E. split_and!; [done|lia|done].
    + unfold started_clean in Hst. by rewrite E in Hst.
Qed.
End Exactly.

(* ------------------------------------------------------------------ *)
(** ** Examples *)

Section Examples.
#[local] Existing Instance plain64.
#[local] Existing Instance iso_utc.
#[local] Existing Instance list_group.
#[local] Instance demo_order : @PyFloatOrder spec_float plain64 := binary64_order _ _ _.

Definition demo_float (s : string) : result spec_float :=
  if bool_decide (s = "1"%string) then Ok (f_of_Z 1)
  else if bool_decide (s = "3"%string) then Ok (f_of_Z 3) else Raise ValueError.

Definition demo_tick (ms : Z) (ask : string) : Entry := {|
  e_id := (ms, 0);
  e_fields := list_to_map [("s", "EURUSD"); ("b", "1"); ("a", ask);
                           ("t", iso_string (1000 * ms))]%string |}.

Definition demo_world (p : Persister spec_float) : World spec_float := {|
  table := ∅; grp := ([], []); proc := p; consumer := ""; phase := Stopped |}.

(** A lost acknowledgement, a failover, a refused commit and a restart. *)
Definition demo_history : list (Event spec_float) := [
  Produce (demo_tick 5000 "3"); Produce (demo_tick 6000 "1"); Produce (demo_tick 61000 "3");
  Start "a" Persister_new; Drain FlushOk; Claim FlushOk; Read; Flush AckFailed;
  Produce (demo_tick 62000 "1");
  Start "b" Persister_new; Drain FlushOk; Claim FlushOk; Read; Flush CommitFailed;
  Start "b" Persister_new; Drain FlushOk; Drain FlushOk; Claim FlushOk;
  Sweep; SweepTrip (fun _ => false) (Some FlushOk)]%string.

Notation demo_run := (worker_run demo_float 60 2 (demo_world Persister_new)).

Lemma demo_orderly : orderly demo_float 60 2 (demo_world Persister_new) demo_history.
Proof.
  split_and!; [lia|done..| |].
  - split_and!.
    + repeat constructor; (eexists _, _; split; [vm_compute; reflexivity|vm_compute; reflexivity]).
    + repeat constructor.
    + repeat constructor.
    + intros k c e Hc. change (table _) with (∅ : bar_table spec_float) in Hc.
      by rewrite fmap_empty, lookup_empty in Hc.
  - vm_compute. repeat constructor.
Qed.

Lemma worker_exactly_once_witness :
  pending (grp (demo_run demo_history)) = [] /\ waiting (grp (demo_run demo_history)) = [] /\
  core_of <$> table (demo_run demo_history) = apply_all demo_float 60 ∅ (stream demo_history).
Proof.
  destruct (worker_exactly_once demo_float 60 2
    (demo_world Persister_new) demo_history demo_orderly) as (a & c & _ & _ & _ & Hall).
  split; [vm_compute; reflexivity|]. split; [vm_compute; reflexivity|].
  apply Hall; vm_compute; reflexivity.
Defined.

(** The second life of [demo_history], up to its drain. *)
Definition demo_restart : list (Event spec_float) := take 10 demo_history.

Lemma demo_restart_orderly : orderly demo_float 60 2 (demo_world Persister_new) demo_restart.
Proof.
  split_and!; [lia|done..| |].
  - split_and!.
    + repeat constructor; (eexists _, _; split; [vm_compute; reflexivity|vm_compute; reflexivity]).
    + repeat constructor.
    + repeat constructor.
    + intros k c e Hc. change (table _) with (∅ : bar_table spec_float) in Hc.
      by rewrite fmap_empty, lookup_empty in Hc.
  - vm_compute. repeat split.
Qed.

Lemma worker_startup_terminates_witness :
  let w := fold_left (startup_step demo_float 60 2) (replicate 4 FlushOk) (demo_run demo_restart) in
  length (pending (grp (demo_run demo_restart))) = 2%nat /\
  (phase w = Stopped \/ phase w = Steady /\ pending (grp w) = []).
Proof.
  split; [vm_compute; reflexivity|].
  apply (worker_startup_terminates demo_float 60 2
    (demo_world Persister_new) demo_restart (replicate 4 FlushOk) demo_restart_orderly);
    vm_compute; [reflexivity|lia].
Defined.

(** Without the order at starts a tick can be lost: a worker dies between claiming
    the first of another's two entries and committing it, and the other comes back:
    it drains the second, and the first is below its row's watermark. *)
Definition demo_failover : list (Event spec_float) := [
  Produce (demo_tick 5000 "3"); Produce (demo_tick 6000 "1");
  Start "a" Persister_new; Drain FlushOk; Claim FlushOk; Read; Read; Die;
  Start "b" Persister_new; Drain FlushOk; Claim CommitFailed;
  Start "a" Persister_new; Drain FlushOk; Drain FlushOk; Claim FlushOk]%string.

Lemma failover_out_of_order_loses :
  let w := worker_run demo_float 60 1 (demo_world Persister_new) demo_failover in
  phase w = Steady /\ pending (grp w) = [] /\ waiting (grp w) = [] /\
  (r_tick_count <$> table w !! ("EURUSD"%string, 0)) = Some 1 /\
  (co_count <$> apply_all demo_float 60 ∅ (stream demo_failover) !! ("EURUSD"%string, 0)) = Some 2.
Proof. vm_compute. repeat split. Qed.

(** The sweep takes entries that have been idle for [claim_idle_ms], its own too:
    with a flush less frequent than that, a tick in memory is folded in again. *)
Lemma slow_flush_counts_twice :
  let evs := [Produce (demo_tick 5000 "3"); Start "a" Persister_new; Drain FlushOk; Claim FlushOk; Read;
              Sweep; SweepTrip (fun _ => true) (Some FlushOk)]%string in
  let w := demo_run evs in
  phase w = Steady /\ pending (grp w) = [] /\
  (r_tick_count <$> table w !! ("EURUSD"%string, 0)) = Some 2 /\
  (co_count <$> apply_all demo_float 60 ∅ (stream evs) !! ("EURUSD"%string, 0)) = Some 1.
Proof. vm_compute. repeat split. Qed.

(** "b" leads, and the deposed "a" got an entry in its last trip. *)
Definition demo_overlap : World spec_float :=
  let w := demo_run [Start "b" Persister_new; Drain FlushOk; Claim FlushOk; Produce (demo_tick 5000 "3")]%string in
  {| table := table w; grp := (xreadgroup_new "a"%string 2 (grp w)).1; proc := proc w;
     consumer := consumer w; phase := phase w |}.

(** The sweep of "b" commits it, and Redis fails before the acknowledgement: the
    error is suppressed with the entry still in memory, and the next tick of the
    minute carries it past the watermark a second time. *)
Lemma lost_sweep_ack_counts_twice :
  let w := worker_run demo_float 60 2 demo_overlap
    [Sweep; SweepTrip (fun _ => true) (Some AckFailed); Produce (demo_tick 6000 "1"); Read; Flush FlushOk] in
  phase w = Steady /\ waiting (grp w) = [] /\ pending (grp w) = [] /\
  (r_tick_count <$> table w !! ("EURUSD"%string, 0)) = Some 3.
Proof. vm_compute. repeat split. Qed.

(** Entries that are all malformed put nothing in memory, so their flush does not
    acknowledge them: the drain reads them again, for ever. *)
Definition demo_malformed : World spec_float :=
  worker_run demo_float 60 2 (demo_world Persister_new) [
    Produce (demo_tick 5000 "oops"); Start "a" Persister_new; Drain FlushOk; Claim FlushOk; Read; Die;
    Start "a" Persister_new]%string.

Definition demo_stuck (ids : list stream_id) : World spec_float := {|
  table := ∅; grp := grp demo_malformed;
  proc := {| accs := ∅; last_price := ∅; last_seen_bucket := ∅; provider := ∅; max_id := ∅; unacked := ids |};
  consumer := "a"; phase := Draining |}.

Lemma malformed_drain_never_ends k :
  phase (fold_left (startup_step demo_float 60 2) (replicate k FlushOk) demo_malformed) = Draining.
Proof.
  replace demo_malformed with (demo_stuck []) by (vm_compute; reflexivity).
  generalize (@nil stream_id) as ids. induction k as [|k IH]; intros ids; [done|]. cbn [replicate fold_left].
  replace (startup_step _ _ _ (demo_stuck ids) FlushOk) with (demo_stuck (ids ++ [(5000, 0)]))
    by (vm_compute; reflexivity).
  apply IH.
Qed.
End Examples.
