(* ===== verification/Alerts.v ===== *)
(** * From the alert stream to [alert_events] ([fx_worker/alerts.py])

    The second consumer of the worker: every transition goes to the database with
    the read that brought it, and is acknowledged after the commit.  A step of
    [alert_step] is one trip to Redis and what follows it; where it can fail is an
    input.  [alerts_stored] holds for any order of consumers, and [conflict_verdicts]
    for the classification of conflicts. *)
From S2P Require Import Prelude PyFloat Binary64 Civil Models Database Streams.
From Stdlib Require Import SpecFloat.

Local Open Scope Z_scope.

(** What can go wrong after a read: nothing, the database refuses, or the commit is
    made and what follows it does not arrive. *)
Inductive WriteFault := Written | Refused | AckLost.

(** What [_classify_conflicts] counts. *)
Inductive Verdict := Redelivered | SeqCollision.

Section Alerts.
Context {F : Type} `{PyFloat F} `{IsoFormat} `{ConsumerGroup}.
(** Python's [float(text)] and [int(text)]. *)
Context (float_of : string -> result F) (int_of : string -> result Z).
(** The symbols of the table [instruments], and [batch]. *)
Context (instrument : string -> bool) (batch_size : nat).
Implicit Types (fs : gmap string string) (e : Entry) (t : alert_table F) (g : group).

Definition VALID_REGIMES : gset string := {["normal"; "stressed"]}%string.
Definition VALID_CAUSES : gset string := {["threshold"; "baseline_thaw"; "observation_lost"]}%string.

(* ------------------------------------------------------------------ *)
(** ** Parsing *)

Definition optional_float (raw : string) : result (option F) :=
  if bool_decide (raw = ""%string) then Ok None
  else value ← float_of raw; Ok (if f_isfinite value then Some value else None).

Definition alert_field fs (k : string) : result string :=
  match fs !! k with Some v => Ok v | None => Raise KeyError end.

(** The body of the [try]. *)
Definition alert_row fs : result (AlertRow F) :=
  old_regime ← alert_field fs "old_regime";
  new_regime ← alert_field fs "new_regime";
  cause ← alert_field fs "cause";
  _ ← guard_ (bool_decide (old_regime ∈ VALID_REGIMES) && bool_decide (new_regime ∈ VALID_REGIMES)) ValueError;
  _ ← guard_ (negb (bool_decide (old_regime = new_regime))) ValueError;
  _ ← guard_ (bool_decide (cause ∈ VALID_CAUSES)) ValueError;
  t ← alert_field fs "ts"; ts ← fromisoformat t;
  symbol ← alert_field fs "s";
  n ← alert_field fs "seq"; seq ← int_of n;
  trigger_value ← optional_float (default ""%string (fs !! "trigger_value"%string));
  th ← alert_field fs "threshold_value"; threshold_value ← float_of th;
  sigma ← optional_float (default ""%string (fs !! "sigma"%string));
  Ok {| al_symbol := symbol; al_seq := seq; al_ts := ts; al_old_regime := old_regime;
        al_new_regime := new_regime; al_trigger_value := trigger_value;
        al_threshold_value := threshold_value; al_sigma := sigma; al_cause := cause;
        al_reason := default ""%string (fs !! "reason"%string) |}.

Definition alert_parse fs : result (option (AlertRow F)) :=
  match alert_row fs with
  | Ok r => Ok (Some r)
  | Raise KeyError | Raise ValueError => Ok None
  | Raise ex => Raise ex
  end.

(* ------------------------------------------------------------------ *)
(** ** Writing *)

(** [by_key]: a dict comprehension, the last row of a key. *)
Definition by_key (rows : list (AlertRow F)) : alert_table F :=
  fold_left (fun d r => <[alert_key r := r]> d) rows ∅.

Definition classify_one t (rows : list (AlertRow F)) (k : string * Z) : result ((string * Z) * Verdict) :=
  match by_key rows !! k with
  | None => Raise KeyError
  | Some incoming =>
      Ok (k, if bool_decide (alert_timestamp t k.1 k.2 = Some (al_ts incoming)) then Redelivered
             else SeqCollision)
  end.

Definition classify_conflicts t rows (conflicted : list (string * Z)) : result (list ((string * Z) * Verdict)) :=
  mapR (classify_one t rows) conflicted.

(** [_flush]: the table, the group and what was counted. *)
Definition alert_flush t g (rows : list (AlertRow F)) (ids : list stream_id) (f : WriteFault)
    : alert_table F * group * result (list ((string * Z) * Verdict)) :=
  match f, rows with
  | Refused, _ :: _ => (t, g, Raise DatabaseError)
  | _, _ =>
      match insert_alerts instrument t rows with
      | Raise ex => (t, g, Raise ex)
      | Ok (t, (_, conflicted)) =>
          match classify_conflicts t rows conflicted with
          | Raise ex => (t, g, Raise ex)
          | Ok verdicts =>
              match f with
              | Written => (t, xack ids g, Ok verdicts)
              | _ => (t, g, Raise RuntimeError)
              end
          end
      end
  end.

(** [_consume]: parse every entry, then write. *)
Definition alert_consume t g (es : list Entry) (f : WriteFault)
    : alert_table F * group * result (list ((string * Z) * Verdict)) :=
  match mapR (fun e => alert_parse (e_fields e)) es with
  | Raise ex => (t, g, Raise ex)
  | Ok parsed => alert_flush t g (parsed ≫= opt_list) (e_id <$> es) f
  end.

(* ------------------------------------------------------------------ *)
(** ** The life of the consumer *)

(** [sweep]: whether the claim is the periodic one of the main loop. *)
Inductive AlertPhase := Idle | Drains | Claims (sweep : bool) (cursor : stream_id) | Serves.

Record AlertWorld := {
  a_table : alert_table F;
  a_grp : group;
  a_consumer : string;
  a_phase : AlertPhase;
}.
Implicit Types (w : AlertWorld).

Inductive AlertEvent :=
  | Emit (e : Entry)
  | Boot (c : string)
  | DrainTrip (f : WriteFault)
  | ClaimTrip (idle : stream_id -> bool) (f : WriteFault)
  | ReadTrip (f : WriteFault)
  | Sweep
  (** Redis does not answer the claim of a sweep, which suppresses it *)
  | SweepUnanswered
  | Crash.

(** The world after a read batch; an exception leaves [run], but the sweep
    suppresses those of Redis. *)
Definition consume_to w g (es : list Entry) (f : WriteFault) (next lost : AlertPhase) : AlertWorld :=
  let '(t, g, r) := alert_consume (a_table w) g es f in
  {| a_table := t; a_grp := g; a_consumer := a_consumer w;
     a_phase := match r with
                | Ok _ => next
                | Raise RuntimeError => lost
                | Raise _ => Idle
                end |}.

Definition alert_drain w (f : WriteFault) : AlertWorld :=
  match xreadgroup_own (a_consumer w) batch_size (a_grp w) with
  | [] => {| a_table := a_table w; a_grp := a_grp w; a_consumer := a_consumer w;
             a_phase := Claims false (0, 0) |}
  | es => consume_to w (a_grp w) es f Drains Idle
  end.

Definition alert_claim w (sweep : bool) (cursor : stream_id) (idle : stream_id -> bool) (f : WriteFault)
    : AlertWorld :=
  let '(g, (next, es)) := xautoclaim_idle idle (a_consumer w) cursor batch_size (a_grp w) in
  match es with
  | [] => {| a_table := a_table w; a_grp := g; a_consumer := a_consumer w; a_phase := Serves |}
  | _ => consume_to w g es f (if bool_decide (next = (0, 0)) then Serves else Claims sweep next)
           (if sweep then Serves else Idle)
  end.

Definition alert_read w (f : WriteFault) : AlertWorld :=
  let '(g, es) := xreadgroup_new (a_consumer w) batch_size (a_grp w) in
  match es with
  | [] => {| a_table := a_table w; a_grp := g; a_consumer := a_consumer w; a_phase := Serves |}
  | _ => consume_to w g es f Serves Idle
  end.

Definition alert_phase w (ph : AlertPhase) : AlertWorld :=
  {| a_table := a_table w; a_grp := a_grp w; a_consumer := a_consumer w; a_phase := ph |}.

Definition alert_step w (ev : AlertEvent) : AlertWorld :=
  match ev, a_phase w with
  | Emit e, _ =>
      {| a_table := a_table w; a_grp := xadd e (a_grp w); a_consumer := a_consumer w;
         a_phase := a_phase w |}
  | Boot c, Idle =>
      {| a_table := a_table w; a_grp := a_grp w; a_consumer := c; a_phase := Drains |}
  | DrainTrip f, Drains => alert_drain w f
  | ClaimTrip idle f, Claims sweep cursor => alert_claim w sweep cursor idle f
  | ReadTrip f, Serves => alert_read w f
  | Sweep, Serves => alert_phase w (Claims true (0, 0))
  | SweepUnanswered, Claims true _ => alert_phase w Serves
  | Crash, _ => alert_phase w Idle
  | _, _ => w
  end.

Definition alert_run w (evs : list AlertEvent) : AlertWorld := fold_left alert_step evs w.

(* ------------------------------------------------------------------ *)
(** ** A write *)

Lemma by_key_in rows r : r ∈ rows -> is_Some (by_key rows !! alert_key r).
Proof.
  unfold by_key. induction rows as [|r' rows IH] using rev_ind; [by intros ?%elem_of_nil|].
  rewrite fold_left_snoc, elem_of_app, list_elem_of_singleton, lookup_insert_is_Some'.
  intros [Hr| ->]; [right; by apply IH|by left].
Qed.

Lemma by_key_unique rows r :
  NoDup (alert_key <$> rows) -> r ∈ rows -> by_key rows !! alert_key r = Some r.
Proof.
  unfold by_key. induction rows as [|r' rows IH] using rev_ind; [by intros _ ?%elem_of_nil|].
  rewrite fmap_app, fold_left_snoc, elem_of_app, list_elem_of_singleton. cbn.
  intros (Hd & Hdis & _)%NoDup_app [Hr| ->]; [|by rewrite lookup_insert_eq].
  rewrite lookup_insert_ne; [by apply IH|]. intros Heq. apply (Hdis (alert_key r)).
  - by apply list_elem_of_fmap_2.
  - rewrite <- Heq. by apply list_elem_of_here.
Qed.

Lemma classify_ok t rows conflicted :
  (forall k, k ∈ conflicted -> k ∈ (alert_key <$> rows)) ->
  exists vs, classify_conflicts t rows conflicted = Ok vs /\
    Forall2 (fun k kv => classify_one t rows k = Ok kv) conflicted vs.
Proof.
  intros Hin. apply mapR_exists. intros k Hk. apply Hin in Hk.
  apply list_elem_of_fmap in Hk as (r & -> & Hr). unfold classify_one.
  destruct (by_key_in _ _ Hr) as [x ->]. eauto.
Qed.

(** What a flush does to the table and the group, whatever goes wrong. *)
Lemma alert_flush_spec t g rows ids f t' g' r :
  alert_flush t g rows ids f = (t', g', r) ->
  t ⊆ t' /\
  (forall k x, t' !! k = Some x -> t !! k = Some x \/ x ∈ rows /\ alert_key x = k) /\
  (g' = g \/ g' = xack ids g /\ forall x, x ∈ rows -> is_Some (t' !! alert_key x)).
Proof.
  assert (Hkeep : (t', g', r) = (t, g, r) -> t ⊆ t' /\
    (forall k x, t' !! k = Some x -> t !! k = Some x \/ x ∈ rows /\ alert_key x = k) /\
    (g' = g \/ g' = xack ids g /\ forall x, x ∈ rows -> is_Some (t' !! alert_key x)))
    by (intros [= -> ->]; split_and!; auto).
  unfold alert_flush. intros Hfl.
  assert (Hw : match insert_alerts instrument t rows with
    | Raise ex => (t, g, Raise ex)
    | Ok (t, (_, conflicted)) =>
        match classify_conflicts t rows conflicted with
        | Raise ex => (t, g, Raise ex)
        | Ok verdicts => match f with Written => (t, xack ids g, Ok verdicts) | _ => (t, g, Raise RuntimeError) end
        end end = (t', g', r) \/ (t', g', r) = (t, g, r)).
  { destruct f, rows; auto. right. congruence. }
  clear Hfl. destruct Hw as [Hw|]; [|by apply Hkeep].
  destruct (insert_alerts instrument t rows) as [[t1 [k conflicted]]|] eqn:E; [|apply Hkeep; congruence].
  apply insert_alerts_ok in E as (Hsub & Hfrom & Hin & Hc).
  destruct (classify_ok t1 rows conflicted) as (vs & Hvs & _); [by intros k' [_ ?]%Hc|].
  rewrite Hvs in Hw. destruct f; injection Hw as <- <- <-; auto.
Qed.

(** What a batch of transitions with distinct (symbol, seq) becomes: a new one is
    stored and not counted as a conflict; for one whose key was there the stored row
    stays, and it is counted as a redelivery when the timestamps agree and as a lost
    transition otherwise; nothing else is counted, nothing raises after the commit,
    and the entries are acknowledged. *)
Theorem conflict_verdicts t g rows ids t' k conflicted :
  NoDup (alert_key <$> rows) -> insert_alerts instrument t rows = Ok (t', (k, conflicted)) ->
  exists vs, alert_flush t g rows ids Written = (t', xack ids g, Ok vs) /\ vs.*1 = conflicted /\
    (forall x, x ∈ rows ->
      match t !! alert_key x with
      | None => t' !! alert_key x = Some x /\ alert_key x ∉ vs.*1
      | Some old =>
          t' !! alert_key x = Some old /\
          (alert_key x, if bool_decide (al_ts old = al_ts x) then Redelivered else SeqCollision) ∈ vs
      end).
Proof.
  intros Hd Hins. unfold alert_flush. rewrite Hins. apply insert_alerts_ok in Hins as (Hsub & Hfrom & Hin & Hc).
  destruct (classify_ok t' rows conflicted) as (vs & Hvs & Hall); [by intros k' [_ ?]%Hc|]. rewrite Hvs.
  assert (Hfst : vs.*1 = conflicted).
  { clear Hvs Hc. induction Hall as [|k' kv l vs Hk _ IH]; [done|]. rewrite fmap_cons, IH. f_equal.
    unfold classify_one in Hk. destruct (by_key rows !! k'); [|done]. by injection Hk as <-. }
  exists vs. split; [by destruct rows|]. split; [done|]. intros x Hx.
  destruct (t !! alert_key x) as [old|] eqn:Hold.
  - pose proof (lookup_weaken _ _ _ _ Hold Hsub) as Hold'. split; [done|].
    assert (Hk : alert_key x ∈ conflicted) by (apply Hc; split; [eauto|by apply list_elem_of_fmap_2]).
    destruct (Forall2_elem_l _ _ _ _ Hall Hk) as (kv & Hkv & Hone). unfold classify_one in Hone.
    rewrite by_key_unique in Hone by done. unfold alert_timestamp in Hone.
    rewrite <- surjective_pairing, Hold' in Hone. injection Hone as <-. cbn in Hkv.
    erewrite (bool_decide_ext (al_ts old = al_ts x)); [exact Hkv|]. split; congruence.
  - split.
    + destruct (Hin x Hx) as [y Hy]. destruct (Hfrom _ _ Hy) as [?|[Hyr Hyk]]; [congruence|].
      rewrite Hy. f_equal. pose proof (by_key_unique rows x Hd Hx) as Hbx.
      pose proof (by_key_unique rows y Hd Hyr) as Hby. congruence.
    + rewrite Hfst, Hc. intros [[? ?] _]. congruence.
Qed.

(* ------------------------------------------------------------------ *)
(** ** Nothing acknowledged is lost *)

(** An entry that needs no more work: its key is stored, or it is malformed. *)
Definition settled t e : Prop :=
  match alert_parse (e_fields e) with
  | Ok (Some r) => is_Some (t !! alert_key r)
  | Ok None => True
  | Raise _ => False
  end.

Definition alert_inv (T0 : alert_table F) (es : list Entry) t g : Prop :=
  T0 ⊆ t /\
  (forall k r, t !! k = Some r -> T0 !! k = Some r \/
     exists e, e ∈ es /\ alert_parse (e_fields e) = Ok (Some r) /\ alert_key r = k) /\
  (forall e, e ∈ waiting g \/ e ∈ (pending g).*1 -> e ∈ es) /\
  (forall e, e ∈ es -> e ∈ waiting g \/ e ∈ (pending g).*1 \/ settled t e).

Lemma settled_weaken t t' e : t ⊆ t' -> settled t e -> settled t' e.
Proof.
  intros Hsub. unfold settled. destruct (alert_parse _) as [[r|]|]; try done.
  intros [x Hx]. exists x. by apply (lookup_weaken t).
Qed.

Lemma consume_spec t g es f t' g' r :
  alert_consume t g es f = (t', g', r) ->
  t ⊆ t' /\
  (forall k x, t' !! k = Some x -> t !! k = Some x \/
     exists e, e ∈ es /\ alert_parse (e_fields e) = Ok (Some x) /\ alert_key x = k) /\
  (g' = g \/ g' = xack (e_id <$> es) g /\ forall e, e ∈ es -> settled t' e).
Proof.
  unfold alert_consume. destruct (mapR _ es) as [parsed|] eqn:E; [|intros [= <- <- <-]; split_and!; auto].
  apply mapR_Forall2 in E. intros Hfl. apply alert_flush_spec in Hfl as (Hsub & Hfrom & Hack).
  assert (Hrows : forall x, x ∈ parsed ≫= opt_list <->
    exists e, e ∈ es /\ alert_parse (e_fields e) = Ok (Some x)).
  { intros x. rewrite list_elem_of_bind. split.
    - intros ([y|] & Hx & Hin); [|by apply elem_of_nil in Hx]. apply list_elem_of_singleton in Hx as ->.
      apply (Forall2_elem_r _ _ _ _ E) in Hin as (e & ? & ?). eauto.
    - intros (e & He & Hp). apply (Forall2_elem_l _ _ _ _ E) in He as (o & Ho & Hpo).
      exists o. split; [|done]. rewrite Hp in Hpo. injection Hpo as <-. apply list_elem_of_here. }
  split_and!; [done| |].
  - intros k x Hx. destruct (Hfrom k x Hx) as [?|[Hr Hk]]; [by left|]. apply Hrows in Hr as (e & ? & ?). eauto.
  - destruct Hack as [->|[-> Hst]]; [by left|right]. split; [done|]. intros e He.
    destruct (Forall2_elem_l _ _ _ _ E He) as (o & _ & Hp). unfold settled. rewrite Hp.
    destruct o as [x|]; [|done]. apply Hst, Hrows. eauto.
Qed.

(** Consuming pending entries keeps the invariant, whatever goes wrong. *)
Lemma consume_inv T0 es t g ces f t' g' r :
  NoDup (e_id <$> es) -> alert_inv T0 es t g -> ces ⊆ (pending g).*1 ->
  alert_consume t g ces f = (t', g', r) -> alert_inv T0 es t' g'.
Proof.
  intros Hd (HT & Hfrom & Hsub & Hall) Hces Hc.
  apply consume_spec in Hc as (Htt & Hnew & Hack).
  assert (Hces' : forall e, e ∈ ces -> e ∈ es) by (intros e He; apply Hsub; right; by apply Hces).
  split; [by etrans|]. split.
  { intros k x Hx. destruct (Hnew k x Hx) as [Hk|(e & He & Hp)]; [by apply Hfrom|right; eauto]. }
  destruct Hack as [->|[-> Hst]].
  - split; [done|]. intros e He. destruct (Hall e He) as [?|[?|Hs]]; auto. right; right.
    by apply (settled_weaken t).
  - destruct (xack_spec (e_id <$> ces) g) as [Hw Hp]. rewrite Hw, Hp. split.
    + intros e [?|(ec & -> & Hin)%list_elem_of_fmap]; [auto|]. apply elem_of_lfilter in Hin as [Hin _].
      apply Hsub. right. by apply list_elem_of_fmap_2.
    + intros e He. destruct (Hall e He) as [?|[Hin|Hs]]; [auto| |right; right; by apply (settled_weaken t)].
      right. destruct (decide (e_id e ∈ (e_id <$> ces))) as [Hid|Hid].
      * right. apply Hst. apply list_elem_of_fmap in Hid as (e' & Heq & He').
        replace e with e'; [done|]. apply (entry_unique es); auto.
      * left. apply list_elem_of_fmap in Hin as (ec & -> & Hec). apply list_elem_of_fmap_2.
        apply elem_of_lfilter. split; [done|]. by rewrite bool_decide_eq_false_2.
Qed.

Definition emitted (ev : AlertEvent) : list Entry := match ev with Emit e => [e] | _ => [] end.
Definition alert_stream (evs : list AlertEvent) : list Entry := evs ≫= emitted.

Notation world_inv T0 es w := (alert_inv T0 es (a_table w) (a_grp w)).

Lemma consume_to_inv T0 es w g ces f next lost :
  NoDup (e_id <$> es) -> alert_inv T0 es (a_table w) g -> ces ⊆ (pending g).*1 ->
  world_inv T0 es (consume_to w g ces f next lost).
Proof.
  intros Hd Hinv Hces. unfold consume_to. destruct (alert_consume _ _ _ _) as [[t g'] r] eqn:E.
  by eapply consume_inv in E.
Qed.

Lemma alert_step_inv T0 es w ev :
  NoDup (e_id <$> (es ++ emitted ev)) -> world_inv T0 es w ->
  world_inv T0 (es ++ emitted ev) (alert_step w ev).
Proof.
  intros Hd Hinv. destruct ev as [e|c|f|idle f|f| | |]; cbn [emitted] in *.
  1: { destruct (xadd_spec e (a_grp w)) as [Hw Hp]. destruct Hinv as (HT & Hfrom & Hsub & Hall).
    unfold alert_step, alert_inv. cbn. rewrite Hw, Hp. split_and!; [done| | |].
    - intros k r Hk. destruct (Hfrom k r Hk) as [?|(e' & ? & ?)]; [by left|right; exists e'; set_solver].
    - intros e'. rewrite !elem_of_app. intros [[?|?]|?]; auto.
    - intros e'. rewrite !elem_of_app. intros [He|?]; [|auto]. destruct (Hall e' He) as [?|[?|?]]; auto. }
  all: rewrite app_nil_r in *; unfold alert_step; destruct (a_phase w) eqn:Hph; try exact Hinv.
  - unfold alert_drain. rewrite xreadgroup_own_spec. destruct (fst <$> take _ _) as [|e l] eqn:E; [exact Hinv|].
    rewrite <- E. apply consume_to_inv; [done..|]. intros x (ec & -> & Hec)%list_elem_of_fmap.
    apply list_elem_of_fmap_2. apply elem_of_take in Hec as (i & Hec & _).
    apply list_elem_of_lookup_2 in Hec. by apply elem_of_lfilter in Hec as [? _].
  - unfold alert_claim. pose proof (xautoclaim_idle_spec idle (a_consumer w) cursor batch_size (a_grp w)) as Hs.
    destruct (xautoclaim_idle _ _ _ _ _) as [g [next ces]]. destruct Hs as (Hces & _ & Hw & Hp).
    assert (Hfst : (pending g).*1 = (pending (a_grp w)).*1) by (by rewrite Hp, reassign_entries).
    assert (Hinv' : alert_inv T0 es (a_table w) g) by (unfold alert_inv; by rewrite Hw, Hfst).
    destruct ces as [|e l]; [exact Hinv'|]. apply consume_to_inv; [done..|by rewrite Hfst].
  - unfold alert_read. pose proof (xreadgroup_new_spec (a_consumer w) batch_size (a_grp w)) as Hs.
    destruct (xreadgroup_new _ _ _) as [g new]. destruct Hs as (Hnew & Hw & Hp).
    assert (Hfst : (pending g).*1 = (pending (a_grp w)).*1 ++ new).
    { rewrite Hp, fmap_app, <- list_fmap_compose. cbn. by rewrite list_fmap_id. }
    assert (Hwait : forall e, e ∈ waiting (a_grp w) <-> e ∈ new \/ e ∈ waiting g).
    { intros e. rewrite Hnew, Hw, <- elem_of_app. by rewrite take_drop. }
    assert (Hinv' : alert_inv T0 es (a_table w) g).
    { destruct Hinv as (HT & Hfrom & Hsub & Hall). unfold alert_inv. rewrite Hfst.
      split_and!; [done..| |]; intros e; [|intros He].
      - rewrite elem_of_app. intros [?|[?|?]]; apply Hsub; [left|by right|left]; apply Hwait; auto.
      - rewrite elem_of_app. destruct (Hall e He) as [[?|?]%Hwait|[?|?]]; auto. }
    destruct new as [|e l] eqn:E; [exact Hinv'|]. rewrite <- E in *. apply consume_to_inv; [done..|].
    rewrite Hfst. set_solver.
  - by destruct sweep.
Qed.

Lemma alert_run_inv T0 es w evs :
  NoDup (e_id <$> (es ++ alert_stream evs)) -> world_inv T0 es w ->
  world_inv T0 (es ++ alert_stream evs) (alert_run w evs).
Proof.
  revert es w. induction evs as [|ev evs IH]; intros es w Hd Hinv.
  - change (alert_stream []) with (@nil Entry). rewrite app_nil_r. exact Hinv.
  - unfold alert_stream in *. rewrite bind_cons in *. rewrite app_assoc in *. cbn [alert_run fold_left].
    apply IH; [done|]. apply alert_step_inv; [|done]. rewrite fmap_app in Hd. by apply NoDup_app in Hd as [? _].
Qed.

(** C5. Transitions are stored at least once and at most once, whatever consumers do
    and in whatever order: a stored row never changes; every row is one that was
    there or the transition of an emitted entry; every emitted entry still waits, is
    still pending, is malformed or has its (symbol, seq) stored; and when no two
    transitions share a (symbol, seq), its own row is what is stored. *)
Theorem alerts_stored w0 evs :
  NoDup (e_id <$> alert_stream evs) -> waiting (a_grp w0) = [] -> pending (a_grp w0) = [] ->
  let w := alert_run w0 evs in
  a_table w0 ⊆ a_table w /\
  (forall k r, a_table w !! k = Some r -> a_table w0 !! k = Some r \/
     exists e, e ∈ alert_stream evs /\ alert_parse (e_fields e) = Ok (Some r) /\ alert_key r = k) /\
  (forall e, e ∈ alert_stream evs ->
     e ∈ waiting (a_grp w) \/ e ∈ (pending (a_grp w)).*1 \/ settled (a_table w) e) /\
  ((forall e e' r r', e ∈ alert_stream evs -> e' ∈ alert_stream evs ->
      alert_parse (e_fields e) = Ok (Some r) -> alert_parse (e_fields e') = Ok (Some r') ->
      alert_key r = alert_key r' -> r = r') ->
   forall e r, e ∈ alert_stream evs -> alert_parse (e_fields e) = Ok (Some r) ->
     a_table w0 !! alert_key r = None ->
     e ∈ waiting (a_grp w) \/ e ∈ (pending (a_grp w)).*1 \/ a_table w !! alert_key r = Some r).
Proof.
  intros Hd Hw Hp w.
  assert (Hinv : world_inv (a_table w0) (alert_stream evs) w).
  { apply (alert_run_inv _ [] w0 evs Hd). unfold alert_inv. rewrite Hw, Hp.
    split_and!; [done|auto|intros e [?|?]; set_solver|by intros e ?%elem_of_nil]. }
  destruct Hinv as (HT & Hfrom & Hsub & Hall). split_and!; [done..|].
  intros Huniq e r He Hpe Hnone. destruct (Hall e He) as [?|[?|Hs]]; auto. right; right.
  unfold settled in Hs. rewrite Hpe in Hs. destruct Hs as [x Hx]. rewrite Hx. f_equal.
  destruct (Hfrom _ _ Hx) as [?|(e' & He' & Hpe' & Hk)]; [congruence|]. by apply (Huniq e' e).
Qed.
End Alerts.
Arguments AlertWorld F {_}.

(* ------------------------------------------------------------------ *)
(** ** Examples *)

Section Examples.
#[local] Existing Instance plain64.
#[local] Existing Instance iso_utc.
#[local] Existing Instance list_group.

Definition demo_float_of (s : string) : result spec_float :=
  if bool_decide (s = "2"%string) then Ok (f_of_Z 2) else Raise ValueError.
Definition demo_int_of (s : string) : result Z :=
  if bool_decide (s = "1"%string) then Ok 1 else if bool_decide (s = "2"%string) then Ok 2 else Raise ValueError.

Definition demo_alert (ms : Z) (seq trigger old new : string) : Entry := {|
  e_id := (ms, 0);
  e_fields := list_to_map [("s", "EURUSD"); ("seq", seq); ("ts", iso_string (1000 * ms));
    ("old_regime", old); ("new_regime", new); ("cause", "threshold");
    ("trigger_value", trigger); ("threshold_value", "2")]%string |}.

Definition demo_up (ms : Z) (seq : string) : Entry := demo_alert ms seq "2" "normal" "stressed".
Definition demo_down (ms : Z) (seq : string) : Entry := demo_alert ms seq "2" "stressed" "normal".

Definition demo_alerts : AlertWorld spec_float :=
  {| a_table := ∅; a_grp := ([], []); a_consumer := ""; a_phase := Idle |}.
Notation demo_alert_run := (alert_run demo_float_of demo_int_of (fun _ => true) 10).

(** A lost acknowledgement, then two workers at once, one of them sweeping. *)
Definition demo_alert_history : list AlertEvent := [
  Emit (demo_up 5 "1"); Emit (demo_alert 6 "1" "2" "normal" "normal");
  Boot "a"; DrainTrip Written; ClaimTrip (fun _ => false) Written; ReadTrip AckLost;
  Emit (demo_down 7 "2");
  Boot "b"; DrainTrip Written; ClaimTrip (fun _ => false) Written; ReadTrip Written;
  Sweep; ClaimTrip (fun _ => true) Written]%string.

Lemma alerts_stored_witness :
  let w := demo_alert_run demo_alerts demo_alert_history in
  waiting (a_grp w) = [] /\ pending (a_grp w) = [] /\ size (a_table w) = 2%nat /\
  forall e, e ∈ alert_stream demo_alert_history ->
    settled demo_float_of demo_int_of (a_table w) e.
Proof.
  split_and!; [vm_compute; reflexivity..|]. intros e He.
  destruct (alerts_stored demo_float_of demo_int_of (fun _ => true) 10 demo_alerts demo_alert_history)
    as (_ & _ & Hall & _); [apply (bool_decide_unpack _); vm_compute; exact I|done..|].
  destruct (Hall e He) as [Hin|[Hin|Hs]]; [| |exact Hs]; vm_compute in Hin; by apply elem_of_nil in Hin.
Defined.

Definition demo_group : @group list_group := ([], []).

Definition demo_rows (es : list Entry) : list (AlertRow spec_float) :=
  es ≫= fun e => match alert_parse demo_float_of demo_int_of (e_fields e) with Ok o => opt_list o | _ => [] end.

Definition demo_stored : alert_table spec_float :=
  list_to_map ((fun r => (alert_key r, r)) <$> demo_rows [demo_up 5 "1"; demo_down 7 "2"]%string).

(** A redelivered transition and one whose number was used before. *)
Lemma conflict_verdicts_witness :
  exists vs, (alert_flush (fun _ => true) demo_stored demo_group (demo_rows [demo_up 5 "1"; demo_up 9 "2"]%string)
    [(5, 0); (9, 0)] Written).2 = Ok vs /\
    vs.*1 = [("EURUSD", 1); ("EURUSD", 2)]%string /\
    (forall x, x ∈ demo_rows [demo_up 5 "1"; demo_up 9 "2"]%string ->
      match demo_stored !! alert_key x with
      | None => True
      | Some old => (alert_key x, if bool_decide (al_ts old = al_ts x) then Redelivered else SeqCollision) ∈ vs
      end).
Proof.
  destruct (conflict_verdicts (fun _ => true) demo_stored demo_group
    (demo_rows [demo_up 5 "1"; demo_up 9 "2"]%string) [(5, 0); (9, 0)] demo_stored 0
    [("EURUSD", 1); ("EURUSD", 2)]%string) as (vs & Hf & Hk & Hx);
    [apply (bool_decide_unpack _); vm_compute; exact I|vm_compute; reflexivity|].
  exists vs. split; [by rewrite Hf|]. split; [exact Hk|]. intros x Hin. specialize (Hx x Hin).
  destruct (demo_stored !! alert_key x); [exact (proj2 Hx)|exact I].
Defined.

(** Two transitions of one batch with the same (symbol, seq): the second is lost,
    and not counted. *)
Lemma same_batch_collision_silent :
  let rows := demo_rows [demo_up 5 "1"; demo_down 9 "1"]%string in
  let '(t, g, r) := alert_flush (fun _ => true) ∅ demo_group rows [(5, 0); (9, 0)] Written in
  r = Ok [] /\ map_to_list t = (fun x => (alert_key x, x)) <$> demo_rows [demo_up 5 "1"]%string.
Proof. vm_compute. repeat split. Qed.

(** An entry the parser lets through and the table refuses: no life of the worker
    stores the good transition read with it. *)
Definition demo_poison : AlertWorld spec_float :=
  demo_alert_run demo_alerts [
    Emit (demo_up 5 "1"); Emit (demo_alert 6 "2" "" "stressed" "normal");
    Boot "a"; DrainTrip Written; ClaimTrip (fun _ => false) Written; ReadTrip Written]%string.

Lemma poison_blocks k :
  let w := demo_alert_run demo_poison (concat (replicate k [Boot "a"; DrainTrip Written]%string)) in
  a_table w = ∅ /\ length (pending (a_grp w)) = 2%nat.
Proof.
  assert (Hlife : demo_alert_run demo_poison [Boot "a"; DrainTrip Written]%string = demo_poison)
    by (vm_compute; reflexivity).
  assert (demo_alert_run demo_poison (concat (replicate k [Boot "a"; DrainTrip Written]%string)) = demo_poison) as ->.
  { induction k as [|k IH]; [done|]. cbn [replicate concat]. unfold alert_run. rewrite fold_left_app.
    unfold alert_run in Hlife, IH. by rewrite Hlife. }
  vm_compute. repeat split.
Qed.
End Examples.
