(* ===== verification/Keys.v ===== *)
(** * The Redis namespace ([fx_core/keys.py])

    Every key and channel the services use, and the facts that make the namespace
    one: symbols and provider names hold no colon, so the keys of two symbols, or
    of a live and a parked copy, are never the same. *)
From S2P Require Import Prelude.
From Stdlib Require Import Ascii.
From stdpp Require Import pretty.

Local Open Scope Z_scope.
Local Open Scope string_scope.

Definition STREAM_TICKS : string := "stream:ticks".
Definition STREAM_ALERTS : string := "stream:alerts".
Definition LEADER_LEASE : string := "lock:ingestor:leader".
Definition PERSISTER_LEASE : string := "lock:worker:persister".
Definition PROVIDER : string := "meta:provider".
Definition FEED_STATUS : string := "feed:status".
Definition ALERT_MAXLEN : Z := 10_000.
Definition DURABLE_KEYS : list string := [STREAM_TICKS; STREAM_ALERTS; LEADER_LEASE; PERSISTER_LEASE; PROVIDER].

Definition OUTLIVES_MARKET_CLOSE_S : Z := 4 * 86_400.
Definition TTL_QUOTE_S : Z := OUTLIVES_MARKET_CLOSE_S.
Definition TTL_BAR_S : Z := 3600.
Definition TTL_VOL_S : Z := 300.
Definition TTL_HISTORY_S : Z := OUTLIVES_MARKET_CLOSE_S.
Definition TTL_ZHIST_S : Z := OUTLIVES_MARKET_CLOSE_S.
Definition ZHIST_MAXLEN : Z := 1_440.

Definition archive (provider key : string) : string := "archive:" +:+ provider +:+ ":" +:+ key.
Definition quote (symbol : string) : string := "q:" +:+ symbol.
Definition bar_bucket (symbol : string) (bucket_epoch : Z) : string :=
  "bar:" +:+ symbol +:+ ":" +:+ pretty bucket_epoch.
Definition vol_state (symbol window : string) : string := "vol:" +:+ symbol +:+ ":" +:+ window.
Definition history (symbol interval : string) : string := "hist:" +:+ symbol +:+ ":" +:+ interval.
Definition zhist (symbol : string) : string := "zhist:" +:+ symbol.
Definition regime_state (symbol : string) : string := "regime:" +:+ symbol.
Definition provider_requests (provider : string) : string := "quota:" +:+ provider +:+ ":rest".
Definition channel_tick (symbol : string) : string := "ch:tick:" +:+ symbol.
Definition channel_vol (symbol : string) : string := "ch:vol:" +:+ symbol.
Definition channel_alert (symbol : string) : string := "ch:alerts:" +:+ symbol.
Definition channel_status : string := "ch:status".

(* ------------------------------------------------------------------ *)
(** ** Colons *)

Fixpoint colon_free (s : string) : bool :=
  match s with
  | EmptyString => true
  | String c s => negb (Ascii.eqb c ":") && colon_free s
  end.

(** A name without a colon ends where the first colon is. *)
Lemma colon_split a b x y :
  colon_free a = true -> colon_free b = true -> a +:+ ":" +:+ x = b +:+ ":" +:+ y -> a = b /\ x = y.
Proof.
  revert b. induction a as [|c a IH]; intros [|c' b] Ha Hb Heq; cbn in *.
  - by injection Heq.
  - injection Heq as <- _. by rewrite Ascii.eqb_refl in Hb.
  - injection Heq as -> _. by rewrite Ascii.eqb_refl in Ha.
  - apply andb_true_iff in Ha as [_ Ha]. apply andb_true_iff in Hb as [_ Hb].
    injection Heq as -> Heq. destruct (IH b Ha Hb Heq). by subst.
Qed.

Lemma archive_inj p p' k k' :
  colon_free p = true -> colon_free p' = true -> archive p k = archive p' k' -> p = p' /\ k = k'.
Proof. intros Hp Hp' Heq. unfold archive in Heq. cbn in Heq. injection Heq. by apply colon_split. Qed.

(** [key.rsplit(":", 1)[1]]: what follows the last colon. *)
Fixpoint after_last_colon (s : string) : option string :=
  match s with
  | EmptyString => None
  | String c s' =>
      match after_last_colon s' with
      | Some r => Some r
      | None => if Ascii.eqb c ":" then Some s' else None
      end
  end.

Lemma after_last_colon_free s : colon_free s = true -> after_last_colon s = None.
Proof.
  induction s as [|c s IH]; intros Hs; [done|]. cbn in *. apply andb_true_iff in Hs as [Hc Hs].
  rewrite (IH Hs). by apply negb_true_iff in Hc as ->.
Qed.

Lemma after_last_colon_app p s : colon_free s = true -> after_last_colon (p +:+ ":" +:+ s) = Some s.
Proof.
  intros Hs. induction p as [|c p IH].
  - change ("" +:+ ":" +:+ s) with (String ":" s). cbn [after_last_colon].
    by rewrite (after_last_colon_free s Hs).
  - change (String c p +:+ ":" +:+ s) with (String c (p +:+ ":" +:+ s)). cbn [after_last_colon]. by rewrite IH.
Qed.

(** The keys whose content changes hands with the provider. *)
Definition state_keys (symbol : string) : list string :=
  [history symbol "1m"; history symbol "1d"; zhist symbol; regime_state symbol].

Lemma state_keys_disjoint s s' k :
  colon_free s = true -> colon_free s' = true -> k ∈ state_keys s -> k ∈ state_keys s' -> s = s'.
Proof.
  intros Hs Hs'. unfold state_keys, history, zhist, regime_state. rewrite !elem_of_cons, !elem_of_nil.
  assert (Hinj : forall i j, s +:+ ":" +:+ i = s' +:+ ":" +:+ j -> s = s').
  { intros i j He. by apply (colon_split s s' i j Hs Hs' He). }
  intros Hk Hk'. destruct_or?; subst k; try done; injection Hk' as Hk'; eauto.
Qed.

Lemma state_keys_nodup s : NoDup (state_keys s).
Proof.
  assert (forall a : string, a +:+ ":1m" <> a +:+ ":1d").
  { intros a Heq. induction a; [done|]. by injection Heq. }
  repeat constructor; unfold history, zhist, regime_state; set_solver.
Qed.

(** A live key is never an archive, the marker or a cache. *)
Lemma state_key_shape s k : k ∈ state_keys s -> forall p x, k <> archive p x /\ k <> PROVIDER.
Proof.
  unfold state_keys, history, zhist, regime_state. rewrite !elem_of_cons, elem_of_nil. intros Hk p x.
  destruct_or?; subst; done.
Qed.
