(* ===== verification/Pipeline.v ===== *)
(** * From a tick to Redis ([fx_ingestor/pipeline.py])

    What the leader keeps per symbol, and what one tick writes.  [handle] gives the
    commands of the tick's transaction in the order they are queued; [exec] is what
    Redis does with them.  The floats' [repr], the text of a transition's reason and
    Python's [int] of a float are parameters. *)
From S2P Require Import Prelude PyFloat Volatility Models Buckets Baseline Seasonality Calendar.
From S2P Require Import Hysteresis Detector Redis Json Keys.
From stdpp Require Import pretty.

Local Open Scope Z_scope.

(* ------------------------------------------------------------------ *)
(** ** Redis *)

(** The commands of a transaction.  A stream is trimmed by Redis, approximately and
    only at its old end; [trim] is what the command asks for. *)
Inductive Trim := MinId (ms : Z) | MaxLen (n : Z).

Inductive Command :=
  | XAdd (stream : string) (fields : list (string * string)) (trim : Trim)
  | HSet (key : string) (mapping : list (string * string))
  | Expire (key : string) (ttl_s : Z)
  | Publish (channel message : string)
  | ZAdd (key member : string) (score : Z)
  | ZRemRangeByRank (key : string) (start stop : Z)
  | ZRemRangeByScore (key : string) (lo hi : Z)
  | SetStr (key value : string).

(** The sorted set at a key after a transaction. *)
Section Exec.
Context `{SortedSet}.

Definition zexec_one (key : string) (z : zset) (c : Command) : zset :=
  match c with
  | ZAdd k m s => if String.eqb k key then zadd s m z else z
  | ZRemRangeByRank k a b => if String.eqb k key then zremrangebyrank a b z else z
  | ZRemRangeByScore k lo hi => if String.eqb k key then zremrangebyscore (Some lo) hi z else z
  | _ => z
  end.

Definition zexec (key : string) (cs : list Command) (z : zset) : zset := fold_left (zexec_one key) cs z.
End Exec.

Section Pipeline.
Context {F : Type} `{PyFloat F} `{IsoFormat} `{JsonText F} `{NewYork}.
Context (repr : F -> string) (reason_text : Reason F -> string) (int_of : F -> result Z).

(* ------------------------------------------------------------------ *)
(** ** State *)

Record SymbolState := {
  ss_symbol : string;
  ss_bucket : option (BucketAccumulator F);
  ss_window : RollingWindow F;
  ss_ewma : EwmaVariance F;
  ss_last_price : option F;
  ss_last_sealed : option datetime;
  ss_detector : RegimeDetector F;
}.
Implicit Types (st : SymbolState) (tick : Tick F) (sealed : Bar F).

Record IngestPipeline := {
  p_bucket_seconds : Z;
  p_retention_ms : Z;
  p_detector_config : DetectorConfig;
  p_trigger_config : TriggerConfig F;
  p_feed_is_stale : bool;
  p_state : gmap string SymbolState;
  p_ewma_lambda : F;
  p_provider : string;
  p_held_until : option datetime;
}.
Implicit Types (p : IngestPipeline).

(** A detector with the dataclasses' defaults. *)
Definition default_detector (symbol : string) (c : DetectorConfig) (tc : TriggerConfig F)
    : result (RegimeDetector F) :=
  b ← VolatilityBaseline_new bl_lam_default 30;
  pr ← DiurnalProfile_new dp_lam_default 120 12 clamp_default;
  Ok (RegimeDetector_new symbol c tc b pr is_market_open).

Definition new_state p (symbol : string) : result SymbolState :=
  d ← default_detector symbol (p_detector_config p) (p_trigger_config p);
  _ ← assert_separated_from (baseline d) (f_of_Z 1) (f_of_Z 4);
  e ← EwmaVariance_new (p_ewma_lambda p);
  Ok {| ss_symbol := symbol; ss_bucket := None; ss_window := RollingWindow_new 3600; ss_ewma := e;
        ss_last_price := None; ss_last_sealed := None; ss_detector := d |}.

Definition set_state p (states : gmap string SymbolState) : IngestPipeline := {|
  p_bucket_seconds := p_bucket_seconds p; p_retention_ms := p_retention_ms p;
  p_detector_config := p_detector_config p; p_trigger_config := p_trigger_config p;
  p_feed_is_stale := p_feed_is_stale p; p_state := states; p_ewma_lambda := p_ewma_lambda p;
  p_provider := p_provider p; p_held_until := p_held_until p |}.

(** [IngestPipeline(...)], with the default detector and trigger. *)
Definition IngestPipeline_new (symbols : list string) (bucket_seconds : Z) (ewma_lambda : F) (retention_s : Z)
    : result IngestPipeline :=
  let p := {|
    p_bucket_seconds := bucket_seconds; p_retention_ms := retention_s * 1000;
    p_detector_config := DetectorConfig_default; p_trigger_config := TriggerConfig_default;
    p_feed_is_stale := false; p_state := ∅; p_ewma_lambda := ewma_lambda;
    p_provider := ""; p_held_until := None |} in
  states ← mapR (fun s => st ← new_state p s; Ok (s, st)) symbols;
  Ok (set_state p (list_to_map states)).

Definition state_for p (symbol : string) : result (IngestPipeline * SymbolState) :=
  match p_state p !! symbol with
  | Some st => Ok (p, st)
  | None => st ← new_state p symbol; Ok (set_state p (<[symbol := st]> (p_state p)), st)
  end.

Definition set_feed_stale p (stale : bool) : IngestPipeline := {|
  p_bucket_seconds := p_bucket_seconds p; p_retention_ms := p_retention_ms p;
  p_detector_config := p_detector_config p; p_trigger_config := p_trigger_config p;
  p_feed_is_stale := stale; p_state := p_state p; p_ewma_lambda := p_ewma_lambda p;
  p_provider := p_provider p; p_held_until := p_held_until p |}.

Definition pipeline_symbols p : list string := (map_to_list (p_state p)).*1.

(* ------------------------------------------------------------------ *)
(** ** Wire formats *)

Definition bar_payload sealed : list (string * json F) := [
  ("t", JInt (int_timestamp (bucket sealed)));
  ("o", JFloat (open sealed)); ("h", JFloat (high sealed)); ("l", JFloat (low sealed));
  ("c", JFloat (close sealed)); ("n", JInt (tick_count sealed));
  ("src", JStr (source_str (source sealed)))]%string.

Definition finite_or_null (x : F) : json F := if f_isfinite x then JFloat x else JNull.

Definition transition_payload (tr : RegimeTransition F) : list (string * json F) := [
  ("s", JStr (tr_symbol tr)); ("seq", JInt (tr_seq tr)); ("ts", JStr (isoformat (tr_ts tr)));
  ("old_regime", JStr (regime_str (tr_old_regime tr)));
  ("new_regime", JStr (regime_str (tr_new_regime tr)));
  ("trigger_value", finite_or_null (tr_trigger_value tr));
  ("threshold_value", JFloat (tr_threshold_value tr));
  ("sigma", finite_or_null (tr_sigma tr));
  ("cause", JStr (cause_str (tr_cause tr)));
  ("reason", JStr (reason_text (tr_reason tr)))]%string.

(** ["" if v is None else str(v)], for the values a payload holds. *)
Definition value_text (v : json F) : string :=
  match v with
  | JStr s => s
  | JInt n => pretty n
  | JFloat x => repr x
  | _ => ""%string
  end.

(** ** Commands *)

Definition tick_fields p tick : list (string * string) := [
  ("s", tick_symbol tick); ("b", repr (bid tick)); ("a", repr (ask tick));
  ("t", isoformat (ts_event tick)); ("q", pretty (tick_seq tick)); ("p", p_provider p)]%string.

Definition tick_commands p tick (a : BucketAccumulator F) (now : datetime) : list Command :=
  let symbol := tick_symbol tick in
  let epoch := int_timestamp (acc_bucket a) in
  [ XAdd STREAM_TICKS (tick_fields p tick) (MinId (Z.quot now 1000 - p_retention_ms p));
    HSet (quote symbol) [("bid", repr (bid tick)); ("ask", repr (ask tick)); ("mid", repr (mid tick));
      ("ts", isoformat (ts_event tick))]%string;
    Expire (quote symbol) TTL_QUOTE_S;
    HSet (bar_bucket symbol epoch) [("o", repr (acc_open a)); ("h", repr (acc_high a));
      ("l", repr (acc_low a)); ("c", repr (acc_close a)); ("n", pretty (acc_tick_count a));
      ("sr", repr (acc_sum_ret a)); ("sr2", repr (acc_sum_ret_sq a))]%string;
    Expire (bar_bucket symbol epoch) TTL_BAR_S;
    Publish (channel_tick symbol) (dumps (JObj [
      ("s", JStr symbol); ("b", JFloat (bid tick)); ("a", JFloat (ask tick)); ("m", JFloat (mid tick));
      ("t", JStr (isoformat (ts_event tick)));
      ("bar", JObj [("t", JInt epoch); ("o", JFloat (acc_open a)); ("h", JFloat (acc_high a));
        ("l", JFloat (acc_low a)); ("c", JFloat (acc_close a)); ("n", JInt (acc_tick_count a))])]%string)) ].

Definition history_commands sealed (symbol : string) : list Command :=
  let key := history symbol "1m" in
  [ ZAdd key (dumps (JObj (bar_payload sealed))) (int_timestamp (bucket sealed));
    ZRemRangeByRank key 0 (-1441);
    Expire key TTL_HISTORY_S ].

(** [EwmaVariance.warmed_up] *)
Definition warmed_up (e : EwmaVariance F) : result bool :=
  q ← py_div (f_of_Z 1) (f_sub (f_of_Z 1) (lam e));
  k ← int_of q;
  Ok (Z.max k 2 <=? ew_n e).

Definition zhist_commands st sealed : list Command :=
  match last_zscore (ss_detector st) with
  | Some z =>
      if f_isfinite z then
        let epoch := int_timestamp (bucket sealed) in
        let key := zhist (ss_symbol st) in
        [ ZAdd key (dumps (JObj [("t", JInt epoch); ("z", JFloat z);
            ("r", JStr (regime_str (d_regime (ss_detector st))))]%string)) epoch;
          ZRemRangeByRank key 0 (- (ZHIST_MAXLEN + 1));
          Expire key TTL_ZHIST_S ]
      else []
  | None => []
  end.

Definition vol_payload p st sealed (snap : VolSnapshot F) (realized : F) (warm : bool)
    : list (string * json F) := [
  ("s", JStr (ss_symbol st)); ("ts", JStr (isoformat (vs_ts snap))); ("estimator", JStr "ewma");
  ("window_s", JInt (window_s snap)); ("sigma", JFloat (sigma snap));
  ("sigma_annualized", JFloat (sigma_annualized snap)); ("realized_sigma", JFloat realized);
  ("z", jopt JFloat (last_zscore (ss_detector st)));
  ("regime", JStr (regime_str (d_regime (ss_detector st)))); ("armed", JBool (d_armed (ss_detector st)));
  ("warmed_up", JBool warm); ("bars", JInt (window_len (ss_window st)));
  ("enter_z", JFloat (enter_z (p_trigger_config p))); ("exit_z", JFloat (exit_z (p_trigger_config p)))]%string.

Definition queue_vol_snapshot p st sealed (realized : F) (now : datetime) : result (list Command) :=
  sg ← ewma_sigma (ss_ewma st);
  root ← py_sqrt (f_of_Z (tick_count sealed));
  snap ← VolSnapshot_build (ss_symbol st) EWMA (window_seconds (ss_window st)) (f_mul sg root)
           (ew_n (ss_ewma st)) (p_bucket_seconds p) None (last_zscore (ss_detector st)) now;
  warm ← warmed_up (ss_ewma st);
  let payload := vol_payload p st sealed snap realized warm in
  let key := vol_state (ss_symbol st) "1h" in
  Ok ([ HSet key ((fun kv => (kv.1, dumps kv.2)) <$> payload);
        Expire key TTL_VOL_S;
        Publish (channel_vol (ss_symbol st))
          (dumps (JObj (payload ++ [("bar"%string, JObj (bar_payload sealed))]))) ]
      ++ zhist_commands st sealed).

(** The detector's state as JSON. *)
Definition trigger_json (s : TriggerSnapshot) : json F := JObj [
  ("regime", JStr (snap_regime s)); ("seq", JInt (snap_seq s));
  ("regime_since", jopt JStr (snap_regime_since s));
  ("last_escalation", jopt JStr (snap_last_escalation s)); ("thawed", JBool (snap_thawed s))]%string.
Definition baseline_json (s : BaselineSnapshot F) : json F := JObj [
  ("lam", JFloat (snap_lam s)); ("mean", JFloat (snap_mean s)); ("var", JFloat (snap_var s));
  ("n", JInt (snap_n s)); ("debias", JFloat (snap_debias s)); ("frozen", JBool (snap_frozen s))]%string.
Definition profile_json (s : DiurnalSnapshot F) : json F := JObj [
  ("lam", JFloat (ds_lam s)); ("hour_mean", JList (JFloat <$> ds_hour_mean s));
  ("hour_n", JList (JInt <$> ds_hour_n s))]%string.
Definition snapshot_json (s : DetectorSnapshot F) : json F := JObj [
  ("trigger", trigger_json (snap_trigger s)); ("baseline", baseline_json (snap_baseline s));
  ("profile", profile_json (snap_profile s))]%string.

Definition queue_detector_snapshot st : list Command :=
  [ SetStr (regime_state (ss_symbol st)) (dumps (snapshot_json (detector_snapshot (ss_detector st)))) ].

Definition queue_transition (tr : RegimeTransition F) : list Command :=
  let payload := transition_payload tr in
  [ XAdd STREAM_ALERTS ((fun kv => (kv.1, value_text kv.2)) <$> payload) (MaxLen ALERT_MAXLEN);
    Publish (channel_alert (tr_symbol tr)) (dumps (JObj payload)) ].

(* ------------------------------------------------------------------ *)
(** ** One tick *)

(** Assignments to groups of fields. *)
Definition set_bars st (b : option (BucketAccumulator F)) (w : RollingWindow F) (last : option F) : SymbolState := {|
  ss_symbol := ss_symbol st; ss_bucket := b; ss_window := w; ss_ewma := ss_ewma st;
  ss_last_price := last; ss_last_sealed := ss_last_sealed st; ss_detector := ss_detector st |}.
Definition set_ewma st (e : EwmaVariance F) : SymbolState := {|
  ss_symbol := ss_symbol st; ss_bucket := ss_bucket st; ss_window := ss_window st; ss_ewma := e;
  ss_last_price := ss_last_price st; ss_last_sealed := ss_last_sealed st; ss_detector := ss_detector st |}.
Definition set_detected st (at_ : datetime) (d : RegimeDetector F) : SymbolState := {|
  ss_symbol := ss_symbol st; ss_bucket := ss_bucket st; ss_window := ss_window st; ss_ewma := ss_ewma st;
  ss_last_price := ss_last_price st; ss_last_sealed := Some at_; ss_detector := d |}.

(** A step of more than [GAP_BAR_MULTIPLE] buckets. *)
Definition bucket_gap p (later earlier : datetime) : bool :=
  seconds (p_bucket_seconds p * GAP_BAR_MULTIPLE) <? later - earlier.

(** The bucket the tick goes to, and the bar its arrival seals. *)
Definition roll p st tick : SymbolState * option (Bar F) :=
  let start_at := floor_to_bucket (ts_event tick) (p_bucket_seconds p) in
  let fresh := acc_start (tick_symbol tick) (ts_event tick) (mid tick) (p_bucket_seconds p) STREAM in
  match ss_bucket st with
  | None => (set_bars st (Some fresh) (ss_window st) (ss_last_price st), None)
  | Some a =>
      if acc_bucket a <? start_at then
        let sealed := acc_seal a in
        (set_bars st (Some fresh) (push (ss_window st) sealed)
           (if bucket_gap p start_at (acc_bucket a) then None else ss_last_price st), Some sealed)
      else (st, None)
  end.

(** The price enters the bucket and the tick-level estimator. *)
Definition fold_price st (price : F) : result SymbolState :=
  match ss_bucket st with
  | None => Raise AssertionError
  | Some a =>
      let '(a, ended) := acc_add a price (ss_last_price st) in
      _ ← ended;
      e ← match ss_last_price st with
          | Some last =>
              if (f_lt f_zero last && f_lt f_zero price)%bool
              then r ← py_log (f_div price last); Ok (fst (ewma_update (ss_ewma st) r))
              else Ok (ss_ewma st)
          | None => Ok (ss_ewma st)
          end;
      Ok (set_ewma (set_bars st (Some a) (ss_window st) (Some price)) e)
  end.

Definition seal_bar p st sealed (now : datetime)
    : result (SymbolState * list Command * option (RegimeTransition F)) :=
  realized ← window_sigma (ss_window st);
  let gap := match ss_last_sealed st with Some last => bucket_gap p (bucket sealed) last | None => false end in
  vol ← realized_vol sealed;
  '(d, o) ← detector_update (ss_detector st)
    {| in_sigma := vol; in_ts := bucket sealed; is_gap_bar := gap;
       is_backfill := negb (bool_decide (source sealed = STREAM)); feed_is_stale := p_feed_is_stale p |};
  let st := set_detected st (bucket sealed) d in
  vc ← queue_vol_snapshot p st sealed realized now;
  Ok (st, vc ++ queue_detector_snapshot st ++ (opt_list o ≫= queue_transition), o).

Definition write p st tick (sealed : option (Bar F)) (now : datetime)
    : result (SymbolState * list Command * option (RegimeTransition F)) :=
  match ss_bucket st with
  | None => Raise AssertionError
  | Some a =>
      let cs := tick_commands p tick a now in
      match sealed with
      | None => Ok (st, cs, None)
      | Some b =>
          '(st, bc, o) ← seal_bar p st b now;
          Ok (st, cs ++ history_commands b (tick_symbol tick) ++ bc, o)
      end
  end.

(** What one call of [handle] leaves: the memory, the transaction it sends, the bar
    it sealed and the transition it committed.  An exception ends the process. *)
Record Handled := {
  h_pipeline : IngestPipeline;
  h_commands : list Command;
  h_sealed : option (Bar F);
  h_transition : option (RegimeTransition F);
}.

(** [tick.ts_event < self._held_until] *)
Definition held_back p tick : bool :=
  match p_held_until p with Some until => ts_event tick <? until | None => false end.

Definition handle p tick (now : datetime) : result Handled :=
  if held_back p tick then Ok {| h_pipeline := p; h_commands := []; h_sealed := None; h_transition := None |}
  else
    '(p, st) ← state_for p (tick_symbol tick);
    let '(st, sealed) := roll p st tick in
    st ← fold_price st (mid tick);
    '(st, cs, o) ← write p st tick sealed now;
    Ok {| h_pipeline := set_state p (<[tick_symbol tick := st]> (p_state p));
          h_commands := cs; h_sealed := sealed; h_transition := o |}.
End Pipeline.
Arguments SymbolState F : clear implicits.
Arguments IngestPipeline F : clear implicits.
Arguments Handled F : clear implicits.
Arguments tick_commands : simpl never.
Arguments history_commands : simpl never.
Arguments queue_detector_snapshot : simpl never.
