(* ===== verification/Wire.v ===== *)
(** * What crosses the wire

    The ingestor writes its streams and the worker reads them back: a tick's fields
    parse to the tick, a transition's to the row that is stored, and the bars the
    ingestor seals are the rows the worker commits from the same ticks.  Two facts
    about text are assumed of Python: [float] reads back what [repr] writes, and
    [int] what [str] writes. *)
From S2P Require Import Prelude PyFloat Civil Volatility Models Buckets Baseline Seasonality.
From S2P Require Import Calendar Hysteresis Detector Redis Json Text Keys Pipeline Database.
From S2P Require Import Streams Persister ExactlyOnce Alerts.
From stdpp Require Import pretty.
From Stdlib Require Import SpecFloat.

Local Open Scope Z_scope.

(** A field of a written entry. *)
Fixpoint field_of (k : string) (l : list (string * string)) : option string :=
  match l with
  | [] => None
  | kv :: l => if String.eqb kv.1 k then Some kv.2 else field_of k l
  end.

Lemma fields_lookup (l : list (string * string)) k :
  (list_to_map l : gmap string string) !! k = field_of k l.
Proof.
  induction l as [|[k' v] l IH]; [done|]. cbn. destruct (String.eqb_spec k' k) as [->|].
  - by rewrite lookup_insert_eq.
  - by rewrite lookup_insert_ne.
Qed.

Section Wire.
Context {F : Type} `{PyFloat F} `{IsoFormat} `{JsonText F} `{NewYork}.
Context (repr : F -> string) (reason_text : Reason F -> string) (int_of : F -> result Z).
Context (float_of : string -> result F) (int_text : string -> result Z).
Context (float_repr : forall x, float_of (repr x) = Ok x).
Context (int_pretty : forall n : Z, int_text (pretty n) = Ok n).
Context (repr_nonempty : forall x, repr x <> ""%string).
Implicit Types (p : IngestPipeline F) (tick : Tick F) (tr : RegimeTransition F).

(** The worker reads back the tick the ingestor logged: symbol, prices, instant
    and feed. *)
Lemma tick_wire p tick :
  dt_in_range (ts_event tick) ->
  let fs := list_to_map (tick_fields repr p tick) in
  parse float_of fs = Ok {| ps_symbol := tick_symbol tick; ps_bid := bid tick; ps_ask := ask tick;
                            ps_ts := ts_event tick |} /\
  fs !! "p"%string = Some (p_provider p).
Proof.
  intros Hts fs. unfold parse, field, fs. rewrite !fields_lookup. split; [|done].
  cbn. rewrite !float_repr. cbn. by rewrite fromisoformat_isoformat by done.
Qed.

(** The row a transition is stored as. *)
Definition row_of_transition tr : AlertRow F := {|
  al_symbol := tr_symbol tr; al_seq := tr_seq tr; al_ts := tr_ts tr;
  al_old_regime := regime_str (tr_old_regime tr); al_new_regime := regime_str (tr_new_regime tr);
  al_trigger_value := if f_isfinite (tr_trigger_value tr) then Some (tr_trigger_value tr) else None;
  al_threshold_value := tr_threshold_value tr;
  al_sigma := if f_isfinite (tr_sigma tr) then Some (tr_sigma tr) else None;
  al_cause := cause_str (tr_cause tr); al_reason := reason_text (tr_reason tr) |}.

Definition alert_text_fields tr : list (string * string) :=
  (fun kv => (kv.1, value_text repr kv.2)) <$> transition_payload reason_text tr.

Lemma optional_float_wire x :
  optional_float float_of (value_text repr (finite_or_null x)) = Ok (if f_isfinite x then Some x else None).
Proof.
  unfold finite_or_null. destruct (f_isfinite x) eqn:E; [|done]. unfold optional_float. cbn.
  rewrite bool_decide_eq_false_2 by apply repr_nonempty. rewrite float_repr. cbn. by rewrite E.
Qed.

Lemma alert_wire tr :
  dt_in_range (tr_ts tr) -> tr_old_regime tr <> tr_new_regime tr ->
  alert_parse float_of int_text (list_to_map (alert_text_fields tr)) = Ok (Some (row_of_transition tr)).
Proof.
  intros Hts Hne. unfold alert_parse.
  assert (alert_row float_of int_text (list_to_map (alert_text_fields tr)) = Ok (row_of_transition tr)) as ->; [|done].
  unfold alert_row, alert_field. rewrite !fields_lookup.
  cbn -[optional_float VALID_REGIMES VALID_CAUSES finite_or_null].
  assert (Hreg : forall r, bool_decide (regime_str r ∈ VALID_REGIMES) = true) by (by intros []).
  assert (Hcause : forall c, bool_decide (cause_str c ∈ VALID_CAUSES) = true) by (by intros []).
  rewrite !Hreg, Hcause. cbn -[optional_float finite_or_null].
  rewrite bool_decide_eq_false_2 by (destruct (tr_old_regime tr), (tr_new_regime tr); done).
  cbn -[optional_float finite_or_null]. rewrite fromisoformat_isoformat by done.
  cbn -[optional_float finite_or_null]. rewrite int_pretty.
  cbn -[optional_float finite_or_null]. rewrite !optional_float_wire.
  cbn -[optional_float finite_or_null]. by rewrite float_repr.
Qed.

(** [alert_events] takes the row exactly when the z-score that caused the transition
    is a finite number, or there is none by definition. *)
Lemma row_storable instrument tr :
  instrument (tr_symbol tr) = true -> - 2 ^ 63 <= tr_seq tr < 2 ^ 63 -> tr_old_regime tr <> tr_new_regime tr ->
  storable instrument (row_of_transition tr) =
    (bool_decide (tr_cause tr = OBSERVATION_LOST) || f_isfinite (tr_trigger_value tr))%bool.
Proof.
  intros Hi Hseq Hne. unfold storable, row_of_transition. cbn. rewrite Hi.
  rewrite (proj2 (Z.leb_le _ _)), (proj2 (Z.ltb_lt _ _)) by lia. cbn.
  rewrite (bool_decide_eq_false_2 (_ = _)) by (destruct (tr_old_regime tr), (tr_new_regime tr); done). cbn.
  f_equal; [by destruct (tr_cause tr)|]. by destruct (f_isfinite _).
Qed.

(* ------------------------------------------------------------------ *)
(** ** What a transaction logs *)

Lemma driven_reports (i : Sealed F) es t t' trs :
  drives i es -> run t es = Ok (t', trs) ->
  Forall (fun tr => tr_symbol tr = symbol t /\ tr_ts tr = in_ts i /\ tr_old_regime tr <> tr_new_regime tr) trs.
Proof.
  intros Hd. revert t trs. induction Hd as [|e es He _ IH]; intros t trs Hr.
  { injection Hr as <- <-. constructor. }
  cbn in Hr. apply bind_ok in Hr as ([t1 o] & Hs & Hr). apply bind_ok in Hr as ([t2 trs2] & Hr & [= <- <-]).
  assert (Hsym : symbol t1 = symbol t /\ Forall (fun tr => tr_symbol tr = symbol t /\ tr_ts tr = in_ts i /\
    tr_old_regime tr <> tr_new_regime tr) (opt_list o)).
  { destruct e as [ob| |]; [|by injection Hs as <- <-|done].
    apply update_cases, outcome_effect in Hs as (_ & Hsym & Hout). split; [done|].
    destruct o as [tr|]; [|constructor]. destruct Hout as ((Hs' & Hts & _ & Hold & Hnew & _) & _).
    apply Forall_singleton. rewrite Hold, Hnew, Hts, Hs'. split_and!; [done|by cbn in He|].
    by destruct (regime t). }
  destruct Hsym as [Hsym Ho]. apply Forall_app. split; [done|]. rewrite <- Hsym. by apply IH.
Qed.

Lemma detector_reports d (i : Sealed F) d' tr :
  detector_update d i = Ok (d', Some tr) ->
  tr_symbol tr = symbol (trigger d) /\ tr_ts tr = in_ts i /\ tr_old_regime tr <> tr_new_regime tr.
Proof.
  intros (es & He & Hr)%detector_update_events. apply (driven_reports _ _ _ _ _ He) in Hr.
  cbn [opt_list] in Hr. rewrite Forall_singleton in Hr. exact Hr.
Qed.

Definition logs_alert (c : Command) : bool :=
  match c with XAdd s _ _ => String.eqb s STREAM_ALERTS | _ => false end.

Lemma vol_snapshot_logs p st sealed realized now cs :
  queue_vol_snapshot int_of p st sealed realized now = Ok cs -> List.filter logs_alert cs = [].
Proof.
  unfold queue_vol_snapshot. intros. inv_result. cbn. unfold zhist_commands.
  destruct (last_zscore _) as [z|]; [|done]. by destruct (f_isfinite z).
Qed.

Lemma seal_bar_logs p st sealed now st' cs o :
  seal_bar repr reason_text int_of p st sealed now = Ok (st', cs, o) ->
  exists vc, List.filter logs_alert vc = [] /\
    cs = vc ++ queue_detector_snapshot st' ++ (opt_list o ≫= queue_transition repr reason_text) /\
    (forall tr, o = Some tr -> tr_symbol tr = symbol (trigger (ss_detector st)) /\ tr_ts tr = bucket sealed /\
       tr_old_regime tr <> tr_new_regime tr).
Proof.
  unfold seal_bar. intros Hs. apply bind_ok in Hs as (realized & _ & Hs). apply bind_ok in Hs as (vol & _ & Hs).
  apply bind_ok in Hs as ([d o'] & Hd & Hs). apply bind_ok in Hs as (vc & Hv & [= <- <- <-]).
  exists vc. split; [by eapply vol_snapshot_logs|]. split; [done|]. intros tr ->. apply detector_reports in Hd. exact Hd.
Qed.

(** C9. A transition is recorded when and only when it is committed, in the
    transaction of the tick that sealed its bar: the transaction appends exactly one
    entry to the alert stream if [handle] committed a transition and none otherwise;
    the worker parses the entry to the very transition; the table takes it unless its
    z-score is infinite or NaN although it was measured; and the same transaction
    broadcasts it and persists the detector as it now is. *)
Theorem transition_is_logged p tick now h :
  handle repr reason_text int_of p tick now = Ok h ->
  (forall b, h_sealed h = Some b -> dt_in_range (bucket b)) ->
  match h_transition h with
  | None => List.filter logs_alert (h_commands h) = []
  | Some tr =>
      List.filter logs_alert (h_commands h) = [XAdd STREAM_ALERTS (alert_text_fields tr) (MaxLen ALERT_MAXLEN)] /\
      alert_parse float_of int_text (list_to_map (alert_text_fields tr)) = Ok (Some (row_of_transition tr)) /\
      (forall instrument, instrument (tr_symbol tr) = true -> - 2 ^ 63 <= tr_seq tr < 2 ^ 63 ->
         storable instrument (row_of_transition tr) =
           (bool_decide (tr_cause tr = OBSERVATION_LOST) || f_isfinite (tr_trigger_value tr))%bool) /\
      Publish (channel_alert (tr_symbol tr)) (dumps (JObj (transition_payload reason_text tr))) ∈ h_commands h /\
      exists st, p_state (h_pipeline h) !! tick_symbol tick = Some st /\
        SetStr (regime_state (ss_symbol st)) (dumps (snapshot_json (detector_snapshot (ss_detector st))))
          ∈ h_commands h
  end.
Proof.
  unfold handle. intros Hh Hrange. destruct (held_back p tick); [by injection Hh as <-|].
  apply bind_ok in Hh as ([p1 st] & _ & Hh). destruct (roll p1 st tick) as [st1 sealed] eqn:Hroll.
  apply bind_ok in Hh as (st2 & _ & Hh). apply bind_ok in Hh as ([[st3 cs] o] & Hw & [= <-]). cbn in *.
  unfold write in Hw. destruct (ss_bucket st2) as [a|]; [|done].
  destruct sealed as [b|]; [|by injection Hw as <- <- <-].
  apply bind_ok in Hw as ([[st4 bc] o'] & Hb & Heq). injection Heq as Hst Hcmd Ho. subst st4 o'.
  assert (cs = tick_commands repr p1 tick a now ++ history_commands b (tick_symbol tick) ++ bc) as ->
    by exact (eq_sym Hcmd).
  clear Hcmd. apply seal_bar_logs in Hb as (vc & Hvc & -> & Hrep). specialize (Hrange b eq_refl).
  assert (Hpre : List.filter logs_alert (tick_commands repr p1 tick a now ++ history_commands b (tick_symbol tick) ++ vc) = []).
  { rewrite !List.filter_app, Hvc. done. }
  set (pre := tick_commands _ _ _ _ _ ++ _ ++ vc) in Hpre.
  assert (Hcs : forall post, tick_commands repr p1 tick a now ++ history_commands b (tick_symbol tick) ++ vc ++ post
    = pre ++ post) by (intros; subst pre; by rewrite <- !app_assoc).
  rewrite Hcs, !List.filter_app, Hpre. clear Hcs Hpre.
  destruct o as [tr|]; [|done]. destruct (Hrep tr eq_refl) as (_ & Hts & Hne). split_and!.
  - done.
  - apply alert_wire; [by rewrite Hts|done].
  - intros. by apply row_storable.
  - cbn. set_solver.
  - exists st3. split; [by rewrite lookup_insert_eq|]. unfold queue_detector_snapshot. set_solver.
Qed.
End Wire.

(* ------------------------------------------------------------------ *)
(** ** Examples *)

Section Examples.
#[local] Existing Instance plain64.
#[local] Existing Instance iso_utc.
#[local] Existing Instance eastern_standard.
#[local] Existing Instance json_bits.

Definition demo_t0 : datetime := 1760227200 * MICRO.

(** A detector that was STRESSED when its feed went stale forty minutes ago. *)
Definition demo_unobserved : RegimeDetector spec_float :=
  set_trigger demo_detector (set_observation demo_stressed (Some (demo_t0 - minutes 40)) "feed stale" None).

Definition demo_symbol_state : SymbolState spec_float := {|
  ss_symbol := "eurusd"; ss_bucket := Some (acc_start "eurusd" demo_t0 (f_of_Z 2) 60 STREAM);
  ss_window := RollingWindow_new 3600;
  ss_ewma := {| lam := lam_default; ew_variance := f_zero; ew_n := 0 |};
  ss_last_price := Some (f_of_Z 2); ss_last_sealed := None; ss_detector := demo_unobserved |}.

Definition demo_pipeline : IngestPipeline spec_float := {|
  p_bucket_seconds := 60; p_retention_ms := 900_000; p_detector_config := DetectorConfig_default;
  p_trigger_config := TriggerConfig_default; p_feed_is_stale := true;
  p_state := {[ "eurusd"%string := demo_symbol_state ]}; p_ewma_lambda := lam_default;
  p_provider := "tiingo"; p_held_until := None |}.

Definition demo_market_tick (s : Z) : Tick spec_float := {|
  tick_symbol := "eurusd"; bid := f_of_Z 2; ask := f_of_Z 2; ts_event := demo_t0 + seconds s; ts_aware := true;
  ts_ingest := demo_t0 + seconds s; tick_seq := 1 |}.

Notation demo_handle := (handle write_bits (fun _ => "why"%string) (fun _ => Ok 33)).

Lemma write_bits_nonempty (x : spec_float) : write_bits x <> ""%string.
Proof. apply bits_nonempty. Qed.

Lemma transition_is_logged_witness :
  exists h tr, demo_handle demo_pipeline (demo_market_tick 61) 0 = Ok h /\ h_transition h = Some tr /\
    tr_cause tr = OBSERVATION_LOST /\
    alert_parse read_bits int_text (list_to_map (alert_text_fields write_bits (fun _ => "why"%string) tr)) =
      Ok (Some (row_of_transition (fun _ => "why"%string) tr)).
Proof.
  destruct (demo_handle demo_pipeline (demo_market_tick 61) 0) as [h|] eqn:E; [|by vm_compute in E].
  assert (Hout : match demo_handle demo_pipeline (demo_market_tick 61) 0 with
    | Ok h => (bucket <$> h_sealed h, tr_cause <$> h_transition h) | Raise _ => (None, None) end
    = (Some demo_t0, Some OBSERVATION_LOST)) by (vm_compute; reflexivity).
  rewrite E in Hout. injection Hout as Hb Ht.
  pose proof (transition_is_logged write_bits (fun _ => "why"%string) (fun _ => Ok 33) read_bits int_text
    read_write_bits int_text_pretty write_bits_nonempty demo_pipeline (demo_market_tick 61) 0 h E) as Hlog.
  destruct (h_transition h) as [tr|] eqn:Et; [|done]. exists h, tr. injection Ht as Ht.
  split; [done|]. split; [done|]. split; [done|]. apply Hlog.
  intros b Hsb. rewrite Hsb in Hb. injection Hb as ->. vm_compute. split; congruence.
Defined.
End Examples.
