(* ===== verification/Agreement.v ===== *)
(** * The ingestor's bars

    What [handle] does to a symbol's bucket, whatever else it writes: bars are
    sealed in time order and only once their window has passed, and a bar the
    ingestor seals is the row the worker commits from the ticks it logged. *)
From S2P Require Import Prelude PyFloat Civil Volatility Models Buckets Baseline Seasonality.
From S2P Require Import Calendar Hysteresis Detector Redis Json Text Keys Pipeline Database.
From S2P Require Import Streams Persister ExactlyOnce Wire.
From Stdlib Require Import SpecFloat.

Local Open Scope Z_scope.

Section Handle.
Context {F : Type} `{PyFloat F} `{IsoFormat} `{JsonText F} `{NewYork}.
Context (repr : F -> string) (reason_text : Reason F -> string) (int_of : F -> result Z).
Implicit Types (p : IngestPipeline F) (tick : Tick F).
Notation handle := (handle repr reason_text int_of).

(** The bucket a tick is folded into, and the bar it seals. *)
Definition next_bucket (width : Z) (old : option (BucketAccumulator F)) tick
    : BucketAccumulator F * option (Bar F) :=
  let fresh := acc_start (tick_symbol tick) (ts_event tick) (mid tick) width STREAM in
  match old with
  | None => (fresh, None)
  | Some a => if acc_bucket a <? floor_to_bucket (ts_event tick) width then (fresh, Some (acc_seal a)) else (a, None)
  end.

Definition open_bucket p (symbol : string) : option (BucketAccumulator F) := p_state p !! symbol ≫= ss_bucket.

Definition tick_logs (cs : list Command) : list (list (string * string)) :=
  omap (fun c => match c with
                 | XAdd s fs _ => if String.eqb s STREAM_TICKS then Some fs else None
                 | _ => None
                 end) cs.

Lemma tick_logs_app cs cs' : tick_logs (cs ++ cs') = tick_logs cs ++ tick_logs cs'.
Proof. apply omap_app. Qed.

Lemma seal_bar_writes p st sealed now st' cs o :
  seal_bar repr reason_text int_of p st sealed now = Ok (st', cs, o) ->
  tick_logs cs = [] /\ ss_bucket st' = ss_bucket st.
Proof.
  unfold seal_bar. intros Hs. apply bind_ok in Hs as (realized & _ & Hs). apply bind_ok in Hs as (vol & _ & Hs).
  apply bind_ok in Hs as ([d o'] & Hd & Hs). apply bind_ok in Hs as (vc & Hv & Heq).
  injection Heq as <- <- <-. split; [|done]. rewrite !tick_logs_app.
  assert (tick_logs vc = []) as ->.
  { unfold queue_vol_snapshot in Hv. inv_result. cbn. unfold zhist_commands.
    destruct (last_zscore _) as [z|]; [|done]. by destruct (f_isfinite z). }
  by destruct o'.
Qed.

(** What a tick that is not held back does to the buckets and the tick stream. *)
Lemma handle_bucket p tick now h :
  handle p tick now = Ok h -> held_back p tick = false ->
  let symbol := tick_symbol tick in
  let '(base, sealed) := next_bucket (p_bucket_seconds p) (open_bucket p symbol) tick in
  h_sealed h = sealed /\ tick_logs (h_commands h) = [tick_fields repr p tick] /\
  (exists prev, open_bucket (h_pipeline h) symbol = Some (acc_add base (mid tick) prev).1) /\
  (forall s, s <> symbol -> p_state (h_pipeline h) !! s = p_state p !! s) /\
  p_bucket_seconds (h_pipeline h) = p_bucket_seconds p /\ p_held_until (h_pipeline h) = p_held_until p.
Proof.
  intros Hh Hheld. unfold Pipeline.handle in Hh. rewrite Hheld in Hh.
  apply bind_ok in Hh as ([p1 st] & Hst & Hh).
  assert (Hp1 : open_bucket p (tick_symbol tick) = ss_bucket st /\ p_bucket_seconds p1 = p_bucket_seconds p /\
    p_provider p1 = p_provider p /\ p_held_until p1 = p_held_until p /\
    (forall s, s <> tick_symbol tick -> p_state p1 !! s = p_state p !! s)).
  { unfold state_for, open_bucket in *. destruct (p_state p !! tick_symbol tick) as [st0|] eqn:E.
    - injection Hst as <- <-. done.
    - apply bind_ok in Hst as (st0 & Hnew & [= <- <-]). cbn. split_and!; [|done..|].
      + unfold new_state in Hnew. by inv_result.
      + intros s Hs. by rewrite lookup_insert_ne. }
  destruct Hp1 as (Hopen & Hw & Hprov & Hhu & Hother). cbv zeta. rewrite Hopen, <- Hw.
  destruct (roll p1 st tick) as [st1 sealed] eqn:Hroll.
  apply bind_ok in Hh as (st2 & Hfold & Hh). apply bind_ok in Hh as ([[st3 cs] o] & Hwr & [= <-]).
  assert (Hr : next_bucket (p_bucket_seconds p1) (ss_bucket st) tick =
    (default (acc_start (tick_symbol tick) (ts_event tick) (mid tick) (p_bucket_seconds p1) STREAM) (ss_bucket st1), sealed)
    /\ is_Some (ss_bucket st1)).
  { unfold roll, next_bucket in *. destruct (ss_bucket st) as [a|] eqn:E; [|injection Hroll as <- <-; split; [done|by eexists]].
    destruct (acc_bucket a <? _); injection Hroll as <- <-; cbn; rewrite ?E; split; eauto. }
  destruct Hr as [-> [a Ha]]. rewrite Ha. cbn [default h_sealed h_commands h_pipeline p_bucket_seconds p_held_until set_state].
  unfold fold_price in Hfold. rewrite Ha in Hfold. destruct (acc_add a (mid tick) (ss_last_price st1)) as [a' ended] eqn:Hadd.
  apply bind_ok in Hfold as (u & _ & Hfold). apply bind_ok in Hfold as (e & _ & [= <-]).
  unfold write in Hwr. cbn [ss_bucket set_ewma set_bars] in Hwr.
  assert (Hw3 : tick_logs cs = [tick_fields repr p1 tick] /\ ss_bucket st3 = Some a').
  { destruct sealed as [b|].
    - apply bind_ok in Hwr as ([[st4 bc] o'] & Hb & Heq). apply seal_bar_writes in Hb as [Hlog Hbk].
      injection Heq as <- Hcs _. split; [|by rewrite Hbk].
      assert (cs = tick_commands repr p1 tick a' now ++ history_commands b (tick_symbol tick) ++ bc) as ->
        by exact (eq_sym Hcs).
      rewrite !tick_logs_app, Hlog. done.
    - injection Hwr as <- <- _. done. }
  destruct Hw3 as [Hlog Hb3]. split_and!; [done| | | |done..].
  - rewrite Hlog. unfold tick_fields. by rewrite Hprov.
  - exists (ss_last_price st1). unfold open_bucket. cbn. by rewrite lookup_insert_eq, Hadd.
  - intros s Hs. cbn. rewrite lookup_insert_ne by done. by apply Hother.
Qed.
End Handle.

(* ------------------------------------------------------------------ *)
(** ** A run of the ingestor *)

Section Ingest.
Context {F : Type} `{PyFloat F, !PyFloatOrder F} `{IsoFormat} `{JsonText F} `{NewYork}.
Context (repr : F -> string) (reason_text : Reason F -> string) (int_of : F -> result Z).
Implicit Types (p : IngestPipeline F) (tick : Tick F) (es : list Entry).
Notation handle := (handle repr reason_text int_of).

(** A tick, the clock and the id Redis gives its entry; the stream grows by what
    the transaction appends. *)
Definition ingest_step (s : IngestPipeline F * list Entry) (i : Tick F * datetime * stream_id)
    : result ((IngestPipeline F * list Entry) * option (Bar F * datetime)) :=
  let '(tick, now, id) := i in
  h ← handle s.1 tick now;
  Ok ((h_pipeline h,
       s.2 ++ ((fun fs => {| e_id := id; e_fields := list_to_map fs |}) <$> tick_logs (h_commands h))),
      (fun b => (b, ts_event tick)) <$> h_sealed h).

Notation ingest_run := (run_all ingest_step).

(** The open bucket of a symbol, against the bars sealed before. *)
Definition bucket_ok (width : Z) (s : string) (bars : list (Bar F * datetime)) (o : option (BucketAccumulator F)) : Prop :=
  match o with
  | None => Forall (fun x => bar_symbol x.1 <> s) bars
  | Some a =>
      acc_symbol a = s /\ (seconds width | acc_bucket a) /\
      Forall (fun x => bar_symbol x.1 = s -> bucket x.1 < acc_bucket a) bars
  end.

Lemma floor_divides ts width : (seconds width | floor_to_bucket ts width).
Proof.
  unfold floor_to_bucket, fromtimestamp, seconds. apply Z.mul_divide_mono_r.
  destruct (decide (width = 0)) as [->|Hw]; [rewrite Z.mod_0_r, Z.sub_diag; apply Z.divide_0_r|].
  exists (int_timestamp ts / width). rewrite (Z.div_mod (int_timestamp ts) width Hw) at 1. lia.
Qed.

Lemma sorted_snoc_lt {A} (R : A -> A -> Prop) (l : list A) x :
  StronglySorted R l -> Forall (fun y => R y x) l -> StronglySorted R (l ++ [x]).
Proof.
  intros Hl Hx. apply StronglySorted_app. split_and!; [|done|by repeat constructor].
  intros y z Hy ->%list_elem_of_singleton. rewrite Forall_forall in Hx. by apply Hx.
Qed.

Lemma divides_next w a b : 0 < w -> (w | a) -> (w | b) -> a < b -> a + w <= b.
Proof. intros Hw [x ->] [y ->] Hlt. assert (x < y) by nia. nia. Qed.

Lemma floor_le ts width : 0 <= ts -> 0 < width -> floor_to_bucket ts width <= ts.
Proof. intros Ht Hw. by apply floor_to_bucket_spec. Qed.

(** The open buckets after one more tick. *)
Lemma step_buckets p es i p' es' o width bars :
  0 < width -> p_bucket_seconds p = width -> 0 <= ts_event i.1.1 ->
  (forall s, bucket_ok width s bars (open_bucket p s)) ->
  ingest_step (p, es) i = Ok ((p', es'), o) ->
  p_bucket_seconds p' = width /\
  (forall s, bucket_ok width s (bars ++ opt_list o) (open_bucket p' s)) /\
  (forall x, o = Some x -> bucket x.1 + seconds width <= x.2 /\ (seconds width | bucket x.1) /\
     Forall (fun y => bar_symbol y.1 = bar_symbol x.1 -> bucket y.1 < bucket x.1) bars).
Proof.
  intros Hw Hpw Hts Hok Hs. destruct i as [[tick now] id]. unfold ingest_step in Hs. cbn in Hts.
  apply bind_ok in Hs as (h & Hh & [= <- <- <-]). cbn [fst] in Hh.
  destruct (held_back p tick) eqn:Hheld.
  { unfold Pipeline.handle in Hh. rewrite Hheld in Hh. injection Hh as <-. cbn.
    split_and!; [done| |done]. intros s. rewrite app_nil_r. apply Hok. }
  apply handle_bucket in Hh; [|done]. cbv zeta in Hh. rewrite Hpw in Hh.
  pose proof (Hok (tick_symbol tick)) as Hold. pose proof (floor_divides (ts_event tick) width) as Hdiv.
  pose proof (floor_le (ts_event tick) width Hts Hw) as Hfl.
  destruct (next_bucket width (open_bucket p (tick_symbol tick)) tick) as [base sealed] eqn:Hnb.
  destruct Hh as (Hse & _ & (prev & Hopen) & Hother & Hpw' & _). rewrite Hse.
  destruct (acc_add_fields base (mid tick) prev) as (_ & _ & _ & _ & _ & Hbk & Hsym & _).
  split; [by rewrite Hpw'|].
  assert (Hsealed : forall b, sealed = Some b -> exists a, open_bucket p (tick_symbol tick) = Some a /\
    b = acc_seal a /\ acc_bucket a < floor_to_bucket (ts_event tick) width /\
    acc_bucket base = floor_to_bucket (ts_event tick) width).
  { intros b ->. unfold next_bucket in Hnb. destruct (open_bucket p _) as [a|]; [|done].
    destruct (Z.ltb_spec (acc_bucket a) (floor_to_bucket (ts_event tick) width)); [|done].
    injection Hnb as <- <-. eauto. }
  split.
  - intros s. destruct (decide (s = tick_symbol tick)) as [->|Hne].
    + rewrite Hopen. cbn. rewrite Hbk, Hsym. unfold next_bucket in Hnb.
      destruct (open_bucket p (tick_symbol tick)) as [a|]; cbn in Hold.
      * destruct Hold as (Hsa & Hda & Hba).
        destruct (Z.ltb_spec (acc_bucket a) (floor_to_bucket (ts_event tick) width)); injection Hnb as <- <-; cbn.
        -- split_and!; [done..|]. apply Forall_app. split; [|apply Forall_singleton; by intros _].
           eapply Forall_impl; [exact Hba|]. cbn. intros x Hx Hxs. specialize (Hx Hxs). lia.
        -- rewrite app_nil_r. done.
      * injection Hnb as <- <-. cbn. rewrite app_nil_r. split_and!; [done..|].
        eapply Forall_impl; [exact Hold|]. cbn. intros x Hx Hxs. done.
    + unfold open_bucket. rewrite Hother by done. specialize (Hok s). unfold open_bucket in Hok.
      unfold bucket_ok in *. destruct (p_state p !! s ≫= ss_bucket) as [a|].
      * destruct Hok as (? & ? & Hba). split_and!; [done..|]. apply Forall_app. split; [done|].
        destruct sealed as [b|]; [|constructor]. destruct (Hsealed b eq_refl) as (a' & Ha' & -> & _).
        rewrite Ha' in Hold. destruct Hold as (Hsa & _). apply Forall_singleton. cbn. rewrite Hsa. done.
      * apply Forall_app. split; [done|]. destruct sealed as [b|]; [|constructor].
        destruct (Hsealed b eq_refl) as (a' & Ha' & -> & _). rewrite Ha' in Hold. destruct Hold as (Hsa & _).
        apply Forall_singleton. cbn. by rewrite Hsa.
  - intros x Hx. destruct sealed as [b|]; [|done]. injection Hx as <-.
    destruct (Hsealed b eq_refl) as (a & Ha & -> & Hlt & _). rewrite Ha in Hold. destruct Hold as (Hsa & Hda & Hba).
    cbn. rewrite Hsa. split_and!; [|done|done]. etrans; [|exact Hfl].
    apply divides_next; [unfold seconds, MICRO; lia|done..].
Qed.

(** The buckets and the bars of a run. *)
Lemma run_buckets p0 ins p es bars :
  0 < p_bucket_seconds p0 -> p_state p0 = ∅ -> Forall (fun i => 0 <= ts_event i.1.1) ins ->
  run_all ingest_step (p0, []) ins = Ok ((p, es), bars) ->
  p_bucket_seconds p = p_bucket_seconds p0 /\
    (forall s, bucket_ok (p_bucket_seconds p0) s bars (open_bucket p s)) /\
    (forall s, StronglySorted (fun x y => bucket x.1 < bucket y.1)
       (List.filter (fun x => bool_decide (bar_symbol x.1 = s)) bars)) /\
    Forall (fun x => (seconds (p_bucket_seconds p0) | bucket x.1) /\
                     bucket x.1 + seconds (p_bucket_seconds p0) <= x.2) bars.
Proof.
  intros Hw Hempty Hts Hrun.
  revert p es bars Hts Hrun. induction ins as [|i ins IH] using rev_ind; intros p es bars Hts Hrun.
  - injection Hrun as <- <- <-. split_and!; [done| |constructor|constructor].
    intros s. unfold open_bucket. rewrite Hempty, lookup_empty. constructor.
  - apply Forall_app in Hts as [Hts Hi]. rewrite Forall_singleton in Hi.
    apply run_snoc in Hrun as ([p1 es1] & bars1 & o & Hrun & Hs & ->).
    destruct (IH p1 es1 bars1 Hts Hrun) as (Hw1 & Hok & Hsort & Hall).
    destruct (step_buckets p1 es1 i p es o _ bars1 Hw Hw1 Hi Hok Hs) as (Hw2 & Hok2 & Ho).
    split; [done|]. split; [done|]. split.
    + intros s. rewrite List.filter_app. destruct o as [x|]; cbn [opt_list]; [|by rewrite app_nil_r].
      destruct (Ho x eq_refl) as (_ & _ & Hlt). cbn [List.filter].
      case_bool_decide as Hxs; [|by rewrite app_nil_r]. apply sorted_snoc_lt; [apply Hsort|].
      apply Forall_forall. intros y [Hy Hys]%elem_of_lfilter. apply bool_decide_eq_true in Hys.
      rewrite Forall_forall in Hlt. apply Hlt; congruence.
    + apply Forall_app. split; [done|]. destruct o as [x|]; [|constructor].
      destruct (Ho x eq_refl) as (? & ? & _). by apply Forall_singleton.
Qed.

(** Bars are sealed in time order and never early: whatever order ticks come in,
    the bars of a symbol have strictly increasing buckets - no minute is sealed
    twice - each starts at a multiple of the bucket width, and its whole window lies
    before the tick whose arrival sealed it. *)
Theorem bars_sealed_in_order p0 ins p es bars :
  0 < p_bucket_seconds p0 -> p_state p0 = ∅ -> Forall (fun i => 0 <= ts_event i.1.1) ins ->
  run_all ingest_step (p0, []) ins = Ok ((p, es), bars) ->
  (forall s, StronglySorted (fun x y => bucket x.1 < bucket y.1)
     (List.filter (fun x => bool_decide (bar_symbol x.1 = s)) bars)) /\
  Forall (fun x => (seconds (p_bucket_seconds p0) | bucket x.1) /\
                   bucket x.1 + seconds (p_bucket_seconds p0) <= x.2) bars.
Proof. intros Hw Hempty Hts Hrun. by destruct (run_buckets p0 ins p es bars Hw Hempty Hts Hrun) as (_ & _ & ?). Qed.

(* ------------------------------------------------------------------ *)
(** ** The worker's rows *)

Context (float_of : string -> result F) (float_repr : forall x, float_of (repr x) = Ok x).
Notation rows w es := (apply_all float_of w ∅ es).

(** A row that says what a bar says. *)
Definition matches (b : Bar F) (c : Core F) : Prop :=
  co_open c = open b /\ co_high c = high b /\ co_low c = low b /\ co_close c = close b /\
  co_count c = tick_count b /\ co_source c = "stream"%string.

Definition agree (width : Z) p es (s : string) : Prop :=
  match open_bucket p s with
  | None => forall b, rows width es !! (s, b) = None
  | Some a =>
      acc_symbol a = s /\ acc_source a = STREAM /\
      (exists c, rows width es !! (s, acc_bucket a) = Some c /\ matches (acc_seal a) c) /\
      (forall b, acc_bucket a < b -> rows width es !! (s, b) = None)
  end.

Lemma tick_entry p tick id width :
  dt_in_range (ts_event tick) ->
  tick_of float_of width {| e_id := id; e_fields := list_to_map (tick_fields repr p tick) |} =
    Some ((tick_symbol tick, floor_to_bucket (ts_event tick) width), mid tick).
Proof.
  intros Hts. unfold tick_of. cbn [e_fields].
  destruct (tick_wire repr float_of float_repr p tick Hts) as [-> _]. done.
Qed.

(** A tick folded into a bucket, and into its row. *)
Lemma agree_fold width es (a : BucketAccumulator F) id price prev old :
  Forall (good float_of width) es -> f_isnan price = false ->
  (old = None /\ acc_open a = price /\ acc_high a = price /\ acc_low a = price /\ acc_tick_count a = 0 \/
   exists kb c, old = Some c /\ rows width es !! kb = Some c /\ matches (acc_seal a) c) ->
  exists c, join_core old (Some (tick_core id price)) = Some c /\ matches (acc_seal (acc_add a price prev).1) c.
Proof.
  intros Hg Hn Hold. destruct (acc_add_fields a price prev) as (Ho & Hc & Hh & Hl & Hk & _).
  unfold matches. cbn. rewrite Ho, Hc, Hh, Hl, Hk.
  destruct Hold as [(-> & -> & -> & -> & ->)|(kb & c & -> & Hrow & Hm)]; (eexists; split; [done|]); cbn.
  - unfold py_max, py_min. by rewrite f_lt_irrefl.
  - destruct (apply_all_numbers float_of width es kb c Hg Hrow) as [Hnh Hnl].
    destruct Hm as (Mo & Mh & Ml & Mc & Mk & Ms). cbn in *. rewrite sql_greatest_number, sql_least_number by done.
    rewrite bool_decide_eq_true_2 by done. rewrite Mo, Mh, Ml, Mk. done.
Qed.

(** One tick, in memory and in the rows. *)
Lemma agree_tick width p es tick now id h :
  0 < width -> p_bucket_seconds p = width -> dt_in_range (ts_event tick) -> f_isnan (mid tick) = false ->
  handle p tick now = Ok h -> held_back p tick = false ->
  Forall (good float_of width) es -> (forall s, agree width p es s) ->
  (forall a, open_bucket p (tick_symbol tick) = Some a -> acc_bucket a <= floor_to_bucket (ts_event tick) width) ->
  let es' := es ++ [{| e_id := id; e_fields := list_to_map (tick_fields repr p tick) |}] in
  Forall (good float_of width) es' /\ (forall s, agree width (h_pipeline h) es' s) /\
  (forall s b, (s, b) <> (tick_symbol tick, floor_to_bucket (ts_event tick) width) ->
     rows width es' !! (s, b) = rows width es !! (s, b)) /\
  (forall b, h_sealed h = Some b -> exists c, rows width es' !! (bar_symbol b, bucket b) = Some c /\ matches b c).
Proof.
  intros Hw Hpw Hts Hnan Hh Hheld Hgood Hagree Horder es'.
  pose proof (tick_entry p tick id width Hts) as Htick. set (e := {| e_id := id |}) in *.
  apply handle_bucket in Hh; [|done]. cbv zeta in Hh. rewrite Hpw in Hh.
  set (fl := floor_to_bucket (ts_event tick) width) in *.
  destruct (next_bucket width (open_bucket p (tick_symbol tick)) tick) as [base sealed] eqn:Hnb.
  destruct Hh as (Hse & _ & (prev & Hopen) & Hother & _).
  assert (Hrows : forall kb, rows width es' !! kb = if decide ((tick_symbol tick, fl) = kb)
    then join_core (rows width es !! kb) (Some (tick_core (e_id e) (mid tick))) else rows width es !! kb).
  { intros kb. subst es'. by rewrite apply_all_snoc, apply_entry_lookup, Htick. }
  assert (Hkeep : forall s b, (s, b) <> (tick_symbol tick, fl) -> rows width es' !! (s, b) = rows width es !! (s, b)).
  { intros s b Hne. rewrite Hrows. by rewrite decide_False by congruence. }
  destruct (acc_add_fields base (mid tick) prev) as (_ & _ & _ & _ & _ & Hbk & Hsym & Hsrc).
  pose proof (Hagree (tick_symbol tick)) as Hold. unfold agree in Hold. unfold next_bucket in Hnb. fold fl in Hnb.
  split; [apply Forall_app; split; [done|]; apply Forall_singleton; exists (tick_symbol tick, fl), (mid tick); split; [exact Htick|done]|].
  split; [|split; [exact Hkeep|]].
  - intros s. unfold agree. destruct (decide (s = tick_symbol tick)) as [->|Hne].
    + rewrite Hopen, Hbk, Hsym, Hsrc.
      assert (Hfold : acc_symbol base = tick_symbol tick /\ acc_source base = STREAM /\ acc_bucket base = fl /\
        (forall b, fl < b -> rows width es !! (tick_symbol tick, b) = None) /\
        exists c, join_core (rows width es !! (tick_symbol tick, fl)) (Some (tick_core (e_id e) (mid tick))) = Some c /\
          matches (acc_seal (acc_add base (mid tick) prev).1) c).
      { destruct (open_bucket p (tick_symbol tick)) as [a|].
        - destruct Hold as (Hsa & Hsra & (c & Hc & Hm) & Hnone). specialize (Horder a eq_refl).
          destruct (Z.ltb_spec (acc_bucket a) fl) as [Hlt|Hge]; injection Hnb as <- <-.
          + split_and!; [done..|intros b Hb; apply Hnone; lia|].
            apply (agree_fold width es); [done..|]. left. by rewrite Hnone.
          + replace (acc_bucket a) with fl in * by lia. split_and!; [done..|].
            apply (agree_fold width es); [done..|]. right. eauto.
        - injection Hnb as <- <-. split_and!; [done..|by intros|].
          apply (agree_fold width es); [done..|]. left. by rewrite Hold. }
      destruct Hfold as (-> & -> & -> & Hnone & c & Hj & Hm). split_and!; [done..| |].
      * exists c. rewrite Hrows, decide_True by done. done.
      * intros b Hb. rewrite Hkeep by (intros [= ->]; lia). by apply Hnone.
    + specialize (Hagree s). unfold agree, open_bucket in *. rewrite Hother by done.
      destruct (p_state p !! s ≫= ss_bucket) as [a|].
      * destruct Hagree as (? & ? & (c & Hc & Hm) & Hnone). split_and!; [done..| |].
        -- exists c. rewrite Hkeep by congruence. done.
        -- intros b Hb. rewrite Hkeep by congruence. by apply Hnone.
      * intros b. rewrite Hkeep by congruence. apply Hagree.
  - intros b Hb. assert (Hsb : sealed = Some b) by congruence. clear Hse Hb.
    destruct (open_bucket p (tick_symbol tick)) as [a|]; [|congruence].
    destruct (Z.ltb_spec (acc_bucket a) fl) as [Hlt|Hge]; [|congruence]. assert (b = acc_seal a) as -> by congruence.
    destruct Hold as (Hsa & Hsra & (c & Hc & Hm) & Hnone). exists c. cbn. rewrite Hsa.
    rewrite Hkeep by (intros [= He]; lia). done.
Qed.

(** A well-dated tick with a price, and ticks whose buckets do not go back. *)
Definition tick_ok (i : Tick F * datetime * stream_id) : Prop :=
  0 <= ts_event i.1.1 /\ dt_in_range (ts_event i.1.1) /\ f_isnan (mid i.1.1) = false.

Definition in_order (width : Z) (i j : Tick F * datetime * stream_id) : Prop :=
  tick_symbol i.1.1 = tick_symbol j.1.1 ->
  floor_to_bucket (ts_event i.1.1) width <= floor_to_bucket (ts_event j.1.1) width.

(** Everything a run keeps. *)
Definition run_ok (width : Z) p es (bars : list (Bar F * datetime)) (ins : list (Tick F * datetime * stream_id)) : Prop :=
  p_bucket_seconds p = width /\
  (forall s, bucket_ok width s bars (open_bucket p s)) /\
  Forall (good float_of width) es /\ (forall s, agree width p es s) /\
  (forall s a, open_bucket p s = Some a -> exists i, i ∈ ins /\ tick_symbol i.1.1 = s /\
     floor_to_bucket (ts_event i.1.1) width = acc_bucket a) /\
  (forall x, x ∈ bars -> exists c, rows width es !! (bar_symbol x.1, bucket x.1) = Some c /\ matches x.1 c).

Lemma run_ok_step width p es bars ins i p' es' o :
  0 < width -> tick_ok i -> Forall (fun j => in_order width j i) ins ->
  run_ok width p es bars ins -> ingest_step (p, es) i = Ok ((p', es'), o) ->
  run_ok width p' es' (bars ++ opt_list o) (ins ++ [i]).
Proof.
  intros Hw (Hts & Hr & Hn) Hord (Hpw & Hbk & Hg & Hag & Hev & Hbars) Hs.
  destruct (step_buckets p es i p' es' o width bars Hw Hpw Hts Hbk Hs) as (Hpw' & Hbk' & Ho).
  destruct i as [[tick now] id]. cbn in *. apply bind_ok in Hs as (h & Hh & [= <- <- <-]).
  destruct (held_back p tick) eqn:Hheld.
  { unfold Pipeline.handle in Hh. rewrite Hheld in Hh. injection Hh as <-. cbn in *. rewrite !app_nil_r in *.
    split_and!; try done. intros s a Ha. destruct (Hev s a Ha) as (j & ? & ? & ?). exists j. set_solver. }
  assert (Horder : forall a, open_bucket p (tick_symbol tick) = Some a ->
    acc_bucket a <= floor_to_bucket (ts_event tick) width).
  { intros a Ha. destruct (Hev _ _ Ha) as (j & Hj & Hsj & <-). rewrite Forall_forall in Hord. by apply (Hord j Hj). }
  pose proof (agree_tick width p es tick now id h Hw Hpw Hr Hn Hh Hheld Hg Hag Horder) as (Hg' & Hag' & Hkeep & Hsl).
  pose proof (handle_bucket repr reason_text int_of p tick now h Hh Hheld) as Hb. cbv zeta in Hb. rewrite Hpw in Hb.
  destruct (next_bucket width (open_bucket p (tick_symbol tick)) tick) as [base sealed] eqn:Hnb.
  destruct Hb as (Hse & Hlog & (prev & Hopen) & Hother & _).
  rewrite Hlog in *. cbn [fmap list_fmap] in *. split_and!; [done..| |].
  - intros s a Ha. destruct (decide (s = tick_symbol tick)) as [->|Hne].
    + rewrite Hopen in Ha. injection Ha as <-. destruct (acc_add_fields base (mid tick) prev) as (_ & _ & _ & _ & _ & -> & _).
      assert (Hbase : acc_bucket base = floor_to_bucket (ts_event tick) width \/
        open_bucket p (tick_symbol tick) = Some base).
      { unfold next_bucket in Hnb. destruct (open_bucket p _) as [a|]; [|left; by injection Hnb as <- _].
        destruct (_ <? _); injection Hnb as <- _; auto. }
      destruct Hbase as [->|Hb]; [exists (tick, now, id); set_solver|].
      destruct (Hev _ _ Hb) as (j & ? & ? & ?). exists j. set_solver.
    + unfold open_bucket in Ha. rewrite Hother in Ha by done.
      destruct (Hev s a Ha) as (j & ? & ? & ?). exists j. set_solver.
  - intros x [Hx|Hx]%elem_of_app.
    + destruct (Hbars x Hx) as (c & Hc & Hm). exists c. split; [|done]. rewrite Hkeep; [done|].
      intros [= Hsx Hbx]. specialize (Hbk (tick_symbol tick)). unfold bucket_ok in Hbk.
      destruct (open_bucket p (tick_symbol tick)) as [a|].
      * destruct Hbk as (_ & _ & Hall). rewrite Forall_forall in Hall. specialize (Hall x Hx Hsx).
        specialize (Horder a eq_refl). lia.
      * rewrite Forall_forall in Hbk. by apply (Hbk x Hx).
    + destruct (h_sealed h) as [b|] eqn:Hb; [|by apply elem_of_nil in Hx].
      apply list_elem_of_singleton in Hx as ->. by apply Hsl.
Qed.

(** C18. The bars the ingestor publishes are the rows the worker persists: for ticks
    whose buckets do not go back, every bar sealed along the way has, in the table
    the specification of the worker builds from the logged entries, a row with its
    open, high, low, close and tick count. *)
Theorem bars_agree p0 ins p es bars :
  0 < p_bucket_seconds p0 -> p_state p0 = ∅ ->
  Forall tick_ok ins -> StronglySorted (in_order (p_bucket_seconds p0)) ins ->
  run_all ingest_step (p0, []) ins = Ok ((p, es), bars) ->
  forall x, x ∈ bars -> exists c,
    rows (p_bucket_seconds p0) es !! (bar_symbol x.1, bucket x.1) = Some c /\ matches x.1 c.
Proof.
  intros Hw Hempty Hok Hord Hrun.
  cut (run_ok (p_bucket_seconds p0) p es bars ins); [by intros (_ & _ & _ & _ & _ & ?)|].
  revert p es bars Hok Hord Hrun. induction ins as [|i ins IH] using rev_ind; intros p es bars Hok Hord Hrun.
  - injection Hrun as <- <- <-. split_and!; [done|..].
    + intros s. unfold open_bucket. rewrite Hempty, lookup_empty. constructor.
    + constructor.
    + intros s. unfold agree, open_bucket. rewrite Hempty, lookup_empty. done.
    + intros s a. unfold open_bucket. by rewrite Hempty, lookup_empty.
    + by intros x ?%elem_of_nil.
  - apply Forall_app in Hok as [Hok Hi]. rewrite Forall_singleton in Hi.
    apply StronglySorted_app in Hord as (Hlast & Hord & _).
    apply run_snoc in Hrun as ([p1 es1] & bars1 & o & Hrun & Hs & ->).
    apply (run_ok_step _ p1 es1); try done; [|by apply IH].
    apply Forall_forall. intros j Hj. apply Hlast; [done|apply list_elem_of_here].
Qed.
End Ingest.

(* ------------------------------------------------------------------ *)
(** ** Examples *)

Section Examples.
#[local] Existing Instance plain64.
#[local] Existing Instance iso_utc.
#[local] Existing Instance eastern_standard.
#[local] Existing Instance json_bits.
#[local] Instance demo_order : @PyFloatOrder spec_float plain64 := binary64_order _ _ _.

Definition demo_empty : IngestPipeline spec_float := set_state demo_pipeline ∅.

Definition demo_quote (s price : Z) : Tick spec_float * datetime * stream_id := ({|
  tick_symbol := "eurusd"; bid := f_of_Z price; ask := f_of_Z price; ts_event := demo_t0 + seconds s;
  ts_aware := true; ts_ingest := demo_t0 + seconds s; tick_seq := 1 |}, 0, (s, 0)).

Notation demo_ingest := (run_all (ingest_step write_bits (fun _ => "why"%string) (fun _ => Ok 33))).

(** Two ticks of one minute, one of the next, one that comes late, one of the third. *)
Definition demo_late : list (Tick spec_float * datetime * stream_id) :=
  [demo_quote 5 2; demo_quote 50 3; demo_quote 65 4; demo_quote 55 2; demo_quote 125 3].

Lemma bars_sealed_in_order_witness :
  match demo_ingest (demo_empty, []) demo_late with
  | Ok (_, bars) => ((fun x => bucket x.1) <$> bars) = [demo_t0; demo_t0 + minutes 1] /\
      Forall (fun x => (seconds (p_bucket_seconds demo_empty) | bucket x.1) /\
        bucket x.1 + seconds (p_bucket_seconds demo_empty) <= x.2) bars
  | Raise _ => False
  end.
Proof.
  assert (Hret : is_ok (demo_ingest (demo_empty, []) demo_late)) by (vm_compute; reflexivity).
  destruct (demo_ingest (demo_empty, []) demo_late) as [[[p es] bars]|] eqn:E; [|done].
  split.
  - assert (Hb : match demo_ingest (demo_empty, []) demo_late with
      | Ok (_, bars) => (fun x => bucket x.1) <$> bars | Raise _ => [] end = [demo_t0; demo_t0 + minutes 1])
      by (vm_compute; reflexivity).
    by rewrite E in Hb.
  - assert (Hw : 0 < p_bucket_seconds demo_empty) by reflexivity.
    assert (Hempty : p_state demo_empty = ∅) by reflexivity.
    assert (Hok : Forall (fun i => 0 <= ts_event i.1.1) demo_late) by (repeat constructor; vm_compute; congruence).
    exact (proj2 (bars_sealed_in_order write_bits (fun _ => "why"%string) (fun _ => Ok 33)
      demo_empty demo_late p es bars Hw Hempty Hok E)).
Defined.

Definition demo_inorder : list (Tick spec_float * datetime * stream_id) :=
  [demo_quote 5 2; demo_quote 50 3; demo_quote 65 4; demo_quote 125 3].

Lemma bars_agree_witness :
  match demo_ingest (demo_empty, []) demo_inorder with
  | Ok ((_, es), bars) => length bars = 2%nat /\
      forall x, x ∈ bars -> exists c,
        apply_all read_bits (p_bucket_seconds demo_empty) ∅ es !! (bar_symbol x.1, bucket x.1) = Some c /\ matches x.1 c
  | Raise _ => False
  end.
Proof.
  assert (Hret : is_ok (demo_ingest (demo_empty, []) demo_inorder)) by (vm_compute; reflexivity).
  destruct (demo_ingest (demo_empty, []) demo_inorder) as [[[p es] bars]|] eqn:E; [|done].
  split.
  - assert (Hb : match demo_ingest (demo_empty, []) demo_inorder with
      | Ok (_, bars) => length bars | Raise _ => O end = 2%nat) by (vm_compute; reflexivity).
    by rewrite E in Hb.
  - apply (bars_agree write_bits (fun _ => "why"%string) (fun _ => Ok 33) read_bits read_write_bits
      demo_empty demo_inorder p es bars); [done|done| | |exact E].
    + repeat constructor; vm_compute; try congruence; split; congruence.
    + repeat constructor; intros _; vm_compute; congruence.
Defined.

(** A late tick is where the two differ: the ingestor folds it into the minute it has
    open, the worker into the minute it belongs to. *)
Lemma late_tick_disagrees :
  match demo_ingest (demo_empty, []) demo_late with
  | Ok ((_, es), bars) =>
      ((fun x => tick_count x.1) <$> bars) = [2; 2] /\
      (co_count <$> apply_all read_bits 60 ∅ es !! ("eurusd"%string, demo_t0)) = Some 3 /\
      (co_count <$> apply_all read_bits 60 ∅ es !! ("eurusd"%string, demo_t0 + minutes 1)) = Some 1
  | Raise _ => False
  end.
Proof. vm_compute. repeat split. Qed.
End Examples.
