(* ===== verification/Provider.v ===== *)
(** * Which feed's past is live ([fx_ingestor/pipeline.py], rehydration)

    A provider's history and detector state are parked under an archive name while
    another provider runs.  The facts: a switch is all or nothing, and never costs
    any provider a key; what a detector wrote is what the next leader restores. *)
From S2P Require Import Prelude PyFloat Civil Volatility Models Buckets Baseline Seasonality.
From S2P Require Import Calendar Hysteresis Detector Redis Json Keys Text Pipeline Wire.

Local Open Scope Z_scope.

(** What a key holds; [RENAME] moves any type. *)
Inductive value `{SortedSet} :=
  | VStr (s : string)
  | VHash (h : gmap string string)
  | VZset (z : zset).

Section Provider.
Context `{SortedSet}.
Abbreviation keyspace := (gmap string value).
Implicit Types (ks : keyspace).

Definition exists_ (k : string) ks : bool := bool_decide (is_Some (ks !! k)).

(** [RENAME a b], of a key that exists: an existing [b] is overwritten. *)
Definition rename (a b : string) ks : keyspace :=
  match ks !! a with Some v => <[b := v]> (delete a ks) | None => ks end.

(** [redis.call('GET', k) or ''] *)
Definition get_text (k : string) ks : result string :=
  match ks !! k with
  | None => Ok ""%string
  | Some (VStr s) => Ok s
  | Some _ => Raise RuntimeError
  end.

(** A state key with its archive under the outgoing and the incoming provider. *)
Record Move := { live : string; parked : string; restored : string }.

Definition move_of (label provider k : string) : Move :=
  {| live := k; parked := archive label k; restored := archive provider k |}.

(** One turn of the script's second loop: the keys and how many were parked. *)
Definition swap_one (st : keyspace * Z) (m : Move) : keyspace * Z :=
  let '(ks, n) := st in
  let '(ks, n) := if exists_ (live m) ks then (rename (live m) (parked m) ks, n + 1) else (ks, n) in
  (if exists_ (restored m) ks then rename (restored m) (live m) ks else ks, n).

Definition clash (ks : keyspace) (m : Move) : bool := exists_ (live m) ks && exists_ (parked m) ks.

(** [_ADOPT_PROVIDER_LUA]: an error reply comes before any write. *)
Definition adopt_script ks (expected new : string) (moves : list Move) (caches : list string)
    : result (keyspace * Z) :=
  marker ← get_text PROVIDER ks;
  if negb (String.eqb marker expected) then Raise RuntimeError
  else if existsb (clash ks) moves then Raise RuntimeError
  else
    let '(ks, n) := fold_left swap_one moves (ks, 0) in
    let ks := foldr delete ks caches in
    Ok (<[PROVIDER := VStr new]> ks, n).

(** [str(previous or "unverified")] *)
Definition label_of (previous : string) : string :=
  if String.eqb previous "" then "unverified"%string else previous.

Definition all_state_keys (symbols : list string) : list string := symbols ≫= state_keys.
Definition caches_of (symbols : list string) : list string :=
  symbols ≫= fun s => [quote s; vol_state s "1h"].

Section Adopt.
Context {F : Type} `{PyFloat F} `{IsoFormat}.
Implicit Types (p : IngestPipeline F).

Definition set_provider p (provider : string) (held : option datetime) : IngestPipeline F := {|
  p_bucket_seconds := p_bucket_seconds p; p_retention_ms := p_retention_ms p;
  p_detector_config := p_detector_config p; p_trigger_config := p_trigger_config p;
  p_feed_is_stale := p_feed_is_stale p; p_state := p_state p; p_ewma_lambda := p_ewma_lambda p;
  p_provider := provider; p_held_until := held |}.

(** [adopt_provider]: [seen] is the keyspace when the marker is read and [ks] when
    the script runs; [newest] is the time of the last entry of the tick stream. *)
Definition adopt_provider p (provider : string) (seen ks : keyspace) (newest : option string)
    : result (IngestPipeline F * keyspace * option (string * Z)) :=
  previous ← get_text PROVIDER seen;
  if String.eqb previous provider then Ok (set_provider p provider (p_held_until p), ks, None)
  else
    let label := label_of previous in
    '(ks, n) ← adopt_script ks previous provider
                 (move_of label provider <$> all_state_keys (pipeline_symbols p))
                 (caches_of (pipeline_symbols p));
    held ← match newest with
           | Some text =>
               ts ← fromisoformat text;
               Ok (Some (floor_to_bucket ts (p_bucket_seconds p) + seconds (p_bucket_seconds p)))
           | None => Ok (p_held_until p)
           end;
    Ok (set_provider p provider held, ks, Some (label, n)).
End Adopt.

(* ------------------------------------------------------------------ *)
(** ** The swap *)

Lemma rename_lookup a b ks x :
  a <> b -> rename a b ks !! x =
    if decide (x = b) then match ks !! a with Some v => Some v | None => ks !! b end
    else if decide (x = a) then None else ks !! x.
Proof.
  intros Hab. unfold rename. destruct (ks !! a) as [v|] eqn:Ha.
  - destruct (decide (x = b)) as [->|]; [by rewrite lookup_insert_eq|]. rewrite lookup_insert_ne by done.
    destruct (decide (x = a)) as [->|]; [by rewrite lookup_delete_eq|by rewrite lookup_delete_ne].
  - destruct (decide (x = b)) as [->|]; [done|]. by destruct (decide (x = a)) as [->|].
Qed.

Lemma rename_absent a b ks : ks !! a = None -> rename a b ks = ks.
Proof. intros Ha. unfold rename. by rewrite Ha. Qed.

Lemma exists_false k ks : exists_ k ks = false -> ks !! k = None.
Proof. unfold exists_. intros Hk%bool_decide_eq_false. by apply eq_None_not_Some. Qed.

Lemma swap_one_renames ks n m :
  (swap_one (ks, n) m).1 = rename (restored m) (live m) (rename (live m) (parked m) ks).
Proof.
  unfold swap_one. destruct (exists_ (live m) ks) eqn:E1; cbn.
  - destruct (exists_ (restored m) _) eqn:E2; [done|]. apply exists_false in E2. by rewrite (rename_absent (restored m)).
  - apply exists_false in E1. rewrite (rename_absent (live m)) by done.
    destruct (exists_ (restored m) ks) eqn:E2; [done|]. apply exists_false in E2. by rewrite rename_absent.
Qed.

Lemma swap_one_lookup ks n l r k x :
  archive l k <> k -> archive r k <> k -> archive l k <> archive r k ->
  (swap_one (ks, n) (move_of l r k)).1 !! x =
    if decide (x = k) then ks !! archive r k
    else if decide (x = archive r k) then None
    else if decide (x = archive l k) then match ks !! k with Some v => Some v | None => ks !! archive l k end
    else ks !! x.
Proof.
  intros Hl Hr Hlr. rewrite swap_one_renames. cbn [move_of live parked restored].
  rewrite rename_lookup by done. rewrite !(rename_lookup k (archive l k)) by done.
  rewrite (decide_False (P := archive r k = archive l k)) by done. rewrite (decide_False (P := archive r k = k)) by done.
  rewrite (decide_False (P := k = archive l k)) by done. rewrite (decide_True (P := k = k)) by done.
  destruct (decide (x = k)) as [->|]; [by destruct (ks !! archive r k)|].
  by destruct (decide (x = archive r k)).
Qed.

(** Two providers and keys that are no archive. *)
Definition separate (l r : string) (K : list string) : Prop :=
  colon_free l = true /\ colon_free r = true /\ l <> r /\ NoDup K /\
  (forall k, k ∈ K -> forall q x, k <> archive q x).

Lemma separate_archives l r K k : separate l r K -> archive l k <> archive r k.
Proof. intros (Hl & Hr & Hne & _) Heq. by apply archive_inj in Heq as [? _]. Qed.

Lemma swap_all_lookup l r K st :
  separate l r K ->
  let ks' := (fold_left swap_one (move_of l r <$> K) st).1 in
  (forall k, k ∈ K -> ks' !! k = st.1 !! archive r k /\ ks' !! archive r k = None /\
     ks' !! archive l k = match st.1 !! k with Some v => Some v | None => st.1 !! archive l k end) /\
  (forall x, x ∉ K -> (forall k, k ∈ K -> x <> archive l k /\ x <> archive r k) -> ks' !! x = st.1 !! x).
Proof.
  revert st. induction K as [|k K IH]; intros [ks n] Hsep; [by split; [intros k ?%elem_of_nil|]|].
  pose proof (separate_archives _ _ _ k Hsep) as Hlr.
  destruct Hsep as (Hl & Hr & Hne & (Hk & Hd)%NoDup_cons & Hshape).
  assert (Hkl : archive l k <> k /\ archive r k <> k)
    by (split; apply not_eq_sym, Hshape, list_elem_of_here).
  destruct Hkl as [Hkl Hkr]. rewrite fmap_cons. cbn [fold_left].
  destruct (IH (swap_one (ks, n) (move_of l r k))) as [Hin Hout].
  { split_and!; [done..|]. intros k' Hk'. apply Hshape. by apply list_elem_of_further. }
  cbn [fst]. assert (Hother : forall k', k' ∈ K -> k <> archive l k' /\ k <> archive r k')
    by (intros k' _; split; apply Hshape, list_elem_of_here).
  assert (Harch : forall q k', (q = l \/ q = r) -> k' ∈ K -> archive q k' <> archive l k /\ archive q k' <> archive r k /\ archive q k' <> k /\ k' <> k).
  { intros q k' Hq Hk'. assert (Hqc : colon_free q = true) by (destruct Hq; congruence).
    assert (k' <> k) by (intros ->; done). split_and!; [| |by apply not_eq_sym, Hshape, list_elem_of_here|done];
      intros Heq; apply archive_inj in Heq as [_ ?]; done. }
  split.
  - intros k' [->|Hk']%elem_of_cons.
    + rewrite (Hout k), (Hout (archive r k)), (Hout (archive l k)), !swap_one_lookup; try done.
      * rewrite (decide_True (P := k = k)), (decide_False (P := archive r k = k)), (decide_True (P := archive r k = archive r k)),
          (decide_False (P := archive l k = k)), (decide_False (P := archive l k = archive r k)),
          (decide_True (P := archive l k = archive l k)) by done. done.
      * intros Hx. by apply (Hshape (archive l k) (list_elem_of_further _ _ _ Hx) l k).
      * intros k' Hk'. split; apply not_eq_sym; by apply (Harch _ k'); auto.
      * intros Hx. by apply (Hshape (archive r k) (list_elem_of_further _ _ _ Hx) r k).
      * intros k' Hk'. split; apply not_eq_sym; by apply (Harch _ k'); auto.
    + destruct (Hin k' Hk') as (-> & -> & ->). rewrite !swap_one_lookup by done.
      destruct (Harch l k' (or_introl eq_refl) Hk') as (? & ? & ? & ?).
      destruct (Harch r k' (or_intror eq_refl) Hk') as (? & ? & ? & ?).
      assert (k' <> archive r k /\ k' <> archive l k) as [? ?]
        by (split; apply Hshape; by apply list_elem_of_further).
      by rewrite !decide_False by done.
  - intros x Hx Hxa. apply not_elem_of_cons in Hx as [Hxk Hx].
    destruct (Hxa k (list_elem_of_here _ _)) as [Hxl Hxr].
    rewrite Hout, swap_one_lookup; try done; [by rewrite !decide_False by done|].
    intros k' Hk'. apply Hxa. by apply list_elem_of_further.
Qed.

(* ------------------------------------------------------------------ *)
(** ** Every provider's past *)

(** Whose past is live, and what a provider's past holds, live or parked. *)
Definition owner ks : string :=
  label_of (match ks !! PROVIDER with Some (VStr s) => s | _ => ""%string end).
Definition view ks (q k : string) : option value :=
  if String.eqb q (owner ks) then ks !! k else ks !! archive q k.

(** The owner's keys are not parked as well, and the marker is a string. *)
Definition tidy ks (K : list string) : Prop :=
  colon_free (owner ks) = true /\
  match ks !! PROVIDER with Some (VStr _) | None => True | _ => False end /\
  forall k, k ∈ K -> ks !! archive (owner ks) k = None.

Lemma all_state_keys_shape symbols k q x : k ∈ all_state_keys symbols -> k <> archive q x /\ k <> PROVIDER.
Proof. intros (s & Hk & _)%list_elem_of_bind. by apply (state_key_shape s). Qed.

Lemma all_state_keys_nodup symbols :
  NoDup symbols -> Forall (fun s => colon_free s = true) symbols -> NoDup (all_state_keys symbols).
Proof.
  unfold all_state_keys. induction 1 as [|s symbols Hs Hd IH]; intros Hc; [constructor|].
  apply Forall_cons in Hc as [Hcs Hc]. rewrite bind_cons. apply NoDup_app. split_and!.
  - apply state_keys_nodup.
  - intros k Hk (s' & Hk' & Hs')%list_elem_of_bind. rewrite Forall_forall in Hc.
    pose proof (state_keys_disjoint s s' k Hcs (Hc s' Hs') Hk Hk'). by subst.
  - by apply IH.
Qed.

Lemma caches_shape symbols c :
  c ∈ caches_of symbols ->
  (forall k, k ∈ all_state_keys symbols -> c <> k) /\ (forall q x, c <> archive q x) /\ c <> PROVIDER.
Proof.
  intros (s & Hc & _)%list_elem_of_bind. unfold quote, vol_state in Hc. rewrite !elem_of_cons, elem_of_nil in Hc.
  split_and!.
  - intros k (s' & Hk & _)%list_elem_of_bind. unfold state_keys, history, zhist, regime_state in Hk.
    rewrite !elem_of_cons, elem_of_nil in Hk. destruct_or?; subst; done.
  - intros q x. destruct_or?; subst; done.
  - destruct_or?; subst; done.
Qed.

Lemma delete_all_lookup (cs : list string) ks x :
  foldr delete ks cs !! x = if bool_decide (x ∈ cs) then None else ks !! x.
Proof.
  induction cs as [|c cs IH]; [done|]. cbn. destruct (decide (c = x)) as [->|Hne].
  - rewrite lookup_delete_eq. by rewrite bool_decide_eq_true_2 by apply list_elem_of_here.
  - rewrite lookup_delete_ne, IH by done. apply not_eq_sym in Hne.
    by rewrite (bool_decide_ext (x ∈ cs) (x ∈ c :: cs)) by set_solver.
Qed.

Lemma owner_marker ks K : tidy ks K -> exists m, get_text PROVIDER ks = Ok m /\ owner ks = label_of m.
Proof.
  intros (_ & Hm & _). unfold owner, get_text. destruct (ks !! PROVIDER) as [[s|h|z]|]; eauto; done.
Qed.

Section Switch.
Context {F : Type} `{PyFloat F} `{IsoFormat} `{JsonText F} `{NewYork}.
Implicit Types (p : IngestPipeline F).

(** The script on a tidy keyspace. *)
Lemma adopt_script_tidy ks provider m K caches :
  tidy ks K -> get_text PROVIDER ks = Ok m -> owner ks = label_of m ->
  separate (label_of m) provider K -> (forall k, k ∈ K -> k <> PROVIDER) ->
  (forall c, c ∈ caches -> (forall k, k ∈ K -> c <> k) /\ (forall q x, c <> archive q x) /\ c <> PROVIDER) ->
  exists ks' n, adopt_script ks m provider (move_of (label_of m) provider <$> K) caches = Ok (ks', n) /\
    ks' !! PROVIDER = Some (VStr provider) /\
    (forall k, k ∈ K -> ks' !! k = ks !! archive provider k /\ ks' !! archive provider k = None /\
       ks' !! archive (label_of m) k = ks !! k) /\
    (forall q k, q <> label_of m -> q <> provider -> colon_free q = true -> ks' !! archive q k = ks !! archive q k) /\
    (forall c, c ∈ caches -> ks' !! c = None).
Proof.
  intros (_ & _ & Htidy) Hm Howner Hsep HK Hcaches. rewrite Howner in Htidy.
  unfold adopt_script. rewrite Hm. cbn [mbind result_bind]. rewrite String.eqb_refl. cbn [negb].
  assert (existsb (clash ks) (move_of (label_of m) provider <$> K) = false) as ->.
  { apply not_true_iff_false. intros (mv & Hin & Hc)%existsb_exists. apply list_elem_of_In in Hin.
    apply list_elem_of_fmap in Hin as (k & -> & Hk). unfold clash in Hc. cbn in Hc.
    apply andb_true_iff in Hc as [_ Hc]. apply bool_decide_eq_true in Hc as [v Hv].
    rewrite Htidy in Hv by done. done. }
  pose proof (swap_all_lookup (label_of m) provider K (ks, 0) Hsep) as Hswap. cbv zeta in Hswap. cbn [fst] in Hswap.
  destruct (fold_left swap_one _ (ks, 0)) as [ks1 n]. cbn [fst] in Hswap. destruct Hswap as [Hin Hout].
  eexists _, n. split; [done|].
  assert (Hlook : forall x, x <> PROVIDER -> x ∉ caches -> (<[PROVIDER:=VStr provider]> (foldr delete ks1 caches)) !! x = ks1 !! x).
  { intros x Hx Hxc. rewrite lookup_insert_ne, delete_all_lookup by done. by rewrite bool_decide_eq_false_2. }
  assert (Hnc : forall q x, archive q x ∉ caches) by (intros q x Hc; by apply (proj1 (proj2 (Hcaches _ Hc)) q x)).
  assert (Hkc : forall k, k ∈ K -> k ∉ caches) by (intros k Hk Hc; by apply (proj1 (Hcaches _ Hc) k Hk)).
  split_and!.
  - by rewrite lookup_insert_eq.
  - intros k Hk. destruct (Hin k Hk) as (H1' & H2' & H3'). rewrite !Hlook by (done || auto).
    rewrite H1', H2', H3'. split_and!; [done..|]. rewrite Htidy by done. by destruct (ks !! k).
  - intros q k Hql Hqp Hq. rewrite Hlook by (done || auto). apply Hout.
    + intros HqK. destruct Hsep as (_ & _ & _ & _ & Hshape). by apply (Hshape _ HqK q k).
    + intros k' _. destruct Hsep as (Hl & Hr & _). split; intros Heq; apply archive_inj in Heq as [? _]; done.
  - intros c Hc. rewrite lookup_insert_ne by (apply not_eq_sym; by apply Hcaches). rewrite delete_all_lookup.
    by rewrite bool_decide_eq_true_2.
Qed.

(** C29. Switching providers costs nobody a past. On a tidy keyspace [adopt_provider]
    always succeeds; afterwards the new provider owns the live keys, the keyspace is
    tidy again, and the history and detector state of every provider - the outgoing,
    the incoming and any other - are what they were, live or parked; after a change
    the caches of the old feed are gone, and no tick is handled until the minute
    after that feed's last one. *)
Theorem switch_keeps_every_past p provider ks newest last :
  Forall (fun s => colon_free s = true) (pipeline_symbols p) ->
  colon_free provider = true -> provider <> ""%string -> provider <> "unverified"%string ->
  tidy ks (all_state_keys (pipeline_symbols p)) ->
  (forall text, newest = Some text -> fromisoformat text = Ok last) ->
  exists p' ks' r, adopt_provider p provider ks ks newest = Ok (p', ks', r) /\
    p_provider p' = provider /\ owner ks' = provider /\ tidy ks' (all_state_keys (pipeline_symbols p)) /\
    (forall q k, colon_free q = true -> k ∈ all_state_keys (pipeline_symbols p) -> view ks' q k = view ks q k) /\
    (r <> None -> (forall c, c ∈ caches_of (pipeline_symbols p) -> ks' !! c = None) /\
       (is_Some newest -> forall repr reason_text int_of tick now,
          ts_event tick < floor_to_bucket last (p_bucket_seconds p) + seconds (p_bucket_seconds p) ->
          handle repr reason_text int_of p' tick now =
            Ok {| h_pipeline := p'; h_commands := []; h_sealed := None; h_transition := None |})).
Proof.
  intros Hsym Hcf Hne Hnu Htidy Hnewest. set (K := all_state_keys (pipeline_symbols p)) in *.
  destruct (owner_marker ks K Htidy) as (m & Hm & Hown).
  unfold adopt_provider. rewrite Hm. cbn [mbind result_bind]. fold K.
  destruct (String.eqb_spec m provider) as [->|Hmp].
  - eexists _, ks, None. split; [done|]. split; [done|].
    assert (label_of provider = provider) as Hlab.
    { unfold label_of. destruct (String.eqb_spec provider ""); [by subst|done]. }
    split; [by rewrite Hown|]. by split_and!.
  - assert (Hlp : label_of m <> provider).
    { unfold label_of. destruct (String.eqb_spec m ""); congruence. }
    assert (Hcol : colon_free (label_of m) = true) by (rewrite <- Hown; by destruct Htidy as (? & _)).
    assert (Hsep : separate (label_of m) provider K).
    { split_and!; [done..| |].
      - apply all_state_keys_nodup; [|done]. unfold pipeline_symbols. apply NoDup_fst_map_to_list.
      - intros k Hk q x. by apply (all_state_keys_shape _ _ q x Hk). }
    destruct (adopt_script_tidy ks provider m K (caches_of (pipeline_symbols p)) Htidy Hm Hown Hsep)
      as (ks' & n & -> & Hmark & Hkeys & Hothers & Hgone).
    { intros k Hk. by apply (all_state_keys_shape _ _ ""%string ""%string Hk). }
    { intros c Hc. by apply caches_shape in Hc. }
    assert (Howner' : owner ks' = provider).
    { unfold owner. rewrite Hmark. unfold label_of. by destruct (String.eqb_spec provider ""). }
    cbn [mbind result_bind].
    assert (Hheld : exists held, (match newest with
        | Some text => ts ← fromisoformat text; Ok (Some (floor_to_bucket ts (p_bucket_seconds p) + seconds (p_bucket_seconds p)))
        | None => Ok (p_held_until p) end) = Ok held /\
        (is_Some newest -> held = Some (floor_to_bucket last (p_bucket_seconds p) + seconds (p_bucket_seconds p)))).
    { destruct newest as [text|]; [|eexists; split; [done|by intros [? ?]]].
      rewrite (Hnewest text eq_refl). eexists. by split. }
    destruct Hheld as (held & -> & Hheld). eexists _, ks', (Some (label_of m, n)). split; [done|].
    split; [done|]. split; [done|]. split; [|split].
    + split_and!; [by rewrite Howner'|by rewrite Hmark|]. intros k Hk. rewrite Howner'. exact (proj1 (proj2 (Hkeys k Hk))).
    + intros q k Hq Hk. destruct (Hkeys k Hk) as (Hk1 & Hk2 & Hk3). unfold view. rewrite Howner', Hown.
      destruct (String.eqb_spec q provider) as [->|Hqp].
      * destruct (String.eqb_spec provider (label_of m)); [congruence|done].
      * destruct (String.eqb_spec q (label_of m)) as [->|Hql]; [done|]. by apply Hothers.
    + intros _. split; [done|]. intros Hnew repr reason_text int_of tick now Hts. unfold handle.
      assert (held_back (set_provider p provider held) tick = true) as ->; [|done].
      unfold held_back. cbn [p_held_until set_provider]. rewrite (Hheld Hnew). by apply Z.ltb_lt.
Qed.
End Switch.
End Provider.

(* ------------------------------------------------------------------ *)
(** ** Examples *)

Section Examples.
#[local] Existing Instance plain64.
#[local] Existing Instance iso_utc.
#[local] Existing Instance eastern_standard.
#[local] Existing Instance json_bits.
#[local] Existing Instance sorted_list.

(** Tiingo is live with a history and a detector; the simulator has a parked history. *)
Definition demo_keys : gmap string value :=
  <[PROVIDER := VStr "tiingo"]> (<["hist:eurusd:1m"%string := VStr "h"]> (
  <["regime:eurusd"%string := VStr "d"]> (<["q:eurusd"%string := VStr "q"]> (
  <["archive:sim:hist:eurusd:1m"%string := VStr "s"]> ∅)))).

Lemma demo_newest : fromisoformat (isoformat demo_t0) = Ok demo_t0.
Proof. refine (@fromisoformat_isoformat iso_utc demo_t0 _). vm_compute. split; congruence. Qed.

Lemma demo_symbols : pipeline_symbols demo_pipeline = ["eurusd"%string].
Proof. unfold pipeline_symbols. cbn [p_state demo_pipeline]. by rewrite map_to_list_singleton. Qed.

Lemma demo_state_keys : all_state_keys (pipeline_symbols demo_pipeline) =
  ["hist:eurusd:1m"; "hist:eurusd:1d"; "zhist:eurusd"; "regime:eurusd"]%string.
Proof. by rewrite demo_symbols. Qed.

Lemma switch_keeps_every_past_witness :
  exists p' ks' r, adopt_provider demo_pipeline "sim" demo_keys demo_keys (Some (isoformat demo_t0)) = Ok (p', ks', r) /\
    owner ks' = "sim"%string /\
    ks' !! "hist:eurusd:1m"%string = Some (VStr "s") /\ ks' !! "regime:eurusd"%string = None /\
    ks' !! "archive:tiingo:hist:eurusd:1m"%string = Some (VStr "h").
Proof.
  destruct (switch_keeps_every_past demo_pipeline "sim" demo_keys (Some (isoformat demo_t0)) demo_t0)
    as (p' & ks' & r & Hadopt & _ & Hown & _ & Hview & _).
  - rewrite demo_symbols. by repeat constructor.
  - reflexivity.
  - discriminate.
  - discriminate.
  - split_and!; [reflexivity|exact I|]. intros k Hk. rewrite demo_state_keys in Hk.
    rewrite !elem_of_cons, elem_of_nil in Hk. by destruct_or?; subst.
  - intros text Htext. apply (f_equal (from_option id ""%string)) in Htext. cbn [from_option id] in Htext.
    rewrite <- Htext. exact demo_newest.
  - exists p', ks', r. split; [exact Hadopt|]. split; [exact Hown|].
    assert (Hlive : forall k, k ∈ all_state_keys (pipeline_symbols demo_pipeline) ->
      ks' !! k = view demo_keys "sim" k /\ ks' !! archive "tiingo" k = view demo_keys "tiingo" k).
    { intros k Hk. rewrite <- !Hview by (reflexivity || exact Hk). unfold view. rewrite Hown. split; reflexivity. }
    rewrite demo_state_keys in Hlive.
    assert (Hh : "hist:eurusd:1m"%string ∈ ["hist:eurusd:1m"; "hist:eurusd:1d"; "zhist:eurusd"; "regime:eurusd"]%string)
      by apply list_elem_of_here.
    assert (Hr : "regime:eurusd"%string ∈ ["hist:eurusd:1m"; "hist:eurusd:1d"; "zhist:eurusd"; "regime:eurusd"]%string)
      by (do 3 apply list_elem_of_further; apply list_elem_of_here).
    split; [|split].
    + refine (eq_trans (proj1 (Hlive _ Hh)) _). vm_compute. reflexivity.
    + refine (eq_trans (proj1 (Hlive _ Hr)) _). vm_compute. reflexivity.
    + refine (eq_trans (proj2 (Hlive _ Hh)) _). vm_compute. reflexivity.
Defined.
End Examples.
