(* ===== verification/Rehydrate.v ===== *)
(** * What a new leader starts from ([fx_ingestor/pipeline.py], [restore_detectors]
    and the provider's history)

    Detector snapshots are read back from their JSON, key by key as the code does;
    a field of another JSON type than the one the writer used is a [TypeError]. *)
From S2P Require Import Prelude PyFloat Civil Volatility Models Buckets Baseline Seasonality.
From S2P Require Import Calendar Hysteresis Detector Redis Json Keys Text Pipeline Wire Provider.

Local Open Scope Z_scope.

Section Rehydrate.
Context `{SortedSet} {F : Type} `{PyFloat F} `{IsoFormat} `{JsonText F} `{NewYork}.
Implicit Types (p : IngestPipeline F) (d : RegimeDetector F) (j : json F) (ks : gmap string value).

(* ------------------------------------------------------------------ *)
(** ** Reading a snapshot *)

Definition trigger_snapshot_of j : result TriggerSnapshot :=
  r ← jget "regime" j; r ← as_str r;
  n ← jget "seq" j; n ← as_int n;
  s ← jget "regime_since" j; s ← as_opt as_str s;
  e ← jget "last_escalation" j; e ← as_opt as_str e;
  t ← jget "thawed" j; t ← as_bool t;
  Ok {| snap_regime := r; snap_seq := n; snap_regime_since := s; snap_last_escalation := e; snap_thawed := t |}.

Definition baseline_snapshot_of j : result (BaselineSnapshot F) :=
  l ← jget "lam" j; l ← as_float l;
  m ← jget "mean" j; m ← as_float m;
  v ← jget "var" j; v ← as_float v;
  n ← jget "n" j; n ← as_int n;
  b ← jget "debias" j; b ← as_float b;
  f ← jget "frozen" j; f ← as_bool f;
  Ok {| snap_lam := l; snap_mean := m; snap_var := v; snap_n := n; snap_debias := b; snap_frozen := f |}.

Definition profile_snapshot_of j : result (DiurnalSnapshot F) :=
  m ← jget "hour_mean" j; m ← as_list as_float m;
  n ← jget "hour_n" j; n ← as_list as_int n;
  l ← jget "lam" j; l ← as_float l;
  Ok {| ds_lam := l; ds_hour_mean := m; ds_hour_n := n |}.

(** [RegimeDetector.restore] on a decoded object: the trigger, the baseline and the
    profile are assigned one after the other, and an exception keeps the earlier
    assignments. *)
Definition restore_trigger d j : result (RegimeDetector F) :=
  jt ← jget "trigger" j; s ← trigger_snapshot_of jt;
  t ← restore (d_symbol d) s (trigger_config d);
  Ok (set_trigger d t).
Definition restore_baseline d j : result (RegimeDetector F) :=
  jb ← jget "baseline" j; s ← baseline_snapshot_of jb;
  b ← baseline_restore s (min_samples (baseline d));
  Ok (set_parts d b (profile d) (trigger d) (rebaselining d)).
Definition restore_profile d j : result (RegimeDetector F) :=
  jp ← jget "profile" j; s ← profile_snapshot_of jp;
  pr ← profile_restore s (dp_min_samples (profile d)) (min_ready_hours (profile d));
  Ok (set_parts d (baseline d) pr (trigger d) (rebaselining d)).

Definition restore_json d j : RegimeDetector F * result unit :=
  match restore_trigger d j with
  | Raise ex => (d, Raise ex)
  | Ok d =>
      match restore_baseline d j with
      | Raise ex => (d, Raise ex)
      | Ok d =>
          match restore_profile d j with
          | Raise ex => (d, Raise ex)
          | Ok d => (d, Ok tt)
          end
      end
  end.

(* ------------------------------------------------------------------ *)
(** ** [restore_detectors] *)

Definition set_detector (st : SymbolState F) d : SymbolState F := {|
  ss_symbol := ss_symbol st; ss_bucket := ss_bucket st; ss_window := ss_window st; ss_ewma := ss_ewma st;
  ss_last_price := ss_last_price st; ss_last_sealed := ss_last_sealed st; ss_detector := d |}.

Definition caught (ex : exn) : bool :=
  match ex with ValueError | KeyError | TypeError => true | _ => false end.

(** One symbol: its state, and whether it counts as restored. *)
Definition restore_symbol ks (symbol : string) (st : SymbolState F) : result (SymbolState F * bool) :=
  raw ← get_text (regime_state symbol) ks;
  if String.eqb raw "" then Ok (st, false)
  else
    match loads raw with
    | Raise ex => if caught ex then Ok (st, false) else Raise ex
    | Ok j =>
        let '(d, r) := restore_json (ss_detector st) j in
        match r with
        | Ok _ => Ok (set_detector st d, true)
        | Raise ex => if caught ex then Ok (set_detector st d, false) else Raise ex
        end
    end.

Fixpoint restore_all ks (l : list (string * SymbolState F)) : result (list (string * SymbolState F) * Z) :=
  match l with
  | [] => Ok ([], 0)
  | (symbol, st) :: l =>
      '(st, ok) ← restore_symbol ks symbol st;
      '(l, n) ← restore_all ks l;
      Ok ((symbol, st) :: l, (if ok : bool then 1 else 0) + n)
  end.

(** The sequence number a parked detector has used. *)
Definition parked_seq ks (key : string) : result Z :=
  raw ← get_text key ks;
  j ← (if String.eqb raw "" then Raise ValueError else loads raw);
  jt ← jget "trigger" j; n ← jget "seq" jt; as_int n.

Definition raise_seq (st : SymbolState F) (n : Z) : SymbolState F :=
  let d := ss_detector st in
  set_detector st (set_trigger d (set_seq (trigger d) (Z.max (seq (trigger d)) n))).

(** One key of the scan over the archived detector states. *)
Definition raise_from ks (states : gmap string (SymbolState F)) (key : string) : result (gmap string (SymbolState F)) :=
  match after_last_colon key with
  | None => Raise IndexError
  | Some symbol =>
      match parked_seq ks key with
      | Ok n => Ok (alter (fun st => raise_seq st n) symbol states)
      | Raise ex => if caught ex then Ok states else Raise ex
      end
  end.

Fixpoint raise_all ks (scanned : list string) (states : gmap string (SymbolState F)) : result (gmap string (SymbolState F)) :=
  match scanned with
  | [] => Ok states
  | key :: scanned => states ← raise_from ks states key; raise_all ks scanned states
  end.

(** [scanned] is what [SCAN] returns for the pattern of archived detector states. *)
Definition restore_detectors p ks (scanned : list string) : result (IngestPipeline F * Z) :=
  '(l, n) ← restore_all ks (map_to_list (p_state p));
  states ← raise_all ks scanned (list_to_map l);
  Ok (set_state p states, n).

(* ------------------------------------------------------------------ *)
(** ** The provider's history *)

Definition CHUNK : nat := 1000.

Fixpoint chunks {A} (fuel : nat) (l : list A) : list (list A) :=
  match fuel, l with
  | _, [] => []
  | O, _ => []
  | S fuel, _ => take CHUNK l :: chunks fuel (drop CHUNK l)
  end.

(** The transaction of [_store_history] for the bars the provider returned. *)
Definition store_history (symbol interval : string) (bars : list (Bar F)) : list Command :=
  match (fun b => int_timestamp (bucket b)) <$> bars with
  | [] => []
  | t0 :: ts =>
      let key := history symbol interval in
      ZRemRangeByScore key (foldr Z.min t0 ts) (foldr Z.max t0 ts) ::
      (concat (chunks (length bars) bars) ≫= fun b =>
         [ZAdd key (dumps (JObj (bar_payload b))) (int_timestamp (bucket b))]) ++
      [Expire key TTL_HISTORY_S]
  end.

(** How far back each series is asked for: a whole one, or the last week of days. *)
Definition MINUTE_HISTORY : timedelta := minutes 1_440.
Definition DAILY_HISTORY : timedelta := days 3_650.
Definition DAILY_REFRESHED : timedelta := days 7.

(** [seed_history] and [refresh_daily_history]: what is asked of the provider. *)
Definition seed_requests p ks (now : datetime) : list (string * string * datetime * datetime) :=
  omap (fun s => if exists_ (history s "1m") ks then None
                 else Some (s, "1m"%string, now - MINUTE_HISTORY, now)) (pipeline_symbols p).
Definition daily_requests p ks (now : datetime) : list (string * string * datetime * datetime) :=
  (fun s => (s, "1d"%string, now - (if exists_ (history s "1d") ks then DAILY_REFRESHED else DAILY_HISTORY), now))
    <$> pipeline_symbols p.

(* ------------------------------------------------------------------ *)
(** ** Reading back what was written *)

Lemma jget_obj key (o : list (string * json F)) : jget key (JObj o) = match List.find (fun kv => String.eqb kv.1 key) (rev o) with Some kv => Ok kv.2 | None => Raise KeyError end.
Proof. done. Qed.

Lemma trigger_snapshot_roundtrip s : trigger_snapshot_of (trigger_json s) = Ok s.
Proof.
  unfold trigger_snapshot_of, trigger_json. rewrite !jget_obj. cbn -[as_opt].
  rewrite !as_opt_str. cbn. by destruct s.
Qed.

Lemma baseline_snapshot_roundtrip s : baseline_snapshot_of (baseline_json s) = Ok s.
Proof. by destruct s. Qed.

Lemma profile_snapshot_roundtrip s : profile_snapshot_of (profile_json s) = Ok s.
Proof.
  unfold profile_snapshot_of, profile_json. rewrite !jget_obj. cbn -[as_list].
  rewrite !as_list_fmap by done. cbn. by destruct s.
Qed.

Lemma restore_json_roundtrip d s :
  (restore_json d (snapshot_json s)).2 = (_ ← detector_restore d s; Ok tt) /\
  forall d', detector_restore d s = Ok d' -> restore_json d (snapshot_json s) = (d', Ok tt).
Proof.
  assert (Ht : restore_trigger d (snapshot_json s) = (t ← restore (d_symbol d) (snap_trigger s) (trigger_config d); Ok (set_trigger d t))).
  { unfold restore_trigger, snapshot_json. rewrite jget_obj. cbn -[trigger_snapshot_of]. by rewrite trigger_snapshot_roundtrip. }
  assert (Hb : forall d, restore_baseline d (snapshot_json s) = (b ← baseline_restore (snap_baseline s) (min_samples (baseline d));
    Ok (set_parts d b (profile d) (trigger d) (rebaselining d)))).
  { intros d0. unfold restore_baseline, snapshot_json. rewrite jget_obj. cbn -[baseline_snapshot_of baseline_restore].
    by rewrite baseline_snapshot_roundtrip. }
  assert (Hp : forall d, restore_profile d (snapshot_json s) = (pr ← profile_restore (snap_profile s) (dp_min_samples (profile d))
    (min_ready_hours (profile d)); Ok (set_parts d (baseline d) pr (trigger d) (rebaselining d)))).
  { intros d0. unfold restore_profile, snapshot_json. rewrite jget_obj. cbn -[profile_snapshot_of profile_restore].
    by rewrite profile_snapshot_roundtrip. }
  unfold restore_json, detector_restore. rewrite Ht.
  destruct (restore _ _ _) as [t|ex]; cbn [mbind result_bind]; [|split; [done|by intros d' ?]].
  rewrite Hb. cbn [baseline set_trigger set_parts profile].
  destruct (baseline_restore _ _) as [b|ex]; cbn [mbind result_bind]; [|split; [done|by intros d' ?]].
  rewrite Hp. cbn [baseline set_trigger set_parts profile].
  destruct (profile_restore _ _ _) as [pr|ex]; cbn [mbind result_bind]; [|split; [done|by intros d' ?]].
  split; [done|]. by intros d' [= <-].
Qed.

(* ------------------------------------------------------------------ *)
(** ** Rehydration *)

(** A state whose detector only numbers its next transition differently. *)
Definition renumbered (st : SymbolState F) (k : Z) : SymbolState F :=
  set_detector st (set_trigger (ss_detector st) (set_seq (trigger (ss_detector st)) k)).

Lemma renumbered_same st : renumbered st (seq (trigger (ss_detector st))) = st.
Proof. by destruct st as [? ? ? ? ? ? [? ? ? ? ? [] ? ? ? ? ? ?]]. Qed.

Lemma raise_from_lookup ks states states' key symbol st :
  raise_from ks states key = Ok states' -> states !! symbol = Some st ->
  exists k, states' !! symbol = Some (renumbered st k) /\ seq (trigger (ss_detector st)) <= k /\
    forall m, after_last_colon key = Some symbol -> parked_seq ks key = Ok m -> m <= k.
Proof.
  unfold raise_from. intros Hr Hst. destruct (after_last_colon key) as [s|] eqn:Es; [|done].
  destruct (parked_seq ks key) as [m|ex] eqn:Em.
  - injection Hr as <-. destruct (decide (s = symbol)) as [->|Hne].
    + rewrite lookup_alter_eq, Hst. exists (Z.max (seq (trigger (ss_detector st))) m).
      split_and!; [done|lia|]. intros m' _ [= <-]. lia.
    + rewrite lookup_alter_ne by done. exists (seq (trigger (ss_detector st))).
      rewrite renumbered_same. split_and!; [done|lia|]. congruence.
  - destruct (caught ex); [|done]. injection Hr as <-. exists (seq (trigger (ss_detector st))).
    rewrite renumbered_same. split_and!; [done|lia|done].
Qed.

Lemma raise_all_lookup ks scanned states states' symbol st :
  raise_all ks scanned states = Ok states' -> states !! symbol = Some st ->
  exists k, states' !! symbol = Some (renumbered st k) /\
    seq (trigger (ss_detector st)) <= k /\
    (forall key m, key ∈ scanned -> after_last_colon key = Some symbol -> parked_seq ks key = Ok m -> m <= k).
Proof.
  revert states st. induction scanned as [|key scanned IH]; intros states st Hr Hst.
  - injection Hr as <-. exists (seq (trigger (ss_detector st))). rewrite renumbered_same. split_and!; [done|lia|].
    by intros key m ?%elem_of_nil.
  - cbn in Hr. apply bind_ok in Hr as (states1 & H1' & Hr).
    destruct (raise_from_lookup _ _ _ _ _ _ H1' Hst) as (k & Hk & Hle & Hkey).
    destruct (IH _ _ Hr Hk) as (k' & Hk' & Hle' & Hall). cbn in Hle'. exists k'. split_and!; [done|lia|].
    intros key' m [->|Hin]%elem_of_cons Hs Hm; [specialize (Hkey m Hs Hm); lia|by apply (Hall key')].
Qed.

Lemma restore_all_lookup ks (l : list (string * SymbolState F)) l' n symbol st :
  restore_all ks l = Ok (l', n) -> (symbol, st) ∈ l -> NoDup l.*1 ->
  exists st' ok, restore_symbol ks symbol st = Ok (st', ok) /\ (list_to_map l' : gmap string _) !! symbol = Some st'.
Proof.
  revert l' n. induction l as [|[s0 st0] l IH]; intros l' n Hr Hin Hd; [by apply elem_of_nil in Hin|].
  cbn in Hr. apply bind_ok in Hr as ([st1 ok] & H1' & Hr). apply bind_ok in Hr as ([l1 n1] & H2' & [= <- <-]).
  cbn in Hd. apply NoDup_cons in Hd as [Hs0 Hd]. apply elem_of_cons in Hin as [[= -> ->]|Hin].
  - exists st1, ok. cbn. by rewrite lookup_insert_eq.
  - destruct (IH _ _ H2' Hin Hd) as (st' & ok' & Hst' & Hl'). exists st', ok'. split; [done|]. cbn.
    rewrite lookup_insert_ne; [done|]. intros ->. apply Hs0. apply list_elem_of_fmap. by exists (symbol, st).
Qed.

(** C36. A new leader resumes what the last one wrote. After [restore_detectors] every
    symbol keeps its bars and estimators; a symbol whose key holds the snapshot of a
    detector gets exactly what [RegimeDetector.restore] makes of that detector, from
    the JSON text; one without a key keeps its own; and in both cases the next
    transition is numbered above everything a parked provider has used. *)
Theorem leader_resumes p ks scanned p' n symbol st :
  (forall x : json F, dumps x <> ""%string) ->
  restore_detectors p ks scanned = Ok (p', n) -> p_state p !! symbol = Some st ->
  exists d k, p_state p' !! symbol =
      Some (set_detector st (set_trigger d (set_seq (trigger d) k))) /\
    seq (trigger d) <= k /\
    (ks !! regime_state symbol = None -> d = ss_detector st) /\
    (forall s d0, ks !! regime_state symbol = Some (VStr (dumps (snapshot_json s))) ->
       detector_restore (ss_detector st) s = Ok d0 -> d = d0) /\
    (forall key m, key ∈ scanned -> after_last_colon key = Some symbol -> parked_seq ks key = Ok m -> m <= k).
Proof.
  intros Hdumps Hr Hst. unfold restore_detectors in Hr. apply bind_ok in Hr as ([l m] & Hall & Hr).
  apply bind_ok in Hr as (states & Hraise & [= <- <-]).
  destruct (restore_all_lookup _ _ _ _ symbol st Hall) as (st' & ok & Hs & Hl).
  { by apply elem_of_map_to_list. } { apply NoDup_fst_map_to_list. }
  destruct (raise_all_lookup ks scanned _ _ _ _ Hraise Hl) as (k & Hk & Hle & Hparked).
  assert (Hd : st' = set_detector st (ss_detector st')).
  { unfold restore_symbol in Hs. apply bind_ok in Hs as (raw & _ & Hs).
    destruct (String.eqb raw ""); [injection Hs as <- _; by destruct st|].
    destruct (loads raw) as [j|ex]; [|destruct (caught ex); [injection Hs as <- _; by destruct st|done]].
    destruct (restore_json _ j) as [d [[]|ex]]; [by injection Hs as <- _|].
    destruct (caught ex); [by injection Hs as <- _|done]. }
  exists (ss_detector st'), k. split_and!; [|done| | |done].
  - cbn [p_state set_state]. rewrite Hk. unfold renumbered. by rewrite Hd at 1.
  - intros Hnone. unfold restore_symbol, get_text in Hs. rewrite Hnone in Hs. by injection Hs as <- _.
  - intros s d0 Hkey Hd0. unfold restore_symbol, get_text in Hs. rewrite Hkey in Hs. cbn in Hs.
    destruct (String.eqb_spec (dumps (snapshot_json s)) ""); [by apply Hdumps in e|].
    rewrite loads_dumps in Hs. apply restore_json_roundtrip in Hd0. rewrite Hd0 in Hs. by injection Hs as <- _.
Qed.
End Rehydrate.

(* ------------------------------------------------------------------ *)
(** ** Examples *)

Section Examples.
#[local] Existing Instance plain64.
#[local] Existing Instance iso_utc.
#[local] Existing Instance eastern_standard.
#[local] Existing Instance json_bits.
#[local] Existing Instance sorted_list.

Definition demo_snapshot_text (k : Z) : string :=
  dumps (snapshot_json (detector_snapshot (set_trigger demo_detector (set_seq demo_stressed k)))).

(** The last leader left a STRESSED detector; the simulator used 9 numbers. *)
Definition demo_resumed : gmap string value :=
  {[ "regime:eurusd"%string := VStr (demo_snapshot_text 1);
     "archive:sim:regime:eurusd"%string := VStr (demo_snapshot_text 9) ]}.
Definition demo_scanned : list string := ["archive:sim:regime:eurusd"%string].

Definition demo_restored : RegimeDetector SpecFloat.spec_float :=
  match detector_restore demo_unobserved (detector_snapshot (set_trigger demo_detector (set_seq demo_stressed 1))) with
  | Ok d => d
  | Raise _ => demo_detector
  end.

Lemma leader_resumes_witness :
  match restore_detectors demo_pipeline demo_resumed demo_scanned with
  | Ok (p', _) => exists k, 9 <= k /\ (ss_detector <$> p_state p' !! "eurusd"%string) =
      Some (set_trigger demo_restored (set_seq (trigger demo_restored) k))
  | Raise _ => False
  end.
Proof.
  assert (Hret : is_ok (restore_detectors demo_pipeline demo_resumed demo_scanned)) by (vm_compute; reflexivity).
  destruct (restore_detectors demo_pipeline demo_resumed demo_scanned) as [[p' n]|] eqn:E; [|done].
  destruct (leader_resumes demo_pipeline demo_resumed demo_scanned p' n "eurusd" demo_symbol_state)
    as (d & k & Hd & _ & _ & Hsnap & Hparked).
  - intros x. exact (bits_nonempty _).
  - exact E.
  - exact (lookup_singleton_eq _ _).
  - exists k. rewrite Hd. cbn [fmap option_fmap option_map].
    rewrite <- (Hsnap (detector_snapshot (set_trigger demo_detector (set_seq demo_stressed 1))) demo_restored);
      [|vm_compute; reflexivity..].
    split; [|reflexivity]. apply (Hparked "archive:sim:regime:eurusd"%string 9);
      [apply list_elem_of_here|vm_compute; reflexivity..].
Defined.

(** A snapshot whose trigger is good and whose baseline is not: the restore reports
    failure and yet the detector starts STRESSED, not cold. *)
Lemma half_restored :
  let '(d, r) := restore_json demo_detector (JObj [
    ("trigger", trigger_json (snap_trigger (detector_snapshot demo_stressed_detector))); ("baseline", JNull)]%string) in
  r = Raise TypeError /\ d_regime demo_detector = NORMAL /\ d_regime d = STRESSED.
Proof. vm_compute. by split_and!. Qed.
End Examples.
