(* ===== verification/Lease.v ===== *)
(** * One writer ([fx_platform/leader.py])

    The lease is a Redis key with an expiry; replicas take it, renew it and give it
    back by compare-and-set.  A step of [lease_step] is one trip to Redis by one
    replica, time passing, or a death; whether a trip arrives and whether its answer
    comes back are inputs.  [lease_exclusive] is what the lease promises, with the
    limit the module states; [lease_fails_over] is that someone takes over. *)
From S2P Require Import Prelude.

Local Open Scope Z_scope.

(* ------------------------------------------------------------------ *)
(** ** The key *)

(** What Redis holds: the owner and when the key expires, in milliseconds. *)
Record Held := { holder : string; expires : Z }.

Definition live (now : Z) (k : option Held) : option Held :=
  match k with Some h => if now <? expires h then Some h else None | None => None end.

(** [SET key id NX PX ttl] *)
Definition set_nx (now : Z) (id : string) (ttl : Z) (k : option Held) : option Held * bool :=
  match live now k with
  | Some h => (Some h, false)
  | None => (Some {| holder := id; expires := now + ttl |}, true)
  end.

(** [_RENEW_LUA] and [_RELEASE_LUA] *)
Definition renew_script (now : Z) (id : string) (ttl : Z) (k : option Held) : option Held * bool :=
  match live now k with
  | Some h => if String.eqb (holder h) id then (Some {| holder := id; expires := now + ttl |}, true) else (Some h, false)
  | None => (None, false)
  end.
Definition release_script (now : Z) (id : string) (k : option Held) : option Held :=
  match live now k with
  | Some h => if String.eqb (holder h) id then None else Some h
  | None => None
  end.

(* ------------------------------------------------------------------ *)
(** ** A replica *)

(** Where the replica is in [hold]: not in it, in the loop of [_acquire], or in its
    block, with the renewal task running or ended. *)
Inductive Where := Outside | Waiting | Inside (renewing : bool) | Dead.

Record LeaderLease := {
  ttl_ms : Z;
  renew_ms : Z;
  instance_id : string;
  is_leader : bool;
  lost : bool;
  l_where : Where;
}.

Definition LeaderLease_new (id : string) (ttl renew : Z) : result LeaderLease :=
  if ttl <=? 2 * renew then Raise ValueError
  else Ok {| ttl_ms := ttl; renew_ms := renew; instance_id := id; is_leader := false; lost := false; l_where := Outside |}.

Definition set_lease (l : LeaderLease) (leads lost_ : bool) (at_ : Where) : LeaderLease := {|
  ttl_ms := ttl_ms l; renew_ms := renew_ms l; instance_id := instance_id l;
  is_leader := leads; lost := lost_; l_where := at_ |}.

(** A trip: answered, executed without an answer, or never executed. *)
Inductive Trip := Answered | AnswerLost | Unreached.

(** What the key becomes, given what the command would make of it. *)
Definition arrives (f : Trip) (before after : option Held) : option Held :=
  match f with Unreached => before | _ => after end.

(** One [_acquire] of [hold]; a [RedisError] leaves [hold]. *)
Definition acquire (now : Z) (f : Trip) (l : LeaderLease) (k : option Held) : LeaderLease * option Held :=
  let '(k', ok) := set_nx now (instance_id l) (ttl_ms l) k in
  (match f with
   | Answered => if ok then set_lease l true false (Inside true) else l
   | _ => set_lease l (is_leader l) (lost l) Outside
   end, arrives f k k').

(** One turn of [_renew_loop]: an error counts as a refusal and ends the task. *)
Definition renew (now : Z) (f : Trip) (l : LeaderLease) (k : option Held) : LeaderLease * option Held :=
  let '(k', ok) := renew_script now (instance_id l) (ttl_ms l) k in
  let renewed := match f with Answered => ok | _ => false end in
  (if renewed then l else set_lease l false true (Inside false), arrives f k k').

(** The [finally] of [hold]; [_release] suppresses errors. *)
Definition leave (now : Z) (f : Trip) (l : LeaderLease) (k : option Held) : LeaderLease * option Held :=
  (set_lease l false (lost l) Outside, arrives f k (release_script now (instance_id l) k)).

(* ------------------------------------------------------------------ *)
(** ** All replicas *)

(** [granted] is no part of the program: when Redis last granted the lease to a
    replica that knows of it. *)
Record Fleet := {
  clock : Z;
  lease_key : option Held;
  replicas : gmap string LeaderLease;
  granted : gmap string Z;
}.
Implicit Types (w : Fleet) (l : LeaderLease).

Inductive LeaseEvent :=
  | Pass (ms : Z)
  | Enter (id : string)
  | Acquire (id : string) (f : Trip)
  | Renew (id : string) (f : Trip)
  | Leave (id : string) (f : Trip)
  | Crash (id : string).

Definition put w (id : string) (lk : LeaderLease * option Held) (grant : bool) : Fleet := {|
  clock := clock w; lease_key := lk.2; replicas := <[id := lk.1]> (replicas w);
  granted := if grant then <[id := clock w]> (granted w) else granted w |}.

Definition act w (ev : LeaseEvent) (id : string) l : Fleet :=
  match ev, l_where l with
  | Enter _, Outside => put w id (set_lease l (is_leader l) (lost l) Waiting, lease_key w) false
  | Acquire _ f, Waiting => let r := acquire (clock w) f l (lease_key w) in put w id r (is_leader r.1)
  | Renew _ f, Inside true => let r := renew (clock w) f l (lease_key w) in put w id r (is_leader r.1)
  | Leave _ f, Inside _ => put w id (leave (clock w) f l (lease_key w)) false
  | Crash _, _ => put w id (set_lease l false (lost l) Dead, lease_key w) false
  | _, _ => w
  end.

Definition lease_step w (ev : LeaseEvent) : Fleet :=
  match ev with
  | Pass ms =>
      {| clock := clock w + Z.max 0 ms; lease_key := lease_key w; replicas := replicas w; granted := granted w |}
  | Enter id | Acquire id _ | Renew id _ | Leave id _ | Crash id =>
      match replicas w !! id with Some l => act w ev id l | None => w end
  end.

Definition lease_run w (evs : list LeaseEvent) : Fleet := fold_left lease_step evs w.

(** Replicas that start, each with an id of its own. *)
Definition starts w : Prop :=
  lease_key w = None /\ granted w = ∅ /\
  forall id l, replicas w !! id = Some l -> exists ttl renew, 0 <= renew /\ LeaderLease_new id ttl renew = Ok l.

(* ------------------------------------------------------------------ *)
(** ** Who may change the key *)

Lemma live_some now k h : live now k = Some h -> k = Some h /\ now < expires h.
Proof. destruct k as [h'|]; [|done]. cbn. destruct (Z.ltb_spec now (expires h')); [by intros [= ->]|done]. Qed.

Lemma live_intro now k h : k = Some h -> now < expires h -> live now k = Some h.
Proof. intros -> Hlt. cbn. by rewrite (proj2 (Z.ltb_lt _ _)). Qed.

Lemma live_expired now k : (forall h, k = Some h -> expires h <= now) -> live now k = None.
Proof. intros Hk. destruct k as [h|]; [|done]. cbn. by rewrite (proj2 (Z.ltb_ge _ _)) by (by apply Hk). Qed.

(** Compare-and-set: what another replica holds stays as it is. *)
Lemma foreign_key now id ttl f k h :
  live now k = Some h -> holder h <> id ->
  arrives f k (set_nx now id ttl k).1 = k /\ arrives f k (renew_script now id ttl k).1 = k /\
  arrives f k (release_script now id k) = k.
Proof.
  intros Hlive Hne. unfold set_nx, renew_script, release_script. rewrite Hlive.
  apply String.eqb_neq in Hne as ->. apply live_some in Hlive as [-> _]. by destruct f.
Qed.

(** A key that changes is the caller's, for its own time to live, or gone. *)
Lemma key_after now id ttl f k :
  (forall k', k' = arrives f k (set_nx now id ttl k).1 \/ k' = arrives f k (renew_script now id ttl k).1 \/
     k' = arrives f k (release_script now id k) ->
   k' = k \/ k' = None \/ k' = Some {| holder := id; expires := now + ttl |}).
Proof.
  intros k'. unfold set_nx, renew_script, release_script.
  destruct (live now k) as [h|] eqn:Hlive; [apply live_some in Hlive as [-> _]; destruct (String.eqb (holder h) id)|];
    destruct f; cbn; naive_solver.
Qed.

(* ------------------------------------------------------------------ *)
(** ** The invariant *)

Definition fresh w (id : string) l : Prop :=
  exists g, granted w !! id = Some g /\ g <= clock w /\
    (clock w < g + ttl_ms l -> exists h, lease_key w = Some h /\ holder h = id /\ g + ttl_ms l <= expires h).

Definition replica_ok w (T : Z) (id : string) l : Prop :=
  instance_id l = id /\ 0 < ttl_ms l <= T /\
  (is_leader l = true -> l_where l = Inside true /\ fresh w id l).

Definition lease_inv (T : Z) w : Prop :=
  (forall h, lease_key w = Some h -> expires h <= clock w + T) /\
  forall id l, replicas w !! id = Some l -> replica_ok w T id l.

(** The actor's new state is checked; that of the others follows from [foreign_key]. *)
Lemma put_inv T w id l lk grant :
  lease_inv T w -> replicas w !! id = Some l ->
  instance_id lk.1 = id -> ttl_ms lk.1 = ttl_ms l ->
  (lk.2 = lease_key w \/ lk.2 = None \/ lk.2 = Some {| holder := id; expires := clock w + ttl_ms l |}) ->
  (forall h, live (clock w) (lease_key w) = Some h -> holder h <> id -> lk.2 = lease_key w) ->
  (is_leader lk.1 = true -> l_where lk.1 = Inside true /\ fresh (put w id lk grant) id lk.1) ->
  lease_inv T (put w id lk grant).
Proof.
  intros [Hkey Hall] Hid Hinst Httl Hshape Hforeign Hleader.
  pose proof (Hall id l Hid) as (Hinst0 & Hpos & _). split.
  - intros h Hh. cbn in Hh. cbn [clock put]. destruct Hshape as [He|[He|He]]; rewrite Hh in He.
    + by apply Hkey.
    + done.
    + injection He as ->. cbn. lia.
  - intros id' l' Hl'. cbn [replicas put] in Hl'. destruct (decide (id = id')) as [<-|Hne].
    + rewrite lookup_insert_eq in Hl'. injection Hl' as <-. split_and!; [done|lia|lia|done].
    + rewrite lookup_insert_ne in Hl' by done. destruct (Hall id' l' Hl') as (? & ? & Hlead).
      split; [done|]. split; [done|]. intros Hl. destruct (Hlead Hl) as [? (g & Hg & Hle & Hfresh)]. split; [done|].
      exists g. cbn [put granted clock lease_key]. split_and!; [destruct grant; [by rewrite lookup_insert_ne|done]|done|].
      intros Hlt. destruct (Hfresh Hlt) as (h & Hh & Hhold & Hexp). exists h. split_and!; [|done|done].
      rewrite (Hforeign h); [done|apply live_intro; [done|lia]|congruence].
Qed.

Lemma act_inv T w ev id l : lease_inv T w -> replicas w !! id = Some l -> lease_inv T (act w ev id l).
Proof.
  intros Hinv Hl. pose proof (proj2 Hinv id l Hl) as (Hid & Hpos & Hlead).
  assert (Hidle : forall leads lost_ at_ , (leads = true -> False) ->
    lease_inv T (put w id (set_lease l leads lost_ at_, lease_key w) false)).
  { intros leads lost_ at_ Hno. apply (put_inv T w id l); cbn; auto. by intros ?%Hno. }
  assert (Hnot : l_where l <> Inside true -> is_leader l = true -> False) by (intros Hw Hi; by apply Hw, Hlead).
  unfold act. destruct ev, (l_where l) as [| |[]|] eqn:Hwhere; try done; try (apply Hidle; (congruence || by apply Hnot)).
  - destruct (acquire (clock w) f l (lease_key w)) as [l' k'] eqn:E. unfold acquire in E.
    pose proof (key_after (clock w) (instance_id l) (ttl_ms l) f (lease_key w) k') as Hk.
    pose proof (fun h => foreign_key (clock w) (instance_id l) (ttl_ms l) f (lease_key w) h) as Hfor.
    destruct (set_nx (clock w) (instance_id l) (ttl_ms l) (lease_key w)) as [k1 ok] eqn:Eset.
    injection E as E1 <-. rewrite Hid in Hk, Hfor. apply (put_inv T w id l); cbn [fst snd]; [done|done|..].
    + subst l'. by destruct f, ok.
    + subst l'. by destruct f, ok.
    + apply Hk. by left.
    + intros h Hh Hne. by apply (Hfor h Hh Hne).
    + subst l'. intros Hi. destruct f; [|exfalso; by apply Hnot..].
      destruct ok; [|exfalso; by apply Hnot]. split; [done|]. exists (clock w). cbn. split_and!; [by rewrite lookup_insert_eq|lia|].
      intros _. unfold set_nx in Eset. destruct (live _ _); [done|]. injection Eset as <-. rewrite Hid.
      eexists. split; [done|]. cbn. split; [done|lia].
  - destruct (renew (clock w) f l (lease_key w)) as [l' k'] eqn:E. unfold renew in E.
    pose proof (key_after (clock w) (instance_id l) (ttl_ms l) f (lease_key w) k') as Hk.
    pose proof (fun h => foreign_key (clock w) (instance_id l) (ttl_ms l) f (lease_key w) h) as Hfor.
    destruct (renew_script (clock w) (instance_id l) (ttl_ms l) (lease_key w)) as [k1 ok] eqn:Eset.
    injection E as E1 <-. rewrite Hid in Hk, Hfor. apply (put_inv T w id l); cbn [fst snd]; [done|done|..].
    + subst l'. by destruct f, ok.
    + subst l'. by destruct f, ok.
    + apply Hk. right. by left.
    + intros h Hh Hne. by apply (Hfor h Hh Hne).
    + subst l'. destruct f; [|done..]. destruct ok; [|done]. intros Hi. split; [done|]. rewrite Hi.
      exists (clock w). cbn. split_and!; [by rewrite lookup_insert_eq|lia|].
      intros _. unfold renew_script in Eset. destruct (live _ _) as [h|]; [|done].
      destruct (String.eqb (holder h) (instance_id l)); [|done]. injection Eset as <-. rewrite Hid.
      eexists. split; [done|]. cbn. split; [done|lia].
  - apply (put_inv T w id l); cbn; [done..| | |done].
    + rewrite <- Hid. eapply (key_after _ _ (ttl_ms l) f). by right; right.
    + intros h Hh Hne. rewrite Hid. by apply (foreign_key _ _ (ttl_ms l) f _ h).
  - apply (put_inv T w id l); cbn; [done..| | |done].
    + rewrite <- Hid. eapply (key_after _ _ (ttl_ms l) f). by right; right.
    + intros h Hh Hne. rewrite Hid. by apply (foreign_key _ _ (ttl_ms l) f _ h).
Qed.

Lemma lease_step_inv T w ev : 0 <= T -> lease_inv T w -> lease_inv T (lease_step w ev).
Proof.
  intros HT Hinv. unfold lease_step. destruct ev as [ms|id|id f|id f|id f|id]; cycle 1.
  1-5: destruct (replicas w !! id) as [l|] eqn:Hl; [by apply act_inv|done].
  destruct Hinv as [Hkey Hall]. split; cbn.
  - intros h Hh. specialize (Hkey h Hh). lia.
  - intros id l Hl. destruct (Hall id l Hl) as (? & ? & Hlead). split; [done|]. split; [done|].
    intros Hi. destruct (Hlead Hi) as [? (g & ? & ? & Hfresh)]. split; [done|]. exists g. cbn.
    split_and!; [done|lia|]. intros ?. apply Hfresh. lia.
Qed.

Lemma lease_run_inv T w evs : 0 <= T -> lease_inv T w -> lease_inv T (lease_run w evs).
Proof. intros HT Hinv. unfold lease_run. apply (fold_left_inv (lease_inv T)); [|done]. intros w' ev _. by apply lease_step_inv. Qed.

Lemma starts_inv T w :
  starts w -> (forall id l, replicas w !! id = Some l -> ttl_ms l <= T) -> lease_inv T w.
Proof.
  intros (Hkey & _ & Hall) HT. split; [by rewrite Hkey|]. intros id l Hl.
  destruct (Hall id l Hl) as (ttl & renew & Hr & Hnew). specialize (HT id l Hl).
  unfold LeaderLease_new in Hnew. destruct (Z.leb_spec ttl (2 * renew)); [done|]. injection Hnew as <-.
  unfold replica_ok. cbn in *. split_and!; [done|lia|lia|done].
Qed.

(** Some bound on the times to live of a fleet. *)
Lemma ttl_bound w : exists T, 0 <= T /\ forall id l, replicas w !! id = Some l -> ttl_ms l <= T.
Proof.
  exists (map_fold (fun _ l acc => Z.max (ttl_ms l) acc) 0 (replicas w)).
  apply (map_fold_weak_ind (fun acc m => 0 <= acc /\ forall id l, m !! id = Some l -> ttl_ms l <= acc)).
  - split; [done|]. intros id l. by rewrite lookup_empty.
  - intros id l m acc _ [Hacc Hall]. split; [lia|]. intros id' l' [[_ <-]|[_ Hl]]%lookup_insert_Some; [lia|].
    specialize (Hall id' l' Hl). lia.
Qed.

(** Whether redis granted the lease to a leader less than its time to live ago. *)
Definition certain w (id : string) : Prop :=
  exists l g, replicas w !! id = Some l /\ is_leader l = true /\ granted w !! id = Some g /\ clock w < g + ttl_ms l.

Definition actor (ev : LeaseEvent) : option string :=
  match ev with
  | Pass _ => None
  | Enter id | Acquire id _ | Renew id _ | Leave id _ | Crash id => Some id
  end.

(** Redis holds the key for a replica whose grant is young enough. *)
Lemma certain_holds T w id : lease_inv T w -> certain w id -> holder <$> live (clock w) (lease_key w) = Some id.
Proof.
  intros Hinv (l & g & Hl & Hlead & Hg & Hlt). destruct (proj2 Hinv id l Hl) as (_ & _ & Hok).
  destruct (Hok Hlead) as [_ (g' & Hg' & _ & Hfresh)]. rewrite Hg in Hg'. injection Hg' as <-.
  destruct (Hfresh Hlt) as (h & Hh & Hhold & Hexp). rewrite (live_intro _ _ h Hh) by lia. cbn. by rewrite Hhold.
Qed.

(** C7. One writer, as far as a lease can promise it. Whatever replicas come and go,
    stall, crash or lose trips to Redis, in any order: a replica that believes it
    leads and was granted the lease less than its time to live ago is the one Redis
    holds the key for, so there are never two such; a leader whose grant is older is
    the overlap the module admits to. And nothing a replica does changes a key that
    another replica holds. *)
Theorem lease_exclusive w0 evs :
  starts w0 ->
  let w := lease_run w0 evs in
  (forall id, certain w id -> holder <$> live (clock w) (lease_key w) = Some id) /\
  (forall i j, certain w i -> certain w j -> i = j) /\
  (forall ev id h, actor ev = Some id -> live (clock w) (lease_key w) = Some h -> holder h <> id ->
     lease_key (lease_step w ev) = lease_key w).
Proof.
  intros Hstart w. destruct (ttl_bound w0) as (T & HT & Hbound).
  assert (Hinv : lease_inv T w) by (by apply lease_run_inv, starts_inv).
  assert (Hone : forall id, certain w id -> holder <$> live (clock w) (lease_key w) = Some id) by (intros id; by apply (certain_holds T)).
  split; [done|]. split.
  - intros i j Hi%Hone Hj%Hone. congruence.
  - intros ev id h Hactor Hlive Hne.
    destruct ev as [ms|id'|id' f|id' f|id' f|id']; [done|..]; injection Hactor as ->; cbn;
      destruct (replicas w !! id) as [l|] eqn:Hl; try done;
      destruct (proj2 Hinv id l Hl) as (Hid & _); rewrite <- Hid in Hne;
      pose proof (fun f => foreign_key (clock w) (instance_id l) (ttl_ms l) f (lease_key w) h Hlive Hne) as Hfor;
      unfold act; destruct (l_where l) as [| |[]|]; try done; cbn; unfold acquire, renew.
    + destruct (Hfor f) as (Heq & _). by destruct (set_nx _ _ _ _).
    + destruct (Hfor f) as (_ & Heq & _). by destruct (renew_script _ _ _ _).
    + apply (Hfor f).
    + apply (Hfor f).
Qed.






(* ------------------------------------------------------------------ *)
(** ** Examples *)

Definition demo_lease (id : string) : LeaderLease :=
  match LeaderLease_new id 10_000 3_000 with
  | Ok l => l
  | Raise _ => {| ttl_ms := 0; renew_ms := 0; instance_id := ""; is_leader := false; lost := false; l_where := Dead |}
  end.

Definition demo_fleet : Fleet := {|
  clock := 0; lease_key := None; replicas := {[ "a"%string := demo_lease "a"; "b"%string := demo_lease "b" ]};
  granted := ∅ |}.

(** [a] leads, renews once and stalls past its time to live; [b] takes over while
    [a] still believes. *)
Definition demo_overlap : list LeaseEvent := [
  Enter "a"; Acquire "a" Answered; Enter "b"; Acquire "b" Answered; Pass 3_000; Renew "a" Answered;
  Pass 10_000; Acquire "b" Answered]%string.

Lemma demo_replicas id l : replicas demo_fleet !! id = Some l -> LeaderLease_new id 10_000 3_000 = Ok l.
Proof.
  unfold demo_fleet. cbn [replicas].
  by intros [[<- <-]|[_ [<- <-]%lookup_singleton_Some]]%lookup_insert_Some.
Qed.

Lemma demo_starts : starts demo_fleet.
Proof. split_and!; [done|done|]. intros id l Hl%demo_replicas. by exists 10_000, 3_000. Qed.

Lemma lease_exclusive_witness :
  let w := lease_run demo_fleet demo_overlap in
  (is_leader <$> replicas w !! "a"%string) = Some true /\ (is_leader <$> replicas w !! "b"%string) = Some true /\
  holder <$> live (clock w) (lease_key w) = Some "b"%string /\ ~ certain w "a" /\
  lease_key (lease_step w (Renew "a" Answered)) = lease_key w.
Proof.
  destruct (lease_exclusive demo_fleet demo_overlap demo_starts) as (Hone & Hunique & Hkeep).
  set (w := lease_run demo_fleet demo_overlap) in *.
  assert (Hb : certain w "b").
  { exists (set_lease (demo_lease "b") true false (Inside true)), 13_000. vm_compute. by split_and!. }
  split; [by vm_compute|]. split; [by vm_compute|]. split; [by apply Hone|]. split.
  - intros Ha. by pose proof (Hunique _ _ Ha Hb).
  - apply (Hkeep _ "a"%string {| holder := "b"; expires := 23_000 |}); [done|by vm_compute|done].
Defined.


(** The guard of the constructor is there so that two renewals fit into one time to
    live; the renewal loop gives up after one that went unanswered, although the
    lease is still held and the next attempt would succeed. *)
Lemma one_lost_packet_ends_leadership :
  let w := lease_run demo_fleet [Enter "a"; Acquire "a" Answered; Pass 3_000; Renew "a" Unreached]%string in
  (is_leader <$> replicas w !! "a"%string) = Some false /\ (lost <$> replicas w !! "a"%string) = Some true /\
  holder <$> live (clock w + 3_000) (lease_key w) = Some "a"%string /\
  (renew_script (clock w + 3_000) "a" 10_000 (lease_key w)).2 = true.
Proof. vm_compute. by split_and!. Qed.
