(* ===== verification/Fanout.v ===== *)
(** * From Redis to the browsers ([fx_api/ws/conflator.py], [manager.py], [routers/stream.py])

    A browser has a queue with one place per routing key.  [session_is_mailboxes]
    is the contract: every key is a mailbox that holds its newest unread update.
    The manager routes each published message to the sessions that want it;
    [alerts_are_not_conflated] is why an alert is never superseded.  The writer task
    is one turn of its loop, with what the socket does as an input. *)
From S2P Require Import Prelude PyFloat Json Keys Text.
From Stdlib Require Import Ascii.
From stdpp Require Import pretty.

Local Open Scope Z_scope.

(* ------------------------------------------------------------------ *)
(** ** A dict, in insertion order *)

Section Dict.
Context {P : Type}.
Abbreviation dict := (list (string * P)).
Implicit Types (d : dict).

Fixpoint dict_set (k : string) (v : P) d : dict :=
  match d with
  | [] => [(k, v)]
  | (k', v') :: d => if String.eqb k k' then (k', v) :: d else (k', v') :: dict_set k v d
  end.

Fixpoint dict_get (k : string) d : option P :=
  match d with
  | [] => None
  | (k', v) :: d => if String.eqb k k' then Some v else dict_get k d
  end.

Definition dict_pop (k : string) d : dict := List.filter (fun kv => negb (String.eqb k kv.1)) d.

Lemma dict_get_set k k' v d :
  dict_get k (dict_set k' v d) = if String.eqb k k' then Some v else dict_get k d.
Proof.
  induction d as [|[k1 v1] d IH]; cbn; [done|].
  destruct (String.eqb_spec k' k1) as [->|Hne]; cbn.
  - by destruct (String.eqb k k1).
  - rewrite IH. destruct (String.eqb_spec k k1) as [->|]; [|done].
    destruct (String.eqb_spec k1 k'); [congruence|done].
Qed.

Lemma dict_get_pop k k' d : dict_get k (dict_pop k' d) = if String.eqb k k' then None else dict_get k d.
Proof.
  unfold dict_pop. induction d as [|[k1 v1] d IH]; cbn; [by destruct (String.eqb k k')|].
  destruct (String.eqb_spec k' k1) as [->|Hne]; cbn; rewrite IH.
  - by destruct (String.eqb k k1).
  - destruct (String.eqb_spec k k1) as [->|]; [|done]. destruct (String.eqb_spec k1 k'); [congruence|done].
Qed.

Lemma dict_get_none k d : dict_get k d = None <-> k ∉ d.*1.
Proof.
  induction d as [|[k1 v1] d IH]; cbn; [by split; [intros _ ?%elem_of_nil|]|].
  rewrite not_elem_of_cons. destruct (String.eqb_spec k k1); [|rewrite IH]; naive_solver.
Qed.

Lemma dict_set_keys k v d x : x ∈ (dict_set k v d).*1 <-> x = k \/ x ∈ d.*1.
Proof.
  induction d as [|[k1 v1] d IH]; cbn; [set_solver|].
  destruct (String.eqb_spec k k1) as [->|]; cbn; rewrite !elem_of_cons; [set_solver|]. rewrite IH. set_solver.
Qed.

Lemma dict_set_nodup k v d : NoDup d.*1 -> NoDup (dict_set k v d).*1.
Proof.
  induction d as [|[k1 v1] d IH]; cbn; [intros; apply NoDup_singleton|].
  intros [Hk Hd]%NoDup_cons. destruct (String.eqb_spec k k1) as [->|]; cbn; apply NoDup_cons; [done|].
  rewrite dict_set_keys. set_solver.
Qed.

Lemma dict_pop_nodup k d : NoDup d.*1 -> NoDup (dict_pop k d).*1.
Proof.
  unfold dict_pop. induction d as [|[k1 v1] d IH]; cbn; [done|]. intros [Hk Hd]%NoDup_cons.
  destruct (negb (String.eqb k k1)); cbn; [|by apply IH]. apply NoDup_cons. split; [|by apply IH].
  intros (kv & -> & [Hin _]%elem_of_lfilter)%list_elem_of_fmap. apply Hk. by apply list_elem_of_fmap_2.
Qed.

(** What a dict holds at a key, as a list. *)
Definition values_at (k : string) d : list P := snd <$> List.filter (fun kv => String.eqb k kv.1) d.

Lemma values_at_get k d : NoDup d.*1 -> values_at k d = opt_list (dict_get k d).
Proof.
  unfold values_at. induction d as [|[k1 v1] d IH]; cbn; [done|]. intros [Hk Hd]%NoDup_cons.
  destruct (String.eqb_spec k k1) as [->|]; cbn; [|by apply IH]. rewrite IH by done.
  by rewrite (proj2 (dict_get_none _ _) Hk).
Qed.
End Dict.
Arguments dict_pop : simpl never.

(* ------------------------------------------------------------------ *)
(** ** A session *)

Record ClientSession (P : Type) := {
  cs_symbols : gset string;
  cs_pending : list (string * P);
  cs_wakeup : bool;
  cs_conflated : Z;
  cs_sent : Z;
  cs_closed : bool;
  cs_waiting_since : option Z;
}.
Arguments cs_symbols {P} _.
Arguments cs_pending {P} _.
Arguments cs_wakeup {P} _.
Arguments cs_conflated {P} _.
Arguments cs_sent {P} _.
Arguments cs_closed {P} _.
Arguments cs_waiting_since {P} _.

Section Session.
Context {P : Type}.
(** Python's [str.upper]. *)
Context (upper : string -> string).
Implicit Types (s : ClientSession P).

Definition ClientSession_new : ClientSession P := {|
  cs_symbols := ∅; cs_pending := []; cs_wakeup := false; cs_conflated := 0; cs_sent := 0;
  cs_closed := false; cs_waiting_since := None |}.

Definition set_pending s (q : list (string * P)) (wake : bool) (waiting : option Z) : ClientSession P := {|
  cs_symbols := cs_symbols s; cs_pending := q; cs_wakeup := wake; cs_conflated := cs_conflated s;
  cs_sent := cs_sent s; cs_closed := cs_closed s; cs_waiting_since := waiting |}.
Definition set_symbols s (syms : gset string) : ClientSession P := {|
  cs_symbols := syms; cs_pending := cs_pending s; cs_wakeup := cs_wakeup s; cs_conflated := cs_conflated s;
  cs_sent := cs_sent s; cs_closed := cs_closed s; cs_waiting_since := cs_waiting_since s |}.
Definition count s (conflated sent : Z) : ClientSession P := {|
  cs_symbols := cs_symbols s; cs_pending := cs_pending s; cs_wakeup := cs_wakeup s;
  cs_conflated := cs_conflated s + conflated; cs_sent := cs_sent s + sent; cs_closed := cs_closed s;
  cs_waiting_since := cs_waiting_since s |}.
Definition close_session s : ClientSession P := {|
  cs_symbols := cs_symbols s; cs_pending := cs_pending s; cs_wakeup := cs_wakeup s; cs_conflated := cs_conflated s;
  cs_sent := cs_sent s; cs_closed := true; cs_waiting_since := cs_waiting_since s |}.

Definition is_empty {A} (l : list A) : bool := match l with [] => true | _ => false end.

(** [now] is [time.monotonic()]. *)
Definition offer (now : Z) (key : string) (payload : P) s : ClientSession P :=
  if cs_closed s then s
  else
    let waiting := if is_empty (cs_pending s) then Some now else cs_waiting_since s in
    let s := match dict_get key (cs_pending s) with Some _ => count s 1 0 | None => s end in
    set_pending s (dict_set key payload (cs_pending s)) true waiting.

Definition drain s : ClientSession P * list P :=
  match cs_pending s with
  | [] => (s, [])
  | q => (count (set_pending s [] false None) 0 (Z.of_nat (length q)), q.*2)
  end.

Definition note_saturation (now deadline : Z) s : bool :=
  match cs_pending s, cs_waiting_since s with
  | _ :: _, Some t => deadline <? now - t
  | _, _ => false
  end.

Definition subscribe (symbols : list string) s : ClientSession P :=
  set_symbols s (fold_left (fun acc x => {[upper x]} ∪ acc) symbols (cs_symbols s)).

Definition unsubscribe_one s (symbol : string) : ClientSession P :=
  let s := set_symbols s (cs_symbols s ∖ {[upper symbol]}) in
  let q := dict_pop ("tick:" +:+ upper symbol) (cs_pending s) in
  set_pending s (dict_pop ("vol:" +:+ upper symbol) q) (cs_wakeup s) (cs_waiting_since s).
Definition unsubscribe (symbols : list string) s : ClientSession P := fold_left unsubscribe_one symbols s.

Definition wants (symbol : string) s : bool := bool_decide (upper symbol ∈ cs_symbols s).

(** [_writer]: what the socket does with the batch - takes it, or stops after [k]
    frames - the session after the turn, what went out, and whether the loop goes on. *)
Inductive Socket := Takes | Stops (k : nat).

Definition writer_turn (now deadline : Z) (ws : Socket) s : ClientSession P * list P * bool :=
  if cs_closed s then (s, [], false)
  else if note_saturation now deadline s then (close_session s, [], false)
  else
    let '(s, batch) := drain s in
    match ws with
    | Takes => (s, batch, true)
    | Stops k => (close_session s, take k batch, false)
    end.

(* ------------------------------------------------------------------ *)
(** ** The contract of a session *)

Inductive SessionEvent :=
  | Offer (now : Z) (key : string) (payload : P)
  | Drain
  | Subscribe (symbols : list string)
  | Unsubscribe (symbols : list string)
  | Close.

(** The session after an event, and what a drain takes, with its keys. *)
Definition session_step s (ev : SessionEvent) : ClientSession P * list (string * P) :=
  match ev with
  | Offer now key payload => (offer now key payload s, [])
  | Drain => ((drain s).1, zip (cs_pending s).*1 (drain s).2)
  | Subscribe symbols => (subscribe symbols s, [])
  | Unsubscribe symbols => (unsubscribe symbols s, [])
  | Close => (close_session s, [])
  end.

Definition session_run s (evs : list SessionEvent) : ClientSession P * list (string * P) :=
  fold_left (fun '(s, out) ev => let '(s, o) := session_step s ev in (s, out ++ o)) evs (s, []).

(** The mailbox of one key: whether it takes updates, the unread one, and what was
    read, oldest first. *)
Record Mailbox := { mb_open : bool; mb_unread : option P; mb_read : list P }.

Definition clears (key : string) (symbols : list string) : bool :=
  existsb (fun x => String.eqb key ("tick:" +:+ upper x) || String.eqb key ("vol:" +:+ upper x)) symbols.

Definition mailbox_step (key : string) (b : Mailbox) (ev : SessionEvent) : Mailbox :=
  match ev with
  | Offer _ k p =>
      if mb_open b && String.eqb key k
      then {| mb_open := mb_open b; mb_unread := Some p; mb_read := mb_read b |} else b
  | Drain => {| mb_open := mb_open b; mb_unread := None; mb_read := mb_read b ++ opt_list (mb_unread b) |}
  | Unsubscribe symbols =>
      if clears key symbols then {| mb_open := mb_open b; mb_unread := None; mb_read := mb_read b |} else b
  | Subscribe _ => b
  | Close => {| mb_open := false; mb_unread := mb_unread b; mb_read := mb_read b |}
  end.

Definition mailbox (key : string) (evs : list SessionEvent) : Mailbox :=
  fold_left (mailbox_step key) evs {| mb_open := true; mb_unread := None; mb_read := [] |}.

Lemma unsubscribe_fields symbols s :
  cs_closed (unsubscribe symbols s) = cs_closed s /\ cs_sent (unsubscribe symbols s) = cs_sent s /\
  cs_symbols (unsubscribe symbols s) = cs_symbols s ∖ list_to_set (upper <$> symbols) /\
  (NoDup (cs_pending s).*1 -> NoDup (cs_pending (unsubscribe symbols s)).*1) /\
  forall key, dict_get key (cs_pending (unsubscribe symbols s)) =
    if clears key symbols then None else dict_get key (cs_pending s).
Proof.
  unfold unsubscribe. revert s. induction symbols as [|x symbols IH]; intros s; cbn [fold_left]; [cbn; set_solver|].
  destruct (IH (unsubscribe_one s x)) as (Hc & Hs & Hsy & Hd & Hg). rewrite Hc, Hs, Hsy. split_and!; [done|done| | |].
  - cbn. set_solver.
  - intros Hn. apply Hd. cbn. by repeat apply dict_pop_nodup.
  - intros key. rewrite Hg. unfold clears, unsubscribe_one. cbn [cs_pending set_pending set_symbols existsb].
    rewrite !dict_get_pop. fold (clears key symbols).
    destruct (String.eqb key ("tick:" +:+ upper x)), (String.eqb key ("vol:" +:+ upper x)), (clears key symbols); done.
Qed.

(** What the theorem below says of a session and what was taken from it. *)
Definition boxed (evs : list SessionEvent) s (taken : list (string * P)) : Prop :=
  (forall key, dict_get key (cs_pending s) = mb_unread (mailbox key evs) /\
     values_at key taken = mb_read (mailbox key evs) /\
     cs_closed s = negb (mb_open (mailbox key evs))) /\
  NoDup (cs_pending s).*1 /\ cs_sent s = Z.of_nat (length taken).

Lemma mailbox_snoc key evs ev : mailbox key (evs ++ [ev]) = mailbox_step key (mailbox key evs) ev.
Proof. unfold mailbox. by rewrite fold_left_snoc. Qed.

Lemma offer_fields now k p s :
  cs_closed s = false ->
  cs_pending (offer now k p s) = dict_set k p (cs_pending s) /\ cs_closed (offer now k p s) = false /\
  cs_sent (offer now k p s) = cs_sent s /\ cs_symbols (offer now k p s) = cs_symbols s.
Proof. intros Hc. unfold offer. rewrite Hc. destruct (dict_get k (cs_pending s)); cbn; split_and!; (done || lia). Qed.

Lemma drain_fields s :
  cs_pending (drain s).1 = [] /\ cs_closed (drain s).1 = cs_closed s /\
  cs_sent (drain s).1 = cs_sent s + Z.of_nat (length (cs_pending s)) /\ cs_symbols (drain s).1 = cs_symbols s.
Proof. unfold drain. destruct (cs_pending s) as [|kv q] eqn:Hq; cbn; rewrite ?Hq; split_and!; (done || lia). Qed.

Lemma zip_split {A B} (l : list (A * B)) : zip l.*1 l.*2 = l.
Proof. induction l as [|[a b] l IH]; cbn; [done|by rewrite IH]. Qed.

Lemma drain_taken s : zip (cs_pending s).*1 (drain s).2 = cs_pending s.
Proof. unfold drain. destruct (cs_pending s) as [|kv q]; [done|]. apply zip_split. Qed.

Lemma boxed_step evs s taken ev :
  boxed evs s taken -> boxed (evs ++ [ev]) (session_step s ev).1 (taken ++ (session_step s ev).2).
Proof.
  intros (Hkey & Hnd & Hsent). unfold boxed. setoid_rewrite mailbox_snoc.
  destruct ev as [now k p| |symbols|symbols|]; cbn [session_step fst snd mailbox_step]; rewrite ?app_nil_r, ?drain_taken.
  - destruct (cs_closed s) eqn:Hc.
    + unfold offer. rewrite Hc. split_and!; [|done..]. intros key. destruct (Hkey key) as (? & ? & Hcl).
      destruct (mb_open (mailbox key evs)) eqn:Ho; [done|]. cbn. by rewrite Ho, Hc.
    + destruct (offer_fields now k p s Hc) as (-> & -> & -> & _). split_and!; [|by apply dict_set_nodup|done].
      intros key. destruct (Hkey key) as (Hg & Hv & Hcl). rewrite dict_get_set.
      destruct (mb_open (mailbox key evs)) eqn:Ho; [|done]. cbn. destruct (String.eqb key k); cbn; by rewrite ?Ho.
  - destruct (drain_fields s) as (-> & -> & -> & _).
    split_and!; [|constructor|rewrite length_app; lia]. intros key. destruct (Hkey key) as (Hg & Hv & Hcl).
    cbn [mb_unread mb_read mb_open]. split_and!; [done| |done].
    rewrite <- Hg, <- Hv, <- values_at_get by done. unfold values_at. by rewrite List.filter_app, fmap_app.
  - done.
  - destruct (unsubscribe_fields symbols s) as (-> & -> & _ & Hd & Hg). split_and!; [|by apply Hd|done].
    intros key. destruct (Hkey key) as (Hk & Hv & Ho). rewrite Hg. by destruct (clears key symbols).
  - split_and!; [|done..]. intros key. by destruct (Hkey key) as (? & ? & _).
Qed.

(** C23. A session is a mailbox per routing key. Whatever is offered, drained,
    subscribed to and given up, in any order: what a session has queued under a key is
    the newest update offered under it since it was last drained or given up; the
    updates a drain takes under a key are, in order, what the mailbox hands over, so
    none is older than one delivered before; there is at most one per key; and [sent]
    counts exactly what was taken. *)
Theorem session_is_mailboxes evs :
  let '(s, taken) := session_run ClientSession_new evs in
  (forall key, dict_get key (cs_pending s) = mb_unread (mailbox key evs) /\
     values_at key taken = mb_read (mailbox key evs) /\
     cs_closed s = negb (mb_open (mailbox key evs))) /\
  NoDup (cs_pending s).*1 /\ cs_sent s = Z.of_nat (length taken).
Proof.
  enough (boxed evs (session_run ClientSession_new evs).1 (session_run ClientSession_new evs).2)
    by (by destruct (session_run ClientSession_new evs)).
  unfold session_run. induction evs as [|ev evs IH] using rev_ind; [by split_and!; [done|constructor|]|].
  rewrite fold_left_snoc. destruct (fold_left _ evs _) as [s taken].
  pose proof (boxed_step evs s taken ev IH) as Hstep. by destruct (session_step s ev).
Qed.
End Session.
Arguments SessionEvent P : clear implicits.

(* ------------------------------------------------------------------ *)
(** ** The manager *)

Section Manager.
Context {F : Type} `{JsonText F}.
(** [str.upper], and how an f-string writes a decoded value. *)
Context (upper : string -> string) (show : json F -> string).

Record ConnectionManager := {
  m_clients : gmap string (ClientSession (json F));
  feed_status : json F;
}.
Implicit Types (m : ConnectionManager) (s : ClientSession (json F)) (o : list (string * json F)).

Definition set_clients m (cs : gmap string (ClientSession (json F))) : ConnectionManager :=
  {| m_clients := cs; feed_status := feed_status m |}.

Definition register (id : string) s m : ConnectionManager := set_clients m (<[id := s]> (m_clients m)).
Definition unregister (id : string) m : ConnectionManager := set_clients m (delete id (m_clients m)).

(** [{"type": kind, **payload}] *)
Definition frame (kind : string) o : json F := JObj (("type"%string, JStr kind) :: o).

(** [payload.get('seq', 0)] *)
Definition seq_text o : string :=
  show (match jget "seq" (JObj o) with Ok v => v | Raise _ => JInt 0 end).

(** The kind of a frame and its routing key. *)
Definition route (channel symbol : string) o : string * string :=
  if String.prefix "ch:tick" channel then ("tick", "tick:" +:+ symbol)%string
  else if String.prefix "ch:vol" channel then ("vol", "vol:" +:+ symbol)%string
  else ("alert", "alert:" +:+ symbol +:+ ":" +:+ seq_text o)%string.

(** [channel.rsplit(":", 1)[-1]] *)
Definition symbol_of (channel : string) : string := default channel (after_last_colon channel).

(** [_dispatch]; the router logs an exception and goes on. A payload that is no
    object raises: at [**], or at [.get]. *)
Definition dispatch (now : Z) (channel raw : string) m : ConnectionManager * result unit :=
  match loads raw with
  | Raise ex => (m, Raise ex)
  | Ok payload =>
      if String.eqb channel channel_status then
        let m := {| m_clients := m_clients m; feed_status := payload |} in
        match payload with
        | JObj o => (set_clients m (offer now "status" (frame "status" o) <$> m_clients m), Ok tt)
        | _ => (m, Raise TypeError)
        end
      else
        match payload with
        | JObj o =>
            let symbol := symbol_of channel in
            let '(kind, key) := route channel symbol o in
            (set_clients m ((fun s => if wants upper symbol s then offer now key (frame kind o) s else s) <$> m_clients m),
             Ok tt)
        | _ => (m, Raise TypeError)
        end
  end.

(** Messages of Redis, sessions that come and go, and what the tasks of a session do. *)
Inductive ManagerEvent :=
  | Message (now : Z) (channel raw : string)
  | Register (id : string) (s : ClientSession (json F))
  | Unregister (id : string)
  | Own (id : string) (ev : SessionEvent (json F)).

Definition manager_step m (ev : ManagerEvent) : ConnectionManager :=
  match ev with
  | Message now channel raw => (dispatch now channel raw m).1
  | Register id s => register id s m
  | Unregister id => unregister id m
  | Own id ev => set_clients m (alter (fun s => (session_step upper s ev).1) id (m_clients m))
  end.

Definition manager_run m (evs : list ManagerEvent) : ConnectionManager := fold_left manager_step evs m.

(* ------------------------------------------------------------------ *)
(** ** Alerts are events, not values *)

Lemma after_last_colon_none c : after_last_colon c = None -> colon_free c = true.
Proof.
  induction c as [|a c IH]; [done|]. cbn. destruct (after_last_colon c); [done|].
  destruct (Ascii.eqb a ":"%char); [done|]. intros _. by apply IH.
Qed.

Lemma after_last_colon_suffix c x : after_last_colon c = Some x -> colon_free x = true.
Proof.
  revert x. induction c as [|a c IH]; [done|]. cbn. destruct (after_last_colon c) as [r|] eqn:E; [exact IH|].
  destruct (Ascii.eqb a ":"%char); [|done]. intros x [= <-]. by apply after_last_colon_none.
Qed.

Lemma symbol_of_colon_free channel : colon_free (symbol_of channel) = true.
Proof.
  unfold symbol_of. destruct (after_last_colon channel) eqn:E; cbn;
    [by apply after_last_colon_suffix in E|by apply after_last_colon_none].
Qed.

Definition alert_slot (symbol : string) (n : string) : string := "alert:" +:+ symbol +:+ ":" +:+ n.

(** A channel that [_dispatch] takes for one of alerts. *)
Definition alert_channel (channel : string) : bool :=
  negb (String.prefix "ch:tick" channel) && negb (String.prefix "ch:vol" channel).

(** A message that is routed to the slot of an alert is that alert. *)
Lemma route_slot channel o symbol n :
  colon_free symbol = true ->
  (route channel (symbol_of channel) o).2 = alert_slot symbol n ->
  alert_channel channel = true /\ symbol_of channel = symbol /\ seq_text o = n.
Proof.
  intros Hs. unfold route, alert_slot, alert_channel. destruct (String.prefix "ch:tick" channel); [done|].
  destruct (String.prefix "ch:vol" channel); [done|]. cbn [snd]. intros Heq.
  cbn in Heq. injection Heq as Heq. split; [done|]. apply colon_split; [apply symbol_of_colon_free|done|exact Heq].
Qed.

(** An event after which what is queued in a slot of the session is still there. *)
Definition spares (id symbol n : string) (ev : ManagerEvent) : Prop :=
  match ev with
  | Message _ channel raw => 
      forall o, loads raw = Ok (JObj o) -> alert_channel channel = true -> symbol_of channel = symbol -> seq_text o <> n
  | Register id' _ | Unregister id' | Own id' Drain | Own id' (Offer _ _ _) => id' <> id
  | Own _ _ => True
  end.

Definition queued m (id key : string) (v : json F) : Prop :=
  exists s, m_clients m !! id = Some s /\ dict_get key (cs_pending s) = Some v.

Lemma offer_other now k p key s :
  k <> key -> dict_get key (cs_pending (offer now k p s)) = dict_get key (cs_pending s).
Proof.
  intros Hne. destruct (cs_closed s) eqn:Hc; [unfold offer; by rewrite Hc|].
  destruct (offer_fields now k p s Hc) as (-> & _). rewrite dict_get_set.
  by destruct (String.eqb_spec key k) as [->|].
Qed.

Lemma spares_queued m id symbol n v ev :
  colon_free symbol = true -> spares id symbol n ev -> queued m id (alert_slot symbol n) v ->
  queued (manager_step m ev) id (alert_slot symbol n) v.
Proof.
  intros Hsym Hsp (s & Hs & Hv). unfold queued. destruct ev as [now channel raw|id' s'|id'|id' ev]; cbn [manager_step].
  - unfold dispatch. destruct (loads raw) as [payload|] eqn:Hraw; [|by exists s].
    destruct (String.eqb channel channel_status).
    + destruct payload as [| | | | | |o]; try (by exists s). cbn. rewrite lookup_fmap, Hs. eexists. split; [done|].
      by rewrite offer_other.
    + destruct payload as [| | | | | |o]; try (by exists s).
      pose proof (route_slot channel o symbol n Hsym) as Hroute.
      destruct (route channel (symbol_of channel) o) as [kind key]. cbn in *. rewrite lookup_fmap, Hs.
      eexists. split; [done|]. destruct (wants upper (symbol_of channel) s); [|done].
      rewrite offer_other; [done|]. intros Hkey. destruct (Hroute Hkey) as (? & ? & ?). by apply (Hsp o).
  - exists s. cbn. by rewrite lookup_insert_ne.
  - exists s. cbn. by rewrite lookup_delete_ne.
  - cbn. destruct (decide (id' = id)) as [->|Hne]; [|exists s; by rewrite lookup_alter_ne].
    rewrite lookup_alter_eq, Hs. eexists. split; [done|]. destruct ev as [now k p| |symbols|symbols|]; cbn.
    + done.
    + done.
    + done.
    + destruct (unsubscribe_fields upper symbols s) as (_ & _ & _ & _ & ->).
      assert (clears upper (alert_slot symbol n) symbols = false) as ->; [|done].
      apply not_true_iff_false. intros (x & _ & Hx)%existsb_exists. by cbn in Hx.
    + done.
Qed.

Lemma dict_get_elem {P} k (v : P) (d : list (string * P)) : dict_get k d = Some v -> v ∈ d.*2.
Proof.
  induction d as [|[k1 v1] d IH]; cbn; [done|]. destruct (String.eqb k k1); [|intros ?; right; by apply IH].
  intros [= ->]. left.
Qed.

(** C25. No alert is conflated. An alert published for a symbol that an open session
    wants is in what the session's next drain hands to the socket, whatever else is
    published before - ticks, readings, the feed's status, other alerts of the
    symbol -, whatever the session subscribes to or gives up, and whatever other
    sessions do; only an alert with the same symbol and sequence number takes its
    place. *)
Theorem alerts_are_not_conflated m now symbol raw o id s evs :
  colon_free symbol = true -> loads raw = Ok (JObj o) ->
  m_clients m !! id = Some s -> wants upper symbol s = true -> cs_closed s = false ->
  Forall (spares id symbol (seq_text o)) evs ->
  exists s', m_clients (manager_run (dispatch now (channel_alert symbol) raw m).1 evs) !! id = Some s' /\
    frame "alert" o ∈ (drain s').2.
Proof.
  intros Hsym Hraw Hs Hwants Hopen Hspares.
  assert (Hroute : route (channel_alert symbol) (symbol_of (channel_alert symbol)) o =
    ("alert"%string, alert_slot symbol (seq_text o))).
  { unfold symbol_of, channel_alert. change ("ch:alerts:" +:+ symbol) with ("ch:alerts" +:+ ":" +:+ symbol).
    by rewrite after_last_colon_app. }
  assert (Hstart : queued (dispatch now (channel_alert symbol) raw m).1 id (alert_slot symbol (seq_text o)) (frame "alert" o)).
  { unfold dispatch. rewrite Hraw, Hroute. unfold symbol_of.
    change (channel_alert symbol) with ("ch:alerts" +:+ ":" +:+ symbol). rewrite after_last_colon_app by done.
    assert (String.eqb ("ch:alerts" +:+ ":" +:+ symbol) channel_status = false) as -> by reflexivity.
    unfold queued. cbn [default Datatypes.id fst set_clients m_clients]. eexists. rewrite lookup_fmap, Hs. split; [done|]. rewrite Hwants.
    destruct (offer_fields now (alert_slot symbol (seq_text o)) (frame "alert" o) s Hopen) as (-> & _).
    rewrite dict_get_set. by rewrite String.eqb_refl. }
  assert (Hend : queued (manager_run (dispatch now (channel_alert symbol) raw m).1 evs) id
    (alert_slot symbol (seq_text o)) (frame "alert" o)).
  { unfold manager_run. apply (fold_left_inv (fun m => queued m id _ _)); [|done]. intros m' ev Hev Hq.
    rewrite Forall_forall in Hspares. by apply spares_queued; [|apply Hspares|]. }
  destruct Hend as (s' & Hs' & Hv). exists s'. split; [done|].
  unfold drain. destruct (cs_pending s') as [|kv q]; [done|]. by apply dict_get_elem in Hv.
Qed.
End Manager.

(* ------------------------------------------------------------------ *)
(** ** Examples *)

Section Examples.
#[local] Existing Instance json_bits.
Notation F := SpecFloat.spec_float.

Definition demo_show (v : json F) : string := match v with JInt n => pretty n | _ => "" end.
Definition demo_upper (x : string) : string := if String.eqb x "eurusd" then "EURUSD" else x.

Definition demo_session : ClientSession (json F) := subscribe demo_upper ["eurusd"%string] ClientSession_new.
Definition demo_manager : ConnectionManager :=
  {| m_clients := {[ "c"%string := demo_session ]}; feed_status := JNull |}.
Definition demo_alert_payload (n : Z) : list (string * json F) := [("seq"%string, JInt n)].
Definition demo_message (channel : string) (n : Z) : @ManagerEvent F :=
  Message 0 channel (dumps (JObj (demo_alert_payload n))).

(** Two more alerts, two ticks, and the symbol is given up. *)
Definition demo_traffic : list (@ManagerEvent F) := [
  demo_message "ch:alerts:EURUSD" 2; demo_message "ch:tick:EURUSD" 1; demo_message "ch:tick:EURUSD" 1;
  Own "c" (Unsubscribe ["eurusd"]); demo_message "ch:alerts:EURUSD" 3]%string.

Lemma alerts_are_not_conflated_witness :
  exists s', m_clients (manager_run demo_upper demo_show
      (dispatch demo_upper demo_show 0 (channel_alert "EURUSD") (dumps (JObj (demo_alert_payload 1))) demo_manager).1
      demo_traffic) !! "c"%string = Some s' /\
    frame "alert" (demo_alert_payload 1) ∈ (drain s').2.
Proof.
  apply (alerts_are_not_conflated demo_upper demo_show demo_manager 0 "EURUSD" _ (demo_alert_payload 1) "c"%string demo_session).
  - reflexivity.
  - apply loads_dumps.
  - apply lookup_singleton_eq.
  - vm_compute. reflexivity.
  - reflexivity.
  - assert (Hseq : forall c k, k <> 1 \/ alert_channel c = false ->
      spares demo_show "c" "EURUSD" (seq_text demo_show (demo_alert_payload 1)) (demo_message c k)).
    { intros c k Hk o Ho Hc _. unfold demo_message in Ho. rewrite loads_dumps in Ho. injection Ho as <-.
      destruct Hk as [Hk|Hk]; [|congruence]. change (pretty k <> pretty 1). by intros Heq%(inj pretty). }
    repeat constructor; apply Hseq; (by right) || (left; lia).
Defined.

(** A symbol is given up while its update is queued: the queue is empty and the
    event set. [drain] then returns before it clears the event, so the writer's turns
    neither wait nor send, and nothing in them changes the session. *)
Definition demo_given_up : ClientSession Z :=
  unsubscribe demo_upper ["eurusd"%string] (offer 0 "tick:EURUSD" 1 (subscribe demo_upper ["eurusd"%string] ClientSession_new)).

Lemma unsubscribe_spins now deadline :
  cs_wakeup demo_given_up = true /\
  writer_turn now deadline Takes demo_given_up = (demo_given_up, [], true).
Proof. by vm_compute. Qed.

(** The age of the oldest queued update outlives the update: ten seconds after the one
    that was given up, a session is taken for saturated by one queued two seconds ago. *)
Lemma given_up_update_ages :
  let s := subscribe demo_upper ["eurusd"; "GBPUSD"]%string ClientSession_new in
  let s := offer 9 "tick:GBPUSD" 2 (offer 0 "tick:EURUSD" 1 s) in
  let s := unsubscribe demo_upper ["eurusd"%string] s in
  cs_pending s = [("tick:GBPUSD"%string, 2)] /\ note_saturation 11 10 s = true.
Proof. by vm_compute. Qed.
End Examples.
