(* ===== verification/Limits.v ===== *)
(** * Two small protocols over expiring keys ([fx_api/ratelimit.py], [fx_api/ws/tickets.py])

    A counter per client and window, and single-use tickets.  Times are those of
    Redis in milliseconds, inputs of each call; a random token is an input too. *)
From S2P Require Import Prelude.
From Stdlib Require Import Ascii.

Local Open Scope Z_scope.

(* ------------------------------------------------------------------ *)
(** ** The rate limiter *)

(** [header.split(",")[0]] *)
Fixpoint before_comma (s : string) : string :=
  match s with
  | EmptyString => EmptyString
  | String c s => if Ascii.eqb c "," then EmptyString else String c (before_comma s)
  end.

(** The first hop of [X-Forwarded-For], or else the peer's address. *)
Definition client_id (strip : string -> string) (forwarded host : option string) : string :=
  match forwarded with
  | Some fwd => if String.eqb fwd "" then default "unknown" host else strip (before_comma fwd)
  | None => default "unknown" host
  end%string.

(** The key of a bucket and a client: the count, and when it expires if it does. *)
Record Counter := { cnt : Z; cnt_expires : option Z }.

Definition counter_at (now : Z) (k : option Counter) : option Counter :=
  match k with
  | Some c => match cnt_expires c with Some e => if now <? e then Some c else None | None => Some c end
  | None => None
  end.

(** [INCR] keeps an expiry and creates a key without one. *)
Definition incr (now : Z) (k : option Counter) : Counter :=
  match counter_at now k with
  | Some c => {| cnt := cnt c + 1; cnt_expires := cnt_expires c |}
  | None => {| cnt := 1; cnt_expires := None |}
  end.

(** [TTL]: seconds, rounded to the nearest, and -1 for a key that does not expire. *)
Definition ttl_of (now : Z) (c : Counter) : Z :=
  match cnt_expires c with Some e => (e - now + 500) / 1000 | None => -1 end.

Definition expire (now window_s : Z) (c : Counter) : Counter :=
  {| cnt := cnt c; cnt_expires := Some (now + window_s * 1000) |}.

Record RateVerdict := { allowed : bool; remaining : Z; retry_after_s : Z }.

(** [hit]; [cut] when the caller dies or Redis fails between the two round trips. *)
Definition hit (limit window_s now : Z) (cut : bool) (k : option Counter) : option Counter * result RateVerdict :=
  let c := incr now k in
  let ttl := ttl_of now c in
  let arm := (cnt c =? 1) || (ttl <? 0) in
  if cut then (Some c, Raise RuntimeError)
  else
    let '(c, ttl) := if arm then (expire now window_s c, window_s) else (c, ttl) in
    (Some c,
     Ok (if limit <? cnt c
         then {| allowed := false; remaining := 0; retry_after_s := Z.max ttl 1 |}
         else {| allowed := true; remaining := limit - cnt c; retry_after_s := Z.max ttl 1 |})).

Fixpoint hits (limit window_s : Z) (calls : list (Z * bool)) (k : option Counter) : list (result RateVerdict) :=
  match calls with
  | [] => []
  | (now, cut) :: calls =>
      let '(k, r) := hit limit window_s now cut k in r :: hits limit window_s calls k
  end.

(** The key during a window that began at [t0] with [n] calls counted. *)
Definition counting (t0 window_s n : Z) (k : option Counter) : Prop :=
  (n = 0 /\ counter_at t0 k = None /\ (forall t, t0 <= t -> counter_at t k = None)) \/
  (0 < n /\ exists c, k = Some c /\ cnt c = n /\ forall e, cnt_expires c = Some e -> t0 + window_s * 1000 <= e).

Lemma counter_gone t0 k : counter_at t0 k = None -> forall t, t0 <= t -> counter_at t k = None.
Proof.
  unfold counter_at. destruct k as [c|]; [|done]. destruct (cnt_expires c) as [e|]; [|done].
  destruct (Z.ltb_spec t0 e); [done|]. intros _ t Ht. by rewrite (proj2 (Z.ltb_ge _ _)) by lia.
Qed.

(** One call of the window: its number decides. *)
Lemma hit_counting limit window_s t0 n now cut k :
  0 < window_s -> counting t0 window_s n k -> t0 <= now < t0 + window_s * 1000 ->
  let '(k', r) := hit limit window_s now cut k in
  counting t0 window_s (n + 1) k' /\
  if (cut : bool) then r = Raise RuntimeError
  else exists v, r = Ok v /\ allowed v = (n + 1 <=? limit) /\ remaining v = Z.max 0 (limit - (n + 1)) /\ 1 <= retry_after_s v.
Proof.
  intros Hw Hk Hnow. assert (Hinc : exists c, incr now k = c /\ cnt c = n + 1 /\ 0 <= n /\
    forall e, cnt_expires c = Some e -> t0 + window_s * 1000 <= e).
  { unfold incr. destruct Hk as [(-> & _ & Hgone)|(Hn & c & -> & Hc & He)].
    - rewrite Hgone by lia. exists {| cnt := 1; cnt_expires := None |}. by split_and!.
    - unfold counter_at. destruct (cnt_expires c) as [e|] eqn:Hexp.
      + specialize (He e eq_refl). rewrite (proj2 (Z.ltb_lt _ _)) by lia. eexists. split; [done|]. cbn.
        rewrite Hexp. split_and!; [lia|lia|]. by intros ? [= <-].
      + eexists. split; [done|]. cbn. rewrite Hexp. split_and!; [lia|lia|done]. }
  destruct Hinc as (c & Hincr & Hc & Hn & He). unfold hit. rewrite Hincr.
  destruct cut; [split; [right; split; [lia|by exists c]|done]|].
  set (arm := _ || _). destruct arm; cbn [cnt expire].
  - split; [right; split; [lia|]; eexists; split; [done|]; cbn; split; [done|]; intros e [= <-]; lia|].
    eexists. split; [done|]. rewrite Hc. destruct (Z.ltb_spec limit (n + 1)); cbn; split_and!; lia.
  - split; [right; split; [lia|by exists c]|].
    eexists. split; [done|]. rewrite Hc. destruct (Z.ltb_spec limit (n + 1)); cbn; split_and!; lia.
Qed.

(** C39. Of the calls of a window - those made within [window_s] of the first, on a key
    that was not there - exactly the first [limit] are allowed, whoever makes them
    and even when callers die between counting and arming the expiry; each is told
    how many are left, and to come back in at least a second. *)
Theorem rate_limit_exact limit window_s t0 k calls i now cut :
  0 < window_s -> counter_at t0 k = None -> Forall (fun c => t0 <= c.1 < t0 + window_s * 1000) calls ->
  calls !! i = Some (now, cut) ->
  exists r, hits limit window_s calls k !! i = Some r /\
    if (cut : bool) then r = Raise RuntimeError
    else exists v, r = Ok v /\ allowed v = (Z.of_nat i + 1 <=? limit) /\
           remaining v = Z.max 0 (limit - (Z.of_nat i + 1)) /\ 1 <= retry_after_s v.
Proof.
  intros Hw Hgone Hall Hi.
  assert (Hstart : counting t0 window_s 0 k) by (left; split_and!; [done|done|by apply counter_gone]).
  enough (Hgen : forall n k, counting t0 window_s n k -> exists r, hits limit window_s calls k !! i = Some r /\
    if (cut : bool) then r = Raise RuntimeError
    else exists v, r = Ok v /\ allowed v = (n + Z.of_nat i + 1 <=? limit) /\
      remaining v = Z.max 0 (limit - (n + Z.of_nat i + 1)) /\ 1 <= retry_after_s v) by (by apply (Hgen 0)).
  clear Hgone Hstart k. revert i Hi. induction calls as [|[t c] calls IH]; intros i Hi n k Hk; [done|].
  apply Forall_cons in Hall as [Ht Hall]. cbn in Ht. cbn [hits].
  pose proof (hit_counting limit window_s t0 n t c k Hw Hk Ht) as Hstep.
  destruct (hit limit window_s t c k) as [k' r]. destruct Hstep as [Hk' Hr].
  destruct i as [|i].
  - injection Hi as -> ->. exists r. split; [done|]. by rewrite Z.add_0_r.
  - destruct (IH Hall i Hi _ _ Hk') as (r' & Hr' & Hv). exists r'. split; [exact Hr'|].
    by replace (n + Z.of_nat (S i) + 1) with (n + 1 + Z.of_nat i + 1) by lia.
Qed.

(* ------------------------------------------------------------------ *)
(** ** Tickets *)

(** The tickets Redis holds: subject and expiry. *)
Abbreviation tickets := (gmap string (string * Z)).
Implicit Types (s : tickets).

Definition issue (ttl_s now : Z) (token subject : string) s : tickets :=
  <[token := (subject, now + ttl_s * 1000)]> s.

(** [GETDEL] *)
Definition redeem (now : Z) (token : string) s : tickets * option string :=
  if String.eqb token "" then (s, None)
  else
    match s !! token with
    | Some (subject, e) => (delete token s, if now <? e then Some subject else None)
    | None => (s, None)
    end.

Inductive TicketEvent :=
  | Issue (now : Z) (token subject : string)
  | Redeem (now : Z) (token : string).

Definition ticket_step (ttl_s : Z) s (ev : TicketEvent) : tickets * option string :=
  match ev with
  | Issue now token subject => (issue ttl_s now token subject s, None)
  | Redeem now token => redeem now token s
  end.

Definition tickets_after (ttl_s : Z) (evs : list TicketEvent) : tickets :=
  fold_left (fun s ev => (ticket_step ttl_s s ev).1) evs ∅.

Definition issued (evs : list TicketEvent) : list string :=
  omap (fun ev => match ev with Issue _ token _ => Some token | Redeem _ _ => None end) evs.

Lemma tickets_after_snoc ttl_s evs ev :
  tickets_after ttl_s (evs ++ [ev]) = (ticket_step ttl_s (tickets_after ttl_s evs) ev).1.
Proof. unfold tickets_after. by rewrite fold_left_snoc. Qed.

(** A ticket that is held was issued. *)
Lemma held_was_issued ttl_s evs token subject e :
  tickets_after ttl_s evs !! token = Some (subject, e) ->
  exists now, Issue now token subject ∈ evs /\ e = now + ttl_s * 1000.
Proof.
  induction evs as [|ev evs IH] using rev_ind; [unfold tickets_after; cbn; by rewrite lookup_empty|].
  rewrite tickets_after_snoc. setoid_rewrite elem_of_app.
  assert (Hold : tickets_after ttl_s evs !! token = Some (subject, e) ->
    exists now, (Issue now token subject ∈ evs \/ Issue now token subject ∈ [ev]) /\ e = now + ttl_s * 1000)
    by (intros Ht; destruct (IH Ht) as (now & ? & ?); exists now; auto).
  destruct ev as [now token' subject'|now token']; cbn.
  - unfold issue. intros [[-> [= -> <-]]|[_ Ht]]%lookup_insert_Some; [|by apply Hold].
    exists now. split; [right; by apply list_elem_of_here|done].
  - unfold redeem. destruct (String.eqb token' ""); [exact Hold|].
    destruct (tickets_after ttl_s evs !! token') as [[? ?]|]; [|exact Hold].
    cbn. intros [_ Ht]%lookup_delete_Some. by apply Hold.
Qed.

(** A ticket that is not held and not issued again stays unheld. *)
Lemma spent_stays ttl_s evs more token :
  tickets_after ttl_s evs !! token = None -> token ∉ issued more ->
  tickets_after ttl_s (evs ++ more) !! token = None.
Proof.
  intros Hnone. induction more as [|ev more IH] using rev_ind; intros Hni; [by rewrite app_nil_r|].
  rewrite app_assoc, tickets_after_snoc. unfold issued in Hni. rewrite omap_app, not_elem_of_app in Hni.
  destruct Hni as [Hni Hev]. specialize (IH Hni). destruct ev as [now token' subject|now token']; cbn.
  - unfold issue. rewrite lookup_insert_ne; [done|]. cbn in Hev. set_solver.
  - unfold redeem. destruct (String.eqb token' ""); [done|].
    destruct (tickets_after ttl_s (evs ++ more) !! token') as [[? ?]|]; [|done]. cbn. by apply lookup_delete_None; right.
Qed.

(** C26. A ticket opens one connection, soon. With tokens that are never drawn twice, a
    redemption that succeeds is of a ticket that was issued to that subject less than
    [ttl_s] before, and no later redemption of the token succeeds, however many
    handshakes race. *)
Theorem ticket_single_use ttl_s before now token after subject :
  NoDup (issued (before ++ Redeem now token :: after)) ->
  (redeem now token (tickets_after ttl_s before)).2 = Some subject ->
  (exists t0, Issue t0 token subject ∈ before /\ now < t0 + ttl_s * 1000) /\
  (forall between later now', after = between ++ Redeem now' token :: later ->
     (redeem now' token (tickets_after ttl_s (before ++ Redeem now token :: between))).2 = None).
Proof.
  intros Hd Hok. unfold redeem in Hok. destruct (String.eqb_spec token "") as [|Hne]; [done|].
  destruct (tickets_after ttl_s before !! token) as [[subject' e]|] eqn:Hheld; [|done].
  cbn in Hok. destruct (Z.ltb_spec now e); [|done]. injection Hok as ->.
  destruct (held_was_issued _ _ _ _ _ Hheld) as (t0 & Hin & ->). split; [by exists t0|].
  intros between later now' ->.
  assert (Hspent : tickets_after ttl_s (before ++ [Redeem now token]) !! token = None).
  { rewrite tickets_after_snoc. cbn. unfold redeem. rewrite (proj2 (String.eqb_neq _ _) Hne), Hheld. cbn.
    by apply lookup_delete_None; left. }
  assert (Hgone : tickets_after ttl_s (before ++ Redeem now token :: between) !! token = None).
  { change (Redeem now token :: between) with ([Redeem now token] ++ between). rewrite app_assoc.
    apply spent_stays; [done|]. intros Hbt.
    assert (Hiss : token ∈ issued before).
    { unfold issued. apply list_elem_of_omap. by exists (Issue t0 token subject). }
    unfold issued in Hd, Hiss, Hbt. rewrite omap_app in Hd. apply NoDup_app in Hd as (_ & Hdis & _).
    apply (Hdis _ Hiss). cbn. rewrite omap_app, elem_of_app. by left. }
  unfold redeem. by rewrite (proj2 (String.eqb_neq _ _) Hne), Hgone.
Qed.

(* ------------------------------------------------------------------ *)
(** ** Examples *)

(** Two calls a minute: of four, the second dies before it arms the expiry. *)
Lemma rate_limit_exact_witness :
  exists r, hits 2 60 [(0, false); (10, true); (20, false); (59_999, false)] None !! 2%nat = Some r /\
    exists v, r = Ok v /\ allowed v = false /\ remaining v = 0.
Proof.
  destruct (rate_limit_exact 2 60 0 None [(0, false); (10, true); (20, false); (59_999, false)] 2 20 false)
    as (r & Hr & v & Hv & Ha & Hrem & _).
  - lia.
  - reflexivity.
  - repeat constructor; cbn; lia.
  - reflexivity.
  - exists r. split; [exact Hr|]. exists v. by split_and!.
Defined.

Lemma ticket_single_use_witness :
  (redeem 29_999 "tok" (tickets_after 30 [Issue 0 "tok" "anonymous"])).2 = Some "anonymous"%string /\
  (redeem 29_999 "tok" (tickets_after 30 [Issue 0 "tok" "anonymous"; Redeem 29_999 "tok"])).2 = None.
Proof.
  split; [vm_compute; reflexivity|].
  refine (proj2 (ticket_single_use 30 [Issue 0 "tok" "anonymous"] 29_999 "tok" [Redeem 29_999 "tok"] "anonymous" _ _)
    [] [] 29_999 eq_refl).
  - cbn. apply NoDup_singleton.
  - vm_compute. reflexivity.
Defined.
