(* ===== verification/Market.v ===== *)
(** * The market endpoints ([fx_api/routers/market.py])

    Reading the hot cache, the chart at any timeframe, and the estimators on demand,
    with their refusals.  [chart_serves_newest_minutes] of [Chart.v] follows
    what is written into the hot cache through Redis and the roll-up to the reply. *)
From S2P Require Import Prelude PyFloat Civil Volatility Models Buckets Ranges Baseline Seasonality.
From S2P Require Import Calendar Hysteresis Detector Intervals Redis Json Keys Text Pipeline Wire Limits.
From Stdlib Require Import Ascii.

Local Open Scope Z_scope.

(** An answer, an [HTTPException] with its status, or an exception the framework
    answers with a 500. *)
Inductive Reply (A : Type) := Answer (a : A) | HttpError (code : Z) | Failed (ex : exn).
Arguments Answer {A} a.
Arguments HttpError {A} code.
Arguments Failed {A} ex.

Definition of_result {A} (r : result A) : Reply A := match r with Ok a => Answer a | Raise ex => Failed ex end.

(** [l[-n:]] for a positive [n]. *)
Definition lastn {A} (n : nat) (l : list A) : list A := drop (length l - n) l.

(* ------------------------------------------------------------------ *)
(** ** Arguments *)

(** [^[A-Z]{6}$] *)
Definition upper_letter (c : ascii) : bool := (65 <=? N_of_ascii c)%N && (N_of_ascii c <=? 90)%N.
Definition is_pair (s : string) : bool :=
  Nat.eqb (String.length s) 6 && forallb upper_letter (String.list_ascii_of_string s).

Section Market.
Context {F : Type} `{PyFloat F} `{IsoFormat} `{JsonText F} `{SortedSet} `{NewYork}.
(** [raw.strip().upper()] *)
Context (strip_upper : string -> string).
(** The sorted sets of Redis by key. *)
Implicit Types (ks : string -> zset).

Definition _MIN_BARS : nat := 3.
Definition _BAR_SECONDS : Z := 60.

Definition _symbol (raw : string) : Reply string :=
  let s := strip_upper raw in if is_pair s then Answer s else HttpError 422.

Definition _interval (raw : string) : Reply Interval :=
  match interval_of raw with Ok spec => Answer spec | Raise _ => HttpError 422 end.

(** [market_status]: whether the market is open, the sessions, and the next change. *)
Record MarketStatus := {
  ms_is_open : bool;
  ms_sessions : list string;
  ms_next_open : option string;
  ms_next_close : option string;
}.

(** Each call of the calendar reads the clock for itself; here all of a request read
    the same instant. *)
Definition market_status (now : datetime) : MarketStatus :=
  let open_now := is_market_open now in
  {| ms_is_open := open_now;
     ms_sessions := active_sessions now;
     ms_next_open := if open_now then None else Some (isoformat (next_open now));
     ms_next_close := if open_now then Some (isoformat (next_close now)) else None |}.

(* ------------------------------------------------------------------ *)
(** ** The chart *)

(** [ZREVRANGE key start stop] *)
Definition zrevrange (start stop : Z) (z : zset) : list string := snd <$> rank_range start stop (reverse (zentries z)).

Definition base_code (b : Base) : string := match b with Base1m => "1m" | Base1d => "1d" end.

(** The fields [fold] reads of a stored bar. *)
Definition base_bar_of (j : json F) : result (BaseBar F) :=
  t ← jget "t" j; t ← as_int t;
  o ← jget "o" j; o ← as_float o;
  h ← jget "h" j; h ← as_float h;
  l ← jget "l" j; l ← as_float l;
  c ← jget "c" j; c ← as_float c;
  n ← jget_opt "n" j; n ← match n with Some n => Some <$> as_int n | None => Ok None end;
  src ← jget_opt "src" j; src ← match src with Some s => Some <$> as_str s | None => Ok None end;
  Ok {| bb_t := t; bb_o := o; bb_h := h; bb_l := l; bb_c := c; bb_n := n; bb_src := src |}.

Definition _base_bars ks (symbol : string) (base : Base) (count : Z) : result (list (BaseBar F)) :=
  mapR (fun raw => j ← loads raw; base_bar_of j)
    (reverse (zrevrange 0 (count - 1) (ks (history symbol (base_code base))))).

Record BarsReply := { br_symbol : string; br_interval : string; br_bars : list (Candle F); br_warming_up : bool }.

(** [limit] is between 1 and 1440, as the framework checks. *)
Definition bars_endpoint ks (symbol interval : string) (limit : Z) : Reply BarsReply :=
  match _symbol symbol with
  | HttpError code => HttpError code
  | Failed ex => Failed ex
  | Answer sym =>
      match _interval interval with
      | HttpError code => HttpError code
      | Failed ex => Failed ex
      | Answer spec => of_result (
          count ← base_count interval limit;
          base ← _base_bars ks sym (base spec) count;
          rows ← fold base interval;
          let rows := lastn (Z.to_nat limit) rows in
          Ok {| br_symbol := sym; br_interval := interval; br_bars := rows;
                br_warming_up := match rows with [] => true | _ => false end |})
      end
  end.

(* ------------------------------------------------------------------ *)
(** ** The estimators *)

Definition cached_bar_of (symbol : string) (j : json F) : result (Bar F) :=
  t ← jget "t" j; t ← as_int t; at_ ← utc_datetime t;
  o ← jget "o" j; o ← as_float o;
  h ← jget "h" j; h ← as_float h;
  l ← jget "l" j; l ← as_float l;
  c ← jget "c" j; c ← as_float c;
  n ← jget_opt "n" j; n ← match n with Some n => as_int n | None => Ok 0 end;
  src ← jget_opt "src" j; src ← match src with Some s => as_str s | None => Ok "stream"%string end;
  source ← source_of_str src;
  Ok {| bar_symbol := symbol; bucket := at_; open := o; high := h; low := l; close := c; tick_count := n;
        sum_ret := f_zero; sum_ret_sq := f_zero; source := source |}.

Definition _bars_from_cache ks (symbol : string) (limit : Z) : result (list (Bar F)) :=
  mapR (fun raw => j ← loads raw; cached_bar_of symbol j)
    (reverse (zrevrange 0 (limit - 1) (ks (history symbol "1m")))).

Record WindowFigures := {
  wf_window_s : Z;
  wf_missing_minutes : Z;
  wf_gap_returns : Z;
  wf_flat_bars : Z;
  wf_bars_outside_market_hours : Z;
}.

Definition count_of {A} (f : A -> bool) (l : list A) : Z := Z.of_nat (length (List.filter f l)).

(** [_window]: of at least one bar. *)
Definition _window (rows : list (Bar F)) : result WindowFigures :=
  first ← py_index rows 0; newest ← py_index rows (-1);
  let elapsed := Z.quot (bucket newest - bucket first) MICRO + _BAR_SECONDS in
  Ok {| wf_window_s := elapsed;
        wf_missing_minutes := elapsed / _BAR_SECONDS - py_len rows;
        wf_gap_returns := count_of (fun ab => seconds _BAR_SECONDS <? bucket ab.2 - bucket ab.1) (pairwise rows);
        wf_flat_bars := count_of (fun b =>
          f_eq (open b) (high b) && f_eq (high b) (low b) && f_eq (low b) (close b)) rows;
        wf_bars_outside_market_hours := count_of (fun b => negb (is_market_open (bucket b))) rows |}.

(** [_ESTIMATORS]: a dict without the streaming estimator. *)
Definition _ESTIMATORS : list (Estimator * (list (Bar F) -> result F)) := [
  (CLOSE_TO_CLOSE, close_to_close); (PARKINSON, parkinson); (GARMAN_KLASS, garman_klass);
  (ROGERS_SATCHELL, rogers_satchell); (YANG_ZHANG, fun rows => yang_zhang rows None)].

Definition estimator_of (est : Estimator) : result (list (Bar F) -> result F) :=
  match List.find (fun kv => bool_decide (kv.1 = est)) _ESTIMATORS with
  | Some kv => Ok kv.2
  | None => Raise KeyError
  end.

Record VolReply := { vr_snapshot : VolSnapshot F; vr_window : WindowFigures }.

Definition vol_reply (sym : string) (est : Estimator) (rows : list (Bar F)) (now : datetime) : result VolReply :=
  window ← _window rows;
  f ← estimator_of est;
  sigma ← f rows;
  snap ← VolSnapshot_build sym est (wf_window_s window) sigma (py_len rows) _BAR_SECONDS None None now;
  Ok {| vr_snapshot := snap; vr_window := window |}.

Definition volatility ks (symbol : string) (est : Estimator) (limit : Z) (now : datetime) : Reply VolReply :=
  match _symbol symbol with
  | HttpError code => HttpError code
  | Failed ex => Failed ex
  | Answer sym =>
      match _bars_from_cache ks sym limit with
      | Raise ex => Failed ex
      | Ok rows => if (length rows <? _MIN_BARS)%nat then HttpError 409 else of_result (vol_reply sym est rows now)
      end
  end.

(** The payload of the comparison: the window's figures and each annualised sigma. *)
Record Comparison := {
  cmp_symbol : string;
  cmp_bars_used : Z;
  cmp_window : WindowFigures;
  cmp_estimators : list (Estimator * F);
}.

Definition comparison (sym : string) (rows : list (Bar F)) (now : datetime) : result Comparison :=
  window ← _window rows;
  sigmas ← mapR (fun '(est, f) =>
    sigma ← f rows;
    snap ← VolSnapshot_build sym est (wf_window_s window) sigma (py_len rows) _BAR_SECONDS None None now;
    Ok (est, sigma_annualized snap)) _ESTIMATORS;
  Ok {| cmp_symbol := sym; cmp_bars_used := py_len rows; cmp_window := window; cmp_estimators := sigmas |}.

(* ------------------------------------------------------------------ *)
(** ** The cache of comparisons *)

(** The entries in order of insertion: when each was stored, in the unit of
    [time.monotonic()], and its value. *)
Abbreviation cache := (list ((string * Z) * (Z * Comparison))).
Implicit Types (c : cache) (k : string * Z).

Definition cache_find k c : option (Z * Comparison) := snd <$> List.find (fun e => bool_decide (e.1 = k)) c.
Definition cache_drop k c : cache := List.filter (fun e => negb (bool_decide (e.1 = k))) c.

Definition cache_get (now ttl : Z) k c : cache * option Comparison :=
  match cache_find k c with
  | None => (c, None)
  | Some (stored_at, value) => if ttl <? now - stored_at then (cache_drop k c, None) else (c, Some value)
  end.

Fixpoint cache_set k (v : Z * Comparison) c : cache :=
  match c with
  | [] => [(k, v)]
  | e :: c => if bool_decide (e.1 = k) then (k, v) :: c else e :: cache_set k v c
  end.

Definition cache_put (max : nat) (now : Z) k (value : Comparison) c : cache :=
  cache_set k (now, value) (if (max <=? length c)%nat then tail c else c).

(** The outcome of a request: the cache, the client's counter and the reply. *)
Definition compare_estimators (limit_per_min cache_s : Z) (max : nat) ks c (rate : option Counter)
    (symbol : string) (limit : Z) (redis_ms mono : Z) (cut : bool) (now : datetime)
    : cache * option Counter * Reply Comparison :=
  match _symbol symbol with
  | HttpError code => (c, rate, HttpError code)
  | Failed ex => (c, rate, Failed ex)
  | Answer sym =>
      let '(rate, verdict) := hit limit_per_min 60 redis_ms cut rate in
      match verdict with
      | Raise ex => (c, rate, Failed ex)
      | Ok v =>
          if negb (allowed v) then (c, rate, HttpError 429)
          else
            let '(c, cached) := cache_get mono cache_s (sym, limit) c in
            match cached with
            | Some payload => (c, rate, Answer payload)
            | None =>
                match _bars_from_cache ks sym limit with
                | Raise ex => (c, rate, Failed ex)
                | Ok rows =>
                    if (length rows <? _MIN_BARS)%nat then (c, rate, HttpError 409)
                    else
                      match comparison sym rows now with
                      | Raise ex => (c, rate, Failed ex)
                      | Ok payload => (cache_put max mono (sym, limit) payload c, rate, Answer payload)
                      end
                end
            end
      end
  end.

(* ------------------------------------------------------------------ *)
(** ** The cache keeps its bound *)

Lemma cache_set_length k v c : (length (cache_set k v c) <= S (length c))%nat.
Proof. induction c as [|e c IH]; cbn; [lia|]. case_bool_decide; cbn; lia. Qed.

Lemma cache_put_bounded max now k value c :
  (0 < max)%nat -> (length c <= max)%nat -> (length (cache_put max now k value c) <= max)%nat.
Proof.
  intros Hmax Hc. unfold cache_put. destruct (Nat.leb_spec max (length c)) as [Hfull|Hfull].
  - pose proof (cache_set_length k (now, value) (tail c)). destruct c; cbn in *; lia.
  - pose proof (cache_set_length k (now, value) c). lia.
Qed.

(** The streaming estimator is a value of the parameter and has no function: with the
    bars at hand the request ends in a [KeyError], which the framework answers with a
    500. *)
Lemma ewma_request_fails ks symbol limit now rows :
  is_pair (strip_upper symbol) = true -> _bars_from_cache ks (strip_upper symbol) limit = Ok rows ->
  (_MIN_BARS <= length rows)%nat -> volatility ks symbol EWMA limit now = Failed KeyError.
Proof.
  intros Hpair Hrows Hlen. unfold volatility, _symbol. rewrite Hpair, Hrows.
  rewrite (proj2 (Nat.ltb_ge _ _)) by done. unfold vol_reply, _window.
  unfold _MIN_BARS in Hlen. destruct rows as [|b rows _] using rev_ind; [cbn in Hlen; lia|].
  assert (Hfirst : exists a, py_index (rows ++ [b]) 0 = Ok a)
    by (destruct rows as [|a rows]; eexists; by apply py_index_ok).
  destruct Hfirst as [a ->]. by rewrite py_index_last.
Qed.
End Market.
