(* ===== verification/Chart.v ===== *)
(** * From a tick to the chart

    The ingestor's transactions, the histories it seeds, what recovery adds, the sorted
    set of the hot cache, its expiry, and the API's reading of it, composed: what a
    chart shows is the newest of what was written for it. *)
From S2P Require Import Prelude PyFloat Binary64 Civil Volatility Models Buckets Ranges Baseline Seasonality.
From S2P Require Import Calendar Hysteresis Detector Intervals Redis Json Keys Text Pipeline Streams Database.
From S2P Require Import Persister ExactlyOnce Alerts Wire Agreement RecoveryPlan RecoveryStore Rehydrate Limits Market.
From Stdlib Require Import SpecFloat.

Local Open Scope Z_scope.

(* ------------------------------------------------------------------ *)
(** ** The end of a list *)

Lemma lastn_lastn {A} a b (l : list A) : lastn a (lastn b l) = lastn (a `min` b) l.
Proof. unfold lastn. rewrite length_drop, drop_drop. f_equal. lia. Qed.

Lemma lastn_fmap {A B} (f : A -> B) n (l : list A) : lastn n (f <$> l) = f <$> lastn n l.
Proof. unfold lastn. by rewrite fmap_drop, length_fmap. Qed.

Lemma lastn_all {A} n (l : list A) : (length l <= n)%nat -> lastn n l = l.
Proof. intros Hn. unfold lastn. by replace (length l - n)%nat with 0%nat by lia. Qed.

Lemma lastn_snoc {A} n (l : list A) x : (0 < n)%nat -> lastn n (lastn n l ++ [x]) = lastn n (l ++ [x]).
Proof.
  intros Hn. unfold lastn. rewrite !length_app, length_drop. cbn [length].
  destruct (Nat.le_gt_cases (length l) n) as [Hle|Hgt].
  - replace (length l - n)%nat with 0%nat by lia. by rewrite drop_0, Nat.sub_0_r.
  - replace (length l - (length l - n) + 1 - n)%nat with 1%nat by lia.
    assert (H1' : (1 <= length (drop (length l - n) l))%nat) by (rewrite length_drop; lia).
    assert (H2' : (length l + 1 - n <= length l)%nat) by lia.
    rewrite (drop_app_le _ _ _ H1'), (drop_app_le _ _ _ H2'), drop_drop. do 2 f_equal. lia.
Qed.

Lemma sorted_fmap {A B} (f : A -> B) (R : A -> A -> Prop) (S : B -> B -> Prop) l :
  (forall x y, x ∈ l -> y ∈ l -> R x y -> S (f x) (f y)) -> StronglySorted R l -> StronglySorted S (f <$> l).
Proof.
  intros Hf. induction 1 as [|a l Hs IH Hall]; cbn; constructor.
  - apply IH. intros x y Hx Hy. apply Hf; by apply list_elem_of_further.
  - apply Forall_fmap. rewrite Forall_forall in Hall. apply Forall_forall. intros y Hy.
    apply Hf; [apply list_elem_of_here|by apply list_elem_of_further|by apply Hall].
Qed.

(** [ZREVRANGE key 0 (n - 1)], reversed. *)
Lemma newest_of `{SortedSet} n z :
  0 < n -> reverse (zrevrange 0 (n - 1) z) = snd <$> lastn (Z.to_nat n) (zentries z).
Proof.
  intros Hn. unfold zrevrange, rank_range, rank_from, rank_upto, lastn. rewrite length_reverse.
  rewrite (proj2 (Z.ltb_ge 0 0)), (proj2 (Z.ltb_ge (n - 1) 0)) by lia.
  replace (n - 1 + 1) with n by lia. change (Z.to_nat 0) with 0%nat. rewrite drop_0, <- fmap_reverse. f_equal.
  by rewrite take_reverse, reverse_involutive.
Qed.

(* ------------------------------------------------------------------ *)
(** ** The hot cache *)

Definition before_score (a b : entry) : Prop := a.1 < b.1.

(** A newer score goes to the end. *)
Lemma zadd_newest `{SortedSet} s m z :
  StronglySorted before_score (zentries z) -> (forall e, e ∈ zentries z -> e.1 < s /\ e.2 <> m) ->
  zentries (zadd s m z) = zentries z ++ [(s, m)].
Proof.
  intros Hz Hnew.
  assert (Hsorted : StronglySorted before_score (zentries z ++ [(s, m)])).
  { apply sorted_snoc_lt; [done|]. apply Forall_forall. intros e He. by apply Hnew. }
  assert (Hperm : zentries (zadd s m z) ≡ₚ zentries z ++ [(s, m)]).
  { rewrite zadd_fresh; [by rewrite Permutation_cons_append|].
    intros (e & -> & He)%list_elem_of_fmap. by apply (Hnew e He). }
  apply (StronglySorted_unique_strong by_score); [|apply zentries_sorted| |done].
  - intros x y Hx Hy Hxy Hyx. rewrite Hperm in Hx.
    assert (x.1 = y.1) as Hs by (unfold by_score in *; lia). clear Hxy Hyx Hperm.
    induction Hsorted as [|a l _ IH Hall]; [by apply elem_of_nil in Hx|].
    rewrite Forall_forall in Hall. unfold before_score in Hall.
    rewrite elem_of_cons in Hx, Hy. destruct Hx as [->|Hx], Hy as [->|Hy]; [done| | |by apply IH].
    + specialize (Hall y Hy). lia.
    + specialize (Hall x Hx). lia.
  - clear -Hsorted. induction Hsorted as [|a l _ IH Hall]; constructor; [done|].
    eapply Forall_impl; [exact Hall|]. unfold before_score, by_score. intros b ?. lia.
Qed.

(** [ZREMRANGEBYRANK key 0 -1441] keeps the newest 1440. *)
Lemma keep_newest `{SortedSet} z : zentries (zremrangebyrank 0 (-1441) z) = lastn 1440 (zentries z).
Proof.
  rewrite zremrangebyrank_entries. unfold without_ranks, rank_from, rank_upto, lastn.
  set (n := length (zentries z)). cbn [Z.ltb]. change (Z.to_nat 0) with 0%nat. change (0 <? 0) with false. cbv iota.
  change (-1441 <? 0) with true. cbv iota.
  replace (Z.to_nat (-1441 + Z.of_nat n + 1)) with (n - 1440)%nat by lia.
  change (Z.to_nat 0) with 0%nat. destruct (Nat.ltb_spec 0 (n - 1440)); [done|]. by replace (n - 1440)%nat with 0%nat by lia.
Qed.

Lemma string_length_append (a b : string) : String.length (a +:+ b) = (String.length a + String.length b)%nat.
Proof. induction a as [|c a IH]; [done|]. change (S (String.length (a +:+ b)) = S (String.length a + String.length b))%nat. by rewrite IH. Qed.

Lemma append_cancel (a b t : string) : a +:+ t = b +:+ t -> a = b.
Proof.
  revert b. induction a as [|c a IH]; intros [|d b] Heq; [done| | |].
  - apply (f_equal String.length) in Heq. rewrite !string_length_append in Heq. cbn [String.length] in Heq. lia.
  - apply (f_equal String.length) in Heq. rewrite !string_length_append in Heq. cbn [String.length] in Heq. lia.
  - cbn in Heq. injection Heq as -> Heq. f_equal. by apply IH.
Qed.

Lemma minutes_of_symbol s s' : String.eqb (history s "1m") (history s' "1m") = String.eqb s s'.
Proof.
  destruct (String.eqb_spec s s') as [->|Hne]; [apply String.eqb_refl|]. apply String.eqb_neq.
  unfold history. intros Heq. apply Hne. cbn in Heq. injection Heq as Heq. exact (append_cancel s s' (":" +:+ "1m") Heq).
Qed.

Section Chart.
Context {F : Type} `{PyFloat F, !PyFloatOrder F} `{IsoFormat} `{JsonText F} `{NewYork} `{SortedSet}.
Context (repr : F -> string) (reason_text : Reason F -> string) (int_of : F -> result Z).
Context (strip_upper : string -> string).
Implicit Types (p : IngestPipeline F) (b : Bar F) (ks : string -> zset).
Notation handle := (handle repr reason_text int_of).

(** A bar as the hot cache holds it. *)
Definition stored b : entry := (int_timestamp (bucket b), dumps (JObj (bar_payload b))).

Lemma zexec_app key cs cs' z : zexec key (cs ++ cs') z = zexec key cs' (zexec key cs z).
Proof. apply fold_left_app. Qed.

Lemma zexec_history key b symbol z :
  zexec key (history_commands b symbol) z =
    if String.eqb (history symbol "1m") key then zremrangebyrank 0 (-1441) (zadd (int_timestamp (bucket b)) (dumps (JObj (bar_payload b))) z) else z.
Proof. unfold history_commands, zexec. cbn [fold_left zexec_one]. by destruct (String.eqb (history symbol "1m") key). Qed.

(** Bars a minute apart or more. *)
Definition ascending (bs : list (Bar F)) : Prop :=
  StronglySorted (fun x y => bucket x < bucket y) bs /\ Forall (fun b => (seconds 60 | bucket b)) bs.

Lemma minute_stamp t : (seconds 60 | t) -> t = int_timestamp t * MICRO /\ int_timestamp t mod 60 = 0.
Proof.
  intros [k ->]. unfold int_timestamp, seconds. replace (k * (60 * MICRO)) with (k * 60 * MICRO) by lia.
  rewrite Z.quot_mul by done. split; [done|]. by rewrite Z.mod_mul.
Qed.

Lemma minute_stamp_lt x y : (seconds 60 | x) -> (seconds 60 | y) -> x < y -> int_timestamp x < int_timestamp y.
Proof. intros [Ha _]%minute_stamp [Hb _]%minute_stamp Hlt. rewrite Ha, Hb in Hlt. unfold MICRO in Hlt. lia. Qed.

Lemma stored_sorted bs : ascending bs -> StronglySorted before_score (stored <$> bs).
Proof.
  intros [Hs Hall]. rewrite Forall_forall in Hall. revert Hs. apply sorted_fmap.
  intros x y Hx Hy. unfold before_score, stored. apply minute_stamp_lt; by apply Hall.
Qed.

Lemma sorted_lastn {A} (R : A -> A -> Prop) n l : StronglySorted R l -> StronglySorted R (lastn n l).
Proof. intros Hl. unfold lastn. rewrite <- (take_drop (length l - n) l) in Hl. by apply StronglySorted_app in Hl as (_ & _ & ?). Qed.

Lemma elem_of_lastn {A} n (l : list A) x : x ∈ lastn n l -> x ∈ l.
Proof. intros Hx. unfold lastn in Hx. rewrite <- (take_drop (length l - n) l). apply elem_of_app. by right. Qed.

(** One more sealed bar. *)
Lemma store_newest bs b symbol z :
  ascending (bs ++ [b]) -> zentries z = stored <$> lastn 1440 bs ->
  zentries (zexec (history symbol "1m") (history_commands b symbol) z) = stored <$> lastn 1440 (bs ++ [b]).
Proof.
  intros [Hs Hall] Hz. rewrite zexec_history, String.eqb_refl, keep_newest.
  apply StronglySorted_app in Hs as (Hlt & Hs & _). apply Forall_app in Hall as [Hall Hb].
  rewrite Forall_singleton in Hb. rewrite Forall_forall in Hall.
  assert (Hmin : forall b', b' ∈ lastn 1440 bs -> int_timestamp (bucket b') < int_timestamp (bucket b)).
  { intros b' Hb'%elem_of_lastn. apply minute_stamp_lt; [by apply Hall|done|].
    apply Hlt; [done|apply list_elem_of_here]. }
  rewrite zadd_newest.
  - rewrite Hz. change [(int_timestamp (bucket b), dumps (JObj (bar_payload b)))] with (stored <$> [b]). rewrite <- fmap_app, lastn_fmap, lastn_snoc by lia. done.
  - rewrite Hz. apply stored_sorted. split; [by apply sorted_lastn|].
    apply Forall_forall. intros b' Hb'%elem_of_lastn. by apply Hall.
  - rewrite Hz. intros e (b' & -> & Hb')%list_elem_of_fmap. cbn. specialize (Hmin b' Hb').
    split; [done|]. intros Heq. apply (f_equal loads) in Heq. rewrite !loads_dumps in Heq.
    injection Heq as Heq _ _ _ _ _ _. lia.
Qed.

(* ------------------------------------------------------------------ *)
(** ** A transaction *)

(** A command that leaves the sorted set at a key alone. *)
Definition spares_key (key : string) (c : Command) : Prop :=
  match c with
  | ZAdd k _ _ | ZRemRangeByRank k _ _ | ZRemRangeByScore k _ _ => String.eqb k key = false
  | _ => True
  end.

Lemma zexec_spared key cs z : Forall (spares_key key) cs -> zexec key cs z = z.
Proof.
  unfold zexec. induction 1 as [|c cs Hc _ IH]; [done|]. cbn [fold_left].
  assert (zexec_one key z c = z) as ->; [|exact IH]. destruct c; cbn in *; by rewrite ?Hc.
Qed.

Lemma seal_bar_spares p st b now st' cs o symbol :
  seal_bar repr reason_text int_of p st b now = Ok (st', cs, o) -> Forall (spares_key (history symbol "1m")) cs.
Proof.
  unfold seal_bar. intros Hs. apply bind_ok in Hs as (realized & _ & Hs). apply bind_ok in Hs as (vol & _ & Hs).
  apply bind_ok in Hs as ([d o'] & Hd & Hs). apply bind_ok in Hs as (vc & Hv & Heq).
  injection Heq as <- <- <-. apply Forall_app. split; [|apply Forall_cons; split; [done|]].
  - unfold queue_vol_snapshot in Hv. inv_result. repeat (apply Forall_cons; split; [done|]).
    unfold zhist_commands. destruct (last_zscore _) as [z|]; [|constructor]. destruct (f_isfinite z); by repeat constructor.
  - destruct o'; by repeat constructor.
Qed.

(** What the transaction of a tick does to the minutes of a symbol. *)
Lemma handle_history p tick now h symbol z :
  handle p tick now = Ok h ->
  zexec (history symbol "1m") (h_commands h) z =
    match h_sealed h with
    | Some b => if String.eqb symbol (tick_symbol tick) then zexec (history symbol "1m") (history_commands b symbol) z else z
    | None => z
    end.
Proof.
  unfold Pipeline.handle. destruct (held_back p tick); [by intros [= <-]|]. intros Hh.
  apply bind_ok in Hh as ([p1 st] & _ & Hh). destruct (roll p1 st tick) as [st1 sealed].
  apply bind_ok in Hh as (st2 & _ & Hh). apply bind_ok in Hh as ([[st3 cs] o] & Hwr & [= <-]).
  cbn [h_commands h_sealed]. unfold write in Hwr. destruct (ss_bucket st2) as [a|]; [|done].
  assert (Htick : forall z, zexec (history symbol "1m") (tick_commands repr p1 tick a now) z = z)
    by (intros; apply zexec_spared; by repeat constructor).
  destruct sealed as [b|]; [|by injection Hwr as <- <- <-].
  apply bind_ok in Hwr as ([[st4 bc] o'] & Hseal & Heq). apply (seal_bar_spares _ _ _ _ _ _ _ symbol) in Hseal.
  assert (cs = tick_commands repr p1 tick a now ++ history_commands b (tick_symbol tick) ++ bc) as ->
    by (injection Heq as _ Hcs _; exact (eq_sym Hcs)).
  rewrite !zexec_app, Htick, (zexec_spared _ bc) by done. rewrite !zexec_history, String.eqb_refl, minutes_of_symbol.
  rewrite (String.eqb_sym (tick_symbol tick)). done.
Qed.

(* ------------------------------------------------------------------ *)
(** ** Everyone who writes a chart's minutes *)

Notation minutes_key symbol := (history symbol "1m").

(** The leader's pipeline, the sorted sets of Redis and, which only statements read,
    what was written into each symbol's minutes since they last were empty. *)
Record Cache := {
  ca_pipeline : IngestPipeline F;
  ca_sets : string -> zset;
  ca_written : string -> list entry;
}.
Definition cache_new p : Cache := {| ca_pipeline := p; ca_sets := fun _ => zempty; ca_written := fun _ => [] |}.

Inductive CacheEvent :=
  (** another process leads, with the pipeline it has *)
  | Leads (p : IngestPipeline F)
  (** a tick; the id is that of its entry in the stream *)
  | Ticked (i : Tick F * datetime * stream_id)
  (** [seed_history] for one symbol, with what the provider returned; the check and the
      write are one step: the leader seeds before it handles a tick, and recovery
      leaves an absent series alone *)
  | Seeded (symbol : string) (bs : list (Bar F))
  (** [cache_add] of a recovery run *)
  | Repaired (symbol : string) (bs : list (Bar F)) (run_id : string)
  (** no bar was written for [TTL_HISTORY_S]; or Redis lost the key *)
  | Expired (symbol : string).

Definition at_key {A} (k : string) (a : A) (f : string -> A) : string -> A :=
  fun k' => if String.eqb k k' then a else f k'.
Definition written_more (symbol : string) (es : list entry) (w : string -> list entry) : string -> list entry :=
  at_key symbol (w symbol ++ es) w.

(** [seed_history] of one symbol: only an empty series is written. *)
Definition seed_history (symbol : string) (bs : list (Bar F)) ks : string -> zset :=
  if zexists (ks (minutes_key symbol)) then ks
  else fun key => zexec key (store_history symbol "1m" bs) (ks key).

(** The script of [cache_add] at the symbol's minutes. *)
Definition repair (symbol : string) (bs : list (Bar F)) (run_id : string) ks : string -> zset :=
  at_key (minutes_key symbol)
    (cache_add_script (ks (minutes_key symbol)) HOT_CACHE_BARS (cache_args dumps run_id bs)).1 ks.

(** A step, with the bar a tick seals. *)
Definition cache_step (s : Cache) (ev : CacheEvent) : result (Cache * option (Bar F * datetime)) :=
  let sets := ca_sets s in
  let written := ca_written s in
  match ev with
  | Leads p => Ok ({| ca_pipeline := p; ca_sets := sets; ca_written := written |}, None)
  | Ticked (tick, now, _) =>
      h ← handle (ca_pipeline s) tick now;
      Ok ({| ca_pipeline := h_pipeline h;
             ca_sets := fun key => zexec key (h_commands h) (sets key);
             ca_written := written_more (tick_symbol tick) (opt_list (stored <$> h_sealed h)) written |},
          (fun b => (b, ts_event tick)) <$> h_sealed h)
  | Seeded symbol bs =>
      let es := if zexists (sets (minutes_key symbol)) then [] else stored <$> bs in
      Ok ({| ca_pipeline := ca_pipeline s; ca_sets := seed_history symbol bs sets;
             ca_written := written_more symbol es written |}, None)
  | Repaired symbol bs run_id =>
      let sets' := repair symbol bs run_id sets in
      let es := List.filter (fun e => bool_decide (e ∈ zentries (sets' (minutes_key symbol)))) (cache_args dumps run_id bs) in
      Ok ({| ca_pipeline := ca_pipeline s; ca_sets := sets'; ca_written := written_more symbol es written |}, None)
  | Expired symbol =>
      Ok ({| ca_pipeline := ca_pipeline s; ca_sets := at_key (minutes_key symbol) zempty sets;
             ca_written := at_key symbol [] written |}, None)
  end.

(** An entry as the API reads it. *)
Definition read_entry (e : entry) : result (BaseBar F) := j ← loads e.2; base_bar_of j.
Definition readable (e : entry) : Prop := exists bb, read_entry e = Ok bb /\ bb_t bb = e.1.

Lemma stored_readable b : readable (stored b).
Proof. unfold readable, read_entry, stored. cbn [snd]. rewrite loads_dumps. eexists. split; [reflexivity|done]. Qed.

Lemma repaired_readable run_id bs e : e ∈ cache_args dumps run_id bs -> readable e.
Proof.
  intros (b & -> & _)%list_elem_of_fmap. unfold readable, read_entry, cache_member. cbn [snd].
  rewrite loads_dumps. eexists. split; [reflexivity|done].
Qed.

(** The text of a readable entry tells its score. *)
Lemma readable_score e e' : readable e -> readable e' -> e.2 = e'.2 -> e = e'.
Proof.
  intros (bb & Hr & Ht) (bb' & Hr' & Ht') Heq. unfold read_entry in *. rewrite Heq, Hr' in Hr. injection Hr as <-.
  destruct e, e'. cbn in *. congruence.
Qed.

(** The newest of what was written: nothing else, and nothing missing but what is no
    newer than all of 1440 others. *)
Record newest (z : zset) (w : list entry) : Prop := {
  nw_nodup : NoDup (zentries z).*2;
  nw_from e : e ∈ zentries z -> e ∈ w;
  nw_all e : e ∈ w -> e ∈ zentries z \/ (1440 <= length (zentries z))%nat /\ Forall (by_score e) (zentries z);
  nw_read e : e ∈ w -> readable e;
}.

Lemma newest_empty : newest zempty [].
Proof. constructor; rewrite ?zentries_empty; [constructor| | |]; intros e He; by apply elem_of_nil in He. Qed.

Lemma newest_unwritten z w : newest z w -> zexists z = false -> zentries z = [] /\ w = [].
Proof.
  intros [_ _ Hall _]. unfold zexists. destruct (zentries z); [|done]. intros _. split; [done|].
  destruct w as [|e w]; [done|]. destruct (Hall e (list_elem_of_here _ _)) as [He|[He _]]; [by apply elem_of_nil in He|cbn in He; lia].
Qed.

(** [ZADD] of a readable entry. *)
Lemma zadd_readable e z :
  readable e -> (forall e', e' ∈ zentries z -> readable e') -> NoDup (zentries z).*2 ->
  NoDup (zentries (zadd e.1 e.2 z)).*2 /\
  (forall e', e' ∈ zentries (zadd e.1 e.2 z) <-> e' = e \/ e' ∈ zentries z) /\
  (e ∉ zentries z -> zentries (zadd e.1 e.2 z) ≡ₚ e :: zentries z).
Proof.
  intros He Hz Hn. pose proof (zadd_entries e.1 e.2 z) as Hp. rewrite <- surjective_pairing in Hp.
  set (rest := List.filter _ _) in Hp.
  assert (Hrest : forall e', e' ∈ rest <-> e' ∈ zentries z /\ e'.2 <> e.2).
  { intros e'. unfold rest. rewrite elem_of_lfilter, negb_true_iff, bool_decide_eq_false. done. }
  assert (Hmem : forall e', e' ∈ e :: rest <-> e' = e \/ e' ∈ zentries z).
  { intros e'. rewrite elem_of_cons, Hrest. split; [tauto|]. intros [->|Hin]; [by left|].
    destruct (decide (e'.2 = e.2)) as [Heq|]; [left|by right]. apply readable_score; [by apply Hz|done|done]. }
  split_and!.
  - rewrite Hp. cbn. apply NoDup_cons. split.
    + intros (e' & Heq & [_ Hne]%Hrest)%list_elem_of_fmap. by symmetry in Heq.
    + clear -Hn. unfold rest. induction (zentries z) as [|x l IH]; [constructor|]. cbn in *. apply NoDup_cons in Hn as [Hx Hn].
      destruct (negb _); [|by apply IH]. cbn. apply NoDup_cons. split; [|by apply IH].
      intros (y & Hxy & [Hy _]%elem_of_lfilter)%list_elem_of_fmap. apply Hx. apply list_elem_of_fmap. by exists y.
  - intros e'. by rewrite Hp.
  - intros Hni. rewrite Hp. f_equiv. unfold rest. clear -Hni He Hz. induction (zentries z) as [|x l IH]; [done|]. cbn.
    apply not_elem_of_cons in Hni as [Hne Hni]. rewrite bool_decide_eq_false_2.
    + cbn. f_equiv. apply IH; [|done]. intros e' He'. apply Hz. by apply list_elem_of_further.
    + intros Heq. apply Hne. symmetry. apply readable_score; [apply Hz, list_elem_of_here|done|done].
Qed.

Lemma lastn_suffix {A} n (l : list A) : l = take (length l - n) l ++ lastn n l.
Proof. symmetry. apply take_drop. Qed.

Lemma sorted_before_lastn {A} (R : A -> A -> Prop) n l x :
  StronglySorted R l -> x ∈ l -> x ∈ lastn n l \/ length (lastn n l) = n /\ Forall (R x) (lastn n l).
Proof.
  intros Hs Hx. rewrite (lastn_suffix n l) in Hx. apply elem_of_app in Hx as [Hx|Hx]; [right|by left].
  assert (n < length l)%nat as Hlen.
  { destruct (decide (n < length l)%nat); [done|]. replace (length l - n)%nat with 0%nat in Hx by lia. by apply elem_of_nil in Hx. }
  split; [unfold lastn; rewrite length_drop; lia|].
  rewrite (lastn_suffix n l) in Hs. apply StronglySorted_app in Hs as (Hb & _ & _). apply Forall_forall. intros y Hy. by apply Hb.
Qed.

(** What the live writer and the script both do: add, and keep the newest 1440. *)
Lemma newest_add z w e :
  newest z w -> readable e -> newest (zremrangebyrank 0 (-1441) (zadd e.1 e.2 z)) (w ++ [e]).
Proof.
  intros [Hn Hfrom Hall Hread] He. assert (Hz : forall e', e' ∈ zentries z -> readable e') by (intros; by apply Hread, Hfrom).
  destruct (zadd_readable e z He Hz Hn) as (Hn' & Hmem & Hfresh).
  pose proof (zentries_sorted (zadd e.1 e.2 z)) as Hsort. set (l := zentries (zadd e.1 e.2 z)) in *.
  constructor; rewrite ?keep_newest; fold l.
  - rewrite <- lastn_fmap. rewrite (lastn_suffix 1440 (l.*2)) in Hn'. by apply NoDup_app in Hn' as (_ & _ & ?).
  - intros e' [->|Hin]%elem_of_lastn%Hmem; apply elem_of_app; [right; apply list_elem_of_here|left; by apply Hfrom].
  - intros x Hx. destruct (decide (x ∈ l)) as [Hin|Hout].
    { destruct (sorted_before_lastn by_score 1440 l x Hsort Hin) as [|[Hl Hf]]; [by left|right]. split; [by rewrite Hl|done]. }
    right. rewrite Hmem in Hout. apply elem_of_app in Hx as [Hx|Hx%list_elem_of_singleton]; [|tauto].
    destruct (Hall x Hx) as [|[Hlen Hlow]]; [tauto|]. rewrite Forall_forall in Hlow.
    destruct (decide (e ∈ zentries z)) as [Hez|Hez].
    + assert (Hlow' : Forall (by_score x) (lastn 1440 l)).
      { apply Forall_forall. intros y [->|Hy]%elem_of_lastn%Hmem; by apply Hlow. }
      split; [|done]. destruct (decide (1440 <= length l)%nat) as [Hl|Hl]; [unfold lastn; rewrite length_drop; lia|].
      exfalso. apply Hl. etrans; [exact Hlen|]. apply submseteq_length, NoDup_submseteq.
      * by eapply NoDup_fmap_1.
      * intros y Hy. apply Hmem. by right.
    + specialize (Hfresh Hez). fold l in Hfresh. assert (Hl : length l = S (length (zentries z))) by (by rewrite Hfresh).
      split; [unfold lastn; rewrite length_drop; lia|]. apply Forall_forall. intros y Hy.
      pose proof Hy as [->|Hyz]%elem_of_lastn%Hmem; [|by apply Hlow].
      destruct (Z.le_gt_cases x.1 e.1) as [|Hlt]; [done|exfalso].
      destruct l as [|a l'] eqn:El; [done|].
      assert (a = e) as ->.
      { assert (e ∈ a :: l') as Hel by (rewrite Hfresh; apply list_elem_of_here).
        apply elem_of_cons in Hel as [|Hel]; [done|]. apply StronglySorted_inv in Hsort as [_ Hsort].
        rewrite Forall_forall in Hsort. specialize (Hsort e Hel). unfold by_score in Hsort.
        destruct (proj1 (Hmem a) (list_elem_of_here _ _)) as [|Haz]; [done|]. specialize (Hlow a Haz). unfold by_score in Hlow. lia. }
      cbn in Hn'. apply NoDup_cons in Hn' as [Hne _]. apply Hne. apply list_elem_of_fmap. exists e. split; [done|].
      unfold lastn in Hy. cbn [length] in Hy. replace (S (length l') - 1440)%nat with (S (length l' - 1440)) in Hy by (cbn in Hl; lia).
      cbn in Hy. rewrite <- (take_drop (length l' - 1440) l'). apply elem_of_app. by right.
  - intros x [Hx|Hx%list_elem_of_singleton]%elem_of_app; [by apply Hread|by subst].
Qed.

Lemma concat_chunks {A} fuel (l : list A) : (length l <= fuel)%nat -> concat (chunks fuel l) = l.
Proof.
  revert l. induction fuel as [|fuel IH]; intros [|x l] Hl; [done|cbn in Hl; lia|done|].
  change (take CHUNK (x :: l) ++ concat (chunks fuel (drop CHUNK (x :: l))) = x :: l).
  rewrite IH; [apply take_drop|]. rewrite length_drop. cbn [length] in *. unfold CHUNK. lia.
Qed.

Lemma zexec_store symbol key bs z :
  zexec key (store_history symbol "1m" bs) z =
  if String.eqb (minutes_key symbol) key then
    match bs with
    | [] => z
    | b0 :: bs' => fold_left (fun z b => zadd (stored b).1 (stored b).2 z) bs
        (zremrangebyscore (Some (foldr Z.min (int_timestamp (bucket b0)) ((fun b => int_timestamp (bucket b)) <$> bs')))
           (foldr Z.max (int_timestamp (bucket b0)) ((fun b => int_timestamp (bucket b)) <$> bs')) z)
    end
  else z.
Proof.
  destruct bs as [|b0 bs']; [by destruct (String.eqb _ _)|]. unfold store_history. rewrite fmap_cons. cbv zeta.
  rewrite concat_chunks by done. set (bs := b0 :: bs'). unfold zexec. cbn [fold_left zexec_one].
  rewrite fold_left_app. cbn [fold_left zexec_one]. destruct (String.eqb (minutes_key symbol) key) eqn:Hk.
  - generalize (zremrangebyscore (Some (foldr Z.min (int_timestamp (bucket b0)) ((fun b => int_timestamp (bucket b)) <$> bs')))
      (foldr Z.max (int_timestamp (bucket b0)) ((fun b => int_timestamp (bucket b)) <$> bs')) z) as z0.
    induction bs as [|b bs IH]; intros z0; [done|]. cbn [mbind list_bind app fold_left zexec_one]. rewrite Hk. apply IH.
  - induction bs as [|b bs IH]; [done|]. cbn [mbind list_bind app fold_left zexec_one]. by rewrite Hk.
Qed.

(** A seeded series holds all of what the provider returned. *)
Lemma newest_seed z bs :
  zentries z = [] ->
  newest (fold_left (fun z b => zadd (stored b).1 (stored b).2 z) bs z) (stored <$> bs).
Proof.
  intros Hz. assert (Hgen : NoDup (zentries (fold_left (fun z b => zadd (stored b).1 (stored b).2 z) bs z)).*2 /\
    forall e, e ∈ zentries (fold_left (fun z b => zadd (stored b).1 (stored b).2 z) bs z) <-> e ∈ stored <$> bs).
  { induction bs as [|b bs [IHn IHe]] using rev_ind; [cbn; rewrite Hz; split; [constructor|done]|].
    rewrite fold_left_snoc. set (z0 := fold_left _ bs z) in *.
    destruct (zadd_readable (stored b) z0 (stored_readable b)) as (Hn & Hm & _); [|done|].
    - intros e (b' & -> & _)%IHe%list_elem_of_fmap. apply stored_readable.
    - split; [done|]. intros e. rewrite Hm, IHe, fmap_app, elem_of_app. cbn [fmap list_fmap].
      rewrite list_elem_of_singleton. tauto. }
  destruct Hgen as [Hn Hm]. constructor; [done|by intros e ?%Hm|intros e He; left; by apply Hm|].
  intros e (b & -> & _)%list_elem_of_fmap. apply stored_readable.
Qed.

Lemma newest_repair z w run_id bs :
  newest z w ->
  let z' := (cache_add_script z HOT_CACHE_BARS (cache_args dumps run_id bs)).1 in
  newest z' (w ++ List.filter (fun e => bool_decide (e ∈ zentries z')) (cache_args dumps run_id bs)).
Proof.
  intros Hw z'. set (args := cache_args dumps run_id bs) in *.
  assert (Hgen : exists d, d ⊆ args /\ newest z' (w ++ d)).
  { unfold z', cache_add_script. destruct (zexists z); [|exists []; rewrite app_nil_r; by split; [set_solver|]].
    assert (Hall : forall e, e ∈ args -> readable e) by (intros e; apply repaired_readable).
    assert (Hfold : forall todo z n d, todo ⊆ args -> d ⊆ args -> newest z (w ++ d) ->
      exists d', d' ⊆ args /\ newest (fold_left (cache_add_one HOT_CACHE_BARS) todo (z, n)).1 (w ++ d')).
    { induction todo as [|[t m] todo IH]; intros z0 n d Ht Hd Hz; [by exists d|]. cbn [fold_left].
      assert (Hadd : exists z1 n1 d1, cache_add_one HOT_CACHE_BARS (z0, n) (t, m) = (z1, n1) /\ d1 ⊆ args /\ newest z1 (w ++ d1)).
      { unfold cache_add_one. destruct (take 1 _); [|by eexists _, _, d]. cbv zeta.
        destruct (if HOT_CACHE_BARS <=? zcard z0 then _ else true); [|by eexists _, _, d].
        eexists _, _, (d ++ [(t, m)]). split; [done|]. split; [set_solver|]. rewrite app_assoc.
        apply (newest_add z0 (w ++ d) (t, m)); [done|]. apply Hall. set_solver. }
      destruct Hadd as (z1 & n1 & d1 & -> & Hd1 & Hz1). apply (IH z1 n1 d1); [set_solver|done..]. }
    apply (Hfold args z 0 []); [done|set_solver|by rewrite app_nil_r]. }
  destruct Hgen as (d & Hd & [Hn Hfrom Hall Hread]). constructor.
  - done.
  - intros e He. pose proof (Hfrom e He) as [|Hed]%elem_of_app; apply elem_of_app; [by left|right].
    apply elem_of_lfilter. split; [by apply Hd|by apply bool_decide_eq_true].
  - intros e [He|[_ He%bool_decide_eq_true]%elem_of_lfilter]%elem_of_app; [|by left]. apply Hall, elem_of_app. by left.
  - intros e [He|[He _]%elem_of_lfilter]%elem_of_app; [apply Hread, elem_of_app; by left|by eapply repaired_readable].
Qed.

Lemma at_key_eq {A} k (a : A) f : at_key k a f k = a.
Proof. unfold at_key. by rewrite String.eqb_refl. Qed.

Lemma at_minutes {A} s s' (a : A) f : at_key (minutes_key s) a f (minutes_key s') = if String.eqb s s' then a else f (minutes_key s').
Proof. unfold at_key. by rewrite minutes_of_symbol. Qed.

(** Whatever happens, a symbol's minutes are the newest of what was written. *)
Lemma cache_step_newest s ev s' o symbol :
  newest (ca_sets s (minutes_key symbol)) (ca_written s symbol) -> cache_step s ev = Ok (s', o) ->
  newest (ca_sets s' (minutes_key symbol)) (ca_written s' symbol).
Proof.
  intros Hw Hs. destruct ev as [p|[[tick now] id]|sym bs|sym bs run_id|sym]; cbn [cache_step] in Hs.
  - by injection Hs as <- _.
  - apply bind_ok in Hs as (h & Hh & [= <- _]). cbn [ca_sets ca_written]. rewrite (handle_history _ _ _ _ symbol _ Hh).
    unfold written_more, at_key. rewrite (String.eqb_sym symbol). destruct (String.eqb_spec (tick_symbol tick) symbol) as [->|].
    + destruct (h_sealed h) as [b|]; cbn; [|by rewrite app_nil_r]. rewrite zexec_history, String.eqb_refl.
      by apply (newest_add _ _ (stored b)), stored_readable.
    + by destruct (h_sealed h).
  - injection Hs as <- _. cbn [ca_sets ca_written]. unfold seed_history, written_more, at_key.
    destruct (zexists (ca_sets s (minutes_key sym))) eqn:Hex.
    { destruct (String.eqb_spec sym symbol) as [->|]; [by rewrite app_nil_r|done]. }
    rewrite zexec_store, minutes_of_symbol. destruct (String.eqb_spec sym symbol) as [->|]; [|done].
    destruct (newest_unwritten _ _ Hw Hex) as [Hz Hnil]. rewrite Hnil in *. destruct bs as [|b0 bs']; [exact Hw|].
    apply newest_seed. by rewrite zremrangebyscore_entries, Hz.
  - injection Hs as <- _. cbn [ca_sets ca_written]. unfold repair. rewrite at_key_eq, at_minutes.
    unfold written_more. unfold at_key at 1. destruct (String.eqb_spec sym symbol) as [->|]; [by apply newest_repair|done].
  - injection Hs as <- _. cbn [ca_sets ca_written]. rewrite at_minutes. unfold at_key.
    destruct (String.eqb sym symbol); [apply newest_empty|done].
Qed.

Lemma cache_run_newest p0 evs s bars symbol :
  run_all cache_step (cache_new p0) evs = Ok (s, bars) ->
  newest (ca_sets s (minutes_key symbol)) (ca_written s symbol).
Proof.
  intros Hrun. refine (run_inv cache_step (fun s => newest (ca_sets s (minutes_key symbol)) (ca_written s symbol)) _ _ _ _ _ _ Hrun).
  - intros s1 ev s2 o _ Hw Hs. by eapply cache_step_newest.
  - apply newest_empty.
Qed.

(** The bars a run sealed for a symbol. *)
Definition sealed_for (symbol : string) (bars : list (Bar F * datetime)) : list (Bar F) :=
  fst <$> List.filter (fun x => bool_decide (bar_symbol x.1 = symbol)) bars.

(** Of ticks alone. *)
Lemma ticks_run_ingest p0 ins s bars :
  run_all cache_step (cache_new p0) (Ticked <$> ins) = Ok (s, bars) ->
  exists es, run_all (ingest_step repr reason_text int_of) (p0, []) ins = Ok ((ca_pipeline s, es), bars).
Proof.
  revert s bars. induction ins as [|i ins IH] using rev_ind; intros s bars Hr.
  - injection Hr as <- <-. by exists [].
  - rewrite fmap_app in Hr. apply run_snoc in Hr as (s1 & bars1 & o & Hr & Hs & ->). destruct (IH _ _ Hr) as [es1 Hes].
    cbn [cache_step] in Hs. destruct i as [[tick now] id]. apply bind_ok in Hs as (h & Hh & [= <- <-]).
    eexists. apply run_snoc. exists (ca_pipeline s1, es1), bars1. eexists. split; [done|]. split; [|done].
    unfold ingest_step. cbn [fst] in *. by rewrite Hh.
Qed.

(* ------------------------------------------------------------------ *)
(** ** A run *)

Lemma sealed_ascending p0 ins p es bars symbol :
  p_bucket_seconds p0 = 60 -> p_state p0 = ∅ -> Forall (fun i => 0 <= ts_event i.1.1) ins ->
  run_all (ingest_step repr reason_text int_of) (p0, []) ins = Ok ((p, es), bars) ->
  ascending (sealed_for symbol bars).
Proof.
  intros Hw Hempty Hts Hrun. apply run_buckets in Hrun as (_ & _ & Hsort & Hall); [|by rewrite Hw|done|done].
  rewrite Hw in Hall. split; [eapply sorted_fmap, Hsort; done|].
  apply Forall_fmap, Forall_forall. intros x [Hx _]%elem_of_lfilter. rewrite Forall_forall in Hall. by apply Hall.
Qed.

(** A bar is sealed for the symbol of the tick that seals it. *)
Lemma sealed_symbol p0 ins p es bars tick now h b :
  0 < p_bucket_seconds p0 -> p_state p0 = ∅ -> Forall (fun i => 0 <= ts_event i.1.1) ins ->
  run_all (ingest_step repr reason_text int_of) (p0, []) ins = Ok ((p, es), bars) ->
  handle p tick now = Ok h -> h_sealed h = Some b -> bar_symbol b = tick_symbol tick.
Proof.
  intros Hw Hempty Hts Hrun Hh Hb. apply run_buckets in Hrun as (_ & Hok & _); [|done..].
  destruct (held_back p tick) eqn:Hheld.
  { unfold Pipeline.handle in Hh. rewrite Hheld in Hh. by injection Hh as <-. }
  apply handle_bucket in Hh; [|done]. cbv zeta in Hh. specialize (Hok (tick_symbol tick)).
  destruct (next_bucket _ _ tick) as [base sealed] eqn:Hnb. destruct Hh as (Hse & _). rewrite Hb in Hse. subst sealed.
  unfold next_bucket in Hnb. destruct (open_bucket p (tick_symbol tick)) as [a|]; [|done].
  destruct (acc_bucket a <? _); [|done]. injection Hnb as _ <-. by destruct Hok as (Hs & _).
Qed.

(** After a run of ticks alone the minutes are the newest 1440 bars sealed. *)
Lemma ticks_run_cache p0 ins s bars symbol :
  p_bucket_seconds p0 = 60 -> p_state p0 = ∅ -> Forall (fun i => 0 <= ts_event i.1.1) ins ->
  run_all cache_step (cache_new p0) (Ticked <$> ins) = Ok (s, bars) ->
  zentries (ca_sets s (minutes_key symbol)) = stored <$> lastn 1440 (sealed_for symbol bars).
Proof.
  intros Hw Hempty. assert (Hpos : 0 < p_bucket_seconds p0) by (by rewrite Hw).
  revert s bars. induction ins as [|i ins IH] using rev_ind; intros s bars Hts Hrun.
  - injection Hrun as <- <-. apply zentries_empty.
  - pose proof Hts as [Hts1 _]%Forall_app. destruct (ticks_run_ingest _ _ _ _ Hrun) as [es Hes].
    pose proof (sealed_ascending _ _ _ _ _ symbol Hw Hempty Hts Hes) as Hasc.
    rewrite fmap_app in Hrun. apply run_snoc in Hrun as (s1 & bars1 & o & Hrun & Hs & ->). specialize (IH _ _ Hts1 Hrun).
    destruct (ticks_run_ingest _ _ _ _ Hrun) as [es1 Hes1].
    cbn [cache_step] in Hs. destruct i as [[tick now] id]. apply bind_ok in Hs as (h & Hh & [= <- <-]).
    cbn [fst snd ca_sets] in *. rewrite (handle_history _ _ _ _ symbol _ Hh).
    destruct (h_sealed h) as [b|] eqn:Hb; [|by rewrite app_nil_r].
    pose proof (sealed_symbol _ _ _ _ _ _ _ _ _ Hpos Hempty Hts1 Hes1 Hh Hb) as Hsym.
    unfold sealed_for in *. rewrite List.filter_app, fmap_app in *. cbn [opt_list fmap option_fmap option_map List.filter fst] in *.
    rewrite Hsym in *. destruct (String.eqb_spec symbol (tick_symbol tick)) as [->|Hne].
    + rewrite bool_decide_eq_true_2 in * by done. by apply store_newest.
    + rewrite bool_decide_eq_false_2 in * by congruence. by rewrite app_nil_r.
Qed.

(* ------------------------------------------------------------------ *)
(** ** The chart *)

(** A stored bar as the roll-up reads it, and as a candle of one minute. *)
Definition base_bar b : BaseBar F := {|
  bb_t := int_timestamp (bucket b); bb_o := open b; bb_h := high b; bb_l := low b; bb_c := close b;
  bb_n := Some (tick_count b); bb_src := Some (source_str (source b)) |}.
Definition minute_candle b : Candle F := {|
  c_t := int_timestamp (bucket b); c_o := open b; c_h := high b; c_l := low b; c_c := close b;
  c_n := tick_count b; c_src := source_str (source b) |}.

Lemma stored_read b : (j ← loads (stored b).2; base_bar_of j) = Ok (base_bar b).
Proof. unfold stored. cbn [snd]. by rewrite loads_dumps. Qed.

Lemma mapR_fmap_ok {A B C} (f : B -> result C) (g : A -> B) (k : A -> C) l :
  (forall a, f (g a) = Ok (k a)) -> mapR f (g <$> l) = Ok (k <$> l).
Proof. intros Hf. induction l as [|a l IH]; [done|]. cbn. rewrite Hf. cbn. by rewrite IH. Qed.

Lemma base_bars_stored ks symbol count bs :
  0 < count -> zentries (ks (history symbol "1m")) = stored <$> lastn 1440 bs ->
  _base_bars ks symbol Base1m count = Ok (base_bar <$> lastn (Z.to_nat count `min` 1440) bs).
Proof.
  intros Hc Hz. unfold _base_bars. rewrite newest_of by done. cbn [base_code]. rewrite Hz, lastn_fmap, lastn_lastn.
  rewrite <- list_fmap_compose. apply mapR_fmap_ok. intros b. apply stored_read.
Qed.

Lemma minute_start b : (seconds 60 | bucket b) -> bucket_start (bb_t (base_bar b)) "1m" = Ok (int_timestamp (bucket b)).
Proof. intros [_ Hm]%minute_stamp. unfold bucket_start. cbn [mbind result_bind interval_of]. cbn. by rewrite Hm, Z.sub_0_r. Qed.

Lemma fold_minutes_from out bs :
  ascending bs -> (forall cur b, head out = Some cur -> b ∈ bs -> c_t cur < int_timestamp (bucket b)) ->
  fold_bars "1m" out (base_bar <$> bs) = Ok (reverse out ++ (minute_candle <$> bs)).
Proof.
  revert out. induction bs as [|b bs IH]; intros out [Hs Hall] Hlast; [cbn; by rewrite app_nil_r|].
  apply StronglySorted_inv in Hs as [Hs Hlt]. apply Forall_cons in Hall as [Hb Hall].
  rewrite fmap_cons. cbn [fold_bars]. unfold fold_bar. rewrite minute_start by done. cbn [mbind result_bind].
  assert (Hnew : match out with
    | [] => Ok [open_candle (int_timestamp (bucket b)) (base_bar b)]
    | cur :: out' => if c_t cur =? int_timestamp (bucket b) then Ok (extend_candle cur (base_bar b) :: out')
                     else Ok (open_candle (int_timestamp (bucket b)) (base_bar b) :: out)
    end = Ok (minute_candle b :: out)).
  { destruct out as [|cur out]; [done|]. specialize (Hlast cur b eq_refl (list_elem_of_here _ _)).
    by rewrite (proj2 (Z.eqb_neq _ _)) by lia. }
  rewrite Hnew. cbn [mbind result_bind]. rewrite IH.
  - by rewrite reverse_cons, <- app_assoc, fmap_cons.
  - by split.
  - intros cur b' [= <-] Hb'. cbn. rewrite Forall_forall in Hall, Hlt.
    apply minute_stamp_lt; [done|by apply Hall|by apply Hlt].
Qed.

(** Minutes rolled up by the minute are themselves. *)
Lemma fold_minutes bs : ascending bs -> fold (base_bar <$> bs) "1m" = Ok (minute_candle <$> bs).
Proof.
  intros Hasc. unfold fold. change (interval_of "1m") with (Ok {| code := "1m"; interval_seconds := Some 60; base := Base1m |}).
  cbv iota. destruct bs as [|b bs]; [done|]. rewrite fmap_cons. cbv iota. rewrite <- fmap_cons.
  assert (sorted_bars (base_bar <$> b :: bs) = base_bar <$> b :: bs) as ->.
  { apply py_sorted_id. destruct Hasc as [Hs Hall]. rewrite Forall_forall in Hall.
    revert Hs. apply sorted_fmap. intros x y Hx Hy Hxy. unfold key_le, order_leb, fold_order. cbn [fst bb_t base_bar].
    apply orb_true_iff. left. apply Z.ltb_lt, minute_stamp_lt; [by apply Hall..|done]. }
  rewrite fold_minutes_from by (done || by intros ? ?). done.
Qed.

(** Bars of minutes are rolled up without an error. *)
Lemma fold_minutes_total interval spec l :
  interval_of interval = Ok spec -> base spec = Base1m -> exists rows : list (Candle F), fold l interval = Ok rows.
Proof.
  intros Hspec Hbase. unfold fold. rewrite Hspec. destruct l as [|b l]; [by exists []|]. rewrite fold_bars_group; [by eexists|].
  apply Forall_forall. intros x _. unfold bucket_start. rewrite Hspec. cbn [mbind result_bind].
  destruct (interval_kinds _ _ Hspec) as [w Hiw _ _ _|_ _ Hd|_ _ Hd]; [by rewrite Hiw|congruence..].
Qed.

Lemma chart_count interval spec limit :
  interval_of interval = Ok spec -> base spec = Base1m -> 1 <= limit ->
  exists count, base_count interval limit = Ok count /\ limit < count.
Proof.
  intros Hspec Hbase Hl. unfold base_count. rewrite Hspec. cbn [mbind result_bind]. rewrite Hbase.
  destruct (interval_kinds _ _ Hspec) as [w Hiw Hw0 _ _|_ _ Hd|_ _ Hd]; [|congruence..].
  rewrite Hiw. cbn [mbind result_bind]. eexists. split; [done|]. nia.
Qed.

Definition chart_reply (symbol interval : string) (limit : Z) (rows : list (Candle F)) : BarsReply := {|
  br_symbol := symbol; br_interval := interval; br_bars := lastn (Z.to_nat limit) rows;
  br_warming_up := match lastn (Z.to_nat limit) rows with [] => true | _ => false end |}.

(** The newest [count] of what was written, oldest first. *)
Record shows (count : Z) (w shown : list entry) : Prop := {
  sh_sorted : StronglySorted by_score shown;
  sh_once : NoDup shown;
  sh_few : Z.of_nat (length shown) <= count;
  sh_written e : e ∈ shown -> e ∈ w;
  sh_newest e : e ∈ w -> e ∈ shown \/ (Z.to_nat count `min` 1440 <= length shown)%nat /\ Forall (by_score e) shown;
}.

Lemma newest_shows z w count :
  0 < count -> newest z w -> shows count w (lastn (Z.to_nat count) (zentries z)).
Proof.
  intros Hc [Hn Hfrom Hall _]. pose proof (zentries_sorted z) as Hs. constructor.
  - by apply sorted_lastn.
  - apply NoDup_fmap_1 in Hn. rewrite (lastn_suffix (Z.to_nat count) (zentries z)) in Hn. by apply NoDup_app in Hn as (_ & _ & ?).
  - unfold lastn. rewrite length_drop. lia.
  - intros e He%elem_of_lastn. by apply Hfrom.
  - intros e He. destruct (Hall e He) as [Hin|[Hl Hf]].
    + destruct (sorted_before_lastn by_score (Z.to_nat count) _ e Hs Hin) as [|[Hlen Hlow]]; [by left|right]. split; [lia|done].
    + right. split; [unfold lastn; rewrite length_drop; lia|]. rewrite Forall_forall in *. intros y Hy%elem_of_lastn. by apply Hf.
Qed.

Lemma read_shown (shown : list entry) : (forall e, e ∈ shown -> readable e) -> exists minutes, mapR read_entry shown = Ok minutes.
Proof.
  induction shown as [|e shown IH]; intros Hr; [by exists []|].
  destruct (Hr e (list_elem_of_here _ _)) as (bb & He & _).
  destruct IH as [ms Hms]; [intros; by apply Hr, list_elem_of_further|]. exists (bb :: ms). cbn [mapR]. by rewrite He, Hms.
Qed.

Lemma mapR_fmap {A B C} (f : B -> result C) (g : A -> B) l : mapR f (g <$> l) = mapR (fun a => f (g a)) l.
Proof. induction l as [|a l IH]; [done|]. rewrite fmap_cons. cbn [mapR]. destruct (f (g a)); [|done]. by rewrite IH. Qed.

(** The endpoint over any sorted set of readable entries. *)
Lemma endpoint_reads ks raw interval spec limit count minutes rows :
  is_pair (strip_upper raw) = true -> interval_of interval = Ok spec -> base spec = Base1m ->
  base_count interval limit = Ok count -> 0 < count ->
  mapR read_entry (lastn (Z.to_nat count) (zentries (ks (minutes_key (strip_upper raw))))) = Ok minutes ->
  fold minutes interval = Ok rows ->
  bars_endpoint strip_upper ks raw interval limit = Answer (chart_reply (strip_upper raw) interval limit rows).
Proof.
  intros Hpair Hspec Hbase Hcount Hpos Hread Hfold. unfold bars_endpoint, _symbol, _interval.
  rewrite Hpair, Hspec. cbv zeta. rewrite Hcount. cbn [mbind result_bind]. rewrite Hbase.
  unfold _base_bars. cbn [base_code]. rewrite newest_of, mapR_fmap by done.
  change (fun a => j ← loads a.2; base_bar_of j) with read_entry. rewrite Hread. cbn [mbind result_bind]. by rewrite Hfold.
Qed.

(** C19. What a chart shows is what was written for it.  Whatever ticks leaders are
    fed, in whatever order, whatever histories they seed an empty series with,
    whatever minutes recovery runs add to it, whoever leads, and whenever a series
    expires: a request for a symbol's chart at any timeframe of minutes is answered,
    with the roll-up of entries of which each was written for that symbol since its
    series was last empty - a bar sealed, seeded or recovered -, none twice, in the
    order of their minutes; and they are the newest: an entry that is left out is no
    newer than any of those shown, of which there are then as many as the request
    reads or the cache keeps.  Where ticks alone were fed to a new ingestor of
    one-minute bars, those entries are the newest of the bars it sealed, and the
    chart at one minute is these bars, price for price and tick for tick. *)
Theorem chart_serves_newest_minutes p0 evs s bars raw interval spec limit :
  run_all cache_step (cache_new p0) evs = Ok (s, bars) ->
  is_pair (strip_upper raw) = true -> interval_of interval = Ok spec -> base spec = Base1m -> 1 <= limit <= 1440 ->
  let symbol := strip_upper raw in
  exists count shown minutes rows, base_count interval limit = Ok count /\ limit < count /\
    shows count (ca_written s symbol) shown /\
    mapR read_entry shown = Ok minutes /\ fold minutes interval = Ok rows /\
    bars_endpoint strip_upper (ca_sets s) raw interval limit = Answer (chart_reply symbol interval limit rows) /\
    forall ins, evs = Ticked <$> ins ->
      p_bucket_seconds p0 = 60 -> p_state p0 = ∅ -> Forall (fun i => 0 <= ts_event i.1.1) ins ->
      shown = stored <$> lastn (Z.to_nat count `min` 1440) (sealed_for symbol bars) /\
      (interval = "1m"%string -> lastn (Z.to_nat limit) rows = minute_candle <$> lastn (Z.to_nat limit) (sealed_for symbol bars)).
Proof.
  intros Hrun Hpair Hspec Hbase Hlimit symbol.
  destruct (chart_count interval spec limit Hspec Hbase ltac:(lia)) as (count & Hcount & Hlt).
  pose proof (cache_run_newest _ _ _ _ symbol Hrun) as Hnew.
  pose proof (newest_shows _ _ count ltac:(lia) Hnew) as Hsh.
  set (shown := lastn (Z.to_nat count) (zentries (ca_sets s (minutes_key symbol)))) in *.
  destruct (read_shown shown) as [minutes Hread]; [intros e He; by eapply nw_read, sh_written|].
  destruct (fold_minutes_total interval spec minutes Hspec Hbase) as [rows Hrows].
  exists count, shown, minutes, rows. split_and!; try done.
  { eapply endpoint_reads; (done || lia). }
  intros ins -> Hw Hempty Hts. pose proof (ticks_run_cache _ _ _ _ symbol Hw Hempty Hts Hrun) as Hz.
  assert (Hshown : shown = stored <$> lastn (Z.to_nat count `min` 1440) (sealed_for symbol bars)).
  { unfold shown. by rewrite Hz, lastn_fmap, lastn_lastn. }
  split; [done|]. intros ->. destruct (ticks_run_ingest _ _ _ _ Hrun) as [es Hes].
  pose proof (sealed_ascending _ _ _ _ _ symbol Hw Hempty Hts Hes) as [Hs Hall].
  rewrite Hshown, (mapR_fmap_ok read_entry stored base_bar) in Hread by (intros b; apply stored_read). injection Hread as <-.
  rewrite fold_minutes in Hrows.
  - injection Hrows as <-. rewrite lastn_fmap, lastn_lastn. f_equal. f_equal. lia.
  - split; [by apply sorted_lastn|]. apply Forall_forall. intros b Hb%elem_of_lastn. rewrite Forall_forall in Hall. by apply Hall.
Qed.
End Chart.

(* ------------------------------------------------------------------ *)
(** ** Examples *)

Section Examples.
#[local] Existing Instance plain64.
#[local] Existing Instance iso_utc.
#[local] Existing Instance eastern_standard.
#[local] Existing Instance json_bits.
#[local] Existing Instance sorted_list.
#[local] Instance demo_order : @PyFloatOrder spec_float plain64 := binary64_order _ _ _.

Definition demo_pair_quote (s price : Z) : Tick spec_float * datetime * stream_id := ({|
  tick_symbol := "EURUSD"; bid := f_of_Z price; ask := f_of_Z price; ts_event := demo_t0 + seconds s;
  ts_aware := true; ts_ingest := demo_t0 + seconds s; tick_seq := 1 |}, 0, (s, 0)).

(** Three ticks that seal two minutes. *)
Definition demo_pair_ticks : list (Tick spec_float * datetime * stream_id) :=
  [demo_pair_quote 5 2; demo_pair_quote 65 4; demo_pair_quote 125 3].

Notation demo_cache := (run_all (cache_step write_bits (fun _ => "why"%string) (fun _ => Ok 33))).

(** A pair's series is seeded with a day's last minute of the provider's, two minutes are
    sealed, and recovery offers three more: one from before, one for a minute that is
    there, and one after. *)
Definition demo_provider_bar (m : Z) : Bar spec_float := {|
  bar_symbol := "EURUSD"; bucket := demo_t0 + minutes m; open := f_of_Z 9; high := f_of_Z 9; low := f_of_Z 9;
  close := f_of_Z 9; tick_count := 0; sum_ret := f_zero; sum_ret_sq := f_zero; source := BACKFILL |}.
Definition demo_writers : list (CacheEvent (F := spec_float)) :=
  Seeded "EURUSD" [demo_provider_bar (-2)] :: (Ticked <$> demo_pair_ticks) ++
  [Leads demo_empty; Repaired "EURUSD" (demo_provider_bar <$> [-1; 0; 9]) "run-1"]%string.

(** How many minutes a chart has, with the ticks in each. *)
Definition demo_chart (r : result (Cache (F := spec_float) * list (Bar spec_float * datetime))) : option (list Z) :=
  match r with
  | Ok (s, _) =>
      match bars_endpoint (fun s => s) (ca_sets s) "EURUSD" "1m" 10 with
      | Answer reply => Some (c_n <$> br_bars reply)
      | _ => None
      end
  | Raise _ => None
  end.

(** The provider's minute, the recovered ones around the two that were sealed; and
    nothing once the series has expired. *)
Lemma chart_of_all_writers :
  demo_chart (demo_cache (cache_new demo_empty) demo_writers) = Some [0; 0; 1; 1; 0] /\
  demo_chart (demo_cache (cache_new demo_empty) (demo_writers ++ [Expired "EURUSD"%string])) = Some [].
Proof. split; vm_compute; reflexivity. Qed.

Lemma chart_serves_newest_minutes_witness :
  (exists reply, match demo_cache (cache_new demo_empty) demo_writers with
    | Ok (s, _) => bars_endpoint (fun s => s) (ca_sets s) "EURUSD" "1m" 10 = Answer reply
    | Raise _ => False
    end) /\
  match demo_cache (cache_new demo_empty) (Ticked <$> demo_pair_ticks) with
  | Ok (s, bars) => exists reply, bars_endpoint (fun s => s) (ca_sets s) "EURUSD" "1m" 10 = Answer reply /\
      br_bars reply = minute_candle <$> lastn 10 (sealed_for "EURUSD" bars) /\
      length (sealed_for "EURUSD" bars) = 2%nat
  | Raise _ => False
  end.
Proof.
  assert (Hret : match demo_cache (cache_new demo_empty) (Ticked <$> demo_pair_ticks) with
    | Ok (_, bars) => length (sealed_for "EURUSD" bars) | Raise _ => 0%nat end = 2%nat) by (vm_compute; reflexivity).
  assert (Hok : is_ok (demo_cache (cache_new demo_empty) demo_writers) = true) by (vm_compute; reflexivity).
  assert (Hlim : 1 <= 10 <= 1440) by lia.
  split.
  - destruct (demo_cache (cache_new demo_empty) demo_writers) as [[s bars]|] eqn:E; [|discriminate Hok].
    destruct (chart_serves_newest_minutes write_bits (fun _ => "why"%string) (fun _ => Ok 33) (fun s => s)
      demo_empty demo_writers s bars "EURUSD" "1m"
      {| code := "1m"; interval_seconds := Some 60; base := Base1m |} 10 E eq_refl eq_refl eq_refl Hlim)
      as (count & shown & minutes & rows & _ & _ & _ & _ & _ & Hreply & _). by eexists.
  - revert Hret. destruct (demo_cache (cache_new demo_empty) (Ticked <$> demo_pair_ticks)) as [[s bars]|] eqn:E;
      intros Hret; [|discriminate Hret].
    assert (Hts : Forall (fun i => 0 <= ts_event i.1.1) demo_pair_ticks) by (repeat constructor; vm_compute; congruence).
    destruct (chart_serves_newest_minutes write_bits (fun _ => "why"%string) (fun _ => Ok 33) (fun s => s)
      demo_empty (Ticked <$> demo_pair_ticks) s bars "EURUSD" "1m"
      {| code := "1m"; interval_seconds := Some 60; base := Base1m |} 10 E eq_refl eq_refl eq_refl Hlim)
      as (count & shown & minutes & rows & _ & _ & _ & _ & _ & Hreply & Hticks).
    destruct (Hticks demo_pair_ticks eq_refl eq_refl eq_refl Hts) as [_ Hchart].
    eexists. split; [exact Hreply|]. split; [exact (Hchart eq_refl)|exact Hret].
Defined.
End Examples.
