(* ===== verification/Snapshot.v ===== *)
(** * What a browser gets when it subscribes ([ConnectionManager.snapshot])

    The snapshot half of snapshot-then-delta, read from Redis, and what it has to do
    with the deltas: [snapshot_is_the_last_frame] says a browser that subscribes after
    a tick sees the quote and the forming bar that the tick's frame showed the
    browsers that were there. *)
From S2P Require Import Prelude PyFloat Binary64 Civil Volatility Models Buckets Ranges Baseline Seasonality.
From S2P Require Import Calendar Hysteresis Detector Intervals Redis Json Keys Text Pipeline Streams Database.
From S2P Require Import Persister ExactlyOnce Wire Agreement Limits Market.
From stdpp Require Import pretty.
From Stdlib Require Import SpecFloat.

Local Open Scope Z_scope.

(** What the manager reads: hashes, sorted sets and texts, by key. *)
Record Keyspace `{SortedSet} := {
  hashes : string -> gmap string string;
  zsets : string -> zset;
  texts : string -> option string;
}.

(** [HSET] sets the fields it names. *)
Definition hset (mapping : list (string * string)) (h : gmap string string) : gmap string string :=
  fold_left (fun h kv => <[kv.1 := kv.2]> h) mapping h.

(** A transaction on the hashes. *)
Definition hexec_one (hs : string -> gmap string string) (c : Command) : string -> gmap string string :=
  match c with
  | HSet k mapping => fun key =>
      if String.eqb k key then hset mapping (hs key) else hs key
  | _ => hs
  end.
Definition hexec (cs : list Command) (hs : string -> gmap string string) : string -> gmap string string :=
  fold_left hexec_one cs hs.

Section Snapshot.
Context {F : Type} `{PyFloat F} `{IsoFormat} `{JsonText F} `{SortedSet}.
(** [float] and [int] of a text. *)
Context (float_of : string -> result F) (int_text : string -> result Z).
Implicit Types (ks : Keyspace).

(** [_maybe_float] *)
Definition maybe_float (value : string) : result (F + string) :=
  match float_of value with
  | Ok x => Ok (inl x)
  | Raise ValueError => Ok (inr value)
  | Raise e => Raise e
  end.

Definition unknown_regime : json F := JObj [("regime", JStr "unknown"); ("seq", JInt 0)]%string.

(** [_regime_from_snapshot] *)
Definition regime_from_snapshot (raw : option string) : result (json F) :=
  match raw with
  | None | Some EmptyString => Ok unknown_regime
  | Some raw =>
      match (j ← loads raw; trigger ← jget "trigger" j; regime ← jget "regime" trigger;
             seq ← jget "seq" trigger; since ← jget_opt "regime_since" trigger;
             Ok (JObj [("regime", regime); ("seq", seq); ("since", default JNull since)]%string)) with
      | Ok j => Ok j
      | Raise ValueError | Raise KeyError | Raise TypeError => Ok unknown_regime
      | Raise e => Raise e
      end
  end.

(** The minute of a symbol's last quote, if it has one. *)
Definition forming_minute (quote : gmap string string) : result (option Z) :=
  match quote !! "ts"%string with
  | None => Ok None
  | Some ts =>
      match fromisoformat ts with
      | Ok at_ => m ← bucket_start (int_timestamp at_) "1m"; Ok (Some m)
      | Raise ValueError => Ok None
      | Raise e => Raise e
      end
  end.

Record Forming := { fm_t : Z; fm_o : F; fm_h : F; fm_l : F; fm_c : F; fm_n : Z }.

Definition forming_bar (minute : Z) (raw : gmap string string) : result (option Forming) :=
  let read k := match raw !! k with Some v => Ok v | None => Raise KeyError end in
  match (o ← read "o"; o ← float_of o; h ← read "h"; h ← float_of h; l ← read "l"; l ← float_of l;
         c ← read "c"; c ← float_of c; n ← read "n"; n ← int_text n;
         Ok {| fm_t := minute; fm_o := o; fm_h := h; fm_l := l; fm_c := c; fm_n := n |})%string with
  | Ok b => Ok (Some b)
  | Raise KeyError | Raise TypeError | Raise ValueError => Ok None
  | Raise e => Raise e
  end.

(** [_forming] for one symbol: the second round trip reads a later keyspace. *)
Definition forming (later : Keyspace) (symbol : string) (quote : gmap string string) : result (option Forming) :=
  minute ← forming_minute quote;
  match minute with
  | None => Ok None
  | Some m => forming_bar m (hashes later (bar_bucket symbol m))
  end.

Record SymbolSnapshot := {
  sn_quote : gmap string (F + string);
  sn_bars : list (json F);
  sn_forming : option Forming;
  sn_vol : gmap string (json F);
  sn_zhist : list (json F);
  sn_regime : json F;
}.

(** [{k: f(v) for k, v in hash.items()}] *)
Definition values_of {A} (f : string -> result A) (h : gmap string string) : result (gmap string A) :=
  list_to_map <$> mapR (fun kv => a ← f kv.2; Ok (kv.1, a)) (map_to_list h).

(** A symbol's entry of [snapshot], of the symbols a subscription names. *)
Definition symbol_snapshot ks (later : Keyspace) (symbol : string) (bars : Z) : result SymbolSnapshot :=
  let quote := hashes ks (quote symbol) in
  forming ← forming later symbol quote;
  quote ← values_of maybe_float quote;
  bs ← mapR loads (reverse (zrevrange 0 (bars - 1) (zsets ks (history symbol "1m"))));
  vol ← values_of loads (hashes ks (vol_state symbol "1h"));
  zs ← mapR loads (reverse (zrevrange 0 (bars - 1) (zsets ks (zhist symbol))));
  regime ← regime_from_snapshot (texts ks (regime_state symbol));
  Ok {| sn_quote := quote; sn_bars := bs; sn_forming := forming; sn_vol := vol; sn_zhist := zs; sn_regime := regime |}.

Definition snapshot ks (later : Keyspace) (symbols : list string) (bars : Z) : result (list (string * SymbolSnapshot)) :=
  mapR (fun symbol => sn ← symbol_snapshot ks later symbol bars; Ok (symbol, sn)) symbols.

(** A browser that asks for no bars is sent all of them: [ZREVRANGE key 0 -1] is the
    whole set. *)
Lemma no_bars_is_all_bars (z : zset) : zrevrange 0 (0 - 1) z = snd <$> reverse (zentries z).
Proof.
  unfold zrevrange, rank_range. f_equal. unfold rank_upto, rank_from. cbn [Z.sub Z.opp Z.add Z.ltb Z.compare].
  set (l := reverse _). change (0 - 1 <? 0) with true. change (0 <? 0) with false. cbv iota.
  rewrite firstn_all2 by lia. done.
Qed.

Lemma values_of_lookup {A} (f : string -> result A) (h : gmap string string) m k v :
  values_of f h = Ok m -> h !! k = Some v -> exists a, f v = Ok a /\ m !! k = Some a.
Proof.
  unfold values_of. destruct (mapR _ _) as [l|] eqn:Hl; [|done]. intros [= <-] Hk.
  pose proof (mapR_Forall2 _ _ _ Hl) as Hall.
  assert (Hkeys : l.*1 = (map_to_list h).*1).
  { clear -Hall. induction Hall as [|kv a kvs l Ha _ IH]; [done|]. cbn. apply bind_ok in Ha as (x & _ & [= <-]). by rewrite IH. }
  destruct (Forall2_elem_l _ _ _ (k, v) Hall) as (b & Hb & Hf); [by apply elem_of_map_to_list|].
  apply bind_ok in Hf as (a & Ha & [= <-]). exists a. split; [done|]. apply elem_of_list_to_map_1; [|done].
  rewrite Hkeys. apply NoDup_fst_map_to_list.
Qed.
End Snapshot.
Arguments SymbolSnapshot F : clear implicits.
Arguments Forming F : clear implicits.

(* ------------------------------------------------------------------ *)
(** ** What a tick leaves in the hashes *)

Section Written.
Context {F : Type} `{PyFloat F} `{IsoFormat} `{JsonText F} `{NewYork} `{SortedSet}.
Context (repr : F -> string) (reason_text : Reason F -> string) (int_of : F -> result Z).
Context (float_of : string -> result F) (int_text : string -> result Z).
Context (float_repr : forall x, float_of (repr x) = Ok x).
Context (int_pretty : forall n : Z, int_text (pretty n) = Ok n).
Implicit Types (p : IngestPipeline F) (tick : Tick F) (hs : string -> gmap string string).
Notation handle := (handle repr reason_text int_of).

Definition spares_hash (key : string) (c : Command) : Prop :=
  match c with HSet k _ => k <> key | _ => True end.

Lemma hexec_spared key cs hs : Forall (spares_hash key) cs -> hexec cs hs key = hs key.
Proof.
  revert hs. induction cs as [|c cs IH]; intros hs Hall; [done|]. apply Forall_cons in Hall as [Hc Hall].
  unfold hexec. cbn [fold_left]. fold (hexec cs (hexec_one hs c)). rewrite IH by done.
  destruct c; try done. cbn. cbn in Hc. by rewrite (proj2 (String.eqb_neq _ _)).
Qed.

Lemma hexec_app cs cs' hs : hexec (cs ++ cs') hs = hexec cs' (hexec cs hs).
Proof. apply fold_left_app. Qed.

(** The keys a sealed bar does not touch. *)
Definition tick_key (key : string) : Prop := forall s w, vol_state s w <> key.

Lemma tick_key_quote symbol : tick_key (quote symbol).
Proof. intros s w. by unfold vol_state, quote. Qed.

Lemma tick_key_bar symbol epoch : tick_key (bar_bucket symbol epoch).
Proof. intros s w. by unfold vol_state, bar_bucket. Qed.

Lemma seal_bar_spares_hash p st b now st' cs o key :
  tick_key key -> seal_bar repr reason_text int_of p st b now = Ok (st', cs, o) -> Forall (spares_hash key) cs.
Proof.
  intros Hkey Hs. unfold seal_bar in Hs. apply bind_ok in Hs as (realized & _ & Hs). apply bind_ok in Hs as (vol & _ & Hs).
  apply bind_ok in Hs as ([d o'] & _ & Hs). apply bind_ok in Hs as (vc & Hv & Heq). injection Heq as _ <- <-.
  apply Forall_app. split.
  - unfold queue_vol_snapshot in Hv. inv_result. constructor; [apply Hkey|]. do 2 (constructor; [exact I|]).
    unfold zhist_commands. destruct (last_zscore _) as [z|]; [|constructor]. destruct (f_isfinite z); by repeat constructor.
  - constructor; [exact I|]. destruct o' as [tr|]; [|constructor]. by repeat constructor.
Qed.

(** The commands of a tick: its own, of the bucket it leaves open, then others. *)
Lemma handle_writes p tick now h :
  handle p tick now = Ok h -> held_back p tick = false ->
  exists p1 a rest, open_bucket (h_pipeline h) (tick_symbol tick) = Some a /\
    h_commands h = tick_commands repr p1 tick a now ++ rest /\
    forall key, tick_key key -> Forall (spares_hash key) rest.
Proof.
  unfold Pipeline.handle. intros Hh Hheld. rewrite Hheld in Hh.
  apply bind_ok in Hh as ([p1 st] & _ & Hh). destruct (roll p1 st tick) as [st1 sealed].
  apply bind_ok in Hh as (st2 & _ & Hh). apply bind_ok in Hh as ([[st3 cs] o] & Hwr & [= <-]).
  unfold write in Hwr. destruct (ss_bucket st2) as [a|] eqn:Ha; [|done]. exists p1, a. cbn [h_commands h_pipeline].
  unfold open_bucket. cbn [p_state set_state]. rewrite lookup_insert_eq. cbn [mbind option_bind].
  destruct sealed as [b|].
  - apply bind_ok in Hwr as ([[st4 bc] o'] & Hseal & Heq).
    exists (history_commands b (tick_symbol tick) ++ bc).
    assert (cs = tick_commands repr p1 tick a now ++ history_commands b (tick_symbol tick) ++ bc) as ->
      by (injection Heq as _ Hcs _; exact (eq_sym Hcs)).
    assert (st3 = st4) as -> by congruence.
    split; [|split; [done|]].
    + by rewrite (proj2 (seal_bar_writes _ _ _ _ _ _ _ _ _ _ Hseal)), Ha.
    + intros key Hkey. apply Forall_app. split; [by repeat constructor|]. by eapply seal_bar_spares_hash.
  - exists []. injection Hwr as <- <- _. by rewrite app_nil_r.
Qed.

(** The fields [HSET] names, read back. *)
Lemma hset_lookup (l : list (string * string)) (h : gmap string string) k :
  NoDup l.*1 -> hset l h !! k =
    match field_of k l with Some v => Some v | None => h !! k end.
Proof.
  unfold hset. revert h. induction l as [|[k' v] l IH]; intros h Hn; [done|]. cbn in *. apply NoDup_cons in Hn as [Hk Hn].
  rewrite IH by done. destruct (String.eqb_spec k' k) as [->|Hne].
  - assert (field_of k l = None) as ->.
    { clear -Hk. induction l as [|[k' v] l IH]; [done|]. cbn in *. destruct (String.eqb_spec k' k); set_solver. }
    by rewrite lookup_insert_eq.
  - by rewrite lookup_insert_ne.
Qed.

Definition quote_fields tick : list (string * string) :=
  [("bid", repr (bid tick)); ("ask", repr (ask tick)); ("mid", repr (mid tick)); ("ts", isoformat (ts_event tick))]%string.
Definition bar_fields (a : BucketAccumulator F) : list (string * string) :=
  [("o", repr (acc_open a)); ("h", repr (acc_high a)); ("l", repr (acc_low a)); ("c", repr (acc_close a));
   ("n", pretty (acc_tick_count a)); ("sr", repr (acc_sum_ret a)); ("sr2", repr (acc_sum_ret_sq a))]%string.

Lemma tick_hashes p tick a now hs :
  let hs' := hexec (tick_commands repr p tick a now) hs in
  (forall k v, field_of k (quote_fields tick) = Some v -> hs' (quote (tick_symbol tick)) !! k = Some v) /\
  (forall k v, field_of k (bar_fields a) = Some v ->
     hs' (bar_bucket (tick_symbol tick) (int_timestamp (acc_bucket a))) !! k = Some v).
Proof.
  cbv zeta. unfold hexec, tick_commands. cbn [fold_left hexec_one].
  assert (Hne : String.eqb (bar_bucket (tick_symbol tick) (int_timestamp (acc_bucket a))) (quote (tick_symbol tick)) = false)
    by (apply String.eqb_neq; by unfold bar_bucket, quote).
  split; intros k v Hk.
  - rewrite Hne, String.eqb_refl. fold (quote_fields tick). rewrite hset_lookup, Hk; [done|].
    repeat constructor; set_solver.
  - rewrite String.eqb_refl. fold (bar_fields a). rewrite hset_lookup, Hk; [done|]. repeat constructor; set_solver.
Qed.

(** A tick that is not late leaves open the bucket of its own minute. *)
Lemma open_bucket_of_tick p tick now h a :
  handle p tick now = Ok h -> held_back p tick = false ->
  (forall a, open_bucket p (tick_symbol tick) = Some a -> acc_bucket a <= floor_to_bucket (ts_event tick) (p_bucket_seconds p)) ->
  open_bucket (h_pipeline h) (tick_symbol tick) = Some a ->
  acc_bucket a = floor_to_bucket (ts_event tick) (p_bucket_seconds p).
Proof.
  intros Hh Hheld Hlate Ha. pose proof (handle_bucket _ _ _ _ _ _ _ Hh Hheld) as Hb. cbv zeta in Hb.
  destruct (next_bucket _ _ tick) as [base sealed] eqn:Hnb. destruct Hb as (_ & _ & (prev & Hopen) & _).
  rewrite Hopen in Ha. injection Ha as <-. destruct (acc_add_fields base (mid tick) prev) as (_ & _ & _ & _ & _ & -> & _).
  unfold next_bucket in Hnb. destruct (open_bucket p (tick_symbol tick)) as [a0|]; [|by injection Hnb as <- _].
  specialize (Hlate a0 eq_refl). destruct (Z.ltb_spec (acc_bucket a0) (floor_to_bucket (ts_event tick) (p_bucket_seconds p)));
    injection Hnb as <- _; [done|lia].
Qed.

(** The forming bar a hash written from [a] is read as. *)
Lemma forming_bar_written minute (a : BucketAccumulator F) (h : gmap string string) :
  (forall k v, field_of k (bar_fields a) = Some v -> h !! k = Some v) ->
  forming_bar float_of int_text minute h = Ok (Some {|
    fm_t := minute; fm_o := acc_open a; fm_h := acc_high a; fm_l := acc_low a; fm_c := acc_close a;
    fm_n := acc_tick_count a |}).
Proof.
  intros Hh. unfold forming_bar.
  rewrite (Hh "o" (repr (acc_open a)) eq_refl), (Hh "h" (repr (acc_high a)) eq_refl), (Hh "l" (repr (acc_low a)) eq_refl),
    (Hh "c" (repr (acc_close a)) eq_refl), (Hh "n" (pretty (acc_tick_count a)) eq_refl)%string.
  cbn [mbind result_bind]. rewrite float_repr. cbn [mbind result_bind]. rewrite float_repr. cbn [mbind result_bind].
  rewrite float_repr. cbn [mbind result_bind]. rewrite float_repr. cbn [mbind result_bind]. by rewrite int_pretty.
Qed.

(** C32. A snapshot is where the deltas left off.  After a tick that is not late, a
    browser that subscribes is shown, as the quote and the forming bar of the symbol,
    what the tick's frame showed the browsers that were subscribed: the same prices
    and time, and the same minute with all its ticks. *)
Theorem snapshot_is_the_last_frame p tick now h hs ks later bars sn :
  p_bucket_seconds p = 60 -> held_back p tick = false ->
  dt_in_range (ts_event tick) -> float_of (isoformat (ts_event tick)) = Raise ValueError ->
  (forall a, open_bucket p (tick_symbol tick) = Some a -> acc_bucket a <= floor_to_bucket (ts_event tick) 60) ->
  handle p tick now = Ok h ->
  hashes ks = hexec (h_commands h) hs -> hashes later = hexec (h_commands h) hs ->
  symbol_snapshot float_of int_text ks later (tick_symbol tick) bars = Ok sn ->
  sn_quote sn !! "bid"%string = Some (inl (bid tick)) /\ sn_quote sn !! "ask"%string = Some (inl (ask tick)) /\
  sn_quote sn !! "mid"%string = Some (inl (mid tick)) /\
  sn_quote sn !! "ts"%string = Some (inr (isoformat (ts_event tick))) /\
  exists fm, sn_forming sn = Some fm /\
    Publish (channel_tick (tick_symbol tick)) (dumps (JObj [
      ("s", JStr (tick_symbol tick)); ("b", JFloat (bid tick)); ("a", JFloat (ask tick)); ("m", JFloat (mid tick));
      ("t", JStr (isoformat (ts_event tick)));
      ("bar", JObj [("t", JInt (fm_t fm)); ("o", JFloat (fm_o fm)); ("h", JFloat (fm_h fm)); ("l", JFloat (fm_l fm));
        ("c", JFloat (fm_c fm)); ("n", JInt (fm_n fm))])]%string)) ∈ h_commands h.
Proof.
  intros Hw Hheld Hts Htext Hlate Hh Hks Hlater Hsn.
  destruct (handle_writes p tick now h Hh Hheld) as (p1 & a & rest & Ha & Hcs & Hrest).
  assert (Hbucket : acc_bucket a = floor_to_bucket (ts_event tick) 60)
    by (rewrite <- Hw; apply (open_bucket_of_tick p tick now h); [done|done|by rewrite Hw|done]).
  set (hs' := hexec (tick_commands repr p1 tick a now) hs).
  assert (Hkey : forall key, tick_key key -> hexec (h_commands h) hs key = hs' key)
    by (intros key Hk; rewrite Hcs, hexec_app; by apply hexec_spared, Hrest).
  destruct (tick_hashes p1 tick a now hs) as [Hquote Hbar]. fold hs' in Hquote, Hbar.
  unfold symbol_snapshot in Hsn. rewrite Hks in Hsn. rewrite (Hkey _ (tick_key_quote _)) in Hsn.
  apply bind_ok in Hsn as (fm & Hfm & Hsn). apply bind_ok in Hsn as (q & Hq & Hsn).
  apply bind_ok in Hsn as (bs & _ & Hsn). apply bind_ok in Hsn as (vol & _ & Hsn). apply bind_ok in Hsn as (zs & _ & Hsn).
  apply bind_ok in Hsn as (regime & _ & [= <-]). cbn [sn_quote sn_forming].
  assert (Hval : forall k v, field_of k (quote_fields tick) = Some v -> exists x, maybe_float float_of v = Ok x /\ q !! k = Some x)
    by (intros k v Hk; eapply values_of_lookup; [exact Hq|by apply Hquote]).
  destruct (Hval "bid"%string (repr (bid tick)) eq_refl) as (xb & Hxb & ->). destruct (Hval "ask"%string (repr (ask tick)) eq_refl) as (xa & Hxa & ->).
  destruct (Hval "mid"%string (repr (mid tick)) eq_refl) as (xm & Hxm & ->). destruct (Hval "ts"%string (isoformat (ts_event tick)) eq_refl) as (xt & Hxt & ->).
  unfold maybe_float in Hxb, Hxa, Hxm, Hxt. rewrite float_repr in Hxb, Hxa, Hxm. rewrite Htext in Hxt.
  injection Hxb as <-. injection Hxa as <-. injection Hxm as <-. injection Hxt as <-. split_and!; [done..|].
  unfold forming, forming_minute in Hfm. rewrite (Hquote "ts"%string (isoformat (ts_event tick)) eq_refl) in Hfm.
  rewrite fromisoformat_isoformat in Hfm by done.
  assert (Hm : bucket_start (int_timestamp (ts_event tick)) "1m" = Ok (int_timestamp (acc_bucket a))).
  { rewrite Hbucket. unfold floor_to_bucket. by rewrite int_timestamp_fromtimestamp. }
  rewrite Hm in Hfm. cbn [mbind result_bind] in Hfm. rewrite Hlater, (Hkey _ (tick_key_bar _ _)) in Hfm.
  rewrite (forming_bar_written _ a) in Hfm by exact Hbar. injection Hfm as <-. eexists. split; [done|].
  rewrite Hcs. apply elem_of_app. left. unfold tick_commands. do 5 apply list_elem_of_further. by apply list_elem_of_here.
Qed.
End Written.

(* ------------------------------------------------------------------ *)
(** ** Examples *)

Section Examples.
#[local] Existing Instance plain64.
#[local] Existing Instance iso_utc.
#[local] Existing Instance eastern_standard.
#[local] Existing Instance json_bits.
#[local] Existing Instance sorted_list.
#[local] Instance demo_order : @PyFloatOrder spec_float plain64 := binary64_order _ _ _.

Notation demo_handle := (handle write_bits (fun _ => "why"%string) (fun _ => Ok 33)).

Definition demo_minute_quote (s price : Z) : Tick spec_float := (demo_quote s price).1.1.
Definition demo_nowhere (_ : string) : gmap string string := ∅.
Definition demo_keyspace (hs : string -> gmap string string) : Keyspace :=
  {| hashes := hs; zsets := fun _ => zempty; texts := fun _ => None |}.

(** After a run of ticks: the pipeline and the hashes. *)
Definition demo_written (ticks : list (Tick spec_float)) : result (IngestPipeline spec_float * (string -> gmap string string)) :=
  fold_left (fun r tick => '(p, hs) ← r; h ← demo_handle p tick 0; Ok (h_pipeline h, hexec (h_commands h) hs))
    ticks (Ok (demo_empty, demo_nowhere)).

Definition demo_snapshot (hs : string -> gmap string string) : result (SymbolSnapshot spec_float) :=
  symbol_snapshot read_bits int_text (demo_keyspace hs) (demo_keyspace hs) "eurusd" 240.

Lemma snapshot_is_the_last_frame_witness :
  match demo_handle demo_empty (demo_minute_quote 5 2) 0 with
  | Ok h => exists sn, demo_snapshot (hexec (h_commands h) demo_nowhere) = Ok sn /\
      sn_quote sn !! "mid"%string = Some (inl (f_of_Z 2)) /\ exists fm, sn_forming sn = Some fm /\ fm_n fm = 1
  | Raise _ => False
  end.
Proof.
  assert (Hret : match demo_handle demo_empty (demo_minute_quote 5 2) 0 with
    | Ok h => match demo_snapshot (hexec (h_commands h) demo_nowhere) with
              | Ok sn => fm_n <$> sn_forming sn | Raise _ => None end
    | Raise _ => None end = Some 1) by (vm_compute; reflexivity).
  destruct (demo_handle demo_empty (demo_minute_quote 5 2) 0) as [h|e] eqn:E; [|discriminate Hret].
  destruct (demo_snapshot (hexec (h_commands h) demo_nowhere)) as [sn|e] eqn:Es; [|discriminate Hret].
  exists sn. split; [reflexivity|].
  assert (Htext : read_bits (A := spec_float) (isoformat (ts_event (demo_minute_quote 5 2))) = Raise ValueError)
    by (vm_compute; reflexivity).
  assert (Hts : dt_in_range (ts_event (demo_minute_quote 5 2))) by (vm_compute; split; congruence).
  assert (Hnone : open_bucket demo_empty (tick_symbol (demo_minute_quote 5 2)) = None) by (vm_compute; reflexivity).
  assert (Hlate : forall a, open_bucket demo_empty (tick_symbol (demo_minute_quote 5 2)) = Some a ->
    acc_bucket a <= floor_to_bucket (ts_event (demo_minute_quote 5 2)) 60) by (intros a Ha; rewrite Hnone in Ha; discriminate Ha).
  assert (Hmid : mid (demo_minute_quote 5 2) = f_of_Z 2) by (vm_compute; reflexivity).
  destruct (snapshot_is_the_last_frame write_bits (fun _ => "why"%string) (fun _ => Ok 33) read_bits int_text
    read_write_bits int_text_pretty demo_empty (demo_minute_quote 5 2) 0 h demo_nowhere
    (demo_keyspace (hexec (h_commands h) demo_nowhere)) (demo_keyspace (hexec (h_commands h) demo_nowhere)) 240 sn
    eq_refl eq_refl Hts Htext Hlate E eq_refl eq_refl Es) as (_ & _ & Hm & _ & fm & Hfm & _).
  split; [by rewrite <- Hmid|]. exists fm. split; [exact Hfm|]. rewrite Hfm in Hret. by injection Hret.
Defined.

(** After a late tick the quote names a minute that is sealed, so a browser that
    subscribes then is shown that minute, complete, as the one in progress. *)
Lemma late_quote_hides_minute :
  match demo_written [demo_minute_quote 5 2; demo_minute_quote 65 4; demo_minute_quote 55 2] with
  | Ok (p, hs) => acc_bucket <$> open_bucket p "eurusd" = Some (demo_t0 + minutes 1) /\
      match demo_snapshot hs with
      | Ok sn => fm_t <$> sn_forming sn = Some (int_timestamp demo_t0)
      | Raise _ => False
      end
  | Raise _ => False
  end.
Proof. by vm_compute. Qed.
End Examples.
