(* ===== verification/Feed.v ===== *)
(** * The Tiingo adapter ([fx_ingestor/providers/tiingo.py], [providers/base.py])

    From the provider's frames to ticks, and from its history to bars.  What the
    socket delivers, what the HTTP request is answered with and the clock are inputs;
    Python's texts of numbers and times, and reading JSON, are interfaces. *)
From S2P Require Import Prelude PyFloat Civil Models Json Redis.
From S2P Require Import RecoveryPlan RecoveryStore RecoveryRun Text.
From S2P Require Import Calendar Pipeline Wire Agreement.
From Stdlib Require Import Ascii SpecFloat.

Local Open Scope Z_scope.

(* ------------------------------------------------------------------ *)
(** ** Texts *)

(** [s.replace(old, new)] of a non-empty [old]; [skip] characters are left of the
    occurrence being replaced. *)
Fixpoint replace_from (skip : nat) (old new s : string) : string :=
  match s, skip with
  | EmptyString, _ => EmptyString
  | String _ s, S skip => replace_from skip old new s
  | String c s', 0%nat =>
      if String.prefix old s then new +:+ replace_from (String.length old - 1) old new s'
      else String c (replace_from 0 old new s')
  end.
Definition replace (old new s : string) : string := replace_from 0 old new s.

(** [sub in s] *)
Definition contains (sub s : string) : bool :=
  match String.index 0 sub s with Some _ => true | None => false end.

(** [json.loads]: malformed text ([JSONDecodeError] or [UnicodeDecodeError]), another
    exception (an integer of too many digits, nesting that is too deep), or a value. *)
Inductive JsonRead (F : Type) := NotJson | Escapes (e : exn) | Loaded (j : json F).
Arguments NotJson {F}.
Arguments Escapes {F} e.
Arguments Loaded {F} j.

(** What the adapter uses of Python's texts.  [iso_text] is
    [datetime.fromisoformat]: the instant, a text without an offset read as UTC, and
    whether it had one. *)
Class PyText (F : Type) := {
  json_read : string -> JsonRead F;
  float_text : string -> result F;
  float_text_raises s e : float_text s = Raise e -> e = ValueError;
  iso_text : string -> result (datetime * bool);
  iso_text_raises s e : iso_text s = Raise e -> e = ValueError;
  other_text : json F -> string;
  lower : string -> string;
  upper : string -> string;
}.

Section Feed.
Context {F : Type} `{PyFloat F} `{!PyText F}.
Implicit Types (j : json F) (t : Tick F).

(** [str(j)] *)
Definition text_of j : string := match j with JStr s => s | _ => other_text j end.

(** [float(n)] of an integer. *)
Definition float_of_int (n : Z) : result F :=
  let x := f_of_Z n in if f_isfinite x then Ok x else Raise OverflowError.

(** [float(j)] *)
Definition py_float j : result F :=
  match j with
  | JFloat x => Ok x
  | JInt n => float_of_int n
  | JBool b => Ok (f_of_Z (if b then 1 else 0))
  | JStr s => float_text s
  | JNull | JList _ | JObj _ => Raise TypeError
  end.

Definition is_inf (x : F) : bool := negb (f_isfinite x) && f_eq x x.

(** [math.isclose(a, b, rel_tol=rel)] *)
Definition isclose (a b rel : F) : bool :=
  if f_eq a b then true
  else if is_inf a || is_inf b then false
  else
    let diff := f_abs (f_sub b a) in
    f_le diff (f_abs (f_mul rel b)) || f_le diff (f_abs (f_mul rel a)) || f_le diff f_zero.

(** [d.get(key)] of a decoded object, and [value == text]. *)
Definition dget (key : string) j : option (json F) :=
  match jget_opt key j with Ok v => v | Raise _ => None end.
Definition is_text (text : string) (v : option (json F)) : bool :=
  match v with Some (JStr s) => String.eqb s text | _ => false end.

(* ------------------------------------------------------------------ *)
(** ** The provider *)

Inductive Failure :=
  | ProviderAuthError (detail : string)
  | ProviderError (detail : string)
  | ProviderEntitlementError
  | ProviderRateLimitError (retry_after_s : option F)
  | Uncaught (e : exn).

Record TiingoProvider := {
  t_symbols : list string;
  t_token : string;
  t_threshold : Z;
  received_frames : Z;
  dropped_frames : Z;
}.
Implicit Types (p : TiingoProvider).

Definition TiingoProvider_new (symbols : list string) (token : string) (threshold : Z) : TiingoProvider + Failure :=
  if String.eqb token "" then inr (ProviderAuthError "FX_PROVIDER_TOKEN is required for the tiingo provider")
  else inl {| t_symbols := upper <$> symbols; t_token := token; t_threshold := threshold;
              received_frames := 0; dropped_frames := 0 |}.

(** The registry has one entry. *)
Definition build_provider (name : string) (symbols : list string) (token : string)
    : result (TiingoProvider + Failure) :=
  if String.eqb name "tiingo" then Ok (TiingoProvider_new symbols token 5) else Raise ValueError.

Definition count_received p : TiingoProvider := {|
  t_symbols := t_symbols p; t_token := t_token p; t_threshold := t_threshold p;
  received_frames := received_frames p + 1; dropped_frames := dropped_frames p |}.
Definition count_dropped p : TiingoProvider := {|
  t_symbols := t_symbols p; t_token := t_token p; t_threshold := t_threshold p;
  received_frames := received_frames p; dropped_frames := dropped_frames p + 1 |}.

Definition closed_detail p (exc : string) : string :=
  replace (t_token p) "<redacted>" ("tiingo connection closed: " +:+ exc).

(** How opening the connection and sending the subscription go. *)
Inductive Opening := Refused (exc : string) | ClosedOnSend (exc : string) | Opened.

Definition subscription p : json F := JObj [
  ("eventName", JStr "subscribe"); ("authorization", JStr (t_token p));
  ("eventData", JObj [("thresholdLevel", JInt (t_threshold p));
                      ("tickers", JList (JStr <$> (lower <$> t_symbols p)))])]%string.

(** The frame sent, or why not. *)
Definition connect p (o : Opening) : json F + Failure :=
  match o with
  | Refused exc => inr (ProviderError ("tiingo connect failed: " +:+ exc))
  | ClosedOnSend exc => inr (ProviderError (closed_detail p exc))
  | Opened => inl (subscription p)
  end.

(* ------------------------------------------------------------------ *)
(** ** A frame *)

Definition _EXPECTED_FIELDS : nat := 8.
Definition MID_TOLERANCE : F := f_ratio 1 100_000.

(** [datetime.fromisoformat(str(j).replace("Z", "+00:00"))] *)
Definition frame_time j : result (datetime * bool) := iso_text (replace "Z" "+00:00" (text_of j)).

Definition quoted (symbol : string) (b a : F) (ts now : datetime) : Tick F := {|
  tick_symbol := symbol; bid := b; ask := a; ts_event := ts; ts_aware := true; ts_ingest := now; tick_seq := 0 |}.

(** The body of the [try] over the fields of a quote. *)
Definition tick_of (data : list (json F)) (now : datetime) : result (Tick F) :=
  jt ← py_index data 2; ts ← frame_time jt;
  js ← py_index data 1;
  jb ← py_index data 4; b ← py_float jb;
  ja ← py_index data 7; a ← py_float ja;
  let t := quoted (upper (text_of js)) b a ts.1 now in
  _ ← validate t;
  jm ← py_index data 5; m ← py_float jm;
  _ ← guard_ (isclose (mid t) m MID_TOLERANCE) ValueError;
  Ok t.

Inductive Parsed := Yields t | Nothing | Raises (f : Failure).

Definition error_frame (msg : json F) : Failure :=
  let detail := text_of (default msg (dget "response" msg)) in
  if contains "auth" (lower detail) || contains "token" (lower detail)
  then ProviderAuthError ("tiingo rejected credentials: " +:+ detail)
  else ProviderError ("tiingo error frame: " +:+ detail).

Definition data_frame p (data : option (json F)) (now : datetime) : TiingoProvider * Parsed :=
  match data with
  | Some (JList data) =>
      if (length data <? _EXPECTED_FIELDS)%nat || negb (is_text "Q" (head data)) then (count_dropped p, Nothing)
      else
        match tick_of data now with
        | Ok t => (p, Yields t)
        | Raise TypeError | Raise ValueError => (count_dropped p, Nothing)
        | Raise e => (p, Raises (Uncaught e))
        end
  | _ => (count_dropped p, Nothing)
  end.

(** [_parse] *)
Definition parse_frame p (raw : string) (now : datetime) : TiingoProvider * Parsed :=
  match json_read raw with
  | NotJson => (count_dropped p, Nothing)
  | Escapes e => (p, Raises (Uncaught e))
  | Loaded (JObj o) =>
      let msg := JObj o in
      let mtype := dget "messageType" msg in
      if is_text "E" mtype then (p, Raises (error_frame msg))
      else if negb (is_text "A" mtype) then (p, Nothing)
      else data_frame p (dget "data" msg) now
  | Loaded _ => (count_dropped p, Nothing)
  end.

(** What [recv] returns or raises. *)
Inductive Received := Message (raw : string) (now : datetime) | Closed (exc : string).

(** [stream], as far as frames have come: the ticks yielded, and the exception that
    ended it. *)
Fixpoint stream p (evs : list Received) : TiingoProvider * list (Tick F) * option Failure :=
  match evs with
  | [] => (p, [], None)
  | Closed exc :: _ => (p, [], Some (ProviderError (closed_detail p exc)))
  | Message raw now :: evs =>
      match parse_frame (count_received p) raw now with
      | (p, Raises f) => (p, [], Some f)
      | (p, Nothing) => stream p evs
      | (p, Yields t) => let '(p, ts, f) := stream p evs in (p, t :: ts, f)
      end
  end.

(* ------------------------------------------------------------------ *)
(** ** History *)

Definition _HISTORY_START : datetime := days (days_of_civil 2020 1 1).

(** [_retry_after]: the seconds form of the header. *)
Definition retry_after (header : option string) : option F :=
  match header with
  | None => None
  | Some s =>
      match float_text s with
      | Ok x => if f_le f_zero x then Some x else None
      | Raise _ => None
      end
  end.

Record HistoryRequest := {
  hr_symbol : string;
  hr_start : datetime;
  hr_end : datetime;
  hr_resample : string;
  hr_authorization : string;
}.

(** The request: dates without their time of day. *)
Definition history_request p (symbol : string) (start end_ : datetime) (interval : string) : result HistoryRequest :=
  resample ← (if String.eqb interval "1m" then Ok "1min"
              else if String.eqb interval "1d" then Ok "1day" else Raise KeyError)%string;
  Ok {| hr_symbol := lower symbol; hr_start := start / days 1; hr_end := end_ / days 1;
        hr_resample := resample; hr_authorization := "Token " +:+ t_token p |}.

(** What the HTTP client answers: an [httpx.HTTPError], or a response. *)
Inductive HttpReply := TransportError (exc : string) | Response (status : Z) (retry_header : option string) (body : string).

(** [for row in rows]; a text is iterated by its characters. *)
Definition elements j : result (list (json F)) :=
  match j with
  | JList l => Ok l
  | JObj o => Ok ((fun kv => JStr kv.1) <$> o)
  | JStr s => Ok ((fun c => JStr (String c "")) <$> String.list_ascii_of_string s)
  | _ => Raise TypeError
  end.

Record Row := { row_time : datetime; row_aware : bool; row_open : F; row_high : F; row_low : F; row_close : F }.

(** The first [try] of the loop. *)
Definition row_of (row : json F) : result Row :=
  jd ← jget "date" row; d ← frame_time jd;
  jo ← jget "open" row; o ← py_float jo;
  jh ← jget "high" row; h ← py_float jh;
  jl ← jget "low" row; l ← py_float jl;
  jc ← jget "close" row; c ← py_float jc;
  Ok {| row_time := d.1; row_aware := d.2; row_open := o; row_high := h; row_low := l; row_close := c |}.

Definition row_sane (r : Row) : bool :=
  f_isfinite (row_high r) && f_lt f_zero (row_low r) && f_le (row_low r) (py_min (row_open r) (row_close r))
  && f_le (py_min (row_open r) (row_close r)) (py_max (row_open r) (row_close r))
  && f_le (py_max (row_open r) (row_close r)) (row_high r).

Definition history_bar (symbol : string) (r : Row) : Bar F := {|
  bar_symbol := upper symbol; bucket := row_time r; open := row_open r; high := row_high r; low := row_low r;
  close := row_close r; tick_count := 0; sum_ret := f_zero; sum_ret_sq := f_zero; source := BACKFILL |}.

(** One turn of the loop: a bar, a row that is dropped and counted, one outside of
    the window, or an exception. *)
Inductive RowResult := Kept (b : Bar F) | Dropped | Outside | RowRaises (e : exn).

Definition history_row (symbol : string) (start end_ : datetime) (row : json F) : RowResult :=
  match row_of row with
  | Raise KeyError | Raise TypeError | Raise ValueError => Dropped
  | Raise e => RowRaises e
  | Ok r =>
      if negb (row_sane r) then Dropped
      else if negb (row_aware r) then RowRaises TypeError
      else if (start <=? row_time r) && (row_time r <=? end_) then Kept (history_bar symbol r)
      else Outside
  end.

Fixpoint history_rows p (symbol : string) (start end_ : datetime) (rows : list (json F))
    : TiingoProvider * result (list (Bar F)) :=
  match rows with
  | [] => (p, Ok [])
  | row :: rows =>
      match history_row symbol start end_ row with
      | Kept b => let '(p, r) := history_rows p symbol start end_ rows in (p, cons b <$> r)
      | Dropped => history_rows (count_dropped p) symbol start end_ rows
      | Outside => history_rows p symbol start end_ rows
      | RowRaises e => (p, Raise e)
      end
  end.

(** The statuses that have an exception of their own, then [raise_for_status] and
    [json]. *)
Definition response_rows (status : Z) (retry_header : option string) (body : string) : json F + Failure :=
  if status =? 401 then inr (ProviderAuthError "tiingo rejected the token on the REST endpoint")
  else if status =? 403 then inr ProviderEntitlementError
  else if status =? 429 then inr (ProviderRateLimitError (retry_after retry_header))
  else if negb ((200 <=? status) && (status <? 300)) then inr (ProviderError "tiingo history unavailable")
  else
    match json_read body with
    | NotJson | Escapes ValueError => inr (ProviderError "tiingo history unavailable")
    | Escapes e => inr (Uncaught e)
    | Loaded rows => inl rows
    end.

(** [backfill], with the reply to its request. *)
Definition backfill p (symbol : string) (start end_ : datetime) (interval : string) (reply : HttpReply)
    : TiingoProvider * (list (Bar F) + Failure) :=
  let start := Z.max start _HISTORY_START in
  match history_request p symbol start end_ interval with
  | Raise e => (p, inr (Uncaught e))
  | Ok _ =>
      match reply with
      | TransportError exc => (p, inr (ProviderError ("tiingo history unavailable: " +:+ exc)))
      | Response status retry_header body =>
          match response_rows status retry_header body with
          | inr f => (p, inr f)
          | inl rows =>
              match elements rows with
              | Raise e => (p, inr (Uncaught e))
              | Ok rows =>
                  let '(p, r) := history_rows p symbol start end_ rows in
                  (p, match r with Ok bars => inl bars | Raise e => inr (Uncaught e) end)
              end
          end
      end
  end.

(* ------------------------------------------------------------------ *)
(** ** One frame is judged by itself *)

(** The counters with [r] more frames received and [d] more dropped. *)
Definition counted p (r d : Z) : TiingoProvider := {|
  t_symbols := t_symbols p; t_token := t_token p; t_threshold := t_threshold p;
  received_frames := received_frames p + r; dropped_frames := dropped_frames p + d |}.

Lemma counted_0 p : counted p 0 0 = p.
Proof. destruct p. unfold counted. cbn. by rewrite !Z.add_0_r. Qed.

Lemma counted_counted p r d r' d' : counted (counted p r d) r' d' = counted p (r + r') (d + d').
Proof. unfold counted. cbn. f_equal; lia. Qed.

Lemma closed_detail_counted p r d exc : closed_detail (counted p r d) exc = closed_detail p exc.
Proof. unfold closed_detail, counted. cbn [t_token]. reflexivity. Qed.

Lemma count_received_eq p : count_received p = counted p 1 0.
Proof. unfold counted, count_received. cbn. by rewrite Z.add_0_r. Qed.

Lemma count_dropped_eq p : count_dropped p = counted p 0 1.
Proof. unfold counted, count_dropped. cbn. by rewrite Z.add_0_r. Qed.
Hint Rewrite count_received_eq count_dropped_eq counted_counted : counters.

(** What a frame is, whoever reads it: its tick if it is a good quote, and whether it
    is dropped. *)
Definition blank : TiingoProvider := {|
  t_symbols := []; t_token := ""; t_threshold := 0; received_frames := 0; dropped_frames := 0 |}.
Definition verdict (raw : string) (now : datetime) : Parsed := (parse_frame blank raw now).2.
Definition malformed (raw : string) (now : datetime) : bool := dropped_frames (parse_frame blank raw now).1 =? 1.

Lemma parse_frame_verdict p raw now :
  parse_frame p raw now = (counted p 0 (if malformed raw now then 1 else 0), verdict raw now).
Proof.
  unfold malformed, verdict, parse_frame, data_frame. rewrite !count_dropped_eq.
  destruct (json_read raw) as [|e|[]]; try (cbn; by rewrite ?counted_0).
  destruct (is_text "E" _); [cbn; by rewrite counted_0|].
  destruct (negb (is_text "A" _)); [cbn; by rewrite counted_0|].
  destruct (dget "data" _) as [[]|]; try done. destruct (_ || _); [done|].
  destruct (tick_of l now) as [t|[]]; cbn; by rewrite ?counted_0.
Qed.

(* ------------------------------------------------------------------ *)
(** ** Quotes *)

(** A frame that is a quote: the positional array with a text, a time and numbers in
    their places, a possible tick, and a mid that agrees with it. *)
Inductive Quote (raw : string) (now : datetime) : Tick F -> Prop :=
  | is_quote o data js jt jb jm ja ts b m a :
      json_read raw = Loaded (JObj o) -> dget "messageType" (JObj o) = Some (JStr "A") ->
      dget "data" (JObj o) = Some (JList data) -> (_EXPECTED_FIELDS <= length data)%nat ->
      data !! 0%nat = Some (JStr "Q") -> data !! 1%nat = Some js -> data !! 2%nat = Some jt ->
      data !! 4%nat = Some jb -> data !! 5%nat = Some jm -> data !! 7%nat = Some ja ->
      frame_time jt = Ok ts -> py_float jb = Ok b -> py_float jm = Ok m -> py_float ja = Ok a ->
      let t := quoted (upper (text_of js)) b a ts.1 now in
      validate t = Ok tt -> isclose (mid t) m MID_TOLERANCE = true -> Quote raw now t.

Lemma is_text_true text v : is_text text v = true <-> v = Some (JStr text).
Proof.
  destruct v as [[]|]; cbn; try by split. rewrite String.eqb_eq. split; [by intros ->|by intros [= ->]].
Qed.

Lemma py_index_lookup {A} (l : list A) i a : py_index l i = Ok a -> 0 <= i -> l !! Z.to_nat i = Some a.
Proof.
  intros Hl Hi. unfold py_index in Hl. rewrite (proj2 (Z.ltb_ge i 0)) in Hl by done.
  destruct (_ && _); [|done]. by destruct (l !! Z.to_nat i); [injection Hl as ->|].
Qed.

Lemma is_head {A} (l : list A) : head l = l !! 0%nat.
Proof. by destruct l. Qed.

(** What a data frame comes to. *)
Lemma verdict_data raw now o data :
  json_read raw = Loaded (JObj o) -> dget "messageType" (JObj o) = Some (JStr "A") ->
  dget "data" (JObj o) = Some (JList data) -> (_EXPECTED_FIELDS <= length data)%nat ->
  data !! 0%nat = Some (JStr "Q") ->
  verdict raw now = match tick_of data now with
    | Ok t => Yields t | Raise TypeError | Raise ValueError => Nothing | Raise e => Raises (Uncaught e) end.
Proof.
  intros Hr Hm Hd Hl H0. unfold verdict, parse_frame. rewrite Hr. cbv zeta. rewrite Hm. cbn [is_text].
  rewrite Hd. unfold data_frame. rewrite (proj2 (Nat.ltb_ge _ _) Hl), is_head, H0. cbn.
  by destruct (tick_of data now) as [|[]].
Qed.

Lemma verdict_quote raw now t : verdict raw now = Yields t <-> Quote raw now t.
Proof.
  split.
  - unfold verdict, parse_frame. destruct (json_read raw) as [|e|[]] eqn:Hr; try done. cbv zeta.
    destruct (is_text "E" _) eqn:HE; [done|]. destruct (is_text "A" _) eqn:HA; [|done]. cbn [negb].
    apply is_text_true in HA. unfold data_frame. destruct (dget "data" _) as [[]|] eqn:Hd; try done.
    destruct (_ || _) eqn:Hshape; [done|]. boolify.
    destruct (tick_of l now) as [t'|[]] eqn:Ht; cbn; try done. intros [= <-].
    unfold tick_of in Ht. inv_result.
    repeat match goal with Hx : py_index _ _ = Ok _ |- _ => apply py_index_lookup in Hx; [|done] end.
    match goal with Hx : is_text "Q" _ = true |- _ => apply is_text_true in Hx; rewrite is_head in Hx end.
    match goal with Hx : Nat.ltb _ _ = false |- _ => apply Nat.ltb_ge in Hx end.
    match goal with Hx : unit |- _ => destruct Hx end. by eapply is_quote.
  - intros [o data js jt jb jm ja ts b m a Hr Hm Hd Hl H0 H1 H2 H4 H5 H7 Hts Hb Hmid Ha t' Hv Hc].
    rewrite (verdict_data raw now o data) by done. unfold tick_of.
    rewrite (py_index_ok data 2 jt), (py_index_ok data 1 js), (py_index_ok data 4 jb), (py_index_ok data 7 ja),
      (py_index_ok data 5 jm) by done.
    cbn [mbind result_bind]. rewrite Hts. cbn [mbind result_bind]. rewrite Hb. cbn [mbind result_bind].
    rewrite Ha. cbn [mbind result_bind]. fold t'. rewrite Hv. cbn [mbind result_bind]. rewrite Hmid.
    cbn [mbind result_bind]. by rewrite Hc.
Qed.

(** A possible tick: what [validate] promises the rest of the program. *)
Definition possible t : Prop :=
  tick_symbol t <> ""%string /\ f_isfinite (bid t) = true /\ f_isfinite (ask t) = true /\
  f_le (bid t) f_zero = false /\ f_lt (ask t) (bid t) = false /\
  f_lt (f_mul MAX_SPREAD_FRACTION (mid t)) (spread t) = false.

Lemma quote_possible raw now t : Quote raw now t -> possible t /\ ts_ingest t = now.
Proof.
  intros [o data js jt jb jm ja ts b m a _ _ _ _ _ _ _ _ _ _ _ _ _ _ t' Hv _]. split; [|done].
  unfold validate in Hv. repeat (apply bind_ok in Hv as ([] & ?%guard_ok & Hv)). boolify.
  unfold possible. split_and!; try done. intros Hs. by apply String.eqb_neq in Hs.
Qed.

(* ------------------------------------------------------------------ *)
(** ** What ends the feed *)

(** An integer in the place of a price that no double can hold. *)
Definition oversized (data : list (json F)) : Prop :=
  exists i n, i ∈ [4; 5; 7]%nat /\ data !! i = Some (JInt n) /\ f_isfinite (f_of_Z n) = false.

Inductive Ends (raw : string) : Failure -> Prop :=
  | ends_error o : json_read raw = Loaded (JObj o) -> dget "messageType" (JObj o) = Some (JStr "E") ->
      Ends raw (error_frame (JObj o))
  | ends_reader e : json_read raw = Escapes e -> Ends raw (Uncaught e)
  | ends_oversized o data : json_read raw = Loaded (JObj o) -> dget "data" (JObj o) = Some (JList data) ->
      oversized data -> Ends raw (Uncaught OverflowError).

Lemma py_float_raises j e :
  py_float j = Raise e ->
  e = TypeError \/ e = ValueError \/ e = OverflowError /\ exists n, j = JInt n /\ f_isfinite (f_of_Z n) = false.
Proof.
  destruct j; cbn; try (intros [= <-]; auto); try done.
  - unfold float_of_int. destruct (f_isfinite (f_of_Z n)) eqn:Hn; [done|]. intros [= <-]. right. right. eauto.
  - intros He%float_text_raises. auto.
Qed.

Lemma py_index_in {A} (l : list A) i :
  0 <= i < Z.of_nat (length l) -> exists a, py_index l i = Ok a /\ l !! Z.to_nat i = Some a.
Proof.
  intros Hi. destruct (lookup_lt_is_Some_2 l (Z.to_nat i)) as [a Ha]; [lia|]. exists a. split; [|done].
  apply py_index_ok; [lia|done].
Qed.

Lemma guard_raises b e e' : guard_ b e = Raise e' -> e' = e.
Proof. destruct b; by intros [= <-]. Qed.

Lemma validate_raises t e : validate t = Raise e -> e = ValueError.
Proof.
  unfold validate. intros Hv.
  repeat (apply bind_raise in Hv as [Hv|(? & _ & Hv)]; [by apply guard_raises in Hv|]). by apply guard_raises in Hv.
Qed.

Lemma tick_of_raises data now e :
  (_EXPECTED_FIELDS <= length data)%nat -> tick_of data now = Raise e ->
  e = TypeError \/ e = ValueError \/ e = OverflowError /\ oversized data.
Proof.
  unfold _EXPECTED_FIELDS. intros Hl.
  assert (Hfloat : forall i j e', i ∈ [4; 5; 7]%nat -> data !! i = Some j -> py_float j = Raise e' ->
    e' = TypeError \/ e' = ValueError \/ e' = OverflowError /\ oversized data).
  { intros i j e' Hi Hj [|[|[-> (n & -> & Hn)]]]%py_float_raises; auto. right. right. split; [done|]. by exists i, n. }
  destruct (py_index_in data 2) as (jt & Ht & _); [lia|]. destruct (py_index_in data 1) as (js & Hs & _); [lia|].
  destruct (py_index_in data 4) as (jb & Hb & Hb'); [lia|]. destruct (py_index_in data 7) as (ja & Ha & Ha'); [lia|].
  destruct (py_index_in data 5) as (jm & Hm & Hm'); [lia|].
  unfold tick_of. rewrite Ht, Hs, Hb, Ha, Hm. cbn [mbind result_bind].
  intros [He|(ts & _ & He)]%bind_raise; [apply iso_text_raises in He; auto|].
  apply bind_raise in He as [He|(b & _ & He)]; [apply (Hfloat 4%nat jb); [set_solver|done..]|].
  apply bind_raise in He as [He|(a & _ & He)]; [apply (Hfloat 7%nat ja); [set_solver|done..]|].
  cbv zeta in He. apply bind_raise in He as [He|([] & _ & He)]; [apply validate_raises in He; auto|].
  apply bind_raise in He as [He|(m & _ & He)]; [apply (Hfloat 5%nat jm); [set_solver|done..]|].
  unfold guard_ in He. destruct (isclose _ _ _); [done|]. injection He as <-. auto.
Qed.

Lemma verdict_raises raw now f : verdict raw now = Raises f -> Ends raw f.
Proof.
  unfold verdict, parse_frame. destruct (json_read raw) as [|e|[]] eqn:Hr; try done; [by intros [= <-]; apply ends_reader|].
  cbv zeta. destruct (is_text "E" _) eqn:HE.
  { apply is_text_true in HE. intros [= <-]. by apply ends_error. }
  destruct (negb _); [done|]. unfold data_frame. destruct (dget "data" _) as [[]|] eqn:Hd; try done.
  destruct (_ || _) eqn:Hshape; [done|]. apply orb_false_iff in Hshape as [Hl%Nat.ltb_ge _].
  destruct (tick_of l now) as [t|e] eqn:Ht; [done|]. apply tick_of_raises in Ht as [->|[->|[-> Ho]]]; [done..| |done].
  intros [= <-]. by apply (ends_oversized raw o l).
Qed.

(* ------------------------------------------------------------------ *)
(** ** The stream *)

Definition tick_in (ev : Received) : option (Tick F) :=
  match ev with
  | Message raw now => match verdict raw now with Yields t => Some t | _ => None end
  | Closed _ => None
  end.

Definition dropped_in (ev : Received) : bool :=
  match ev with Message raw now => malformed raw now | Closed _ => false end.

(** Where the stream stands after [handled], with [rest] to come: it goes on, the
    connection is closed, or the last frame ended it. *)
Definition ended p (handled rest : list Received) (f : option Failure) : Prop :=
  match f with
  | None => rest = []
  | Some f => (exists exc more, rest = Closed exc :: more /\ f = ProviderError (closed_detail p exc)) \/
              (exists raw now, last handled = Some (Message raw now) /\ Ends raw f)
  end.

(** C17. A frame is judged by itself.  Whatever frames come, in whatever order, the ticks
    yielded are those of the frames that are quotes - all of them, in order, each a
    possible tick - and every other frame leaves no trace but its place in the
    counters; this goes on until the connection closes, or a frame comes that is the
    provider's error, that the JSON reader raises on in a way of its own, or that has
    an integer no double can hold in the place of a price. *)
Theorem feed_is_its_quotes p evs p' ts f :
  stream p evs = (p', ts, f) ->
  exists handled rest, evs = handled ++ rest /\
    ts = omap tick_in handled /\
    (forall raw now t, tick_in (Message raw now) = Some t <-> Quote raw now t) /\
    Forall possible ts /\
    p' = counted p (Z.of_nat (length handled)) (Z.of_nat (length (List.filter dropped_in handled))) /\
    ended p handled rest f.
Proof.
  intros Hs. assert (Htick : forall raw now t, tick_in (Message raw now) = Some t <-> Quote raw now t).
  { intros raw now t. rewrite <- verdict_quote. cbn. destruct (verdict raw now); split; congruence. }
  enough (Hgen : exists handled rest, evs = handled ++ rest /\ ts = omap tick_in handled /\
    p' = counted p (Z.of_nat (length handled)) (Z.of_nat (length (List.filter dropped_in handled))) /\
    ended p handled rest f).
  { destruct Hgen as (handled & rest & -> & -> & Hp & Hf). exists handled, rest. split_and!; try done.
    apply Forall_forall. intros t ([raw now|] & _ & Ht)%list_elem_of_omap; [|done].
    apply Htick in Ht. by apply quote_possible in Ht as []. }
  clear Htick. revert p p' ts f Hs. induction evs as [|[raw now|exc] evs IH]; intros p p' ts f Hs.
  - injection Hs as <- <- <-. exists [], []. cbn. by rewrite counted_0.
  - cbn [stream] in Hs. rewrite parse_frame_verdict, count_received_eq, counted_counted in Hs.
    set (d := if malformed raw now then 1 else 0) in Hs.
    assert (Hcount : forall handled r', r' = counted (counted p (1 + 0) (0 + d)) (Z.of_nat (length handled))
        (Z.of_nat (length (List.filter dropped_in handled))) ->
      r' = counted p (Z.of_nat (length (Message raw now :: handled)))
        (Z.of_nat (length (List.filter dropped_in (Message raw now :: handled))))).
    { intros handled r' ->. rewrite counted_counted. cbn. unfold d. destruct (malformed raw now); cbn; f_equal; lia. }
    assert (Hends : forall handled rest f, ended (counted p (1 + 0) (0 + d)) handled rest f ->
      ended p (Message raw now :: handled) rest f).
    { intros handled rest [e|]; [|done]. intros [(exc & more & Hrest & He)|(r & n & Hl & He)].
      - left. exists exc, more. split; [exact Hrest|]. by rewrite closed_detail_counted in He.
      - right. exists r, n. split; [|exact He]. by rewrite last_cons, Hl. }
    destruct (verdict raw now) as [t| |e] eqn:Hv.
    + destruct (stream _ evs) as [[p1 ts1] f1] eqn:Hrest. injection Hs as <- <- <-.
      destruct (IH _ _ _ _ Hrest) as (handled & rest & -> & -> & Hp & Hf).
      exists (Message raw now :: handled), rest. split_and!; [done|cbn; by rewrite Hv|by apply Hcount|].
      exact (Hends _ _ _ Hf).
    + destruct (IH _ _ _ _ Hs) as (handled & rest & -> & -> & Hp & Hf).
      exists (Message raw now :: handled), rest. split_and!; [done|cbn; by rewrite Hv|by apply Hcount|].
      exact (Hends _ _ _ Hf).
    + injection Hs as <- <- <-. exists [Message raw now], evs. split; [reflexivity|]. split; [cbn [omap list_omap tick_in]; by rewrite Hv|].
      split; [|right].
      * apply (Hcount []). cbn [length List.filter]. by rewrite (counted_counted _ _ _ 0 0), !Z.add_0_r.
      * exists raw, now. split; [done|]. by apply verdict_raises in Hv.
  - injection Hs as <- <- <-. exists [], (Closed exc :: evs). cbn. rewrite counted_0. split_and!; try done.
    left. by exists exc, evs.
Qed.

(* ------------------------------------------------------------------ *)
(** ** The rows of a history *)

Definition kept (symbol : string) (start end_ : datetime) (row : json F) : option (Bar F) :=
  match history_row symbol start end_ row with Kept b => Some b | _ => None end.
Definition row_dropped (symbol : string) (start end_ : datetime) (row : json F) : bool :=
  match history_row symbol start end_ row with Dropped => true | _ => false end.

(** A row whose reading raises what the loop does not catch: a price that no double
    can hold, or a date without an offset, which does not compare with the window. *)
Definition row_raises (row : json F) (e : exn) : Prop :=
  (e = OverflowError /\ exists k n, k ∈ ["open"; "high"; "low"; "close"]%string /\
     jget k row = Ok (JInt n) /\ f_isfinite (f_of_Z n) = false) \/
  (e = TypeError /\ exists r, row_of row = Ok r /\ row_aware r = false).

Lemma jget_raises key j e : jget key j = Raise e -> e = KeyError \/ e = TypeError.
Proof. destruct j; cbn; try (intros [= <-]; auto). destruct (List.find _ _); [done|]. intros [= <-]. auto. Qed.

Lemma row_of_raises row e :
  row_of row = Raise e -> e = KeyError \/ e = TypeError \/ e = ValueError \/ row_raises row e.
Proof.
  assert (Hprice : forall k e, k ∈ ["open"; "high"; "low"; "close"]%string -> (j ← jget k row; py_float j) = Raise e ->
    e = KeyError \/ e = TypeError \/ e = ValueError \/ row_raises row e).
  { intros k e' Hk [Hj|(j & Hj & Hf)]%bind_raise; [apply jget_raises in Hj as []; auto|].
    apply py_float_raises in Hf as [|[|[-> (n & -> & Hn)]]]; auto. right. right. right. left. split; [done|]. by exists k, n. }
  unfold row_of. intros [He|(jd & _ & He)]%bind_raise; [apply jget_raises in He as []; auto|].
  apply bind_raise in He as [He|(d & _ & He)]; [apply iso_text_raises in He; auto|].
  assert (Hstep : forall k (K : F -> result Row), k ∈ ["open"; "high"; "low"; "close"]%string ->
    (j ← jget k row; x ← py_float j; K x) = Raise e ->
    (e = KeyError \/ e = TypeError \/ e = ValueError \/ row_raises row e) \/ exists x, K x = Raise e).
  { intros k K Hk He'. destruct (j ← jget k row; py_float j) as [x|e'] eqn:Hx.
    - right. exists x. apply bind_ok in Hx as (j & Hj & Hx). rewrite Hj in He'. cbn [mbind result_bind] in He'. by rewrite Hx in He'.
    - left. destruct (jget k row) as [j|] eqn:Hj; [|apply (Hprice k e Hk); rewrite Hj; cbn [mbind result_bind] in *; congruence].
      cbn [mbind result_bind] in *. rewrite Hx in He'. cbn [mbind result_bind] in He'. injection He' as <-.
      apply (Hprice k e' Hk). by rewrite Hj. }
  apply Hstep in He as [?|[o He]]; [done| |set_solver]. apply Hstep in He as [?|[h He]]; [done| |set_solver].
  apply Hstep in He as [?|[l He]]; [done| |set_solver]. apply Hstep in He as [?|[c He]]; [done|done|set_solver].
Qed.

Lemma history_row_raises symbol start end_ row e :
  history_row symbol start end_ row = RowRaises e -> row_raises row e.
Proof.
  unfold history_row. destruct (row_of row) as [r|e'] eqn:Hr.
  - destruct (negb (row_sane r)); [done|]. destruct (row_aware r) eqn:Ha; cbn; [by destruct (_ && _)|].
    intros [= <-]. right. split; [done|]. by exists r.
  - apply row_of_raises in Hr as [->|[->|[->|Hr]]]; try done. intros He. assert (e = e') as -> by (destruct e'; congruence). done.
Qed.

Lemma history_rows_exact p symbol start end_ rows :
  (exists row e q, row ∈ rows /\ row_raises row e /\ history_rows p symbol start end_ rows = (q, Raise e)) \/
  history_rows p symbol start end_ rows =
    (counted p 0 (Z.of_nat (length (List.filter (row_dropped symbol start end_) rows))),
     Ok (omap (kept symbol start end_) rows)).
Proof.
  revert p. induction rows as [|row rows IH]; intros p; [right; cbn; by rewrite counted_0|].
  destruct (history_row symbol start end_ row) as [b| | |e] eqn:Hrow; cbn [history_rows]; rewrite Hrow.
  - destruct (IH p) as [(r & e & q & Hin & He & ->)| ->]; [left|right].
    + exists r, e, q. split; [by apply list_elem_of_further|done].
    + cbn. unfold kept, row_dropped. by rewrite Hrow.
  - destruct (IH (count_dropped p)) as [(r & e & q & Hin & He & ->)| ->]; [left|right].
    + exists r, e, q. split; [by apply list_elem_of_further|done].
    + cbn. unfold kept, row_dropped. rewrite Hrow, count_dropped_eq, counted_counted. cbn. f_equal. f_equal. lia.
  - destruct (IH p) as [(r & e & q & Hin & He & ->)| ->]; [left|right].
    + exists r, e, q. split; [by apply list_elem_of_further|done].
    + cbn. unfold kept, row_dropped. by rewrite Hrow.
  - left. exists row, e, p. split; [apply list_elem_of_here|]. split; [by eapply history_row_raises|done].
Qed.
End Feed.

(* ------------------------------------------------------------------ *)
(** ** What history and recovery bring in *)

Section History.
Context {F : Type} `{PyFloat F, !PyFloatOrder F, !PyText F, SortedSet}.

(** The prices of a bar: positive, and ordered as a candle's are; of the close only
    if it is a number. *)
Definition candle_ok (o h l c : F) : Prop :=
  f_isfinite h = true /\ f_lt f_zero l = true /\ f_le l o = true /\ f_le o h = true /\
  (f_isnan c = false -> f_le l c = true /\ f_le c h = true).

(** A bar of a history asked for from [start] to [end_]. *)
Definition history_ok (symbol : string) (start end_ : datetime) (b : Bar F) : Prop :=
  candle_ok (open b) (high b) (low b) (close b) /\ start <= bucket b <= end_ /\
  bar_symbol b = upper symbol /\ source b = BACKFILL /\ tick_count b = 0.

Lemma row_sane_candle (r : Row) :
  row_sane r = true -> candle_ok (row_open r) (row_high r) (row_low r) (row_close r).
Proof.
  unfold row_sane, py_min, py_max, candle_ok. set (o := row_open r). set (c := row_close r).
  destruct (f_lt c o) eqn:Hco; destruct (f_lt o c) eqn:Hoc; intros Hs; boolify.
  - pose proof (f_lt_irrefl c) as Hirr. pose proof (f_lt_trans _ _ _ Hco Hoc). congruence.
  - split_and!; try done; [|intros _; split]; eauto using f_le_trans.
  - split_and!; try done; [|intros _; split]; eauto using f_le_trans.
  - assert (Ho : f_isnan o = false) by (by apply (f_le_not_nan (row_low r) o)).
    split_and!; [done..|]. intros Hc. pose proof (f_total _ _ Ho Hc Hoc). pose proof (f_total _ _ Hc Ho Hco).
    eauto using f_le_trans.
Qed.

Lemma history_row_kept symbol start end_ row (b : Bar F) :
  history_row symbol start end_ row = Kept b -> history_ok symbol start end_ b.
Proof.
  unfold history_row. destruct (row_of row) as [r|[]]; try done. destruct (row_sane r) eqn:Hs; [|done]. cbn [negb].
  destruct (row_aware r); [|done]. cbn [negb]. destruct (_ && _) eqn:Hw; [|done]. intros [= <-]. boolify.
  split_and!; try done; by apply row_sane_candle.
Qed.

Lemma kept_ok symbol start end_ rows : Forall (history_ok symbol start end_) (omap (kept symbol start end_) rows).
Proof.
  apply Forall_forall. intros b (row & _ & Hb)%list_elem_of_omap. unfold kept in Hb.
  destruct (history_row symbol start end_ row) eqn:Hrow; [|done..]. injection Hb as <-. by eapply history_row_kept.
Qed.

(** Why a history is refused. *)
Inductive NoHistory (interval : string) : HttpReply -> Failure (F := F) -> Prop :=
  | no_interval reply : interval <> "1m"%string -> interval <> "1d"%string -> NoHistory interval reply (Uncaught KeyError)
  | no_transport exc d : NoHistory interval (TransportError exc) (ProviderError d)
  | no_auth hdr body d : NoHistory interval (Response 401 hdr body) (ProviderAuthError d)
  | no_entitlement hdr body : NoHistory interval (Response 403 hdr body) ProviderEntitlementError
  | no_allowance hdr body : NoHistory interval (Response 429 hdr body) (ProviderRateLimitError (retry_after hdr))
  | no_success status hdr body d : ~ 200 <= status < 300 -> NoHistory interval (Response status hdr body) (ProviderError d)
  | no_json status hdr body d : (json_read body = NotJson \/ json_read body = Escapes ValueError) ->
      NoHistory interval (Response status hdr body) (ProviderError d)
  | no_reader status hdr body e : json_read body = Escapes e -> NoHistory interval (Response status hdr body) (Uncaught e)
  | no_rows status hdr body j : json_read body = Loaded j -> elements j = Raise TypeError ->
      NoHistory interval (Response status hdr body) (Uncaught TypeError)
  | no_row status hdr body j rows row e : json_read body = Loaded j -> elements j = Ok rows -> row ∈ rows ->
      row_raises row e -> NoHistory interval (Response status hdr body) (Uncaught e).

Lemma elements_raises (j : json F) e : elements j = Raise e -> e = TypeError.
Proof. by destruct j; intros [= <-]. Qed.

Lemma response_refused interval status hdr body f :
  response_rows status hdr body = inr f -> NoHistory interval (Response status hdr body) f.
Proof.
  unfold response_rows. destruct (Z.eqb_spec status 401) as [->|]; [intros [= <-]; apply no_auth|].
  destruct (Z.eqb_spec status 403) as [->|]; [intros [= <-]; apply no_entitlement|].
  destruct (Z.eqb_spec status 429) as [->|]; [intros [= <-]; apply no_allowance|].
  destruct (negb _) eqn:Hs; [intros [= <-]; apply no_success|].
  - apply negb_true_iff, andb_false_iff in Hs as [?%Z.leb_gt|?%Z.ltb_ge]; lia.
  - destruct (json_read body) as [|e|j] eqn:Hj; [intros [= <-]; apply no_json; by left| |done].
    destruct e; intros [= <-]; first [by apply no_json; right|by apply no_reader].
Qed.

Lemma response_loaded status hdr body (j : json F) :
  response_rows status hdr body = inl j -> 200 <= status < 300 /\ json_read body = Loaded j.
Proof.
  unfold response_rows. destruct (status =? 401); [done|]. destruct (status =? 403); [done|].
  destruct (status =? 429); [done|]. destruct (negb _) eqn:Hs; [done|]. boolify.
  destruct (json_read body) as [|[]|]; try done. intros [= <-]. split; [lia|done].
Qed.

Lemma backfill_spec p symbol start end_ interval reply p' r :
  backfill p symbol start end_ interval reply = (p', r) ->
  match r with
  | inl bars => exists status hdr body j rows, reply = Response status hdr body /\ 200 <= status < 300 /\
      json_read body = Loaded j /\ elements j = Ok rows /\
      let start := Z.max start _HISTORY_START in
      bars = omap (kept symbol start end_) rows /\
      p' = counted p 0 (Z.of_nat (length (List.filter (row_dropped symbol start end_) rows)))
  | inr f => NoHistory interval reply f
  end.
Proof.
  unfold backfill. cbv zeta. set (start' := Z.max start _HISTORY_START). unfold history_request.
  destruct (if String.eqb interval "1m" then _ else _) as [resample|e] eqn:Hi; cbn [mbind result_bind].
  2:{ intros [= <- <-]. destruct (String.eqb_spec interval "1m"); [done|].
      destruct (String.eqb_spec interval "1d"); [done|]. injection Hi as <-. by apply no_interval. }
  destruct reply as [exc|status hdr body]; [intros [= <- <-]; apply no_transport|].
  destruct (response_rows status hdr body) as [j|f] eqn:Hresp.
  2:{ intros [= <- <-]. by apply response_refused. }
  destruct (response_loaded _ _ _ _ Hresp) as [Hst Hj].
  destruct (elements j) as [rows|e] eqn:He.
  2:{ intros [= <- <-]. pose proof (elements_raises _ _ He) as ->. by eapply no_rows. }
  destruct (history_rows_exact p symbol start' end_ rows) as [(row & e & q & Hin & Hr & ->)| ->]; intros [= <- <-].
  - by eapply no_row.
  - exists status, hdr, body, j, rows. split_and!; try done; lia.
Qed.

(** A history is its rows.  A request for history is answered with the bars of
    exactly those rows of the reply that are candles within the window, in the order
    of the reply and marked as backfilled, every other readable row being counted as
    dropped or lying outside of the window; or refused, for a reason of the request,
    of the reply, or of one row in it. *)
Theorem history_is_its_rows p symbol start end_ interval reply p' r :
  backfill p symbol start end_ interval reply = (p', r) ->
  match r with
  | inl bars => exists status hdr body j rows, reply = Response status hdr body /\ 200 <= status < 300 /\
      json_read body = Loaded j /\ elements j = Ok rows /\
      let start := Z.max start _HISTORY_START in
      bars = omap (kept symbol start end_) rows /\
      p' = counted p 0 (Z.of_nat (length (List.filter (row_dropped symbol start end_) rows))) /\
      Forall (history_ok symbol start end_) bars
  | inr f => NoHistory interval reply f
  end.
Proof.
  intros Hb. apply backfill_spec in Hb. destruct r as [bars|]; [|done].
  destruct Hb as (status & hdr & body & j & rows & ? & ? & ? & ? & -> & ->). exists status, hdr, body, j, rows.
  cbv zeta. split_and!; try done; [lia..|apply kept_ok].
Qed.

(** A run's replies that carry bars are what the adapter returns, over the HTTP
    replies [http], for the request. *)
Definition adapter_bars (http : nat -> HttpReply) (reply : nat -> Request -> Reply F) : Prop :=
  forall i r bs, reply i r = Bars bs -> exists p start end_, request_start r = Ok start /\ request_end r = Ok end_ /\
    (backfill p (rq_symbol r) start end_ "1m" (http i)).2 = inl bs.

(** C21. What recovery stores is possible.  With this adapter as the provider, each row
    a run adds to the table of bars is a bar that the reply to one of the run's own
    requests for that pair carried: a wanted minute of that request, within the
    window it asked for, with positive, finite and ordered prices - but for a close
    that is not a number - and marked as backfilled. *)
Theorem recovered_rows_possible (dumps : json F -> string) symbols cfg is_open instance provider_name http reply
    quota stop stale_row st trigger run_id apply window now ready lock_free st' rep :
  adapter_bars http reply ->
  run_once dumps symbols cfg is_open instance provider_name reply quota stop stale_row
    st trigger run_id apply window now ready lock_free = (st', rep) ->
  forall symbol m row, bars (store st) !! (symbol, m) = None -> bars (store st') !! (symbol, m) = Some row ->
  exists i r bs b start end_, (i, r, Bars bs) ∈ drop (length (calls st)) (calls st') /\
    b ∈ bs /\ row = backfill_row b run_id /\
    rq_symbol r = symbol /\ m ∈ wanted r /\
    request_start r = Ok start /\ request_end r = Ok end_ /\ Z.max start _HISTORY_START <= m <= end_ /\
    candle_ok (Database.r_open row) (Database.r_high row) (Database.r_low row) (Database.r_close row) /\
    Database.r_source row = "backfill"%string /\ Database.r_tick_count row = 0.
Proof.
  intros Hask Hrun symbol m row Hk Hrow. apply run_once_spec in Hrun as [(-> & _)|(w & _ & _ & _ & Hspec)]; [congruence|].
  destruct Hspec as (cs & sett & Hcs & [_ Hnew] & _ & _ & Hall & _).
  destruct (Hnew _ _ Hk Hrow) as (i & r & bs & b & Hin & Hb & Hsym & [= -> ->] & Hwant & ->).
  rewrite Forall_forall in Hall. destruct (Hall _ Hin) as (_ & _ & _ & Hreply & _). cbn in Hreply.
  destruct (Hask i r bs (eq_sym Hreply)) as (p & start & end_ & Hs & He & Hr).
  destruct (backfill p _ start end_ "1m" (http i)) as [p' out] eqn:Hback. cbn in Hr. subst out.
  apply backfill_spec in Hback as (status & hdr & body & j & rows & _ & _ & _ & _ & -> & _).
  destruct (proj1 (Forall_forall _ _) (kept_ok _ _ _ rows) _ Hb) as (Hc & Hwin & _).
  exists i, r, (omap (kept (rq_symbol r) (Z.max start _HISTORY_START) end_) rows), b, start, end_.
  rewrite Hcs, drop_app_length. split_and!; try done; lia.
Qed.
End History.

(* ------------------------------------------------------------------ *)
(** ** Examples *)

Section Examples.
#[local] Existing Instance plain64.
#[local] Existing Instance json_bits.
#[local] Existing Instance sorted_list.
#[local] Instance demo_order : @PyFloatOrder spec_float plain64 := binary64_order _ _ _.

Definition map_ascii (f : ascii -> ascii) (s : string) : string :=
  String.string_of_list_ascii (f <$> String.list_ascii_of_string s).
Definition shift_letter (from by_ : N) (c : ascii) : ascii :=
  let n := N_of_ascii c in if ((from <=? n) && (n <? from + 26))%N then ascii_of_N (n + by_ - 32) else c.

(** ASCII texts, times of [isoformat] with and without their offset, no numbers in
    words. *)
Definition plain_text : PyText spec_float.
Proof.
  refine {| json_read s := match loads s with Ok j => Loaded j | Raise _ => NotJson end;
    float_text _ := Raise ValueError;
    iso_text s := match read_iso s with
      | Some t => Ok (t, true)
      | None => match read_iso (s +:+ "+00:00") with Some t => Ok (t, false) | None => Raise ValueError end
      end;
    other_text _ := ""%string; lower := map_ascii (shift_letter 65 64); upper := map_ascii (shift_letter 97 0) |}.
  - by intros s e [= <-].
  - intros s e. destruct (read_iso s); [done|]. destruct (read_iso _); [done|]. by intros [= <-].
Defined.
#[local] Existing Instance plain_text.

Definition demo_adapter : TiingoProvider := {|
  t_symbols := ["EURUSD"%string]; t_token := "s3cret"; t_threshold := 5; received_frames := 0; dropped_frames := 0 |}.

Definition frame_of (j : json spec_float) : Received := Message (dumps j) 0.
Definition demo_data (b m a : json spec_float) : json spec_float := JObj [
  ("service", JStr "fx"); ("messageType", JStr "A");
  ("data", JList [JStr "Q"; JStr "eurusd"; JStr "2025-10-12T00:00:05Z"; JInt 1_000_000; b; m; JInt 1_000_000; a])]%string.
Definition demo_heartbeat : json spec_float := JObj [("messageType", JStr "H")]%string.

(** A heartbeat, a quote, a frame whose ask is read from the place of a size, and
    nonsense. *)
Definition demo_frames : list Received := [
  frame_of demo_heartbeat;
  frame_of (demo_data (JInt 2) (JInt 2) (JInt 2));
  frame_of (demo_data (JInt 2) (JInt 2) (JInt 1_000_000));
  Message "garbage" 0;
  frame_of (demo_data (JInt 3) (JInt 3) (JInt 3))].

Lemma feed_is_its_quotes_witness :
  exists p' ts, stream demo_adapter demo_frames = (p', ts, None) /\ length ts = 2%nat /\
    Forall possible ts /\ received_frames p' = 5 /\ dropped_frames p' = 2.
Proof.
  destruct (stream demo_adapter demo_frames) as [[p' ts] f] eqn:E.
  assert (Hout : let '(p', ts, f) := stream demo_adapter demo_frames in
    (received_frames p', dropped_frames p', length ts, match f with None => true | _ => false end) = (5, 2, 2%nat, true))
    by (vm_compute; reflexivity).
  rewrite E in Hout. injection Hout as Hr Hd Hl Hf. destruct f; [done|]. exists p', ts.
  destruct (feed_is_its_quotes demo_adapter demo_frames p' ts None E) as (_ & _ & _ & _ & _ & Hok & _).
  by split_and!.
Defined.

Definition demo_history_row (date : string) (o h l c : json spec_float) : json spec_float := JObj [
  ("date", JStr date); ("open", o); ("high", h); ("low", l); ("close", c)]%string.
Definition demo_response (rows : list (json spec_float)) : HttpReply := Response 200 None (dumps (JList rows)).
Definition demo_from : datetime := demo_minute (-5).
Definition demo_until : datetime := demo_minute 5.
Definition demo_row_at (m : Z) (o h l c : json spec_float) : json spec_float :=
  demo_history_row (iso_string (demo_minute m)) o h l c.

Lemma history_is_its_rows_witness :
  exists p' bs, backfill demo_adapter "eurusd" demo_from demo_until "1m" (demo_response [
      demo_row_at 0 (JInt 2) (JInt 4) (JInt 1) (JInt 3); demo_row_at 1 (JInt 2) (JInt 1) (JInt 1) (JInt 3);
      demo_row_at 99 (JInt 2) (JInt 4) (JInt 1) (JInt 3)]) = (p', inl bs) /\
    length bs = 1%nat /\ dropped_frames p' = 1 /\ Forall (history_ok "eurusd" (Z.max demo_from _HISTORY_START) demo_until) bs.
Proof.
  set (reply := demo_response _).
  assert (Hout : let '(p', r) := backfill demo_adapter "eurusd" demo_from demo_until "1m" reply in
    match r with inl bs => (length bs, dropped_frames p') = (1%nat, 1) | inr _ => False end) by (vm_compute; reflexivity).
  destruct (backfill demo_adapter "eurusd" demo_from demo_until "1m" reply) as [p' [bs|f]] eqn:E;
    cbv beta iota in Hout; [|contradiction].
  injection Hout as Hl Hd. exists p', bs.
  destruct (history_is_its_rows demo_adapter "eurusd" demo_from demo_until "1m" reply p' (inl bs) E)
    as (? & ? & ? & ? & ? & _ & _ & _ & _ & _ & _ & Hok). by split_and!.
Defined.

(** The provider has 23:57 and 23:59 of EURUSD for any request. *)
Definition demo_http (i : nat) : HttpReply := demo_response [
  demo_row_at (-3) (JInt 2) (JInt 4) (JInt 1) (JInt 3); demo_row_at (-1) (JInt 3) (JInt 3) (JInt 3) (JInt 3)].
Definition adapter_reply (i : nat) (r : Request) : Reply spec_float :=
  match request_start r, request_end r with
  | Ok start, Ok end_ =>
      match (backfill demo_adapter (rq_symbol r) start end_ "1m" (demo_http i)).2 with
      | inl bs => Bars bs
      | inr _ => EntitlementError "403"
      end
  | _, _ => EntitlementError "403"
  end.
Definition adapter_run : Recovery spec_float * RunReport :=
  run_once (fun _ => "x"%string) demo_symbols demo_cfg demo_open "i" "tiingo" adapter_reply
    (fun _ => true) (fun _ => false) (fun _ _ _ => None) demo_recovery "leadership" "run-1" true
    (Some demo_window) (demo_minute 60) true true.

Lemma recovered_rows_possible_witness :
  exists row, RecoveryStore.bars (store adapter_run.1) !! ("EURUSD"%string, demo_minute (-3)) = Some row /\
    candle_ok (Database.r_open row) (Database.r_high row) (Database.r_low row) (Database.r_close row) /\
    exists i r bs, (i, r, Bars bs) ∈ drop (length (calls demo_recovery)) (calls adapter_run.1) /\
      rq_symbol r = "EURUSD"%string.
Proof.
  assert (Hadd : is_Some (RecoveryStore.bars (store adapter_run.1) !! ("EURUSD"%string, demo_minute (-3))))
    by (apply (bool_decide_unpack _); vm_compute; exact I).
  destruct Hadd as [row Hrow]. exists row. split; [exact Hrow|]. destruct adapter_run as [st' rep] eqn:E.
  assert (Hnone : RecoveryStore.bars (store demo_recovery) !! ("EURUSD"%string, demo_minute (-3)) = None)
    by (vm_compute; reflexivity).
  assert (Hask : adapter_bars demo_http adapter_reply).
  { intros i r bs Hb. unfold adapter_reply in Hb. destruct (request_start r) as [start|] eqn:Hs; [|discriminate Hb].
    destruct (request_end r) as [end_|] eqn:He; [|discriminate Hb].
    destruct (backfill demo_adapter (rq_symbol r) start end_ "1m" (demo_http i)).2 as [bs'|f] eqn:Hback; [|discriminate Hb].
    injection Hb as ->. exists demo_adapter, start, end_. split; [reflexivity|]. split; [reflexivity|exact Hback]. }
  destruct (recovered_rows_possible (fun _ => "x"%string) demo_symbols demo_cfg demo_open "i" "tiingo" demo_http
    adapter_reply (fun _ => true) (fun _ => false) (fun _ _ _ => None) demo_recovery "leadership" "run-1" true
    (Some demo_window) (demo_minute 60) true true st' rep Hask E "EURUSD" (demo_minute (-3)) row Hnone Hrow)
    as (i & r & bs & b & start & end_ & Hin & _ & _ & Hsym & _ & _ & _ & _ & Hc & _).
  split; [exact Hc|]. exists i, r, bs. split; [exact Hin|exact Hsym].
Defined.

(* ------------------------------------------------------------------ *)
(** ** Where the adapter does not do what it says *)

(** One frame with an integer of 400 digits for a price ends the session with an
    exception the retry loop does not catch. *)
Lemma oversized_price_escapes :
  (stream demo_adapter [frame_of (demo_data (JInt (10 ^ 400)) (JInt 2) (JInt 2)); frame_of demo_heartbeat]).2
  = Some (Uncaught OverflowError).
Proof. by vm_compute. Qed.

(** A heartbeat is received and yields nothing, so the watchdog, which is petted for
    each tick, does not see it. *)
Lemma heartbeats_yield_nothing n :
  stream demo_adapter (replicate n (frame_of demo_heartbeat)) = (counted demo_adapter (Z.of_nat n) 0, [], None).
Proof.
  assert (Hbeat : forall p, parse_frame p (dumps demo_heartbeat) 0 = (p, Nothing)).
  { intros p. unfold parse_frame. unfold json_read at 1. cbn [plain_text]. by rewrite loads_dumps. }
  generalize demo_adapter as p. induction n as [|n IH]; intros p; [by rewrite counted_0|].
  cbn [replicate stream frame_of]. rewrite Hbeat, IH, count_received_eq, counted_counted. do 2 f_equal. f_equal; lia.
Qed.

(** A row whose close is not a number passes: no comparison of the check fails. *)
Lemma nan_close_kept :
  match history_row "EURUSD" demo_from demo_until (demo_row_at 0 (JInt 2) (JInt 4) (JInt 1) (JFloat S754_nan)) with
  | Kept b => close b = S754_nan
  | _ => False
  end.
Proof. by vm_compute. Qed.

(** A date without an offset, which a frame may have, ends the whole request. *)
Lemma naive_date_escapes :
  history_row "EURUSD" demo_from demo_until (demo_history_row "2022-01-08T00:00:00" (JInt 2) (JInt 4) (JInt 1) (JInt 3))
  = RowRaises TypeError.
Proof. by vm_compute. Qed.

(** The text of an error frame that echoes the subscription is passed on with the
    token in it. *)
Lemma error_frame_shows_token :
  error_frame (JObj [("messageType", JStr "E"); ("response", JStr ("bad subscription: " +:+ t_token demo_adapter))])%string
  = ProviderError "tiingo error frame: bad subscription: s3cret" /\
  closed_detail demo_adapter ("bad subscription: " +:+ t_token demo_adapter)
  = "tiingo connection closed: bad subscription: <redacted>"%string.
Proof. by vm_compute. Qed.

#[local] Existing Instance iso_utc.
#[local] Existing Instance eastern_standard.

(** The smallest positive double is a possible price; the return from 2 to it is the
    logarithm of a quotient that rounds to zero. *)
Definition smallest : spec_float := S754_finite false 1 (-1074).

Lemma smallest_price_ends_handle :
  match stream demo_adapter (frame_of <$> [demo_data (JInt 2) (JInt 2) (JInt 2);
    demo_data (JFloat smallest) (JFloat smallest) (JFloat smallest)]) with
  | (_, ts, None) => run_all (ingest_step write_bits (fun _ => "why"%string) (fun _ => Ok 33)) (demo_empty, [])
      ((fun t => (t, 0, (0, 0))) <$> ts) = Raise ValueError /\ length ts = 2%nat
  | _ => False
  end.
Proof. by vm_compute. Qed.
End Examples.
