(* ===== verification/Socket.v ===== *)
(** * A browser's connection ([fx_api/routers/stream.py], [ws/protocol.py])

    The requests a browser may send, and the connection as it runs: the reader and the
    writer share a lock, the router offers what Redis publishes while the replica is
    connected to it, the snapshot is read at some moment in between, and a writer that
    is woken with nothing queued spins.  [browser_catches_up] is what the lock and the
    order of subscribing and reading are for. *)
From S2P Require Import Prelude PyFloat Json Keys Limits Fanout.

Local Open Scope Z_scope.

(* ------------------------------------------------------------------ *)
(** ** The protocol *)

Definition PROTOCOL_VERSION : Z := 1.
Definition MAX_SYMBOLS_PER_CLIENT : nat := 25.

Inductive CloseCode := NORMAL | PROTOCOL_ERROR | UNAUTHORISED | TOO_MANY_SYMBOLS | SLOW_CLIENT | SERVER_SHUTDOWN.
Definition close_code (c : CloseCode) : Z :=
  match c with
  | NORMAL => 1000 | PROTOCOL_ERROR => 4000 | UNAUTHORISED => 4001
  | TOO_MANY_SYMBOLS => 4002 | SLOW_CLIENT => 4003 | SERVER_SHUTDOWN => 4004
  end.

Inductive ClientOp := SubscribeOp (symbols : list string) (bars : Z) | UnsubscribeOp (symbols : list string) | PingOp.

(** What a message comes to: an operation, an operation the server does not know,
    one the models refuse, or a message that is no object. *)
Inductive Received := Op (op : ClientOp) | UnknownOp | Invalid | NotAnObject.

Section Protocol.
Context {F : Type}.
(** [str.strip().upper()], and pydantic's reading of an integer. *)
Context (strip_upper : string -> string) (to_int : json F -> option Z).
Implicit Types (j : json F).

(** [list[str]] of one to [MAX_SYMBOLS_PER_CLIENT] elements. *)
Definition symbol_list j : option (list string) :=
  match j with
  | JList l =>
      if (1 <=? length l)%nat && (length l <=? MAX_SYMBOLS_PER_CLIENT)%nat
      then mapM (fun x => match x with JStr s => Some s | _ => None end) l else None
  | _ => None
  end.

(** [_normalise]: the first of each, in order. *)
Definition normalise (symbols : list string) : list string :=
  fold_left (fun seen s => if bool_decide (strip_upper s ∈ seen) then seen else seen ++ [strip_upper s]) symbols [].

Definition object_get (key : string) j : option (json F) :=
  match jget_opt key j with Ok v => v | Raise _ => None end.

Definition subscribe_op j : option ClientOp :=
  symbols ← object_get "symbols" j ≫= symbol_list;
  bars ← match object_get "bars" j with Some b => to_int b | None => Some 240 end;
  if (0 <=? bars) && (bars <=? 1440) then Some (SubscribeOp (normalise symbols) bars) else None.

Definition unsubscribe_op j : option ClientOp :=
  UnsubscribeOp <$> (object_get "symbols" j ≫= symbol_list).

Definition received j : Received :=
  match j with
  | JObj _ =>
      let checked o := match o with Some op => Op op | None => Invalid end in
      match object_get "op" j with
      | Some (JStr op) =>
          if String.eqb op "subscribe" then checked (subscribe_op j)
          else if String.eqb op "unsubscribe" then checked (unsubscribe_op j)
          else if String.eqb op "ping" then Op PingOp
          else UnknownOp
      | _ => UnknownOp
      end
  | _ => NotAnObject
  end.

Lemma received_subscribe j symbols bars :
  received j = Op (SubscribeOp symbols bars) -> exists raw, symbols = normalise raw.
Proof.
  unfold received. destruct j; try done. cbv zeta. destruct (object_get "op" _) as [[]|]; try done.
  destruct (String.eqb _ "subscribe").
  - unfold subscribe_op. destruct (object_get "symbols" _ ≫= symbol_list) as [raw|]; [|done]. cbn.
    intros Hr. assert (Hx : exists o, match o ≫= (fun bars => if (0 <=? bars) && (bars <=? 1440)
      then Some (SubscribeOp (normalise raw) bars) else None) with Some op => Op op | None => Invalid end = Op (SubscribeOp symbols bars))
      by (eexists; exact Hr).
    destruct Hx as [[b|] Hx]; [|done]. cbn in Hx. destruct (_ && _); [|done]. injection Hx as <- _. by exists raw.
  - destruct (String.eqb _ "unsubscribe"); [|by destruct (String.eqb _ "ping")].
    unfold unsubscribe_op. by destruct (object_get "symbols" _ ≫= symbol_list).
Qed.

Lemma normalise_spec symbols : NoDup (normalise symbols) /\ forall x, x ∈ normalise symbols <-> x ∈ strip_upper <$> symbols.
Proof.
  unfold normalise. induction symbols as [|s symbols [IHd IHx]] using rev_ind; [split; [constructor|done]|].
  rewrite fold_left_snoc, fmap_app. cbn [fmap list_fmap]. set (seen := fold_left _ symbols []) in *. case_bool_decide as Hin.
  - split; [done|]. intros x. rewrite elem_of_app, list_elem_of_singleton, <- IHx. naive_solver.
  - split.
    + apply NoDup_app. split; [done|]. split; [|apply NoDup_singleton]. intros x Hx ->%list_elem_of_singleton. done.
    + intros x. by rewrite !elem_of_app, IHx.
Qed.
End Protocol.

(* ------------------------------------------------------------------ *)
(** ** Opening *)

(** [stream] up to [accept]: with a ticket required, one that does not redeem closes. *)
Definition open_stream (require_ticket : bool) (now : Z) (ticket : string) (s : gmap string (string * Z))
    : gmap string (string * Z) * option CloseCode :=
  if require_ticket then
    match redeem now ticket s with
    | (s, Some _) => (s, None)
    | (s, None) => (s, Some UNAUTHORISED)
    end
  else (s, None).

(** [issue_ticket]: the ticket, or the status and [Retry-After] of the refusal. *)
Definition issue_ticket (limit ttl_s now : Z) (cut : bool) (token : string) (rate : option Counter)
    (s : gmap string (string * Z)) : option Counter * gmap string (string * Z) * result (string + Z * Z) :=
  let '(rate, verdict) := hit limit 60 now cut rate in
  match verdict with
  | Raise e => (rate, s, Raise e)
  | Ok v =>
      if allowed v then (rate, issue ttl_s now token "anonymous" s, Ok (inl token))
      else (rate, s, Ok (inr (429, retry_after_s v)))
  end.

(* ------------------------------------------------------------------ *)
(** ** A connection *)

(** What is conflated: a symbol's quotes and its volatility readings, each under its
    routing key. *)
Inductive Kind := Quotes | Vols.
Definition slot (k : Kind) (symbol : string) : string :=
  match k with Quotes => "tick:" +:+ symbol | Vols => "vol:" +:+ symbol end.
Definition slots (symbols : list string) : list string := symbols ≫= fun s => [slot Quotes s; slot Vols s].

Lemma slot_inj k k' s s' : slot k s = slot k' s' -> k = k' /\ s = s'.
Proof.
  destruct k, k'; intros Heq; try discriminate Heq; (split; [done|]); injection Heq as Heq; exact Heq.
Qed.

Lemma elem_of_slots k s symbols : slot k s ∈ slots symbols <-> s ∈ symbols.
Proof.
  unfold slots. rewrite list_elem_of_bind. split.
  - intros (s' & Hin & Hs'). assert (slot k s = slot Quotes s' \/ slot k s = slot Vols s') as Hor by set_solver.
    by destruct Hor as [[_ ->]%slot_inj|[_ ->]%slot_inj].
  - intros Hs. exists s. split; [|done]. destruct k; set_solver.
Qed.

Section Connection.
Context {F V : Type}.
Context (strip_upper upper : string -> string) (to_int : json F -> option Z).

(** What is sent: an update, a snapshot of some symbols, or another message. *)
Inductive Frame := Delta (key : string) (v : V) | Snapshot (symbols : list string) (content : gmap string V) | Other.

(** Who holds the lock: nobody; the reader, subscribed and about to read or to send
    the snapshot; the writer, with the rest of its batch.  [Ended]: the socket is
    closed.  [Spinning]: the writer goes round its loop without ever waiting. *)
Inductive Phase :=
  | Idle
  | Reading (symbols : list string)
  | Sending (symbols : list string) (content : gmap string V)
  | Writing (batch : list (string * V))
  | Ended
  | Spinning.

(** With what Redis holds, whether the replica is connected to it, and what it has
    published and the router has not taken.  A frame in the session's queue carries
    its key.  [c_missed], which only statements read: the keys whose newest update
    was published or lost while that connection was broken, and that neither a
    snapshot nor a newer update has made good. *)
Record Connection := {
  c_redis : gmap string V;
  c_link : bool;
  c_missed : gset string;
  c_channel : list (Kind * string * V);
  c_session : ClientSession (string * V);
  c_phase : Phase;
  c_wire : list Frame;
}.
Implicit Types (c : Connection).

Definition set_session c (s : ClientSession (string * V)) (ph : Phase) : Connection := {|
  c_redis := c_redis c; c_link := c_link c; c_missed := c_missed c; c_channel := c_channel c;
  c_session := s; c_phase := ph; c_wire := c_wire c |}.
Definition set_missed c (m : gset string) : Connection := {|
  c_redis := c_redis c; c_link := c_link c; c_missed := m; c_channel := c_channel c;
  c_session := c_session c; c_phase := c_phase c; c_wire := c_wire c |}.
Definition sent c (ph : Phase) (f : Frame) : Connection := {|
  c_redis := c_redis c; c_link := c_link c; c_missed := c_missed c; c_channel := c_channel c; c_session := c_session c; c_phase := ph; c_wire := c_wire c ++ [f] |}.
Definition ended c : Connection := set_session c (close_session (c_session c)) Ended.

(** One turn of the reader's loop, up to where it waits for the lock. *)
Definition op_step c (r : Received) : option Connection :=
  match r with
  | Op (SubscribeOp symbols _) =>
      if (MAX_SYMBOLS_PER_CLIENT <? size (cs_symbols (c_session c) ∪ list_to_set symbols))%nat then Some (ended c)
      else
        match c_phase c with
        | Idle => Some (set_session c (subscribe upper symbols (c_session c)) (Reading symbols))
        | _ => None
        end
  | Op (UnsubscribeOp symbols) => Some (set_session c (unsubscribe upper symbols (c_session c)) (c_phase c))
  | Op PingOp | UnknownOp => Some (sent c (c_phase c) Other)
  | Invalid | NotAnObject => Some (ended c)
  end.

Inductive NetEvent :=
  | Publish (k : Kind) (symbol : string) (v : V)
  | Deliver (now : Z)
  | Message (raw : json F)
  | ReadSnapshot
  | TakeBatch
  | SendFrame
  (** the replica's own connection to Redis breaks, and is made again *)
  | Cut
  | Back
  | Drop.

Definition channel_keys (ch : list (Kind * string * V)) : gset string :=
  list_to_set ((fun m => slot m.1.1 m.1.2) <$> ch).

(** A snapshot of the symbols is read: it makes good what was missed under a key,
    unless an update from before the break is still queued behind it. *)
Definition made_good c (symbols : list string) : gset string :=
  filter (fun key => ~ (key ∈ slots symbols /\ dict_get key (cs_pending (c_session c)) = None)) (c_missed c).

(** The event is set and nothing is queued: [wait_for(wakeup.wait())], the free lock,
    [drain], which returns before it clears the event, and the empty batch all go
    through without suspending (Python 3.12), so no other task runs again. *)
Definition would_spin c : bool := cs_wakeup (c_session c) && is_empty (cs_pending (c_session c)).

(** [None] when the event cannot happen: the reader takes no message while it holds
    or waits for the lock, nobody takes a lock that is held, and while the writer
    spins only Redis moves. *)
Definition net_step c (ev : NetEvent) : option Connection :=
  match ev, c_phase c with
  | Publish k symbol v, _ => Some {|
      c_redis := <[slot k symbol := v]> (c_redis c); c_link := c_link c;
      c_missed := if c_link c then c_missed c ∖ {[ slot k symbol ]} else {[ slot k symbol ]} ∪ c_missed c;
      c_channel := if c_link c then c_channel c ++ [(k, symbol, v)] else c_channel c;
      c_session := c_session c; c_phase := c_phase c; c_wire := c_wire c |}
  | Cut, _ => Some {|
      c_redis := c_redis c; c_link := false; c_missed := channel_keys (c_channel c) ∪ c_missed c;
      c_channel := []; c_session := c_session c; c_phase := c_phase c; c_wire := c_wire c |}
  | _, Spinning => None
  | Back, _ => Some {|
      c_redis := c_redis c; c_link := true; c_missed := c_missed c; c_channel := c_channel c;
      c_session := c_session c; c_phase := c_phase c; c_wire := c_wire c |}
  | Deliver now, _ =>
      match c_channel c with
      | [] => None
      | (k, symbol, v) :: channel =>
          let s := c_session c in
          Some {| c_redis := c_redis c; c_link := c_link c; c_missed := c_missed c; c_channel := channel;
                  c_session := if wants upper symbol s then offer now (slot k symbol) (slot k symbol, v) s else s;
                  c_phase := c_phase c; c_wire := c_wire c |}
      end
  | Message raw, (Idle | Writing _) => op_step c (received strip_upper to_int raw)
  | ReadSnapshot, Reading symbols =>
      Some (set_session (set_missed c (made_good c symbols)) (c_session c) (Sending symbols (c_redis c)))
  | SendFrame, Sending symbols content => Some (sent c Idle (Snapshot symbols content))
  | TakeBatch, Idle =>
      if would_spin c then Some (set_session c (c_session c) Spinning)
      else let '(s, batch) := drain (c_session c) in Some (set_session c s (Writing batch))
  | SendFrame, Writing ((key, v) :: batch) => Some (sent c (Writing batch) (Delta key v))
  | SendFrame, Writing [] => Some (set_session c (c_session c) Idle)
  | Drop, _ => Some (ended c)
  | _, _ => None
  end.

(** After the hello. *)
Definition connected (redis : gmap string V) (channel : list (Kind * string * V)) : Connection := {|
  c_redis := redis; c_link := true; c_missed := ∅; c_channel := channel; c_session := ClientSession_new; c_phase := Idle; c_wire := [Other] |}.

Fixpoint net_run c (evs : list NetEvent) : option Connection :=
  match evs with
  | [] => Some c
  | ev :: evs => c ← net_step c ev; net_run c evs
  end.

(** What the browser shows under a key. *)
Definition show_frame (key : string) (shown : option V) (f : Frame) : option V :=
  match f with
  | Delta k v => if String.eqb key k then Some v else shown
  | Snapshot symbols content => if bool_decide (key ∈ slots symbols) then content !! key else shown
  | Other => shown
  end.
Definition shown (wire : list Frame) (key : string) : option V := fold_left (show_frame key) wire None.

Lemma shown_snoc wire f key : shown (wire ++ [f]) key = show_frame key (shown wire key) f.
Proof. unfold shown. by rewrite fold_left_snoc. Qed.

(* ------------------------------------------------------------------ *)
(** ** Snapshot, then deltas *)

(** The newest update under a key that is still on its way to the replica, and in a
    batch. *)
Definition chan_last (key : string) (ch : list (Kind * string * V)) : option V :=
  last (omap (fun m => let '(k, s, v) := m in if String.eqb key (slot k s) then Some v else None) ch).
Definition batch_last (key : string) (b : list (string * V)) : option V :=
  last (omap (fun kv => if String.eqb key kv.1 then Some kv.2 else None) b).

(** What will be shown once the frames of the present phase are sent. *)
Definition will_show c (key : string) : option V :=
  match c_phase c with
  | Sending symbols content => show_frame key (shown (c_wire c) key) (Snapshot symbols content)
  | Writing b => match batch_last key b with Some v => Some v | None => shown (c_wire c) key end
  | _ => shown (c_wire c) key
  end.
Definition awaits_read c (key : string) : Prop :=
  match c_phase c with Reading symbols => key ∈ slots symbols | _ => False end.
Definition has_snapshot (wire : list Frame) (key : string) : Prop :=
  exists symbols content, Snapshot symbols content ∈ wire /\ key ∈ slots symbols.
(** A snapshot with the key was sent or is about to be. *)
Definition snapshot_due c (key : string) : Prop :=
  match c_phase c with Reading symbols | Sending symbols _ => key ∈ slots symbols | _ => False end.

Abbreviation queued c key := (dict_get key (cs_pending (c_session c))).

(** One routing key [slot k s]. *)
Record key_ok c (k : Kind) (s : string) : Prop := {
  ok_channel v : chan_last (slot k s) (c_channel c) = Some v -> c_redis c !! slot k s = Some v;
  ok_missed : slot k s ∈ c_missed c -> chan_last (slot k s) (c_channel c) = None;
  ok_unwanted : s ∉ cs_symbols (c_session c) -> queued c (slot k s) = None;
  ok_snapshot : s ∈ cs_symbols (c_session c) -> has_snapshot (c_wire c) (slot k s) \/ snapshot_due c (slot k s);
  ok_newest : s ∈ cs_symbols (c_session c) -> slot k s ∉ c_missed c -> chan_last (slot k s) (c_channel c) = None ->
    match queued c (slot k s) with
    | Some p => c_redis c !! slot k s = Some p.2
    | None => awaits_read c (slot k s) \/ will_show c (slot k s) = c_redis c !! slot k s
    end;
}.

(** Every update is sent after a snapshot that has its key. *)
Definition ordered (wire : list Frame) : Prop :=
  forall before key v after, wire = before ++ Delta key v :: after -> has_snapshot before key.

Record net_ok c : Prop := {
  net_open : c_phase c <> Ended -> cs_closed (c_session c) = false;
  net_queue : NoDup (cs_pending (c_session c)).*1;
  net_keys key p : queued c key = Some p -> p.1 = key /\ exists k s, key = slot k s /\ upper s = s;
  net_symbols s : s ∈ cs_symbols (c_session c) -> upper s = s;
  net_link : c_link c = false -> c_channel c = [];
  net_channel : Forall (fun m => upper m.1.2 = m.1.2) (c_channel c);
  net_batch : match c_phase c with Writing b => Forall (fun kv => has_snapshot (c_wire c) kv.1) b | _ => True end;
  net_ordered : ordered (c_wire c);
  net_key k s : upper s = s -> c_phase c <> Ended -> key_ok c k s;
}.

Lemma has_snapshot_snoc wire f key : has_snapshot wire key -> has_snapshot (wire ++ [f]) key.
Proof. intros (symbols & content & Hin & Hk). exists symbols, content. set_solver. Qed.

Lemma ordered_snoc wire f :
  ordered wire -> match f with Delta key _ => has_snapshot wire key | _ => True end -> ordered (wire ++ [f]).
Proof.
  intros Ho Hf before key v after Heq. destruct after as [|g after _] using rev_ind.
  - apply app_inj_tail in Heq as [-> ->]. exact Hf.
  - rewrite app_comm_cons, app_assoc in Heq. apply app_inj_tail in Heq as [Heq _]. by eapply Ho.
Qed.

Lemma chan_last_snoc key ch k s v :
  chan_last key (ch ++ [(k, s, v)]) = if String.eqb key (slot k s) then Some v else chan_last key ch.
Proof.
  unfold chan_last. rewrite omap_app. cbn. destruct (String.eqb key (slot k s)); cbn; [by rewrite last_snoc|by rewrite app_nil_r].
Qed.

Lemma chan_last_cons key ch k s v :
  chan_last key ((k, s, v) :: ch) =
  match chan_last key ch with Some w => Some w | None => if String.eqb key (slot k s) then Some v else None end.
Proof.
  unfold chan_last. cbn. destruct (String.eqb key (slot k s)); cbn; [|by destruct (last _)].
  rewrite last_cons. by destruct (last _).
Qed.

Lemma batch_last_cons key k v b :
  batch_last key ((k, v) :: b) =
  match batch_last key b with Some w => Some w | None => if String.eqb key k then Some v else None end.
Proof.
  unfold batch_last. cbn. destruct (String.eqb key k); cbn; [|by destruct (last _)]. rewrite last_cons. by destruct (last _).
Qed.

Lemma dict_get_in {P} (q : list (string * P)) k p : NoDup q.*1 -> (k, p) ∈ q -> dict_get k q = Some p.
Proof.
  induction q as [|[k' p'] q IH]; [by intros _ ?%elem_of_nil|]. cbn. intros [Hni Hn]%NoDup_cons [Heq|Hin]%elem_of_cons.
  - injection Heq as -> ->. by rewrite String.eqb_refl.
  - destruct (String.eqb_spec k k') as [->|]; [|by apply IH]. exfalso. apply Hni. apply list_elem_of_fmap. by exists (k', p).
Qed.

(** What a drain takes under a key is what was queued under it. *)
Lemma batch_of_queue (q : list (string * (string * V))) key :
  NoDup q.*1 -> (forall k p, dict_get k q = Some p -> p.1 = k) -> batch_last key q.*2 = snd <$> dict_get key q.
Proof.
  induction q as [|[k p] q IH]; intros Hn Hk; [done|]. cbn in Hn. apply NoDup_cons in Hn as [Hni Hn].
  destruct p as [k' v]. assert (k' = k) as -> by (apply (Hk k (k', v)); cbn; by rewrite String.eqb_refl).
  cbn [fmap list_fmap snd]. rewrite batch_last_cons, IH; [|done|].
  - cbn [dict_get]. destruct (String.eqb_spec key k) as [->|]; [|by destruct (dict_get key q)].
    by rewrite (proj2 (dict_get_none _ _) Hni).
  - intros k' p' Hp'. apply (Hk k' p'). cbn. destruct (String.eqb_spec k' k) as [->|]; [|done].
    by rewrite (proj2 (dict_get_none _ _) Hni) in Hp'.
Qed.

Lemma ended_or_not c : c_phase c = Ended \/ c_phase c <> Ended.
Proof. destruct (c_phase c); auto. Qed.

Lemma net_ok_ended c : net_ok c -> net_ok (ended c).
Proof. intros [Hop Hq Hk Hs Hl Hc Hb Ho Hkey]. by constructor. Qed.

Lemma chan_last_missed k s (ch : list (Kind * string * V)) :
  slot k s ∉ channel_keys ch -> chan_last (slot k s) ch = None.
Proof.
  unfold channel_keys. induction ch as [|[[k' s'] v] ch IH]; [done|]. cbn. intros Hn.
  rewrite chan_last_cons, IH by set_solver. destruct (String.eqb_spec (slot k s) (slot k' s')); [set_solver|done].
Qed.

Lemma net_ok_publish c k s v c' :
  net_ok c -> upper s = s -> net_step c (Publish k s v) = Some c' -> net_ok c'.
Proof.
  intros [Hop Hq Hk Hs Hl Hc Hb Ho Hkey] Hup [= <-]. constructor; try done; cbn.
  - intros Hlk. rewrite Hlk. by apply Hl.
  - destruct (c_link c); [|done]. apply Forall_app. by split; [|repeat constructor].
  - intros k' s' Hup' Hph. destruct (Hkey k' s' Hup' Hph) as [Hch Hm Hun Hsn Hnew].
    constructor; cbn; try done; destruct (c_link c) eqn:Hlk; rewrite ?chan_last_snoc;
      destruct (String.eqb_spec (slot k' s') (slot k s)) as [Heq|Hne].
    + intros w [= <-]. by rewrite <- Heq, lookup_insert_eq.
    + intros w Hw. rewrite lookup_insert_ne by done. by apply Hch.
    + by rewrite (Hl eq_refl).
    + by rewrite (Hl eq_refl).
    + set_solver.
    + intros [Hin _]%elem_of_difference. by apply Hm.
    + by rewrite (Hl eq_refl).
    + by rewrite (Hl eq_refl).
    + done.
    + intros Hin Hmi Hnone. rewrite lookup_insert_ne by done. apply Hnew; [done| |done].
      intros Hx. apply Hmi. set_solver.
    + set_solver.
    + intros Hin Hmi Hnone. rewrite lookup_insert_ne by done. apply Hnew; [done|set_solver|done].
Qed.

(** The replica loses Redis, and finds it again. *)
Lemma net_ok_cut c c' : net_ok c -> net_step c Cut = Some c' -> net_ok c'.
Proof.
  intros [Hop Hq Hk Hs Hl Hc Hb Ho Hkey] [= <-]. constructor; try done.
  intros k s Hup Hph. destruct (Hkey k s Hup Hph) as [Hch Hm Hun Hsn Hnew]. constructor; try done.
  intros Hin Hmi _. cbn [c_missed] in Hmi. apply Hnew; [done|set_solver|]. apply chan_last_missed. set_solver.
Qed.

Lemma net_ok_back c c' : net_ok c -> net_step c Back = Some c' -> net_ok c'.
Proof.
  intros Hok Hstep.
  assert (c' = {| c_redis := c_redis c; c_link := true; c_missed := c_missed c; c_channel := c_channel c;
    c_session := c_session c; c_phase := c_phase c; c_wire := c_wire c |}) as ->.
  { cbn in Hstep. destruct (c_phase c); congruence. }
  destruct Hok as [Hop Hq Hk Hs Hl Hc Hb Ho Hkey]. constructor; try done.
  intros k s Hup Hph. destruct (Hkey k s Hup Hph) as [H1 Hm H2 H3 H4]. by constructor.
Qed.

Lemma deliver_step c now c' :
  net_step c (Deliver now) = Some c' -> exists k s v ch, c_channel c = (k, s, v) :: ch /\
    c' = {| c_redis := c_redis c; c_link := c_link c; c_missed := c_missed c; c_channel := ch;
            c_session := if wants upper s (c_session c) then offer now (slot k s) (slot k s, v) (c_session c) else c_session c;
            c_phase := c_phase c; c_wire := c_wire c |}.
Proof.
  cbn. destruct (c_phase c), (c_channel c) as [|[[k s] v] ch]; try done; intros [= <-]; by exists k, s, v, ch.
Qed.

Lemma net_ok_deliver c now c' : net_ok c -> net_step c (Deliver now) = Some c' -> net_ok c'.
Proof.
  intros [Hop Hq Hk Hs Hl Hc Hb Ho Hkey] (k & s & v & ch & Hch & ->)%deliver_step. rewrite Hch in Hl, Hc.
  assert (c_link c = true) as Hlk by (by destruct (c_link c) eqn:E; [|specialize (Hl eq_refl)]).
  apply Forall_cons in Hc as [Hup Hc]. cbn in Hup. set (s0 := c_session c) in *. destruct (wants upper s s0) eqn:Hw.
  2:{ constructor; try done; [cbn; congruence|]. intros k' s' Hup' Hph. destruct (Hkey k' s' Hup' Hph) as [H1 Hm H2 H3 H4].
      rewrite Hch, chan_last_cons in *. constructor; cbn; try done.
      - intros w Hw'. apply H1. by rewrite Hw'.
      - intros Hx. specialize (Hm Hx). by destruct (chan_last _ ch).
      - intros Hin Hmi Hnone. apply H4; [done|done|]. rewrite Hnone. destruct (String.eqb_spec (slot k' s') (slot k s)) as [Heq|]; [|done].
        apply slot_inj in Heq as [-> ->]. unfold wants in Hw. rewrite Hup in Hw. by apply bool_decide_eq_false in Hw. }
  destruct (cs_closed s0) eqn:Hcl.
  { assert (Hsame : offer now (slot k s) (slot k s, v) s0 = s0) by (unfold offer; by rewrite Hcl). rewrite Hsame.
    assert (Hend : c_phase c = Ended) by (destruct (ended_or_not c) as [|Hnot]; [done|]; specialize (Hop Hnot); congruence).
    constructor; cbn; try done; congruence. }
  destruct (offer_fields now (slot k s) (slot k s, v) s0 Hcl) as (Hpend & Hcl' & _ & Hsy).
  constructor; cbn; try done; [| | |congruence|].
  - rewrite Hpend. by apply dict_set_nodup.
  - intros key p. rewrite Hpend, dict_get_set. destruct (String.eqb_spec key (slot k s)) as [->|]; [|by apply Hk].
    intros [= <-]. split; [done|]. by exists k, s.
  - intros x. rewrite Hsy. apply Hs.
  - intros k' s' Hup' Hph. destruct (Hkey k' s' Hup' Hph) as [H1 Hm H2 H3 H4]. rewrite Hch, chan_last_cons in *.
    constructor; cbn; rewrite ?Hsy.
    + intros w Hw'. apply H1. by rewrite Hw'.
    + intros Hx. specialize (Hm Hx). by destruct (chan_last _ ch).
    + intros Hni. rewrite Hpend, dict_get_set. destruct (String.eqb_spec (slot k' s') (slot k s)) as [Heq|]; [|by apply H2].
      apply slot_inj in Heq as [-> ->]. unfold wants in Hw. rewrite Hup in Hw. by apply bool_decide_eq_true in Hw.
    + exact H3.
    + intros Hin Hmi Hnone. rewrite Hpend, dict_get_set. rewrite Hnone in H1, H4.
      destruct (String.eqb (slot k' s') (slot k s)); [by apply H1|by apply H4].
Qed.

Lemma subscribe_symbols symbols (s : ClientSession (string * V)) :
  Forall (fun x => upper x = x) symbols ->
  cs_symbols (subscribe upper symbols s) = list_to_set symbols ∪ cs_symbols s.
Proof.
  intros Hup. unfold subscribe. cbn. generalize (cs_symbols s) as X. induction Hup as [|x symbols Hx Hup IH]; intros X; cbn; [set_solver|].
  rewrite IH, Hx. set_solver.
Qed.

Lemma will_show_other c key : will_show (sent c (c_phase c) Other) key = will_show c key.
Proof.
  unfold will_show. cbn [c_phase c_wire sent]. rewrite shown_snoc. by destruct (c_phase c).
Qed.

(** A frame that is no update, sent by the reader. *)
Lemma net_ok_other c : net_ok c -> net_ok (sent c (c_phase c) Other).
Proof.
  intros [Hop Hq Hk Hs Hl Hc Hb Ho Hkey]. constructor; cbn; try done.
  - destruct (c_phase c); try done. eapply Forall_impl; [exact Hb|]. intros kv. apply has_snapshot_snoc.
  - by apply ordered_snoc.
  - intros k s Hup Hph. destruct (Hkey k s Hup Hph) as [H1 Hm H2 H3 H4]. constructor; cbn; try done.
    + intros Hin. destruct (H3 Hin) as [Hsn|Hdue]; [left; by apply has_snapshot_snoc|by right].
    + intros Hin Hmi Hnone. specialize (H4 Hin Hmi Hnone). destruct (dict_get _ _); [done|].
      destruct H4 as [H4|H4]; [by left|right]. by rewrite will_show_other.
Qed.

Lemma net_ok_subscribe c symbols :
  net_ok c -> c_phase c = Idle -> Forall (fun x => upper x = x) symbols ->
  net_ok (set_session c (subscribe upper symbols (c_session c)) (Reading symbols)).
Proof.
  intros [Hop Hq Hk Hs Hl Hc Hb Ho Hkey] Hph Hup. constructor; cbn [c_phase c_session set_session c_channel c_redis c_wire]; try done.
  - intros _. apply Hop. by rewrite Hph.
  - intros s. rewrite subscribe_symbols by done.
    rewrite Forall_forall in Hup. intros [Hin|Hin]%elem_of_union; [apply elem_of_list_to_set in Hin; by apply Hup|by apply Hs].
  - intros k s Hu _. assert (Hne : c_phase c <> Ended) by (by rewrite Hph). destruct (Hkey k s Hu Hne) as [H1 Hm H2 H3 H4].
    constructor; try done.
    + intros Hni. apply H2. cbn [c_session set_session] in Hni. rewrite subscribe_symbols in Hni by done. set_solver.
    + cbn [c_session set_session]. rewrite subscribe_symbols by done. unfold snapshot_due in *. rewrite Hph in H3. cbn.
      intros [Hin|Hin]%elem_of_union.
      * right. apply elem_of_list_to_set in Hin. by apply elem_of_slots.
      * destruct (H3 Hin); [by left|done].
    + cbn [c_session set_session c_redis c_channel]. rewrite subscribe_symbols by done. intros Hin Hmi Hnone.
      unfold awaits_read, will_show in *. rewrite Hph in H4. cbn [c_phase].
      change (cs_pending (subscribe upper symbols (c_session c))) with (cs_pending (c_session c)).
      destruct (decide (s ∈ cs_symbols (c_session c))) as [Hw|Hw].
      * destruct (dict_get _ _) as [p|] eqn:Hg.
        -- exact (H4 Hw Hmi Hnone).
        -- destruct (H4 Hw Hmi Hnone) as [[]|Hsh]. right. exact Hsh.
      * specialize (H2 Hw). rewrite H2. left. apply elem_of_slots. set_solver.
Qed.

Lemma net_ok_unsubscribe c symbols :
  net_ok c -> net_ok (set_session c (unsubscribe upper symbols (c_session c)) (c_phase c)).
Proof.
  intros [Hop Hq Hk Hs Hl Hc Hb Ho Hkey].
  destruct (unsubscribe_fields upper symbols (c_session c)) as (Hcl & _ & Hsy & Hnd & Hg).
  constructor; cbn; try done.
  - by rewrite Hcl.
  - by apply Hnd.
  - intros key p. rewrite Hg. destruct (clears _ _ _); [done|apply Hk].
  - intros s. rewrite Hsy. set_solver.
  - intros k s Hu Hph. destruct (Hkey k s Hu Hph) as [H1 Hm H2 H3 H4].
    assert (Hclear : clears upper (slot k s) symbols = true <-> s ∈ upper <$> symbols).
    { unfold clears. rewrite existsb_exists. rewrite list_elem_of_fmap. split.
      - intros (x & Hx%list_elem_of_In & Heq). exists x. split; [|done]. apply orb_true_iff in Heq as [Heq|Heq];
          apply String.eqb_eq in Heq; [change ("tick:" +:+ upper x) with (slot Quotes (upper x)) in Heq
            |change ("vol:" +:+ upper x) with (slot Vols (upper x)) in Heq]; by apply slot_inj in Heq as [_ ->].
      - intros (x & -> & Hx%list_elem_of_In). exists x. split; [done|]. apply orb_true_iff.
        destruct k; [left|right]; apply String.eqb_refl. }
    constructor; cbn [c_session set_session c_redis c_channel c_wire]; rewrite ?Hsy, ?Hg; try done.
    + intros Hni. destruct (clears upper (slot k s) symbols) eqn:Hc'; [done|]. apply H2. intros Hin. apply Hni.
      apply elem_of_difference. split; [done|]. intros Hx%elem_of_list_to_set. by apply Hclear in Hx.
    + intros [Hin _]%elem_of_difference. by apply H3.
    + intros [Hin Hni]%elem_of_difference Hmi Hnone. destruct (clears upper (slot k s) symbols) eqn:Hc'; [|by apply H4].
      exfalso. apply Hni, elem_of_list_to_set. by apply Hclear.
Qed.

Lemma elem_of_made_good c symbols key :
  key ∈ made_good c symbols <->
  key ∈ c_missed c /\ ~ (key ∈ slots symbols /\ queued c key = None).
Proof. unfold made_good. rewrite elem_of_filter. tauto. Qed.

Lemma net_ok_read c c' : net_ok c -> net_step c ReadSnapshot = Some c' -> net_ok c'.
Proof.
  intros [Hop Hq Hk Hs Hl Hc Hb Ho Hkey]. cbn. destruct (c_phase c) as [|symbols| | | |] eqn:Hph; try done. intros [= <-].
  constructor; cbn; try done; [by intros _; apply Hop|]. intros k s Hu _. destruct (Hkey k s Hu ltac:(done)) as [H1 Hm H2 H3 H4].
  constructor; try done; unfold snapshot_due, awaits_read, will_show in *; rewrite Hph in *;
    cbn [c_phase set_session set_missed c_session c_redis c_wire c_channel c_missed].
  - by intros [Hx _]%elem_of_made_good; apply Hm.
  - exact H3.
  - intros Hin Hmi Hnone. rewrite elem_of_made_good in Hmi. cbn [show_frame].
    destruct (dict_get (slot k s) (cs_pending (c_session c))) as [p|] eqn:Hp.
    + apply H4; [done| |done]. intros Hx. apply Hmi. split; [done|]. by intros [_ ?].
    + right. case_bool_decide as Hx; [done|].
      destruct H4 as [H4|H4]; [done| |done|by destruct Hx|done].
      intros Hy. apply Hmi. split; [done|]. by intros [? _].
Qed.

Lemma net_ok_take c c' : net_ok c -> net_step c TakeBatch = Some c' -> net_ok c'.
Proof.
  intros [Hop Hq Hk Hs Hl Hc Hb Ho Hkey]. cbn. destruct (c_phase c) eqn:Hph; try done.
  destruct (would_spin c) eqn:Hsp.
  { intros [= <-]. constructor; cbn [c_phase c_session set_session c_channel c_redis c_wire c_link]; try done; [by intros _; apply Hop|].
    intros k s Hu _. destruct (Hkey k s Hu ltac:(done)) as [H1 Hm H2 H3 H4].
    unfold snapshot_due, awaits_read, will_show in *. rewrite Hph in *. by constructor. }
  destruct (drain_fields (c_session c)) as (Hp & Hcl & _ & Hsy).
  assert (Hbatch : (drain (c_session c)).2 = (cs_pending (c_session c)).*2)
    by (unfold drain; by destruct (cs_pending (c_session c))).
  destruct (drain (c_session c)) as [s0 batch]. cbn in Hp, Hcl, Hsy, Hbatch. subst batch. intros [= <-].
  assert (Hkeys : forall k p, queued c k = Some p -> p.1 = k) by (intros k p Hkp; by apply Hk in Hkp as []).
  constructor; cbn [c_phase c_session set_session c_channel c_redis c_wire]; try done.
  - intros _. rewrite Hcl. by apply Hop.
  - rewrite Hp. constructor.
  - intros key p. by rewrite Hp.
  - intros s. rewrite Hsy. apply Hs.
  - apply Forall_fmap, Forall_forall. intros [key [key' v]] Hin. cbn.
    assert (Hg : queued c key = Some (key', v)) by (by apply dict_get_in).
    destruct (Hk key _ Hg) as (Heq & k & s & -> & Hu). cbn in Heq. subst key'.
    destruct (Hkey k s Hu ltac:(done)) as [_ _ H2 H3 _].
    destruct (decide (s ∈ cs_symbols (c_session c))) as [Hw|Hw]; [|by rewrite H2 in Hg].
    destruct (H3 Hw) as [|Hdue]; [done|]. unfold snapshot_due in Hdue. by rewrite Hph in Hdue.
  - intros k s Hu _. destruct (Hkey k s Hu ltac:(done)) as [H1 Hm H2 H3 H4].
    unfold snapshot_due, awaits_read, will_show in *. rewrite Hph in *. constructor;
      cbn [c_phase c_session set_session c_channel c_redis c_wire]; rewrite ?Hsy, ?Hp; try done.
    unfold awaits_read, will_show. cbn [c_phase set_session c_wire].
    intros Hin Hmi Hnone. right. rewrite batch_of_queue by done. specialize (H4 Hin Hmi Hnone).
    destruct (queued c (slot k s)) as [p|]; [done|]. by destruct H4.
Qed.

Lemma net_ok_send c c' : net_ok c -> net_step c SendFrame = Some c' -> net_ok c'.
Proof.
  intros [Hop Hq Hk Hs Hl Hc Hb Ho Hkey]. cbn. destruct (c_phase c) as [| |symbols content|[|[key v] batch]| |] eqn:Hph; try done; intros [= <-].
  - constructor; cbn [c_phase c_session sent c_channel c_redis c_wire]; try done; [by intros _; apply Hop|by apply ordered_snoc|].
    intros k s Hu _. destruct (Hkey k s Hu ltac:(done)) as [H1 Hm H2 H3 H4].
    unfold snapshot_due, awaits_read, will_show in *. rewrite Hph in *.
    constructor; cbn [c_phase c_session sent c_channel c_redis c_wire]; try done.
    + intros Hin. left. destruct (H3 Hin) as [Hsn|Hdue]; [by apply has_snapshot_snoc|]. exists symbols, content. set_solver.
    + intros Hin Hmi Hnone. specialize (H4 Hin Hmi Hnone). destruct (dict_get _ _); [done|]. destruct H4 as [[]|H4]. right.
      unfold will_show. cbn [c_phase sent c_wire]. by rewrite shown_snoc.
  - constructor; cbn [c_phase c_session set_session c_channel c_redis c_wire]; try done; [by intros _; apply Hop|].
    intros k s Hu _. destruct (Hkey k s Hu ltac:(done)) as [H1 Hm H2 H3 H4].
    unfold snapshot_due, awaits_read, will_show in *. rewrite Hph in *. by constructor.
  - apply Forall_cons in Hb as [Hsn Hb].
    constructor; cbn [c_phase c_session sent c_channel c_redis c_wire]; try done; [by intros _; apply Hop| |by apply ordered_snoc|].
    { eapply Forall_impl; [exact Hb|]. intros kv. apply has_snapshot_snoc. }
    intros k s Hu _. destruct (Hkey k s Hu ltac:(done)) as [H1 Hm H2 H3 H4].
    unfold snapshot_due, awaits_read, will_show in *. rewrite Hph in *.
    constructor; cbn [c_phase c_session sent c_channel c_redis c_wire]; try done.
    + intros Hin. destruct (H3 Hin) as [Hx|[]]. left. by apply has_snapshot_snoc.
    + intros Hin Hmi Hnone. specialize (H4 Hin Hmi Hnone). destruct (dict_get _ _); [done|]. destruct H4 as [[]|H4]. right.
      unfold will_show. cbn [c_phase sent c_wire]. rewrite shown_snoc. cbn [show_frame]. rewrite <- H4, batch_last_cons.
      destruct (batch_last (slot k s) batch); [done|]. by destruct (String.eqb (slot k s) key).
Qed.

Lemma net_ok_message c raw c' :
  (forall x, upper (strip_upper x) = strip_upper x) -> net_ok c -> net_step c (Message raw) = Some c' -> net_ok c'.
Proof.
  intros Hup Hok. assert (Hstep : (c_phase c = Idle \/ exists b, c_phase c = Writing b) ->
    op_step c (received strip_upper to_int raw) = Some c' -> net_ok c').
  { intros Hph. destruct (received strip_upper to_int raw) as [[symbols bars|symbols|]| | |] eqn:Hr; cbn [op_step];
      try (intros [= <-]; by first [apply net_ok_unsubscribe|apply net_ok_other|apply net_ok_ended]).
    destruct (MAX_SYMBOLS_PER_CLIENT <? size (cs_symbols (c_session c) ∪ list_to_set symbols))%nat; [intros [= <-]; by apply net_ok_ended|]. destruct (c_phase c) eqn:Hp; try done.
    intros [= <-]. apply net_ok_subscribe; [done|done|].
    assert (Hs : exists s0, symbols = normalise strip_upper s0) by (by apply received_subscribe in Hr).
    destruct Hs as [s0 ->]. apply Forall_forall. intros x Hx. apply (normalise_spec strip_upper) in Hx.
    apply list_elem_of_fmap in Hx as (y & -> & _). apply Hup. }
  cbn. destruct (c_phase c) eqn:Hp; try done; intros Hs; apply Hstep; eauto.
Qed.

Definition upper_case_event (ev : NetEvent) : Prop :=
  match ev with Publish _ symbol _ => upper symbol = symbol | _ => True end.

Lemma net_ok_step c ev c' :
  (forall x, upper (strip_upper x) = strip_upper x) -> upper_case_event ev ->
  net_ok c -> net_step c ev = Some c' -> net_ok c'.
Proof.
  intros Hup Hev Hok Hs. destruct ev as [k s v|now|raw| | | | | |].
  - by eapply net_ok_publish.
  - by eapply net_ok_deliver.
  - by eapply net_ok_message.
  - by eapply net_ok_read.
  - by eapply net_ok_take.
  - by eapply net_ok_send.
  - by eapply net_ok_cut.
  - by eapply net_ok_back.
  - cbn in Hs. destruct (c_phase c); try done; injection Hs as <-; by apply net_ok_ended.
Qed.

Lemma net_ok_run c evs c' :
  (forall x, upper (strip_upper x) = strip_upper x) -> Forall upper_case_event evs ->
  net_ok c -> net_run c evs = Some c' -> net_ok c'.
Proof.
  intros Hup Hall. revert c. induction Hall as [|ev evs Hev Hall IH]; intros c Hok; [by intros [= <-]|]. cbn [net_run].
  destruct (net_step c ev) as [c1|] eqn:Hs; [|done]. cbn. apply IH. by eapply net_ok_step.
Qed.

Lemma net_ok_connected redis channel :
  Forall (fun m => upper m.1.2 = m.1.2) channel ->
  (forall key v, chan_last key channel = Some v -> redis !! key = Some v) -> net_ok (connected redis channel).
Proof.
  intros Hup Hch. constructor; cbn; try done; [constructor| |].
  - intros before key v after Heq. destruct before as [|? [|]]; done.
  - intros k s Hu _. constructor; cbn; try done; set_solver.
Qed.

Lemma net_run_app c evs evs' : net_run c (evs ++ evs') = c ← net_run c evs; net_run c evs'.
Proof. revert c. induction evs as [|ev evs IH]; intros c; [done|]. cbn. destruct (net_step c ev); [|done]. apply IH. Qed.

(** What the replica does by itself. *)
Definition own_event (ev : NetEvent) : Prop :=
  match ev with Deliver _ | ReadSnapshot | TakeBatch | SendFrame => True | _ => False end.

(** Nothing is on its way, and the writer waits. *)
Definition quiet c : Prop :=
  c_phase c = Idle /\ c_channel c = [] /\ cs_pending (c_session c) = [] /\ cs_wakeup (c_session c) = false.

Definition same_world c c' : Prop :=
  c_redis c' = c_redis c /\ cs_symbols (c_session c') = cs_symbols (c_session c) /\ c_missed c' ⊆ c_missed c.

(** A connection that goes on: open, and its writer neither spins nor is about to. *)
Definition goes_on c : Prop := c_phase c <> Ended /\ c_phase c <> Spinning /\ would_spin c = false.

(** The event spins only where an unsubscription emptied the queue. *)
Definition keeps_queue (ev : NetEvent) : Prop :=
  match ev with
  | Message raw => match received strip_upper to_int raw with Op (UnsubscribeOp _) => False | _ => True end
  | _ => True
  end.

Lemma offer_wakes now key p (s : ClientSession (string * V)) :
  cs_closed s = false -> cs_wakeup (offer now key p s) = true /\ cs_pending (offer now key p s) <> [].
Proof.
  intros Hc. unfold offer. rewrite Hc. cbn. split; [done|].
  assert (Hd : forall d : list (string * (string * V)), dict_set key p d <> [])
    by (intros [|[k' p'] d]; cbn; [done|by case_match]).
  destruct (dict_get key (cs_pending s)); apply Hd.
Qed.

Lemma drain_sleeps (s : ClientSession (string * V)) :
  (cs_wakeup s && is_empty (cs_pending s))%bool = false -> cs_wakeup (drain s).1 = false.
Proof. unfold drain. destruct (cs_pending s) eqn:Hp; cbn; [by rewrite andb_true_r|done]. Qed.

Lemma keeps_goes_on c ev c' :
  net_ok c -> keeps_queue ev -> net_step c ev = Some c' ->
  c_phase c <> Spinning -> would_spin c = false -> c_phase c' <> Spinning /\ would_spin c' = false.
Proof.
  intros Hok Hkeep Hs Hph Hsp. destruct ev as [k s v|now|raw| | | | | |]; cbn in Hs.
  - by injection Hs as <-.
  - apply (deliver_step c now) in Hs as (k & s & v & ch & _ & ->). split; [done|]. unfold would_spin in *. cbn.
    destruct (wants upper s (c_session c)); [|done]. destruct (cs_closed (c_session c)) eqn:Hcl.
    + unfold offer. by rewrite Hcl.
    + destruct (offer_wakes now (slot k s) (slot k s, v) (c_session c) Hcl) as [-> Hne].
      by destruct (cs_pending (offer now (slot k s) (slot k s, v) (c_session c))).
  - assert (Hop : op_step c (received strip_upper to_int raw) = Some c') by (by destruct (c_phase c)). clear Hs.
    cbn in Hkeep. destruct (received strip_upper to_int raw) as [[symbols bars|symbols|]| | |]; cbn [op_step] in Hop;
      try done; try (by injection Hop as <-).
    destruct (MAX_SYMBOLS_PER_CLIENT <? size (cs_symbols (c_session c) ∪ list_to_set symbols))%nat; [by injection Hop as <-|]. destruct (c_phase c); try done. by injection Hop as <-.
  - destruct (c_phase c); try done. by injection Hs as <-.
  - destruct (c_phase c); try done. rewrite Hsp in Hs. pose proof (drain_sleeps (c_session c) Hsp) as Hd.
    destruct (drain (c_session c)) as [s0 batch]. injection Hs as <-. unfold would_spin. cbn in *. by rewrite Hd.
  - destruct (c_phase c) as [| | |[|[key v] b]| |]; try done; by injection Hs as <-.
  - by injection Hs as <-.
  - destruct (c_phase c) eqn:Hp; try done; injection Hs as <-; (split; [done|exact Hsp]).
  - destruct (c_phase c) eqn:Hp; try done; by injection Hs as <-.
Qed.

Lemma keeps_run c evs c' :
  (forall x, upper (strip_upper x) = strip_upper x) -> Forall upper_case_event evs -> Forall keeps_queue evs ->
  net_ok c -> c_phase c <> Spinning -> would_spin c = false ->
  net_run c evs = Some c' -> c_phase c' <> Spinning /\ would_spin c' = false.
Proof.
  intros Hup Hall. revert c. induction Hall as [|ev evs Hev Hall IH]; intros c Hk Hok Hph Hsp; [by intros [= <-]|].
  apply Forall_cons in Hk as [Hk Hks]. cbn [net_run]. destruct (net_step c ev) as [c1|] eqn:Hs; [|done]. cbn.
  destruct (keeps_goes_on c ev c1 Hok Hk Hs Hph Hsp) as [Hph1 Hsp1].
  apply IH; [done| |done..]. by eapply net_ok_step.
Qed.

(** From a writer that spins nothing comes any more. *)
Lemma spinning_stays c ev c' :
  c_phase c = Spinning -> net_step c ev = Some c' -> c_phase c' = Spinning /\ c_wire c' = c_wire c.
Proof. intros Hph Hs. destruct ev; cbn in Hs; rewrite ?Hph in Hs; try done; injection Hs as <-; cbn; by rewrite ?Hph. Qed.

Lemma own_event_keeps ev : own_event ev -> upper_case_event ev /\ keeps_queue ev.
Proof. by destruct ev. Qed.

(** The lock is given back. *)
Lemma phase_finishes c :
  c_phase c <> Ended -> c_phase c <> Spinning ->
  exists evs c', Forall own_event evs /\ net_run c evs = Some c' /\ c_phase c' = Idle /\
    c_redis c' = c_redis c /\ c_session c' = c_session c /\ c_channel c' = c_channel c /\ c_missed c' ⊆ c_missed c.
Proof.
  assert (Hsend : forall b c, c_phase c = Writing b -> exists evs c', Forall own_event evs /\ net_run c evs = Some c' /\
    c_phase c' = Idle /\ c_redis c' = c_redis c /\ c_session c' = c_session c /\ c_channel c' = c_channel c /\
    c_missed c' ⊆ c_missed c).
  { induction b as [|[key v] b IH]; intros d Hd.
    - exists [SendFrame]. eexists. cbn. rewrite Hd. split; [by repeat constructor|]. done.
    - destruct (IH (sent d (Writing b) (Delta key v)) eq_refl) as (evs & c' & Hown & Hrun & Hrest).
      exists (SendFrame :: evs), c'. split; [by constructor|]. split; [|exact Hrest]. cbn [net_run net_step]. rewrite Hd. exact Hrun. }
  intros Hne Hns. destruct (c_phase c) as [|symbols|symbols content|b| |] eqn:Hph; [| | | |done|done].
  - by exists [], c.
  - exists [ReadSnapshot; SendFrame]. eexists. cbn. rewrite Hph. split; [by repeat constructor|].
    split; [done|]. split_and!; try done. intros key. by intros [? _]%elem_of_made_good.
  - exists [SendFrame]. eexists. cbn. rewrite Hph. split; [by repeat constructor|]. done.
  - by apply (Hsend b).
Qed.

Lemma channel_empties c :
  net_ok c -> c_phase c = Idle -> would_spin c = false ->
  exists evs c', Forall own_event evs /\ net_run c evs = Some c' /\ c_phase c' = Idle /\
    c_channel c' = [] /\ same_world c c' /\ would_spin c' = false.
Proof.
  remember (c_channel c) as ch eqn:Hch. revert c Hch. induction ch as [|[[k s] v] ch IH]; intros c Hch Hok Hph Hsp.
  - exists [], c. by split_and!.
  - destruct (net_step c (Deliver 0)) as [c1|] eqn:Hs; [|cbn in Hs; by rewrite Hph, <- Hch in Hs].
    destruct (keeps_goes_on c (Deliver 0) c1 Hok I Hs ltac:(by rewrite Hph) Hsp) as [_ Hsp1].
    assert (net_ok c1) as Hok1 by (by eapply net_ok_deliver).
    pose proof (deliver_step c 0 c1 Hs) as (k' & s' & v' & ch' & Heq & Hc1). rewrite <- Hch in Heq. injection Heq as <- <- <- <-.
    destruct (IH c1) as (evs & c' & Hown & Hrun & Hp & Hc & (Hr & Hy & Hm) & Hsp'); [by rewrite Hc1|done|by rewrite Hc1|done|].
    exists (Deliver 0 :: evs), c'. split; [by constructor|]. split; [cbn [net_run]; by rewrite Hs|].
    split_and!; [done|done| |done]. rewrite Hc1 in Hr, Hy, Hm. cbn in Hr, Hy, Hm. split_and!; [done| |done]. rewrite Hy.
    destruct (wants upper s (c_session c)); [|done]. destruct (cs_closed (c_session c)) eqn:Hcl.
    + unfold offer. by rewrite Hcl.
    + by destruct (offer_fields 0 (slot k s) (slot k s, v) (c_session c) Hcl) as (_ & _ & _ & ?).
Qed.

Lemma goes_quiet c :
  (forall x, upper (strip_upper x) = strip_upper x) ->
  net_ok c -> goes_on c ->
  exists evs c', Forall own_event evs /\ net_run c evs = Some c' /\ quiet c' /\ same_world c c'.
Proof.
  intros Hup Hok (Hne & Hns & Hsp). destruct (phase_finishes c Hne Hns) as (evs1 & c1 & Ho1 & Hr1 & Hp1 & Hrd1 & Hs1 & _ & Hm1).
  assert (Hsp1 : would_spin c1 = false) by (unfold would_spin in *; by rewrite Hs1).
  assert (Hok1 : net_ok c1).
  { eapply net_ok_run; [done| |exact Hok|exact Hr1]. eapply Forall_impl; [exact Ho1|]. by intros []. }
  destruct (channel_empties c1 Hok1 Hp1 Hsp1) as (evs2 & c2 & Ho2 & Hr2 & Hp2 & Hc2 & (Hrd2 & Hy2 & Hm2) & Hsp2).
  destruct (drain_fields (c_session c2)) as (Hpend & _ & _ & Hsy). pose proof (drain_sleeps (c_session c2) Hsp2) as Hslp.
  destruct (drain (c_session c2)) as [s0 batch] eqn:Hd. cbn in Hpend, Hsy, Hslp.
  destruct (phase_finishes (set_session c2 s0 (Writing batch))) as (evs3 & c3 & Ho3 & Hr3 & Hp3 & Hrd3 & Hs3 & Hc3 & Hm3); [done..|].
  exists (evs1 ++ evs2 ++ TakeBatch :: evs3), c3. split; [|split; [|split]].
  - apply Forall_app. split; [done|]. apply Forall_app. split; [done|]. by constructor.
  - rewrite net_run_app, Hr1. cbn [mbind option_bind]. rewrite net_run_app, Hr2. cbn [mbind option_bind net_run net_step].
    rewrite Hp2, Hsp2, Hd. exact Hr3.
  - unfold quiet. rewrite Hp3, Hc3, Hs3. by cbn.
  - unfold same_world. rewrite Hrd3, Hs3. cbn in *. rewrite Hsy, Hrd2, Hrd1, Hy2, Hs1. split_and!; [done|done|].
    by rewrite Hm3, Hm2.
Qed.

Lemma missed_step c ev c' : ev <> Cut -> c_link c = true -> net_step c ev = Some c' -> c_link c' = true /\ c_missed c' ⊆ c_missed c.
Proof.
  intros Hev Hl Hs. destruct ev as [k s v|now|raw| | | | | |]; cbn in Hs; try done.
  - injection Hs as <-. cbn. rewrite Hl. set_solver.
  - apply (deliver_step c now) in Hs as (k & s & v & ch & _ & ->). done.
  - assert (Hop : op_step c (received strip_upper to_int raw) = Some c') by (by destruct (c_phase c)).
    destruct (received strip_upper to_int raw) as [[symbols bars|symbols|]| | |]; cbn [op_step] in Hop; try (by injection Hop as <-).
    destruct (MAX_SYMBOLS_PER_CLIENT <? size (cs_symbols (c_session c) ∪ list_to_set symbols))%nat; [by injection Hop as <-|]. destruct (c_phase c); try done. by injection Hop as <-.
  - destruct (c_phase c); try done. injection Hs as <-. cbn. split; [done|]. intros key. by intros [? _]%elem_of_made_good.
  - destruct (c_phase c); try done. destruct (would_spin c); [by injection Hs as <-|].
    destruct (drain (c_session c)) as [s0 batch]. by injection Hs as <-.
  - destruct (c_phase c) as [| | |[|[key v] b]| |]; try done; by injection Hs as <-.
  - destruct (c_phase c); try done; by injection Hs as <-.
  - destruct (c_phase c); try done; by injection Hs as <-.
Qed.

Lemma missed_none c evs c' :
  Cut ∉ evs -> c_link c = true -> net_run c evs = Some c' -> c_missed c' ⊆ c_missed c.
Proof.
  revert c. induction evs as [|ev evs IH]; intros c; [by intros _ _ [= <-]|].
  intros [Hne Hni]%not_elem_of_cons Hl. cbn [net_run]. destruct (net_step c ev) as [c1|] eqn:Hs; [|done]. cbn.
  destruct (missed_step c ev c1 (not_eq_sym Hne) Hl Hs) as [Hl1 Hm1]. intros Hr. etrans; [by apply (IH c1)|done].
Qed.

Lemma shown_when_quiet c :
  net_ok c -> quiet c -> forall k s, s ∈ cs_symbols (c_session c) -> slot k s ∉ c_missed c ->
  shown (c_wire c) (slot k s) = c_redis c !! slot k s.
Proof.
  intros Hok (Hph & Hc & Hq & _) k s Hin Hmi.
  destruct (net_key c Hok k s (net_symbols c Hok s Hin) ltac:(by rewrite Hph)) as [_ _ _ _ Hnew].
  rewrite Hc, Hq in Hnew. specialize (Hnew Hin Hmi eq_refl). cbn in Hnew. unfold awaits_read, will_show in Hnew.
  rewrite Hph in Hnew. by destruct Hnew.
Qed.

(** C22. Snapshot, then deltas, and no gap.  However what Redis publishes, breaks of the
    replica's connection to it, what the router delivers, what the browser asks for
    and what reader and writer do are interleaved: an update is sent only after a
    snapshot that has its symbol; and whenever the connection is at rest - every
    message delivered, every update sent, the writer waiting - the browser shows, for
    every symbol it is subscribed to, what Redis holds, but for a key whose newest
    update was lost in a break and not made good since; without a break there is no
    such key.  A connection that is open comes to rest by itself, and whatever it does
    by itself its writer does not spin, unless the writer spins or its next turn
    would: the event is set and an unsubscription has emptied the queue
    ([unsubscribe_hangs]); while the browser gives up no symbol, neither happens. *)
Theorem browser_catches_up redis channel evs c :
  (forall x, upper (strip_upper x) = strip_upper x) ->
  Forall (fun m => upper m.1.2 = m.1.2) channel ->
  (forall key v, chan_last key channel = Some v -> redis !! key = Some v) ->
  Forall upper_case_event evs ->
  net_run (connected redis channel) evs = Some c ->
  ordered (c_wire c) /\
  (quiet c -> forall k s, s ∈ cs_symbols (c_session c) -> slot k s ∉ c_missed c ->
     shown (c_wire c) (slot k s) = c_redis c !! slot k s) /\
  (Cut ∉ evs -> c_missed c = ∅) /\
  (goes_on c ->
     (forall more c', Forall own_event more -> net_run c more = Some c' -> c_phase c' <> Spinning) /\
     exists more c', Forall own_event more /\ net_run c more = Some c' /\ quiet c' /\ same_world c c' /\
       forall k s, s ∈ cs_symbols (c_session c) -> slot k s ∉ c_missed c ->
         shown (c_wire c') (slot k s) = c_redis c !! slot k s) /\
  (Forall keeps_queue evs -> c_phase c <> Ended -> goes_on c).
Proof.
  intros Hup Hch Hlast Hevs Hrun.
  pose proof (net_ok_connected redis channel Hch Hlast) as Hok0.
  assert (Hok : net_ok c) by (eapply net_ok_run; [done|exact Hevs|exact Hok0|exact Hrun]).
  assert (Hown : forall more, Forall own_event more -> Forall upper_case_event more /\ Forall keeps_queue more).
  { intros more Hm. split; (eapply Forall_impl; [exact Hm|]); intros ev Hev; by apply own_event_keeps. }
  split; [apply (net_ordered c Hok)|]. split; [by apply shown_when_quiet|]. split; [|split].
  - intros Hcut. apply (missed_none _ _ _ Hcut) in Hrun; [|done]. cbn in Hrun. set_solver.
  - intros Hgo. split.
    + intros more c' [Hu Hk]%Hown Hr. destruct Hgo as (_ & Hph & Hsp).
      by destruct (keeps_run c more c' Hup Hu Hk Hok Hph Hsp Hr).
    + destruct (goes_quiet c Hup Hok Hgo) as (more & c' & Hmore & Hr & Hqt & Hw). exists more, c'.
      split_and!; try done. destruct Hw as (Hrd & Hsy & Hm).
      assert (Hok' : net_ok c') by (eapply net_ok_run; [done|by apply Hown|exact Hok|exact Hr]).
      intros k s Hin Hmi. rewrite <- Hrd. apply shown_when_quiet; [done|done|by rewrite Hsy|set_solver].
  - intros Hk Hne. split; [done|]. eapply keeps_run; [done|exact Hevs|exact Hk|exact Hok0|done|done|exact Hrun].
Qed.
End Connection.
Arguments Frame V : clear implicits.
Arguments Connection V : clear implicits.
Arguments NetEvent F V : clear implicits.

(* ------------------------------------------------------------------ *)
(** ** Examples *)

Section Examples.
Notation demo_run := (net_run (F := unit) (V := Z) (fun s => s) (fun s => s) (fun _ => None)).
Notation demo_connected := (connected ∅ []).

Definition demo_subscribe : json unit :=
  JObj [("op", JStr "subscribe"); ("symbols", JList [JStr "EURUSD"])]%string.

Definition demo_unsubscribe : json unit :=
  JObj [("op", JStr "unsubscribe"); ("symbols", JList [JStr "EURUSD"])]%string.

(** A quote before the browser comes, two while its snapshot is read, one after. *)
Definition demo_net : list (NetEvent unit Z) := [
  Publish Quotes "EURUSD" 1; Deliver 0; Message demo_subscribe; Publish Quotes "EURUSD" 2; ReadSnapshot;
  Publish Quotes "EURUSD" 3; SendFrame; Deliver 0; TakeBatch; Publish Vols "EURUSD" 7; SendFrame].

Lemma browser_catches_up_witness :
  exists c more c', demo_run demo_connected demo_net = Some c /\ shown (c_wire c) "tick:EURUSD" = Some 2 /\
    demo_run c more = Some c' /\ shown (c_wire c') "tick:EURUSD" = Some 3.
Proof.
  destruct (demo_run demo_connected demo_net) as [c|] eqn:E; [|vm_compute in E; discriminate E].
  assert (Hc : match demo_run demo_connected demo_net with
    | Some c => (shown (c_wire c) "tick:EURUSD", c_redis c !! slot Quotes "EURUSD",
        bool_decide ("EURUSD"%string ∈ cs_symbols (c_session c)), match c_phase c with Ended => true | _ => false end)
    | None => (None, None, false, true) end = (Some 2, Some 3, true, false)) by (vm_compute; reflexivity).
  rewrite E in Hc. injection Hc as Hshown Hredis Hsub Hph. apply bool_decide_eq_true in Hsub.
  destruct (browser_catches_up (F := unit) (V := Z) (fun s => s) (fun s => s) (fun _ => None) ∅ [] demo_net c)
    as (_ & _ & Hmissed & Hrest & Hgo).
  - reflexivity.
  - constructor.
  - intros key v Hv. discriminate Hv.
  - repeat constructor.
  - exact E.
  - destruct Hrest as (_ & more & c' & _ & Hrun & _ & _ & Hs).
    { apply Hgo; [repeat constructor|by destruct (c_phase c)]. }
    exists c, more, c'. split; [reflexivity|]. split; [exact Hshown|]. split; [exact Hrun|].
    rewrite <- Hredis. apply (Hs Quotes "EURUSD"%string Hsub).
    rewrite Hmissed; [apply not_elem_of_empty|]. unfold demo_net. rewrite !not_elem_of_cons.
    repeat (split; [discriminate|]). apply not_elem_of_nil.
Defined.

(** A symbol is given up while its update is queued and the writer is sending: the
    writer's next turn spins, and from then on ([spinning_stays]) nothing is sent. *)
Lemma unsubscribe_hangs :
  c_phase <$> demo_run demo_connected [Message demo_subscribe; ReadSnapshot; SendFrame; TakeBatch;
    Publish Quotes "EURUSD" 1; Deliver 0; Message demo_unsubscribe; SendFrame; TakeBatch] = Some Spinning.
Proof. vm_compute. reflexivity. Qed.

(** An update published while the replica's connection is broken is not shown; a
    subscription to the symbol makes it good. *)
Lemma cut_misses_update :
  let evs := [Message demo_subscribe; ReadSnapshot; SendFrame; Cut; Publish Quotes "EURUSD" 5; Back; TakeBatch; SendFrame] in
  let after evs := (fun c => (shown (c_wire c) "tick:EURUSD", c_redis c !! slot Quotes "EURUSD",
    bool_decide (c_missed c = ∅))) <$> demo_run demo_connected evs in
  after evs = Some (None, Some 5, false) /\
  after (evs ++ [Message demo_subscribe; ReadSnapshot; SendFrame]) = Some (Some 5, Some 5, true).
Proof. split; vm_compute; reflexivity. Qed.

(** An update that Redis published before the snapshot was read and the router took
    after it is sent after it: the browser goes back to it. *)
Lemma update_older_than_snapshot :
  match demo_run demo_connected [Message demo_subscribe; Publish Quotes "EURUSD" 1; Publish Quotes "EURUSD" 2;
    ReadSnapshot; SendFrame; Deliver 0; TakeBatch; SendFrame] with
  | Some c => exists content, c_wire c = [Other; Snapshot ["EURUSD"%string] content; Delta "tick:EURUSD" 1] /\
      content !! "tick:EURUSD"%string = Some 2 /\ shown (c_wire c) "tick:EURUSD" = Some 1
  | None => False
  end.
Proof. vm_compute. eexists. repeat split. Qed.
End Examples.
