(* ===== verification/Config.v ===== *)
(** * The ingestor's settings ([fx_ingestor/config.py])

    Reading the environment and converting its texts are pydantic's; the settings
    here are the converted values, and [accepted] is what the field constraints and
    the validators let through.  [accepted_settings_leave_room] says what that is
    worth to the ledger of provider requests, [refused_by_the_lease] what it does
    not cover. *)
From S2P Require Import Prelude PyFloat Redis Quota Json RecoveryPlan RecoveryStore RecoveryRun Lease.
From Stdlib Require Import Ascii.

Local Open Scope Z_scope.

Inductive RecoveryMode := Off | DryRun | Apply.

#[export] Instance recovery_mode_eq_dec : EqDecision RecoveryMode.
Proof. solve_decision. Defined.

Record IngestorSettings F := {
  provider : string;
  provider_token : string;
  symbols : string;
  stream_retention_s : Z;
  lease_ttl_ms : Z;
  lease_renew_ms : Z;
  staleness_timeout_s : F;
  backoff_base_s : F;
  backoff_cap_s : F;
  breaker_fail_threshold : Z;
  breaker_reset_s : F;
  bucket_seconds : Z;
  ewma_lambda : F;
  recovery_mode : RecoveryMode;
  database_url : string;
  recovery_interval_s : F;
  recovery_first_delay_s : F;
  recovery_lookback_h : F;
  recovery_max_requests : Z;
  recovery_request_spacing_s : F;
  recovery_days_per_request : Z;
  provider_requests_per_hour : Z;
  provider_requests_per_day : Z;
  recovery_reserve_per_hour : Z;
  recovery_reserve_per_day : Z;
}.
Arguments provider {F} _.
Arguments provider_token {F} _.
Arguments symbols {F} _.
Arguments stream_retention_s {F} _.
Arguments lease_ttl_ms {F} _.
Arguments lease_renew_ms {F} _.
Arguments staleness_timeout_s {F} _.
Arguments backoff_base_s {F} _.
Arguments backoff_cap_s {F} _.
Arguments breaker_fail_threshold {F} _.
Arguments breaker_reset_s {F} _.
Arguments bucket_seconds {F} _.
Arguments ewma_lambda {F} _.
Arguments recovery_mode {F} _.
Arguments database_url {F} _.
Arguments recovery_interval_s {F} _.
Arguments recovery_first_delay_s {F} _.
Arguments recovery_lookback_h {F} _.
Arguments recovery_max_requests {F} _.
Arguments recovery_request_spacing_s {F} _.
Arguments recovery_days_per_request {F} _.
Arguments provider_requests_per_hour {F} _.
Arguments provider_requests_per_day {F} _.
Arguments recovery_reserve_per_hour {F} _.
Arguments recovery_reserve_per_day {F} _.

(** [text.split(",")] *)
Fixpoint split_comma (s : string) : list string :=
  match s with
  | EmptyString => [EmptyString]
  | String c s =>
      if Ascii.eqb c ","%char then EmptyString :: split_comma s
      else match split_comma s with [] => [String c EmptyString] | w :: ws => String c w :: ws end
  end.

Section Config.
Context {F : Type} `{PyFloat F}.
(** [str.strip] and [str.upper]. *)
Context (strip upper : string -> string).
Implicit Types (cfg : IngestorSettings F).

Definition PROVIDERS : list string := ["tiingo"%string].

(** A text that [strip] leaves empty counts as none. *)
Definition blank (s : string) : bool := String.eqb (strip s) "".

Definition in_range (lo hi x : Z) : bool := (lo <=? x) && (x <=? hi).

(** The constraints of the fields. *)
Definition fields_ok cfg : bool :=
  f_lt f_zero (recovery_interval_s cfg) &&
  f_le f_zero (recovery_first_delay_s cfg) &&
  (f_lt f_zero (recovery_lookback_h cfg) && f_le (recovery_lookback_h cfg) (f_of_Z 720)) &&
  in_range 1 200 (recovery_max_requests cfg) &&
  f_le (f_ratio 1 2) (recovery_request_spacing_s cfg) &&
  in_range 1 7 (recovery_days_per_request cfg) &&
  (1 <=? provider_requests_per_hour cfg) && (1 <=? provider_requests_per_day cfg) &&
  (0 <=? recovery_reserve_per_hour cfg) && (0 <=? recovery_reserve_per_day cfg).

Definition known_provider cfg : bool := bool_decide (provider cfg ∈ PROVIDERS).
Definition token_present cfg : bool := negb (blank (provider_token cfg)).

(** [_recovery_has_a_database] *)
Definition recovery_has_a_database cfg : bool :=
  negb (negb (bool_decide (recovery_mode cfg = Off)) && blank (database_url cfg)) &&
  negb ((provider_requests_per_hour cfg <=? recovery_reserve_per_hour cfg) ||
        (provider_requests_per_day cfg <=? recovery_reserve_per_day cfg)).

(** Whether [IngestorSettings()] returns; otherwise it raises a [ValidationError]. *)
Definition accepted cfg : bool :=
  fields_ok cfg && known_provider cfg && token_present cfg && recovery_has_a_database cfg.

Definition quota_limits cfg : QuotaLimits := {|
  per_hour := provider_requests_per_hour cfg; per_day := provider_requests_per_day cfg;
  reserve_per_hour := recovery_reserve_per_hour cfg; reserve_per_day := recovery_reserve_per_day cfg |}.

Definition symbol_list cfg : list string :=
  (fun s => upper (strip s)) <$> List.filter (fun s => negb (blank s)) (split_comma (symbols cfg)).

(** The configuration of a recovery in [_recover_history]; [hours_of] is
    [timedelta(hours=...)] of a float. *)
Definition recovery_config (hours_of : F -> timedelta) cfg : RecoveryConfig := {|
  lookback := hours_of (recovery_lookback_h cfg);
  horizon := seconds (stream_retention_s cfg + 120);
  max_requests := recovery_max_requests cfg;
  days_per_request := recovery_days_per_request cfg;
  include_settled := false |}.

(** The defaults, but for the token, which has none that is accepted. *)
Definition IngestorSettings_default (token : string) : IngestorSettings F := {|
  provider := "tiingo"; provider_token := token; symbols := "EURUSD,GBPUSD,USDJPY,AUDUSD,USDCHF";
  stream_retention_s := 900; lease_ttl_ms := 10_000; lease_renew_ms := 3_000;
  staleness_timeout_s := f_of_Z 30; backoff_base_s := f_ratio 1 2; backoff_cap_s := f_of_Z 60;
  breaker_fail_threshold := 5; breaker_reset_s := f_of_Z 30; bucket_seconds := 60;
  ewma_lambda := f_ratio 97 100; recovery_mode := Off; database_url := "";
  recovery_interval_s := f_of_Z 900; recovery_first_delay_s := f_of_Z 60;
  recovery_lookback_h := f_of_Z 168; recovery_max_requests := 20;
  recovery_request_spacing_s := f_of_Z 2; recovery_days_per_request := 3;
  provider_requests_per_hour := 50; provider_requests_per_day := 1_000;
  recovery_reserve_per_hour := 30; recovery_reserve_per_day := 400 |}.

(* ------------------------------------------------------------------ *)
(** ** What acceptance is worth *)

Lemma accepted_quota cfg :
  accepted cfg = true ->
  recovery_reserve_per_hour cfg < provider_requests_per_hour cfg /\
  recovery_reserve_per_day cfg < provider_requests_per_day cfg.
Proof.
  unfold accepted, recovery_has_a_database. intros Hacc. boolify. lia.
Qed.

Lemma accepted_recovery hours_of cfg :
  accepted cfg = true ->
  1 <= max_requests (recovery_config hours_of cfg) <= 200 /\
  1 <= days_per_request (recovery_config hours_of cfg) <= 7.
Proof. unfold accepted, fields_ok, in_range. intros Hacc. boolify. cbn. lia. Qed.

(** A blank entry names no symbol, and no other entry is lost. *)
Lemma symbol_list_named cfg s :
  s ∈ symbol_list cfg <-> exists w, w ∈ split_comma (symbols cfg) /\ strip w <> ""%string /\ s = upper (strip w).
Proof.
  unfold symbol_list. rewrite list_elem_of_fmap. split.
  - intros (w & -> & Hw). apply list_elem_of_In, filter_In in Hw as [Hw Hb]. exists w.
    split_and!; [by apply list_elem_of_In|intros He; unfold blank in Hb; by rewrite He in Hb|done].
  - intros (w & Hw & Hne & ->). exists w. split; [done|]. apply list_elem_of_In, filter_In.
    split; [by apply list_elem_of_In|]. unfold blank. by destruct (String.eqb_spec (strip w) "").
Qed.
End Config.

(* ------------------------------------------------------------------ *)
(** ** The ledger and the lease *)

(** Accepted settings leave recovery a request an hour and a day at the least: with
    nothing entered for a day, Redis grants the first one it is asked for. *)
Lemma accepted_settings_leave_room {F} `{PyFloat F} `{SortedSet} strip (cfg : IngestorSettings F) z now member :
  accepted strip cfg = true ->
  Forall (fun e => e.1 <= now - DAY_MS) (zentries z) ->
  (Quota.take (quota_limits cfg) z now member Quota.Answered).2 = true.
Proof.
  intros [Hh Hd]%accepted_quota Hold. unfold Quota.take, enter, take_script.
  set (z1 := zremrangebyscore None (now - 86400000) z).
  assert (Hz1 : zentries z1 = []).
  { unfold z1. rewrite zremrangebyscore_entries. induction Hold as [|e l Ht Hl IH]; [done|].
    cbn. unfold DAY_MS in Ht. by rewrite (proj2 (Z.leb_le _ _)) by lia. }
  unfold zcount_from, zcard. rewrite Hz1. cbn.
  rewrite !(proj2 (Z.leb_gt _ _)) by lia. done.
Qed.

(** The lease's periods are not among what the validators look at: whatever they
    are, settings are accepted as before, and with a renewal period of half the
    time to live or more the lease that [Ingestor.__init__] makes of them raises a
    [ValueError], which is not the [ValidationError] that [run] turns into exit
    code 78. *)
Definition with_lease {F} (ttl renew : Z) (c : IngestorSettings F) : IngestorSettings F := {|
  provider := provider c; provider_token := provider_token c; symbols := symbols c;
  stream_retention_s := stream_retention_s c; lease_ttl_ms := ttl; lease_renew_ms := renew;
  staleness_timeout_s := staleness_timeout_s c; backoff_base_s := backoff_base_s c;
  backoff_cap_s := backoff_cap_s c; breaker_fail_threshold := breaker_fail_threshold c;
  breaker_reset_s := breaker_reset_s c; bucket_seconds := bucket_seconds c; ewma_lambda := ewma_lambda c;
  recovery_mode := recovery_mode c; database_url := database_url c;
  recovery_interval_s := recovery_interval_s c; recovery_first_delay_s := recovery_first_delay_s c;
  recovery_lookback_h := recovery_lookback_h c; recovery_max_requests := recovery_max_requests c;
  recovery_request_spacing_s := recovery_request_spacing_s c;
  recovery_days_per_request := recovery_days_per_request c;
  provider_requests_per_hour := provider_requests_per_hour c;
  provider_requests_per_day := provider_requests_per_day c;
  recovery_reserve_per_hour := recovery_reserve_per_hour c;
  recovery_reserve_per_day := recovery_reserve_per_day c |}.

Lemma refused_by_the_lease {F} `{PyFloat F} strip (cfg : IngestorSettings F) ttl renew id :
  accepted strip cfg = true -> ttl <= 2 * renew ->
  accepted strip (with_lease ttl renew cfg) = true /\
  LeaderLease_new id (lease_ttl_ms (with_lease ttl renew cfg)) (lease_renew_ms (with_lease ttl renew cfg)) = Raise ValueError.
Proof.
  intros Hacc Hle. split; [exact Hacc|]. unfold LeaderLease_new. cbn. by rewrite (proj2 (Z.leb_le _ _)).
Qed.

#[local] Existing Instance plain64.

(** The defaults are accepted with a token, and not without. *)
Lemma refused_by_the_lease_witness :
  accepted (F := SpecFloat.spec_float) (fun s => s) (with_lease 10_000 5_000 (IngestorSettings_default "t")) = true /\
  accepted (F := SpecFloat.spec_float) (fun s => s) (IngestorSettings_default "") = false /\
  symbol_list (F := SpecFloat.spec_float) (fun s => s) (fun s => s) (IngestorSettings_default "t") =
    ["EURUSD"; "GBPUSD"; "USDJPY"; "AUDUSD"; "USDCHF"]%string.
Proof.
  split_and!; [|by vm_compute|by vm_compute].
  apply (refused_by_the_lease (fun s => s) (IngestorSettings_default "t") 10_000 5_000 "a"); [by vm_compute|lia].
Defined.
