(* ===== verification/Ingestor.v ===== *)
(** * The life of an ingestor process ([fx_ingestor/main.py])

    One process from its start to its exit: waiting for the lease, restoring what
    the last leader wrote, opening sessions with the provider and streaming, the
    watchdog and the heartbeat beside it, losing the lease, stopping.  The machine
    composes the components it calls - the lease's flags, the adapter, the pipeline,
    the watchdog and the retry loop - and what it sends is part of its steps.  The
    histories loaded before the first session and every hour beside it, and what it
    means for the process when that fails, are in [Beside.v]; here they are assumed
    to come through. *)
From S2P Require Import Prelude PyFloat Civil Volatility Models Buckets Ranges Baseline Seasonality.
From S2P Require Import Calendar Hysteresis Detector Supervisor Redis Json Keys Text Pipeline Wire Provider.
From S2P Require Import Rehydrate Lease Feed Config.

Local Open Scope Z_scope.

(** How the process ends: without an error, with [EX_CONFIG] after a credential
    failure, with an uncaught exception, or because Redis did not answer. *)
Inductive Exit := Done | ExConfig | Died (e : exn) | RedisFailed.

(** Where [run] is: in [hold], waiting; in [_rehydrate]; at the head of the loop of
    [_run_as_leader]; connecting; in the loop over [stream]; in one of its sleeps;
    returned.  The times are those of the monotonic clock when the breaker was asked
    and when the session started. *)
Inductive Place F :=
  | Standby
  | Rehydrating
  | Asking
  | Connecting (asked started : F)
  | Streaming (asked started : F) (quoted_ : bool) (w : Watchdog F)
  | Sleeping
  | Gone (e : Exit).
Arguments Standby {F}.
Arguments Rehydrating {F}.
Arguments Asking {F}.
Arguments Connecting {F} _ _.
Arguments Streaming {F} _ _ _ _.
Arguments Sleeping {F}.
Arguments Gone {F} _.

Record Ingestor F := {
  i_cfg : IngestorSettings F;
  i_symbols : list string;
  i_pipeline : IngestPipeline F;
  i_lease : LeaderLease;
  i_leader : Leader F;
  i_status : FeedStatus;
  i_shutdown : bool;
  i_provider : option TiingoProvider;
  i_place : Place F;
}.
Arguments i_cfg {F} _.
Arguments i_symbols {F} _.
Arguments i_pipeline {F} _.
Arguments i_lease {F} _.
Arguments i_leader {F} _.
Arguments i_status {F} _.
Arguments i_shutdown {F} _.
Arguments i_provider {F} _.
Arguments i_place {F} _.

(** What a step sends to Redis: the feed's status, stored and published in one
    transaction, or the transaction of a tick. *)
Inductive Output := Status (s : FeedStatus) | Transaction (cs : list Command).

(** The monotonic clock where a session ends and where its failure is recorded, and
    [random()]. *)
Record Readings F := { rd_ended : F; rd_recorded : F; rd_random : F }.
Arguments rd_ended {F} _.
Arguments rd_recorded {F} _.
Arguments rd_random {F} _.

Section Ingestor.
Context `{SortedSet} {F : Type} `{PyFloat F} `{IsoFormat} `{JsonText F} `{NewYork} `{!PyText F}.
Context (repr : F -> string) (reason_text : Reason F -> string) (int_of : F -> result Z).
Implicit Types (i : Ingestor F) (wall : datetime) (r : Readings F) (p : TiingoProvider).

(* ------------------------------------------------------------------ *)
(** ** The object *)

Definition with_place i (pl : Place F) : Ingestor F := {|
  i_cfg := i_cfg i; i_symbols := i_symbols i; i_pipeline := i_pipeline i; i_lease := i_lease i;
  i_leader := i_leader i; i_status := i_status i; i_shutdown := i_shutdown i;
  i_provider := i_provider i; i_place := pl |}.
Definition with_pipeline i (p : IngestPipeline F) : Ingestor F := {|
  i_cfg := i_cfg i; i_symbols := i_symbols i; i_pipeline := p; i_lease := i_lease i;
  i_leader := i_leader i; i_status := i_status i; i_shutdown := i_shutdown i;
  i_provider := i_provider i; i_place := i_place i |}.
Definition with_flags i (l : LeaderLease) (shutdown : bool) : Ingestor F := {|
  i_cfg := i_cfg i; i_symbols := i_symbols i; i_pipeline := i_pipeline i; i_lease := l;
  i_leader := i_leader i; i_status := i_status i; i_shutdown := shutdown;
  i_provider := i_provider i; i_place := i_place i |}.
Definition with_leader i (l : Leader F) : Ingestor F := {|
  i_cfg := i_cfg i; i_symbols := i_symbols i; i_pipeline := i_pipeline i; i_lease := i_lease i;
  i_leader := l; i_status := i_status i; i_shutdown := i_shutdown i;
  i_provider := i_provider i; i_place := i_place i |}.
Definition with_status i (s : FeedStatus) : Ingestor F := {|
  i_cfg := i_cfg i; i_symbols := i_symbols i; i_pipeline := i_pipeline i; i_lease := i_lease i;
  i_leader := i_leader i; i_status := s; i_shutdown := i_shutdown i;
  i_provider := i_provider i; i_place := i_place i |}.
Definition with_provider i (p : option TiingoProvider) : Ingestor F := {|
  i_cfg := i_cfg i; i_symbols := i_symbols i; i_pipeline := i_pipeline i; i_lease := i_lease i;
  i_leader := i_leader i; i_status := i_status i; i_shutdown := i_shutdown i;
  i_provider := p; i_place := i_place i |}.

(** [Ingestor(cfg)]; [id] is the lease's instance. *)
Definition Ingestor_new (strip : string -> string) (cfg : IngestorSettings F) (id : string) (started : datetime)
    : result (Ingestor F) :=
  let symbols := symbol_list strip upper cfg in
  p ← IngestPipeline_new symbols (bucket_seconds cfg) (ewma_lambda cfg) (stream_retention_s cfg);
  l ← LeaderLease_new id (lease_ttl_ms cfg) (lease_renew_ms cfg);
  Ok {| i_cfg := cfg; i_symbols := symbols; i_pipeline := p; i_lease := l;
        i_leader := Leader_new (CircuitBreaker_new (breaker_fail_threshold cfg) (breaker_reset_s cfg))
                      {| base_s := backoff_base_s cfg; cap_s := backoff_cap_s cfg |};
        i_status := FeedStatus_new (Config.provider cfg) (isoformat started);
        i_shutdown := false; i_provider := None; i_place := Standby |}.

(** The test at the head of the loop of [_run_as_leader] and after every tick. *)
Definition stopping i : bool := i_shutdown i || lost (i_lease i).

Definition publish i (state detail : string) wall : Ingestor F * list Output :=
  let s := publish_status (i_status i) state detail (isoformat wall) in (with_status i s, [Status s]).

Definition mark_stale i (stale : bool) : Ingestor F := with_pipeline i (set_feed_stale (i_pipeline i) stale).

(** The [finally] blocks on the way out of [lease.hold()], after [e] was raised or
    the block ended, and what [run] does next. *)
Definition leave_block i (e : option Exit) wall : Ingestor F * list Output :=
  let '(i, out) := if lost (i_lease i) then (i, []) else publish i "stopped" "" wall in
  let i := with_flags i (set_lease (i_lease i) false (lost (i_lease i)) Lease.Outside) (i_shutdown i) in
  (with_place (with_provider i None)
     (match e with Some e => Gone e | None => if i_shutdown i then Gone Done else Standby end), out).

(** [str(exc)]; the two errors of the history endpoint do not end a stream. *)
Definition error_text (f : Failure (F := F)) : string :=
  match f with
  | ProviderAuthError d | ProviderError d => d
  | ProviderEntitlementError => "tiingo history unavailable: HTTP 403, this account may not read it"
  | ProviderRateLimitError _ => "tiingo rate-limited the history request (HTTP 429)"
  | Uncaught _ => ""
  end.

(** What [_run_as_leader] does with a session that raised [f], or ended because the
    process is to stop leading. *)
Definition end_session i (asked started : F) r (f : option (Failure (F := F))) wall : Ingestor F * list Output :=
  let turn session := {|
    tn_stop_before := false; tn_asked := asked; tn_started := started; tn_session := session;
    tn_ended := rd_ended r; tn_recorded := rd_recorded r; tn_stop_after := stopping i;
    tn_random := rd_random r |} in
  let i := with_provider i None in
  match f with
  | Some (Uncaught e) => leave_block i (Some (Died e)) wall
  | Some (ProviderAuthError d) =>
      let '(i, out) := publish i "fatal" d wall in
      let '(i, out') := leave_block (with_flags i (i_lease i) true) (Some ExConfig) wall in
      (i, out ++ out')
  | Some f =>
      let '(i, out) := publish (mark_stale i true) "degraded" (error_text f) wall in
      match leader_turn (i_leader i) (turn SessionError) with
      | Ok (l, _) => (with_place (with_leader i l) Sleeping, out)
      | Raise e => let '(i, out') := leave_block i (Some (Died e)) wall in (i, out ++ out')
      end
  | None =>
      match leader_turn (i_leader i) (turn SessionReturned) with
      | Ok (l, _) =>
          let i := with_leader i l in
          if stopping i then leave_block i None wall else (with_place i Sleeping, [])
      | Raise e => leave_block i (Some (Died e)) wall
      end
  end.

(** [_build_provider] *)
Definition build i : result (TiingoProvider + Failure (F := F)) :=
  build_provider (Config.provider (i_cfg i)) (i_symbols i) (provider_token (i_cfg i)).

(** [_rehydrate]: [seen] and [ks] are the keyspace when the provider's marker is read
    and when the swap runs, [later] when the detectors are read; the histories it
    asks for in between touch neither. *)
Definition rehydrate i (seen ks later : gmap string value) (newest : option string) (scanned : list string)
    : result (IngestPipeline F + Failure (F := F)) :=
  '(p, _, _) ← adopt_provider (i_pipeline i) (Config.provider (i_cfg i)) seen ks newest;
  b ← build i;
  match b with
  | inr f => Ok (inr f)
  | inl _ => '(p, _) ← restore_detectors p later scanned; Ok (inl p)
  end.

(* ------------------------------------------------------------------ *)
(** ** Steps *)

(** What happens to the process: the lease is granted or lost; [_rehydrate] has read
    Redis; the loop asks the breaker; a connection is tried; the socket has a frame
    or is closed; the watchdog looks at its clock; a sleep ends; the heart beats;
    the process is told to stop; Redis does not answer. *)
Inductive LifeEvent :=
  | Acquired
  | LeaseLost
  | Rehydrated (seen ks later : gmap string value) (newest : option string) (scanned : list string)
  | Ask (asked started : F)
  | Connect (o : Opening) (entered : F) (r : Readings F)
  | Message (raw : string) (petted : F) (r : Readings F)
  | Closed (exc : string) (r : Readings F)
  | Check (market_is_open : bool) (now now_pet : F)
  | Slept
  | Beat
  | StopSignal
  | RedisError.

(** The head of the loop of [_run_as_leader]. *)
Definition ask i (asked started : F) wall : Ingestor F * list Output :=
  if stopping i then leave_block i None wall
  else
    let '(b, allowed) := allows_attempt (breaker (i_leader i)) asked in
    let i := with_leader i (set_leader (i_leader i) b (attempt (i_leader i))) in
    if allowed then (with_place i (Connecting asked started), [])
    else
      let '(i, out) := publish i "degraded" "circuit breaker open" wall in
      (with_place i Sleeping, out).

(** [async with provider], and what [_consume_once] does once it is connected. *)
Definition open_session i (asked started : F) (o : Opening) (entered : F) r wall : Ingestor F * list Output :=
  match build i with
  | Raise e => end_session i asked started r (Some (Uncaught e)) wall
  | Ok (inr f) => end_session i asked started r (Some f) wall
  | Ok (inl p) =>
      match connect p o with
      | inr f => end_session i asked started r (Some f) wall
      | inl _ =>
          let '(i, out) := publish i "connecting" "waiting for the first quote" wall in
          let w := {| timeout_s := staleness_timeout_s (i_cfg i); last_data := entered; trips := 0 |} in
          (with_place (with_provider (mark_stale i false) (Some p)) (Streaming asked started false w), out)
      end
  end.

(** The body of [async for tick in provider.stream()]. *)
Definition on_tick i (asked started : F) (quoted_ : bool) (w : Watchdog F) (t : Tick F) (petted : F) r wall
    : Ingestor F * list Output :=
  match handle repr reason_text int_of (i_pipeline i) t wall with
  | Raise e => end_session i asked started r (Some (Uncaught e)) wall
  | Ok h =>
      let i := with_pipeline i (h_pipeline h) in
      let '(i, out) := if quoted_ then (i, []) else publish i "healthy" "" wall in
      let out := match h_commands h with [] => out | cs => Transaction cs :: out end in
      if stopping i then
        let '(i, out') := end_session i asked started r None wall in (i, out ++ out')
      else (with_place i (Streaming asked started true (pet w petted)), out)
  end.

(** [recv] and [_parse]. *)
Definition on_message i (asked started : F) (quoted_ : bool) (w : Watchdog F) p (raw : string) (petted : F) r wall
    : Ingestor F * list Output :=
  match parse_frame (count_received p) raw wall with
  | (_, Raises f) => end_session i asked started r (Some f) wall
  | (p, Nothing) => (with_provider i (Some p), [])
  | (p, Yields t) => on_tick (with_provider i (Some p)) asked started quoted_ w t petted r wall
  end.

(** One pass of the watchdog; [on_stale] closes the socket, so what [recv] does next
    is a [Closed]. *)
Definition on_check i (asked started : F) (quoted_ : bool) (w : Watchdog F) (market_is_open : bool) (now now_pet : F)
    : Ingestor F :=
  let '(w, stale) := watchdog_check w market_is_open now now_pet in
  with_place (if stale then mark_stale i true else i) (Streaming asked started quoted_ w).

Definition beat i wall : Ingestor F * list Output :=
  let '(s, sent) := heartbeat (i_status i) (is_leader (i_lease i)) (isoformat wall) in
  (with_status i s, if sent then [Status s] else []).

(** A step at the time [wall]; [None] where the event cannot happen. *)
Definition life_step wall i (ev : LifeEvent) : option (Ingestor F * list Output) :=
  match i_place i, ev with
  | Gone _, _ => None
  | _, Beat => if i_shutdown i then None else Some (beat i wall)
  | Standby, StopSignal => Some (with_place (with_flags i (i_lease i) true) (Gone Done), [])
  | Standby, RedisError => Some (with_place i (Gone RedisFailed), [])
  | Standby, Acquired =>
      Some (with_place (with_flags i (set_lease (i_lease i) true false (Inside true)) (i_shutdown i)) Rehydrating, [])
  | Standby, _ => None
  | _, StopSignal => Some (leave_block (with_flags i (i_lease i) true) None wall)
  | _, LeaseLost =>
      if is_leader (i_lease i) then
        Some (with_flags i (set_lease (i_lease i) false true (Inside false)) (i_shutdown i), [])
      else None
  | Rehydrating, Rehydrated seen ks later newest scanned =>
      Some (match rehydrate i seen ks later newest scanned with
            | Ok (inl p) =>
                let l := i_leader i in
                (with_place (with_leader (with_pipeline i p) (Leader_new (breaker l) (backoff l))) Asking, [])
            | Ok (inr _) => leave_block i (Some ExConfig) wall
            | Raise e => leave_block i (Some (Died e)) wall
            end)
  | Rehydrating, RedisError => Some (leave_block i (Some RedisFailed) wall)
  | Asking, Ask asked started => Some (ask i asked started wall)
  | Connecting asked started, Connect o entered r => Some (open_session i asked started o entered r wall)
  | Streaming asked started q w, Message raw petted r =>
      match i_provider i with
      | Some p => Some (on_message i asked started q w p raw petted r wall)
      | None => None
      end
  | Streaming asked started q w, Closed exc r =>
      match i_provider i with
      | Some p => Some (end_session i asked started r (Some (ProviderError (closed_detail p exc))) wall)
      | None => None
      end
  | Streaming asked started q w, Check open_ now now_pet => Some (on_check i asked started q w open_ now now_pet, [])
  | Streaming asked started q w, RedisError => Some (leave_block i (Some RedisFailed) wall)
  | Sleeping, Slept => Some (with_place i Asking, [])
  | _, _ => None
  end.

Definition life_run : Ingestor F -> list (datetime * LifeEvent) -> option (Ingestor F * list Output) :=
  fix go i evs := match evs with
  | [] => Some (i, [])
  | (wall, ev) :: evs =>
      '(i, out) ← life_step wall i ev; '(i, out') ← go i evs; Some (i, out ++ out')
  end.

(* ------------------------------------------------------------------ *)
(** ** What the status says *)

Definition feed_state i : string := fs_state (i_status i).

(** Inside [lease.hold()]. *)
Definition in_block i : bool := match i_place i with Standby | Gone _ => false | _ => true end.

(** A session is open and has given a quote. *)
Definition quoting i : bool := match i_place i with Streaming _ _ q _ => q | _ => false end.

(** Leading, with no session open and none tried since the last sleep. *)
Definition between i : bool := match i_place i with Rehydrating | Asking | Connecting _ _ => true | _ => false end.

Record life_ok i : Prop := {
  lo_flags : if in_block i then is_leader (i_lease i) = negb (lost (i_lease i)) /\ i_shutdown i = false
             else is_leader (i_lease i) = false /\ (i_place i = Standby -> i_shutdown i = false);
  lo_status : match i_place i with
              | Streaming _ _ q _ => feed_state i = if q then "healthy" else "connecting"
              | Sleeping => feed_state i = "degraded"
              | _ => True
              end%string;
  lo_stale : match i_place i with
             | Streaming _ _ _ w => 0 <= trips w /\ p_feed_is_stale (i_pipeline i) = negb (trips w =? 0)
             | _ => True
             end;
}.

Lemma leave_block_spec i e wall :
  let i' := (leave_block i e wall).1 in
  in_block i' = false /\ life_ok i' /\
  (leave_block i e wall).2 =
    if lost (i_lease i) then [] else [Status (publish_status (i_status i) "stopped" "" (isoformat wall))].
Proof.
  unfold leave_block. destruct (lost (i_lease i)) eqn:Hl; cbn; rewrite ?Hl.
  all: split_and!; [by destruct e, (i_shutdown i)| |done].
  all: destruct e, (i_shutdown i) eqn:?; split; cbn; done.
Qed.

Lemma handle_stale (p : IngestPipeline F) t now h :
  handle repr reason_text int_of p t now = Ok h -> p_feed_is_stale (h_pipeline h) = p_feed_is_stale p.
Proof.
  unfold handle. destruct (held_back p t); [by intros [= <-]|]. intros ([p' st] & Hst & Hrest)%bind_ok.
  assert (Hp : p_feed_is_stale p' = p_feed_is_stale p).
  { unfold state_for in Hst. destruct (p_state p !! tick_symbol t); [by injection Hst as <- _|].
    apply bind_ok in Hst as (st' & _ & [= <- _]). done. }
  destruct (roll p' st t) as [st1 sealed]. apply bind_ok in Hrest as (st2 & _ & ([[st3 cs] o] & _ & [= <-])%bind_ok).
  exact Hp.
Qed.

(** How a step out of [i] may end: asleep with the failure published, or out of the
    block, having said so if the lease is still held. *)
Definition ends i (k : Ingestor F * list Output) : Prop :=
  life_ok k.1 /\
  (in_block k.1 = true -> i_place k.1 = Sleeping /\ i_lease k.1 = i_lease i) /\
  (in_block k.1 = false -> lost (i_lease i) = false ->
   exists pre s, k.2 = pre ++ [Status s] /\ fs_state s = "stopped"%string).

Lemma ends_leave i j e wall pre :
  lost (i_lease j) = lost (i_lease i) -> ends i (let '(k, out) := leave_block j e wall in (k, pre ++ out)).
Proof.
  intros Hl. pose proof (leave_block_spec j e wall) as (Hb & Hok & Hout).
  destruct (leave_block j e wall) as [k out]. cbn in *. split_and!; cbn; [done|by rewrite Hb|].
  intros _ Hheld. rewrite Hl, Hheld in Hout. rewrite Hout. by eexists pre, _.
Qed.

Lemma ends_left i j e wall : lost (i_lease j) = lost (i_lease i) -> ends i (leave_block j e wall).
Proof. intros Hl. pose proof (ends_leave i j e wall [] Hl) as He. by destruct (leave_block j e wall). Qed.

Lemma ends_asleep i j out :
  is_leader (i_lease i) = negb (lost (i_lease i)) -> i_shutdown i = false ->
  i_lease j = i_lease i -> i_shutdown j = i_shutdown i -> feed_state j = "degraded"%string ->
  ends i (with_place j Sleeping, out).
Proof. intros Hlead Hsh Hl Hs Hd. split_and!; cbn; [split; cbn; [|done|done]|done|done]. by rewrite Hl, Hs. Qed.

Lemma end_session_spec i asked started r f wall :
  is_leader (i_lease i) = negb (lost (i_lease i)) -> i_shutdown i = false ->
  (f = None -> stopping i = true) -> ends i (end_session i asked started r f wall).
Proof.
  intros Hlead Hshut Hbreak. unfold end_session.
  destruct f as [[d|d| |ra|e]|]; cbn [publish]; [by apply ends_leave| | | |by apply ends_left|].
  1-3: destruct (leader_turn _ _) as [[l ?]|e]; [by apply ends_asleep|by apply ends_leave].
  destruct (leader_turn _ _) as [[l ?]|e]; [|by apply ends_left].
  change (stopping (with_leader (with_provider i None) l)) with (stopping i).
  rewrite Hbreak by done. by apply ends_left.
Qed.

(** A step that stays in a session, or ends it. *)
Definition goes_on i (k : Ingestor F * list Output) : Prop :=
  ends i k \/ (life_ok k.1 /\ in_block k.1 = true /\ between k.1 = false).

Lemma streaming_ok i asked started (q : bool) w :
  is_leader (i_lease i) = negb (lost (i_lease i)) -> i_shutdown i = false ->
  feed_state i = (if q then "healthy" else "connecting")%string ->
  0 <= trips w -> p_feed_is_stale (i_pipeline i) = negb (trips w =? 0) ->
  life_ok (with_place i (Streaming asked started q w)).
Proof. by split. Qed.

Lemma open_session_ok i asked started o entered r wall :
  is_leader (i_lease i) = negb (lost (i_lease i)) -> i_shutdown i = false ->
  goes_on i (open_session i asked started o entered r wall).
Proof.
  intros Hlead Hshut. unfold open_session.
  destruct (build i) as [[p|f]|e]; [|left; by apply end_session_spec..].
  destruct (connect p o); [|left; by apply end_session_spec]. right. by repeat split.
Qed.

Lemma on_tick_ok i asked started (q : bool) w t petted r wall :
  is_leader (i_lease i) = negb (lost (i_lease i)) -> i_shutdown i = false ->
  feed_state i = (if q then "healthy" else "connecting")%string ->
  0 <= trips w -> p_feed_is_stale (i_pipeline i) = negb (trips w =? 0) ->
  goes_on i (on_tick i asked started q w t petted r wall).
Proof.
  intros Hlead Hshut Hst Htr Hstale. unfold on_tick.
  destruct (handle _ _ _ _ _ _) as [h|e] eqn:Hh; [|left; by apply end_session_spec].
  apply handle_stale in Hh. set (j := with_pipeline i (h_pipeline h)).
  set (k := (if q then (j, []) else publish j "healthy" "" wall)).
  assert (Hk : i_lease k.1 = i_lease i /\ i_shutdown k.1 = i_shutdown i /\ feed_state k.1 = "healthy"%string /\
    i_pipeline k.1 = h_pipeline h) by (unfold k; destruct q; by split_and!).
  destruct k as [k out]. cbn in Hk. destruct Hk as (Hl & Hs & Hf & Hp).
  destruct (stopping k) eqn:Hstop.
  - left. pose proof (end_session_spec k asked started r None wall) as He.
    rewrite Hl, Hs in He. specialize (He Hlead Hshut (fun _ => Hstop)). unfold ends in He. rewrite Hl in He.
    destruct (end_session k asked started r None wall) as [k' out']. destruct He as (Hok & Hin & Hout).
    split_and!; [done|done|]. cbn in *. intros Hb Hheld. destruct (Hout Hb Hheld) as (pre & s & -> & Hsd).
    eexists (_ ++ pre), s. by rewrite app_assoc.
  - right. split_and!; [|done|done]. cbn [fst]. apply streaming_ok; rewrite ?Hl, ?Hs, ?Hp, ?Hh; done.
Qed.

Lemma on_message_ok i asked started q w p raw petted r wall :
  i_place i = Streaming asked started q w -> life_ok i ->
  goes_on i (on_message i asked started q w p raw petted r wall).
Proof.
  intros Hp [Hf Hs Hst]. unfold in_block in Hf. rewrite Hp in *. destruct Hf as [Hl Hsh], Hst as [Htr Hstale].
  unfold on_message. destruct (parse_frame _ _ _) as [p' [t| |f]]; [| |left; by apply end_session_spec].
  - destruct (on_tick_ok (with_provider i (Some p')) asked started q w t petted r wall) as [He|Hok]; [done..|by left|by right].
  - right. split_and!; cbn; [split; cbn|unfold in_block; cbn; by rewrite Hp|unfold between; cbn; by rewrite Hp].
    + unfold in_block. cbn. by rewrite Hp.
    + by rewrite Hp.
    + by rewrite Hp.
Qed.

(** What a leader does before its first session: nothing of it changes the state. *)
Definition quiet (ev : LifeEvent) : bool := match ev with Rehydrated _ _ _ _ _ | Ask _ _ | Beat => true | _ => false end.

(** How a step keeps what the status says. *)
Definition faithful i (ev : LifeEvent) (k : Ingestor F * list Output) : Prop :=
  life_ok k.1 /\
  (in_block i = true -> in_block k.1 = false -> lost (i_lease i) = false ->
   exists pre s, k.2 = pre ++ [Status s] /\ fs_state s = "stopped"%string) /\
  (between k.1 = true -> is_leader (i_lease k.1) = true -> feed_state k.1 = "healthy"%string ->
   ev = Acquired \/
   quiet ev = true /\ between i = true /\ is_leader (i_lease i) = true /\ feed_state i = "healthy"%string).

Lemma ends_faithful i ev k : ends i k -> faithful i ev k.
Proof.
  intros (Hok & Hin & Hout). split_and!; [done|by intros _|]. intros Hb. exfalso.
  assert (Hblock : in_block k.1 = true) by (unfold between, in_block in *; by destruct (i_place k.1)).
  destruct (Hin Hblock) as [Hp _]. unfold between in Hb. by rewrite Hp in Hb.
Qed.

Lemma goes_on_faithful i ev k : goes_on i k -> faithful i ev k.
Proof.
  intros [He|(Hok & Hin & Hb)]; [by apply ends_faithful|]. split_and!; [done|by rewrite Hin|by rewrite Hb].
Qed.

Lemma beat_faithful i wall : life_ok i -> faithful i Beat (beat i wall).
Proof.
  intros [Hf Hs Hst]. unfold beat, heartbeat. destruct (is_leader (i_lease i)) eqn:Hl; cbn.
  all: split_and!; cbn [fst snd]; [split; [cbn; rewrite Hl; exact Hf|exact Hs|exact Hst]| |].
  1,3: intros Hin Hout; change (in_block i = false) in Hout; congruence.
  all: intros Hb Hlead Hfs; right; by split_and!.
Qed.

Lemma ask_faithful i asked started wall :
  i_place i = Asking -> life_ok i -> faithful i (Ask asked started) (ask i asked started wall).
Proof.
  intros Hp [Hf Hs Hst]. unfold in_block in Hf. rewrite Hp in Hf. destruct Hf as [Hl Hsh]. unfold ask.
  destruct (stopping i) eqn:Hstop; [apply ends_faithful; by apply ends_left|].
  destruct (allows_attempt _ _) as [b []]; [|apply ends_faithful; by apply ends_asleep].
  split_and!; [by split|by intros _|]. intros _ Hlead Hfs. right. split_and!; try done. unfold between. by rewrite Hp.
Qed.

Lemma lost_faithful i :
  in_block i = true -> life_ok i ->
  faithful i LeaseLost (with_flags i (set_lease (i_lease i) false true (Inside false)) (i_shutdown i), []).
Proof.
  intros Hin [Hf Hs Hst]. rewrite Hin in Hf. destruct Hf as [_ Hsh].
  split_and!; cbn [fst snd]; [split; cbn|by intros _ Hout; change (in_block i = false) in Hout; congruence|done].
  - change (in_block (with_flags i _ _)) with (in_block i). by rewrite Hin, Hsh.
  - exact Hs.
  - exact Hst.
Qed.

Lemma rehydrated_faithful i ev (found : result (IngestPipeline F + Failure (F := F))) wall :
  i_place i = Rehydrating -> life_ok i -> quiet ev = true ->
  faithful i ev
    (match found with
     | Ok (inl p) =>
         let l := i_leader i in
         (with_place (with_leader (with_pipeline i p) (Leader_new (breaker l) (backoff l))) Asking, [])
     | Ok (inr _) => leave_block i (Some ExConfig) wall
     | Raise e => leave_block i (Some (Died e)) wall
     end : Ingestor F * list Output).
Proof.
  intros Hp [Hf Hs Hst] Hq. unfold in_block in Hf. rewrite Hp in Hf. destruct Hf as [Hl Hsh].
  destruct found as [[p|?]|e]; [|apply ends_faithful; by apply ends_left..].
  split_and!; [by split|by intros _|]. intros _ Hlead Hfs. right. split_and!; try done. unfold between. by rewrite Hp.
Qed.

Lemma check_faithful i ev asked started q w open_ now now_pet :
  i_place i = Streaming asked started q w -> life_ok i ->
  faithful i ev (on_check i asked started q w open_ now now_pet, []).
Proof.
  intros Hp [Hf Hs Hst]. unfold in_block in Hf. rewrite Hp in *. destruct Hf as [Hl Hsh], Hst as [Htr Hstale].
  apply goes_on_faithful. right. unfold on_check, watchdog_check. destruct open_; cbn [negb].
  - destruct (f_lt _ _); (split_and!; [|done|done]); apply streaming_ok; try done; cbn; [lia|].
    by rewrite (proj2 (Z.eqb_neq _ _)) by lia.
  - split_and!; [|done|done]. by apply streaming_ok.
Qed.

Lemma life_step_faithful wall i ev k : life_ok i -> life_step wall i ev = Some k -> faithful i ev k.
Proof.
  intros Hok Hstep. assert (Hin : in_block i = match i_place i with Standby | Gone _ => false | _ => true end) by done.
  assert (Hok' := Hok). destruct Hok' as [Hf Hs Hst]. unfold life_step in *. rewrite Hin in Hf.
  destruct (i_place i) as [| | |asked started|asked started q w| |e] eqn:Hp; [| | | | | |done].
  all: destruct ev; try discriminate Hstep.
  all: try (destruct (i_shutdown i); [done|]; injection Hstep as <-; by apply beat_faithful).
  all: try (destruct (is_leader (i_lease i)); [|done]; injection Hstep as <-; by apply lost_faithful).
  all: try (injection Hstep as <-; apply ends_faithful; apply ends_left; done).
  - destruct Hf as [Hl Hsh]. injection Hstep as <-. split_and!; [|by rewrite Hin|by left].
    split; cbn; [split; [done|by apply Hsh]|done|done].
  - destruct Hf as [Hl Hsh]. injection Hstep as <-. by split_and!; [split; cbn|rewrite Hin|].
  - destruct Hf as [Hl Hsh]. injection Hstep as <-. by split_and!; [split; cbn|rewrite Hin|].
  - injection Hstep as <-. by apply rehydrated_faithful.
  - injection Hstep as <-. by apply ask_faithful.
  - injection Hstep as <-. apply goes_on_faithful. destruct Hf. by apply open_session_ok.
  - destruct (i_provider i) as [p|]; [|done]. injection Hstep as <-. apply goes_on_faithful. destruct Hf.
    by apply on_message_ok.
  - destruct (i_provider i) as [p|]; [|done]. apply (inj Some) in Hstep as <-. apply goes_on_faithful. destruct Hf.
    left. by apply end_session_spec.
  - injection Hstep as <-. by apply check_faithful.
  - injection Hstep as <-. split_and!; [by split|by rewrite Hin|]. intros _ _ Hfs. cbn in Hfs. unfold feed_state in *. cbn in *. congruence.
Qed.

Lemma life_run_app i evs evs' :
  life_run i (evs ++ evs') =
  ('(j, out) ← life_run i evs; '(k, out') ← life_run j evs'; Some (k, out ++ out')).
Proof.
  revert i. induction evs as [|[wall ev] evs IH]; intros i.
  - cbn. by destruct (life_run i evs') as [[k out]|].
  - cbn. destruct (life_step wall i ev) as [[j out]|]; [|done]. cbn. rewrite IH.
    destruct (life_run j evs) as [[k out']|]; [|done]. cbn.
    destruct (life_run k evs') as [[k' out'']|]; [|done]. cbn. by rewrite app_assoc.
Qed.

Lemma life_run_snoc i evs wall ev k :
  life_run i (evs ++ [(wall, ev)]) = Some k ->
  exists j out out', life_run i evs = Some (j, out) /\ life_step wall j ev = Some (k.1, out') /\ k.2 = out ++ out'.
Proof.
  rewrite life_run_app. destruct (life_run i evs) as [[j out]|]; [|done]. cbn.
  destruct (life_step wall j ev) as [[j' out']|] eqn:Hstep; [|done]. cbn. intros [= <-]. exists j, out, out'.
  by rewrite app_nil_r.
Qed.

(** The process has regained the lease, has not tried a session since, and was
    healthy when it lost the lease before. *)
Definition carried_over i0 (evs : list (datetime * LifeEvent)) : Prop :=
  exists pre wall post j out, evs = pre ++ (wall, Acquired) :: post /\ Forall (fun e => quiet e.2 = true) post /\
    life_run i0 pre = Some (j, out) /\ i_place j = Standby /\ feed_state j = "healthy"%string.

Lemma life_run_ok i0 evs i out :
  life_ok i0 -> between i0 = false -> life_run i0 evs = Some (i, out) ->
  life_ok i /\
  (between i = true -> is_leader (i_lease i) = true -> feed_state i = "healthy"%string -> carried_over i0 evs).
Proof.
  intros Hok0 Hb0. revert i out. induction evs as [|[wall ev] evs IH] using rev_ind; intros i out.
  - intros [= <- <-]. split; [done|]. by rewrite Hb0.
  - intros (j & o & o' & Hj & Hstep & _)%life_run_snoc. cbn in Hstep. destruct (IH j o Hj) as [Hok Hcarry].
    destruct (life_step_faithful _ _ _ _ Hok Hstep) as (Hok' & _ & Hsame). split; [exact Hok'|].
    intros Hb Hl Hf. destruct (Hsame Hb Hl Hf) as [->|(Hq & Hbj & Hlj & Hfj)].
    + unfold life_step in Hstep. destruct (i_place j) eqn:Hp; try done. injection Hstep as <- <-.
      exists evs, wall, [], j, o. split_and!; try done.
    + destruct (Hcarry Hbj Hlj Hfj) as (pre & w0 & post & j0 & o0 & -> & Hpost & Hrest).
      exists pre, w0, (post ++ [(wall, ev)]), j0, o0. rewrite <- app_assoc. split_and!; [done| |apply Hrest..].
      apply Forall_app. split; [done|]. by repeat constructor.
Qed.

Lemma Ingestor_new_ok strip cfg id started i0 :
  Ingestor_new strip cfg id started = Ok i0 -> life_ok i0 /\ i_place i0 = Standby.
Proof.
  unfold Ingestor_new. intros (p & _ & (l & Hl & [= <-])%bind_ok)%bind_ok. split; [|done].
  unfold LeaderLease_new in Hl. destruct (_ <=? _); [done|]. injection Hl as <-. by split.
Qed.

Lemma outside_silent i wall ev k : life_ok i -> in_block i = false -> life_step wall i ev = Some k -> k.2 = [].
Proof.
  intros [Hf _ _] Hin. rewrite Hin in Hf. destruct Hf as [Hl _]. unfold in_block, life_step, beat, heartbeat in *.
  destruct (i_place i); try done. destruct ev; try done; try (by intros [= <-]).
  destruct (i_shutdown i); [done|]. rewrite Hl. by intros [= <-].
Qed.

(* ------------------------------------------------------------------ *)
(** ** What is sent *)

(** A status stamped with the time it is sent at. *)
Definition stamped wall (o : Output) : Prop :=
  match o with Status s => fs_ts s = isoformat wall | Transaction _ => True end.

(** Nothing but statuses that do not say the feed is healthy. *)
Definition not_healthy wall (o : Output) : Prop :=
  match o with Status s => fs_ts s = isoformat wall /\ fs_state s <> "healthy"%string | Transaction _ => False end.

Lemma leave_block_sent i e wall : Forall (not_healthy wall) (leave_block i e wall).2.
Proof.
  destruct (leave_block_spec i e wall) as (_ & _ & ->). destruct (lost (i_lease i)); [constructor|].
  by repeat constructor.
Qed.

Lemma end_session_sent i asked started r f wall : Forall (not_healthy wall) (end_session i asked started r f wall).2.
Proof.
  assert (Hleave : forall j e pre, Forall (not_healthy wall) pre ->
    Forall (not_healthy wall) (let '(k, out) := leave_block j e wall in (k, pre ++ out)).2).
  { intros j e pre Hpre. pose proof (leave_block_sent j e wall) as Hl. destruct (leave_block j e wall).
    apply Forall_app. by split. }
  unfold end_session. destruct f as [[d|d| |ra|e]|]; cbn [publish].
  1: apply Hleave; by repeat constructor.
  1-3: destruct (leader_turn _ _) as [[l ?]|e]; [|apply Hleave]; by repeat constructor.
  1: apply leave_block_sent.
  destruct (leader_turn _ _) as [[l ?]|e]; [|apply leave_block_sent].
  destruct (stopping _); [apply leave_block_sent|constructor].
Qed.

(** The frame [raw] that the session was given is a quote. *)
Definition gives_quote i (raw : string) wall : Prop :=
  exists p p' t, i_provider i = Some p /\ parse_frame (count_received p) raw wall = (p', Yields t).

Lemma not_healthy_stamped wall out : Forall (not_healthy wall) out -> Forall (stamped wall) out.
Proof. intros Hall. eapply Forall_impl; [exact Hall|]. by intros [s|cs]; [intros [? _]|]. Qed.

Lemma on_tick_stamped i asked started q w t petted r wall :
  Forall (stamped wall) (on_tick i asked started q w t petted r wall).2.
Proof.
  unfold on_tick. destruct (handle _ _ _ _ _ _) as [h|e]; [|apply not_healthy_stamped, end_session_sent].
  set (j := with_pipeline i (h_pipeline h)).
  set (k := (if q then (j, []) else publish j "healthy" "" wall)).
  assert (Hk : Forall (stamped wall) k.2) by (unfold k; destruct q; by repeat constructor).
  destruct k as [k out]. cbn in Hk.
  assert (Hout : Forall (stamped wall) (match h_commands h with [] => out | cs => Transaction cs :: out end))
    by (destruct (h_commands h); [done|by constructor]).
  destruct (stopping k); [|done].
  pose proof (not_healthy_stamped _ _ (end_session_sent k asked started r None wall)) as He.
  destruct (end_session k asked started r None wall). apply Forall_app. by split.
Qed.

(** What a step sends: statuses that do not say healthy, a heartbeat, or what goes
    with a quote. *)
Lemma life_step_shape wall i ev k :
  life_step wall i ev = Some k ->
  Forall (not_healthy wall) k.2 \/ (ev = Beat /\ k = beat i wall) \/
  exists asked started q w raw petted r p t, i_place i = Streaming asked started q w /\
    ev = Message raw petted r /\ gives_quote i raw wall /\
    k = on_tick (with_provider i (Some p)) asked started q w t petted r wall.
Proof.
  intros Hstep. unfold life_step in Hstep.
  destruct (i_place i) as [| | |asked started|asked started q w| |e] eqn:Hp; [| | | | | |done].
  all: destruct ev; try discriminate Hstep.
  all: try (destruct (i_shutdown i); [done|]; apply (inj Some) in Hstep as <-; right; by left).
  all: try (destruct (is_leader (i_lease i)); [|done]).
  all: try (destruct (i_provider i) as [p|] eqn:Hprov; [|done]).
  all: apply (inj Some) in Hstep as <-.
  all: try (left; first [constructor|apply leave_block_sent|apply end_session_sent]; done).
  - left. destruct (rehydrate _ _ _ _ _ _) as [[p|?]|e]; [constructor|apply leave_block_sent..].
  - left. unfold ask. destruct (stopping i); [apply leave_block_sent|].
    destruct (allows_attempt _ _) as [b []]; by repeat constructor.
  - left. unfold open_session. destruct (build i) as [[p|f]|e]; [|apply end_session_sent..].
    destruct (connect p o); [|apply end_session_sent]. by repeat constructor.
  - unfold on_message. destruct (parse_frame _ _ _) as [p' [t| |f]] eqn:Hparse;
      [|left; constructor|left; apply end_session_sent].
    right; right. exists asked, started, q, w, raw, petted, r, p', t. split_and!; try done. by exists p, p', t.
Qed.

(** A heartbeat repeats the state, and a quote makes it healthy: nothing else that is
    sent says so. *)
Lemma life_step_sent wall i ev k s :
  life_step wall i ev = Some k -> Status s ∈ k.2 ->
  fs_ts s = isoformat wall /\
  (fs_state s = "healthy"%string ->
   (ev = Beat /\ is_leader (i_lease i) = true /\ feed_state i = "healthy"%string) \/
   exists asked started q w raw petted r, i_place i = Streaming asked started q w /\
     ev = Message raw petted r /\ gives_quote i raw wall).
Proof.
  intros Hstep Hs. destruct (life_step_shape _ _ _ _ Hstep) as [Hall|[[-> ->]|Htick]].
  - destruct (proj1 (Forall_forall _ _) Hall _ Hs) as [Hts Hf]. by split.
  - unfold beat, heartbeat in Hs. destruct (is_leader (i_lease i)) eqn:Hl; cbn in Hs; [|set_solver].
    apply list_elem_of_singleton in Hs as [= ->]. split; [done|]. intros Hh. by left.
  - destruct Htick as (asked & started & q & w & raw & petted & r & p & t & Hp & -> & Hq & ->). split.
    + exact (proj1 (Forall_forall _ _) (on_tick_stamped _ _ _ _ _ _ _ _ _) _ Hs).
    + intros _. right. by exists asked, started, q, w, raw, petted, r.
Qed.

(** A process that has lost the lease, or is to stop, handles one more tick at most. *)
Lemma tick_is_last wall i ev k cs :
  stopping i = true -> life_step wall i ev = Some k -> Transaction cs ∈ k.2 -> in_block k.1 = false.
Proof.
  intros Hstop Hstep Hcs. destruct (life_step_shape _ _ _ _ Hstep) as [Hall|[[-> ->]|Htick]].
  - by destruct (proj1 (Forall_forall _ _) Hall _ Hcs).
  - unfold beat, heartbeat in Hcs. destruct (is_leader (i_lease i)); cbn in Hcs; set_solver.
  - destruct Htick as (asked & started & q & w & raw & petted & r & p & t & _ & _ & _ & ->).
    unfold on_tick in *. destruct (handle _ _ _ _ _ _) as [h|e].
    + set (j := with_pipeline _ (h_pipeline h)) in *. set (k := (if q then (j, []) else publish j "healthy" "" wall)) in *.
      assert (Hk : stopping k.1 = true) by (unfold k; by destruct q). destruct k as [k out]. cbn in Hk. rewrite Hk.
      unfold end_session. cbv iota. change (stopping (with_provider k None)) with (stopping k).
      destruct (leader_turn _ _) as [[l ?]|e].
      * change (stopping (with_leader (with_provider k None) l)) with (stopping k). rewrite Hk.
        pose proof (leave_block_spec (with_leader (with_provider k None) l) None wall) as (Hb & _). by destruct (leave_block _ _ _).
      * pose proof (leave_block_spec (with_provider k None) (Some (Died e)) wall) as (Hb & _). by destruct (leave_block _ _ _).
    + by destruct (proj1 (Forall_forall _ _) (end_session_sent _ _ _ _ _ _) _ Hcs).
Qed.

(** [_run_as_leader] publishes "fatal" for refused credentials, and [run]'s finally
    publishes "stopped" over it at once: with the lease still held, nobody who looks
    later reads "fatal". *)
Lemma fatal_is_overwritten i asked started r detail wall :
  lost (i_lease i) = false ->
  let k := end_session i asked started r (Some (ProviderAuthError detail)) wall in
  feed_state k.1 = "stopped"%string /\ i_place k.1 = Gone ExConfig /\
  exists s s', k.2 = [Status s; Status s'] /\ fs_state s = "fatal"%string /\ fs_state s' = "stopped"%string.
Proof. intros Hl. unfold end_session, leave_block, publish. cbn. rewrite Hl. cbn. split_and!; [done|done|]. by eexists _, _. Qed.

(** "stopped" is withheld once the lease is lost, as it would contradict the replica
    that owns the feed by then; a session that fails says "degraded" all the same. *)
Lemma deposed_leader_speaks i asked started r detail wall :
  lost (i_lease i) = true ->
  exists pre s, (end_session i asked started r (Some (ProviderError detail)) wall).2 = Status s :: pre /\
    fs_state s = "degraded"%string.
Proof.
  intros Hl. unfold end_session, publish. destruct (leader_turn _ _) as [[l ?]|e]; [by eexists _, _|].
  destruct (leave_block _ _ _) as [k out]. by eexists _, _.
Qed.

(** C15. What the status says is the feed.  However a process's life goes - leases
    granted and lost, sessions refused, opened, quoting, silent and ended, heartbeats
    and signals at any moment - while it leads it says healthy exactly when a session
    is open that has given a quote, unless it has just regained the lease, when it
    may still say what it said before it lost it.  While a session is open the
    detector is gated exactly if the watchdog fired in that session.  Waiting for the
    lease it sends nothing; a process that gives up the lease while it still holds it
    says "stopped" last, whatever made it leave (a failed refresher apart, which
    [Beside.v] adds); and it can be told to stop at any moment. *)
Theorem status_is_the_feed strip cfg id started i0 evs i out :
  Ingestor_new strip cfg id started = Ok i0 -> life_run i0 evs = Some (i, out) ->
  (quoting i = true -> feed_state i = "healthy"%string) /\
  (feed_state i = "healthy"%string -> is_leader (i_lease i) = true -> quoting i = true \/ carried_over i0 evs) /\
  (forall asked since q w, i_place i = Streaming asked since q w ->
     (p_feed_is_stale (i_pipeline i) = true <-> trips w <> 0)) /\
  (forall wall ev i' o, life_step wall i ev = Some (i', o) ->
     (in_block i = false -> o = []) /\
     (in_block i = true -> in_block i' = false -> lost (i_lease i) = false ->
      exists pre s, o = pre ++ [Status s] /\ fs_state s = "stopped"%string)) /\
  ((forall e, i_place i <> Gone e) -> forall wall, exists i' o,
     life_step wall i StopSignal = Some (i', o) /\ i_place i' = Gone Done).
Proof.
  intros [Hok0 Hp0]%Ingestor_new_ok Hrun.
  destruct (life_run_ok i0 evs i out) as [Hok Hcarry]; [done|unfold between; by rewrite Hp0|done|].
  assert (Hok' := Hok). destruct Hok' as [Hf Hs Hst]. split_and!.
  - unfold quoting. destruct (i_place i) eqn:Hp; try done. intros ->. exact Hs.
  - intros Hh Hl. unfold quoting. unfold between in Hcarry. unfold in_block in Hf. rewrite Hh in Hs.
    destruct (i_place i) as [| | | |a s [] w| |]; try (right; by apply Hcarry); try by left; try done.
    all: destruct Hf; congruence.
  - intros a s q w Hp. rewrite Hp in Hst. destruct Hst as [_ ->]. rewrite negb_true_iff. by rewrite Z.eqb_neq.
  - intros wall ev i' o Hstep. split; [intros Hin; exact (outside_silent _ _ _ _ Hok Hin Hstep)|].
    exact (proj1 (proj2 (life_step_faithful _ _ _ _ Hok Hstep))).
  - intros Hgone wall. unfold life_step. destruct (i_place i) as [| | | | | |e] eqn:Hp; [by eexists _, _| | | | | |by destruct (Hgone e)].
    all: eexists _, _; split; [exact (f_equal Some (surjective_pairing _))|].
    all: unfold leave_block; destruct (lost _); done.
Qed.
End Ingestor.

(* ------------------------------------------------------------------ *)
(** ** A life *)

Section Examples.
#[local] Existing Instance plain64.
#[local] Existing Instance json_bits.
#[local] Existing Instance sorted_list.
#[local] Existing Instance iso_utc.
#[local] Existing Instance eastern_standard.
#[local] Existing Instance plain_text.

Definition demo_settings : IngestorSettings SpecFloat.spec_float := IngestorSettings_default "s3cret".
Definition demo_ingestor : result (Ingestor SpecFloat.spec_float) :=
  Ingestor_new (fun s => s) demo_settings "a" demo_t0.
Definition at_s (s : Z) : SpecFloat.spec_float := f_of_Z s.
Definition demo_readings (s : Z) : Readings SpecFloat.spec_float :=
  {| rd_ended := at_s s; rd_recorded := at_s s; rd_random := f_zero |}.
Definition demo_frame (price : Z) : string := dumps (demo_data (JInt price) (JInt price) (JInt price)).

Definition demo_life (i : result (Ingestor SpecFloat.spec_float)) (evs : list (Z * @LifeEvent _ SpecFloat.spec_float))
    : option (Ingestor SpecFloat.spec_float * list Output) :=
  match i with
  | Ok i => life_run write_bits (fun _ => "why"%string) (fun _ => Ok 33) i
              ((fun e => (demo_t0 + seconds e.1, e.2)) <$> evs)
  | Raise _ => None
  end.

Definition states_said (k : option (Ingestor SpecFloat.spec_float * list Output)) : option (list string) :=
  match k with
  | Some (_, out) => Some (omap (fun o => match o with Status s => Some (fs_state s) | Transaction _ => None end) out)
  | None => None
  end.

(** A leadership up to the first quote. *)
Definition demo_leading (s : Z) : list (Z * @LifeEvent _ SpecFloat.spec_float) := [
  (s, Acquired); (s + 1, Beat); (s + 1, Rehydrated ∅ ∅ ∅ None []); (s + 1, Ask (at_s (s + 1)) (at_s (s + 1)));
  (s + 2, Connect Opened (at_s (s + 2)) (demo_readings (s + 2)));
  (s + 3, Message (demo_frame 2) (at_s (s + 3)) (demo_readings (s + 3)))].

(** It then loses the lease, gives up at the next quote and gets the lease back. *)
Definition demo_regained : list (Z * @LifeEvent _ SpecFloat.spec_float) :=
  demo_leading 0 ++ [
    (20, LeaseLost); (21, Message (demo_frame 3) (at_s 21) (demo_readings 21));
    (30, Acquired); (35, Beat)].

(** Between its leaderships nothing has changed what the process says, so from the
    moment it has the lease back its heart beats "healthy", with no session open. *)
Lemma regained_lease_says_healthy :
  states_said (demo_life demo_ingestor demo_regained) = Some ["starting"; "connecting"; "healthy"; "healthy"]%string /\
  match demo_life demo_ingestor demo_regained with
  | Some (i, _) => i_place i = Rehydrating /\ i_provider i = None
  | None => False
  end.
Proof. by vm_compute. Qed.

Lemma status_is_the_feed_witness :
  match demo_ingestor with
  | Ok i0 =>
      match demo_life (Ok i0) demo_regained with
      | Some (i, _) => quoting i = true \/
          carried_over write_bits (fun _ => "why"%string) (fun _ => Ok 33) i0
            ((fun e => (demo_t0 + seconds e.1, e.2)) <$> demo_regained)
      | None => False
      end
  | Raise _ => False
  end.
Proof.
  assert (Hrun : match demo_life demo_ingestor demo_regained with
    | Some (i, _) => is_leader (i_lease i) && String.eqb (feed_state i) "healthy"
    | None => false end = true) by (vm_compute; reflexivity).
  destruct demo_ingestor as [i0|] eqn:Hnew; [|done]. unfold demo_life in *.
  destruct (life_run _ _ _ i0 _) as [[i out]|] eqn:E; [|done]. apply andb_true_iff in Hrun as [Hl Hh%String.eqb_eq].
  exact (proj1 (proj2 (status_is_the_feed _ _ _ (fun s => s) demo_settings "a" demo_t0 i0 _ i out Hnew E)) Hh Hl).
Defined.
End Examples.
