(* ===== verification/Beside.v ===== *)
(** * Beside the feed ([fx_ingestor/main.py]: [_rehydrate], [_refresh_daily_history], [run])

    The provider's history a leader loads before its first session and keeps current
    beside it, and what a task that failed there does to the process that leads:
    [Ingestor.v]'s machine with the refreshing task next to it.  [crew_is_life] says
    that machine is what runs as long as no history request raises what nobody
    catches; [failed_refresh_ends_leading] what happens when one does. *)
From S2P Require Import Prelude PyFloat Civil Volatility Models Buckets Ranges Baseline Seasonality.
From S2P Require Import Calendar Hysteresis Detector Supervisor Redis Json Keys Text Pipeline Wire Provider.
From S2P Require Import Rehydrate Lease Feed Config Ingestor.

Local Open Scope Z_scope.

(** How a pass over the pairs ends: through, at a call Redis did not answer, or with
    an exception that is no [ProviderError]. *)
Inductive LoadEnd := LoadedAll | RedisDown | Escaped (e : exn).

Section Beside.
Context `{SortedSet} {F : Type} `{PyFloat F} `{IsoFormat} `{JsonText F} `{NewYork} `{!PyText F}.
Context (repr : F -> string) (reason_text : Reason F -> string) (int_of : F -> result Z).
Implicit Types (i : Ingestor F) (wall : datetime) (p : TiingoProvider).

(* ------------------------------------------------------------------ *)
(** ** Loading history *)

(** [_store_history]: what the request becomes in Redis; a [ProviderError] is logged
    and counts as no bars. *)
Definition store_one p (symbol interval : string) (start end_ : datetime) (reply : HttpReply)
    : TiingoProvider * (list Command + exn) :=
  match backfill p symbol start end_ interval reply with
  | (p, inl bars) => (p, inl (store_history symbol interval bars))
  | (p, inr (Uncaught e)) => (p, inr e)
  | (p, inr _) => (p, inl [])
  end.

(** The loops of [seed_history] and [refresh_daily_history] over what they ask for:
    the transactions sent and the end.  [down n] is that Redis does not answer while
    the [n]th is under way. *)
Fixpoint load_series p (rqs : list (string * string * datetime * datetime)) (replies : nat -> HttpReply)
    (down : nat -> bool) (n : nat) : list (list Command) * LoadEnd :=
  match rqs with
  | [] => ([], LoadedAll)
  | (symbol, interval, start, end_) :: rqs =>
      if down n then ([], RedisDown)
      else
        match store_one p symbol interval start end_ (replies n) with
        | (_, inr e) => ([], Escaped e)
        | (p, inl cs) =>
            let '(sent, r) := load_series p rqs replies down (S n) in
            (match cs with [] => sent | _ => cs :: sent end, r)
        end
  end.

(** What the provider and Redis answer a pass. *)
Record Answers := { an_keys : gmap string value; an_replies : nat -> HttpReply; an_down : nat -> bool }.

Definition seed i p (a : Answers) wall : list (list Command) * LoadEnd :=
  load_series p (seed_requests (i_pipeline i) (an_keys a) wall) (an_replies a) (an_down a) 0.
Definition refresh_daily i p (a : Answers) wall : list (list Command) * LoadEnd :=
  load_series p (daily_requests (i_pipeline i) (an_keys a) wall) (an_replies a) (an_down a) 0.

(* ------------------------------------------------------------------ *)
(** ** The task and the process *)

(** [_refresh_daily_history]'s task: on its hourly rounds, or ended by what it did
    not catch, which nobody looks at before the leadership ends. *)
Inductive Task := Rounds | Failed (e : Exit).

(** One hour later. *)
Definition round i (a : Answers) wall : Task * list (list Command) :=
  match build i with
  | Ok (inl p) =>
      match refresh_daily i p a wall with
      | (sent, Escaped e) => (Failed (Died e), sent)
      | (sent, _) => (Rounds, sent)
      end
  | Ok (inr _) => (Failed ExConfig, [])
  | Raise e => (Failed (Died e), [])
  end.

Record Crew := { c_ingestor : Ingestor F; c_refresher : option Task }.
Implicit Types (c : Crew).

Inductive CrewEvent :=
  | Life (ev : LifeEvent (F:=F))
  | Seeding (seeded daily : Answers)
  | Hour (a : Answers).

Definition is_stopped_status (o : Output) : bool :=
  match o with Status s => String.eqb (fs_state s) "stopped" | Transaction _ => false end.

(** The [finally] of [run] around [leave_block]: awaiting a refresher that failed
    raises its exception in place of what was under way, before "stopped" is said. *)
Definition settle c (k : Ingestor F * list Output) : Crew * list Output :=
  let '(i, out) := k in
  match c_refresher c with
  | Some (Failed e) =>
      if in_block i then ({| c_ingestor := i; c_refresher := c_refresher c |}, out)
      else ({| c_ingestor := with_place i (Gone e); c_refresher := None |},
            List.filter (fun o => negb (is_stopped_status o)) out)
  | t =>
      ({| c_ingestor := i;
          c_refresher := if in_block i then
                           match i_place (c_ingestor c), i_place i with Rehydrating, Asking => Some Rounds | _, _ => t end
                         else None |}, out)
  end.

(** The histories [_rehydrate] loads between the provider's switch and the
    detectors. *)
Definition seeding c (seeded daily : Answers) wall : option (Crew * list Output * list (list Command)) :=
  let i := c_ingestor c in
  let ended sent r :=
    match r with
    | LoadedAll => Some (c, [], sent)
    | RedisDown => Some (settle c (leave_block i (Some RedisFailed) wall), sent)
    | Escaped e => Some (settle c (leave_block i (Some (Died e)) wall), sent)
    end in
  match i_place i, build i with
  | Rehydrating, Ok (inl p) =>
      match seed i p seeded wall with
      | (sent, LoadedAll) => let '(sent', r) := refresh_daily i p daily wall in ended (sent ++ sent') r
      | (sent, r) => ended sent r
      end
  | _, _ => None
  end.

(** A step: what is sent besides the process's own output are the transactions of the
    histories. *)
Definition crew_step wall c (ev : CrewEvent) : option (Crew * list Output * list (list Command)) :=
  match ev with
  | Life ev =>
      k ← life_step repr reason_text int_of wall (c_ingestor c) ev; Some (settle c k, [])
  | Seeding seeded daily => seeding c seeded daily wall
  | Hour a =>
      match c_refresher c with
      | Some Rounds =>
          let '(t, sent) := round (c_ingestor c) a wall in
          Some ({| c_ingestor := c_ingestor c; c_refresher := Some t |}, [], sent)
      | _ => None
      end
  end.

Fixpoint crew_run c (evs : list (datetime * CrewEvent)) : option (Crew * list Output * list (list Command)) :=
  match evs with
  | [] => Some (c, [], [])
  | (wall, ev) :: evs =>
      '(c, out, sent) ← crew_step wall c ev;
      '(c, out', sent') ← crew_run c evs;
      Some (c, out ++ out', sent ++ sent')
  end.

(* ------------------------------------------------------------------ *)
(** ** With no failure, the process is the one of [Ingestor.v] *)

Definition own_events (evs : list (datetime * CrewEvent)) : list (datetime * LifeEvent) :=
  omap (fun we => match we.2 with Life ev => Some (we.1, ev) | _ => None end) evs.

(** No round of the refresher and no history before it ended with an exception that is
    no provider's. *)
Fixpoint untroubled c (evs : list (datetime * CrewEvent)) : Prop :=
  match evs with
  | [] => True
  | (wall, ev) :: evs =>
      match crew_step wall c ev with
      | Some (c', _, _) =>
          (forall e, c_refresher c' <> Some (Failed e)) /\
          (match ev with Seeding _ _ => c' = c | _ => True end) /\ untroubled c' evs
      | None => True
      end
  end.

Lemma settle_calm c k : (forall e, c_refresher c <> Some (Failed e)) -> c_ingestor (settle c k).1 = k.1 /\ (settle c k).2 = k.2.
Proof.
  intros Hc. destruct k as [i out]. unfold settle. destruct (c_refresher c) as [[|e]|]; [done| |done].
  by specialize (Hc e).
Qed.

Lemma seeding_calm c seeded daily wall out sent :
  (forall e, c_refresher c <> Some (Failed e)) -> seeding c seeded daily wall = Some (c, out, sent) -> out = [].
Proof.
  intros Hc. unfold seeding. destruct (i_place (c_ingestor c)) eqn:Hpl; try done.
  destruct (build _) as [[p|f]|e]; try done.
  assert (Hleave : forall e (l l' : list (list Command)),
    Some (settle c (leave_block (c_ingestor c) e wall), l) = Some (c, out, l') -> out = []).
  { intros e l l' Heq. destruct (leave_block_spec (c_ingestor c) e wall) as (Hb & _).
    destruct (settle_calm c (leave_block (c_ingestor c) e wall) Hc) as [Hi _].
    injection Heq as Hs _. rewrite Hs in Hi. cbn in Hi. rewrite <- Hi in Hb. unfold in_block in Hb. by rewrite Hpl in Hb. }
  destruct (seed _ _ _ _) as [sent0 [| |e]]; [|apply Hleave..].
  destruct (refresh_daily _ _ _ _) as [sent1 [| |e]]; [|apply Hleave..]. by intros [= <- _].
Qed.

(** As long as nothing fails beside it, a leading process is the machine of
    [Ingestor.v], whatever the refresher loads and sends meanwhile. *)
Theorem crew_is_life evs : forall c c' out sent,
  (forall e, c_refresher c <> Some (Failed e)) -> untroubled c evs ->
  crew_run c evs = Some (c', out, sent) ->
  life_run repr reason_text int_of (c_ingestor c) (own_events evs) = Some (c_ingestor c', out).
Proof.
  induction evs as [|[wall ev] evs IH]; intros c c' out sent Hc Hu Hrun; [by injection Hrun as <- <- <-|].
  cbn [crew_run untroubled] in *. destruct (crew_step wall c ev) as [[[c1 out1] sent1]|] eqn:Hstep; [|done].
  destruct Hu as (Hc1 & Hseed & Hu). cbn in Hrun.
  destruct (crew_run c1 evs) as [[[c2 out2] sent2]|] eqn:Hrest; [|done]. injection Hrun as <- <- <-.
  specialize (IH c1 c2 out2 sent2 Hc1 Hu Hrest). destruct ev as [ev|seeded daily|a]; cbn [own_events omap list_omap] in *.
  - cbn in Hstep. destruct (life_step _ _ _ wall (c_ingestor c) ev) as [k|] eqn:Hlife; [|done].
    cbn in Hstep. destruct (settle_calm c k Hc) as [Hi Ho]. injection Hstep as Hk <-.
    rewrite Hk in Hi, Ho. cbn in Hi, Ho. subst out1. cbn. rewrite Hlife. cbn. destruct k as [i o]. cbn in Hi.
    subst i. change (life_run _ _ _ (c_ingestor c1) _) with (life_run repr reason_text int_of (c_ingestor c1) (own_events evs)).
    by rewrite IH.
  - cbn in Hstep. subst c1. apply seeding_calm in Hstep as ->; [|done]. exact IH.
  - cbn in Hstep. destruct (c_refresher c) as [[|]|]; [|done..]. destruct (round _ _ _) as [t sent0].
    injection Hstep as <- <- <-. exact IH.
Qed.

(** A refresher that failed ends the process: whenever the leadership ends - the lease
    was lost, a stop was asked for, the session failed - the process ends with the
    refresher's exception, and says no "stopped". *)
Theorem failed_refresh_ends_leading wall c ev c' out sent e :
  c_refresher c = Some (Failed e) -> crew_step wall c (Life ev) = Some (c', out, sent) ->
  if in_block (c_ingestor c') then c_refresher c' = Some (Failed e)
  else i_place (c_ingestor c') = Gone e /\ Forall (fun o => is_stopped_status o = false) out.
Proof.
  intros Hc Hstep. cbn in Hstep. destruct (life_step _ _ _ wall (c_ingestor c) ev) as [[i o]|]; [|done].
  cbn in Hstep. unfold settle in Hstep. rewrite Hc in Hstep.
  destruct (in_block i) eqn:Hb; injection Hstep as <- <- <-; cbn; [by rewrite Hb|].
  split; [done|]. apply Forall_forall. intros x [_ Hx]%elem_of_lfilter. by apply negb_true_iff.
Qed.
End Beside.
#[global] Arguments Crew F : clear implicits.

(* ------------------------------------------------------------------ *)
(** ** A leadership whose refresher fails *)

Section Examples.
#[local] Existing Instance plain64.
#[local] Existing Instance json_bits.
#[local] Existing Instance sorted_list.
#[local] Existing Instance iso_utc.
#[local] Existing Instance eastern_standard.
#[local] Existing Instance plain_text.
Notation F := SpecFloat.spec_float.

Definition demo_answers (reply : HttpReply) : Answers := {|
  an_keys := ∅; an_replies := fun _ => reply; an_down := fun _ => false |}.
Definition away : Answers := demo_answers (TransportError "timeout").

(** A daily row whose date has no offset. *)
Definition naive_row : HttpReply :=
  demo_response [demo_history_row "2025-10-11T00:00:00" (JInt 2) (JInt 4) (JInt 1) (JInt 3)].

Definition demo_crew (evs : list (Z * CrewEvent (F:=F))) : option (Crew F * list Output * list (list Command)) :=
  match demo_ingestor with
  | Ok i => crew_run write_bits (fun _ => "why"%string) (fun _ => Ok 33)
              {| c_ingestor := i; c_refresher := None |} ((fun e => (demo_t0 + seconds e.1, e.2)) <$> evs)
  | Raise _ => None
  end.

Definition demo_day (hourly : Answers) : list (Z * CrewEvent (F:=F)) :=
  [(0, Life Acquired); (1, Seeding away away)] ++ ((fun e => (e.1, Life e.2)) <$> drop 2 (demo_leading 0)) ++
  [(3601, Hour hourly); (3610, Life LeaseLost);
   (3611, Life (Message (demo_frame 3) (at_s 3611) (demo_readings 3611)))].

Definition ended_in (k : option (Crew F * list Output * list (list Command))) : option (Place F) :=
  (fun k => i_place (c_ingestor k.1.1)) <$> k.

(** With the provider out of reach the refresher goes on and the process returns to
    standby; one row it cannot compare ends it, when the lease is lost. *)
Lemma failed_refresh_ends_process :
  ended_in (demo_crew (demo_day away)) = Some Standby /\
  ended_in (demo_crew (demo_day (demo_answers naive_row))) = Some (Gone (Died TypeError)).
Proof. split; by vm_compute. Qed.

(** The same row before the first session ends the process at every start. *)
Lemma bad_row_ends_start :
  ended_in (demo_crew [(0, Life Acquired); (1, Seeding away (demo_answers naive_row))]) =
  Some (Gone (Died TypeError)).
Proof. by vm_compute. Qed.
End Examples.
