(* ===== verification/Readiness.v ===== *)
(** * Whether a replica says it is ready ([routers/health.py], [refresh_feed_status])

    The status goes from the ingestor's process through Redis - stored with a time to
    live and published - to the replicas of the API, of which one is followed here.
    [ready_means_quoting] says what an answer of [/readyz] is worth: some process had
    a session that was giving quotes, and not longer ago than the threshold. *)
From S2P Require Import Prelude PyFloat Civil Volatility Models Buckets Ranges Baseline Seasonality.
From S2P Require Import Calendar Hysteresis Detector Supervisor Redis Json Keys Text Pipeline Wire Provider.
From S2P Require Import Rehydrate Lease Feed Config Ingestor.

Local Open Scope Z_scope.

Definition TTL_STATUS_S : Z := 30.

Section Readiness.
Context `{SortedSet} {F : Type} `{PyFloat F} `{IsoFormat} `{JsonText F} `{NewYork} `{!PyText F}.
Context (repr : F -> string) (reason_text : Reason F -> string) (int_of : F -> result Z) (strip : string -> string).

(* ------------------------------------------------------------------ *)
(** ** The endpoint *)

(** The payload of [_publish_status]. *)
Definition status_json (s : FeedStatus) : json F := JObj [
  ("state", JStr (fs_state s)); ("detail", JStr (fs_detail s)); ("provider", JStr (fs_provider s));
  ("ts", JStr (fs_ts s)); ("since", JStr (fs_since s))]%string.

Definition no_heartbeat : json F := JObj [("state", JStr "unknown"); ("detail", JStr "no ingestor heartbeat")]%string.

(** [feed_status] before anything was read. *)
Definition unread : json F := JObj [("state", JStr "unknown"); ("ts", JNull)]%string.

(** [refresh_feed_status], given what [GET] returns. *)
Definition refresh_feed_status (raw : option string) : result (json F) :=
  match raw with
  | None | Some EmptyString => Ok no_heartbeat
  | Some raw => loads raw
  end.

Record Checks := {
  ck_redis : bool;
  ck_feed_state : json F;
  ck_feed_age_s : option F;
  ck_clients : Z;
  ck_ready : bool;
  status_code : Z;
}.

(** [readyz]: [ping] and [got] are what Redis answers, [None] a [RedisError] or an
    [OSError]; [cached] is the manager's [feed_status].  The [AttributeError] of a
    status that is no object, which nothing catches, is a [TypeError] here. *)
Definition readyz (ping : bool) (got : option (option string)) (cached : json F) (now : datetime)
    (feed_stale_after_s : F) (clients : Z) : result (Checks * json F) :=
  feed ← match got with Some raw => refresh_feed_status raw | None => Ok cached end;
  st ← jget_opt "state" feed;
  ts ← jget_opt "ts" feed;
  age ← match ts with
        | Some (JStr text) => t ← fromisoformat text; Ok (Some (f_ratio (now - t) MICRO))
        | _ => Ok None
        end;
  let st := default (JStr "unknown") st in
  let stale := match age with Some age => f_lt feed_stale_after_s age | None => false end in
  let ready := ping && is_text "healthy" (Some st) && negb stale in
  Ok ({| ck_redis := ping; ck_feed_state := if stale then JStr "stale" else st; ck_feed_age_s := age;
         ck_clients := clients; ck_ready := ready; status_code := if ready then 200 else 503 |}, feed).

(* ------------------------------------------------------------------ *)
(** ** From the process to the endpoint *)

(** [SET key body EX ttl]: the body, and when it is gone. *)
Record Stored := { st_body : string; st_until : datetime }.

(** The processes, the transactions on their way, the key, the messages on their way
    to this replica, and its manager's [feed_status]. *)
Record Plant := {
  pl_now : datetime;
  pl_procs : gmap string (Ingestor F);
  pl_flying : list FeedStatus;
  pl_key : option Stored;
  pl_channel : list FeedStatus;
  pl_cached : json F;
}.
Implicit Types (pl : Plant) (i : Ingestor F).

Definition get_status pl : option string :=
  match pl_key pl with
  | Some k => if pl_now pl <? st_until k then Some (st_body k) else None
  | None => None
  end.

(** A transaction lands in any order - a heartbeat and a change of state use two
    connections - or is lost; messages arrive in the order they were published. *)
Inductive PlantEvent :=
  | Pass (us : Z)
  | Start (id : string) (cfg : IngestorSettings F)
  | Kill (id : string)
  | Life (id : string) (ev : LifeEvent (F := F))
  | Land (n : nat)
  | Lose (n : nat)
  | Hear
  | Refresh.

Definition statuses (out : list Output) : list FeedStatus :=
  omap (fun o => match o with Status s => Some s | Transaction _ => None end) out.

Definition set_procs pl (procs : gmap string (Ingestor F)) (sent : list FeedStatus) : Plant := {|
  pl_now := pl_now pl; pl_procs := procs; pl_flying := pl_flying pl ++ sent; pl_key := pl_key pl;
  pl_channel := pl_channel pl; pl_cached := pl_cached pl |}.
Definition set_heard pl (channel : list FeedStatus) (cached : json F) : Plant := {|
  pl_now := pl_now pl; pl_procs := pl_procs pl; pl_flying := pl_flying pl; pl_key := pl_key pl;
  pl_channel := channel; pl_cached := cached |}.

(** The n-th transaction on its way is executed, [Some], or lost. *)
Definition arrive pl (n : nat) (landed : option FeedStatus) : Plant := {|
  pl_now := pl_now pl; pl_procs := pl_procs pl; pl_flying := delete n (pl_flying pl);
  pl_key := match landed with
            | Some s => Some {| st_body := dumps (status_json s); st_until := pl_now pl + seconds TTL_STATUS_S |}
            | None => pl_key pl
            end;
  pl_channel := pl_channel pl ++ match landed with Some s => [s] | None => [] end;
  pl_cached := pl_cached pl |}.

Definition plant_step pl (ev : PlantEvent) : option Plant :=
  match ev with
  | Pass us => if us <? 0 then None else Some {|
      pl_now := pl_now pl + us; pl_procs := pl_procs pl; pl_flying := pl_flying pl; pl_key := pl_key pl;
      pl_channel := pl_channel pl; pl_cached := pl_cached pl |}
  | Start id cfg =>
      match Ingestor_new strip cfg id (pl_now pl) with
      | Ok i => Some (set_procs pl (<[id := i]> (pl_procs pl)) [])
      | Raise _ => None
      end
  | Kill id => Some (set_procs pl (delete id (pl_procs pl)) [])
  | Life id ev =>
      i ← pl_procs pl !! id;
      k ← life_step repr reason_text int_of (pl_now pl) i ev;
      Some (set_procs pl (<[id := k.1]> (pl_procs pl)) (statuses k.2))
  | Land n => s ← pl_flying pl !! n; Some (arrive pl n (Some s))
  | Lose n => s ← pl_flying pl !! n; Some (arrive pl n None)
  | Hear =>
      match pl_channel pl with
      | [] => None
      | s :: channel => Some (set_heard pl channel (status_json s))
      end
  | Refresh =>
      match refresh_feed_status (get_status pl) with
      | Ok feed => Some (set_heard pl (pl_channel pl) feed)
      | Raise _ => None
      end
  end.

Fixpoint plant_run pl (evs : list PlantEvent) : option Plant :=
  match evs with
  | [] => Some pl
  | ev :: evs => pl ← plant_step pl ev; plant_run pl evs
  end.

Definition plant_new (now : datetime) : Plant := {|
  pl_now := now; pl_procs := ∅; pl_flying := []; pl_key := None; pl_channel := []; pl_cached := unread |}.

(* ------------------------------------------------------------------ *)
(** ** Where a status comes from *)

Abbreviation step := (life_step repr reason_text int_of).

(** A process sent [s] at some point of the run. *)
Definition said pl0 (evs : list PlantEvent) (s : FeedStatus) : Prop :=
  exists pre id ev post pl i k, evs = pre ++ Life id ev :: post /\ plant_run pl0 pre = Some pl /\
    pl_procs pl !! id = Some i /\ step (pl_now pl) i ev = Some k /\ Status s ∈ k.2.

(** What the key holds was sent, and stored for [TTL_STATUS_S] from then. *)
Definition stored pl0 (evs : list PlantEvent) (k : Stored) : Prop :=
  exists mid rest pl s, evs = mid ++ rest /\ plant_run pl0 mid = Some pl /\ said pl0 mid s /\
    k = {| st_body := dumps (status_json s); st_until := pl_now pl + seconds TTL_STATUS_S |}.

Definition known pl0 (evs : list PlantEvent) (j : json F) : Prop :=
  j = unread \/ j = no_heartbeat \/ exists s, j = status_json s /\ said pl0 evs s.

Record plant_ok pl0 (evs : list PlantEvent) pl : Prop := {
  po_procs : forall id i, pl_procs pl !! id = Some i -> life_ok i;
  po_flying : Forall (said pl0 evs) (pl_flying pl);
  po_key : forall k, pl_key pl = Some k -> stored pl0 evs k;
  po_channel : Forall (said pl0 evs) (pl_channel pl);
  po_cached : known pl0 evs (pl_cached pl);
}.

Lemma said_app pl0 evs evs' s : said pl0 evs s -> said pl0 (evs ++ evs') s.
Proof.
  intros (pre & id & ev & post & pl & i & k & -> & Hrest). exists pre, id, ev, (post ++ evs'), pl, i, k.
  by rewrite <- app_assoc.
Qed.

Lemma stored_app pl0 evs evs' k : stored pl0 evs k -> stored pl0 (evs ++ evs') k.
Proof.
  intros (mid & rest & pl & s & -> & Hrest). exists mid, (rest ++ evs'), pl, s. by rewrite <- app_assoc.
Qed.

Lemma known_app pl0 evs evs' j : known pl0 evs j -> known pl0 (evs ++ evs') j.
Proof. intros [->|[->|(s & -> & Hs)]]; [by left|right; by left|right; right; exists s; split; [done|by apply said_app]]. Qed.

Lemma said_all_app pl0 evs evs' l : Forall (said pl0 evs) l -> Forall (said pl0 (evs ++ evs')) l.
Proof. intros Hl. eapply Forall_impl; [exact Hl|]. intros s. apply said_app. Qed.

Lemma plant_run_app pl evs evs' : plant_run pl (evs ++ evs') = (pl' ← plant_run pl evs; plant_run pl' evs').
Proof.
  revert pl. induction evs as [|ev evs IH]; intros pl; [done|]. cbn. destruct (plant_step pl ev); [|done]. apply IH.
Qed.

Lemma plant_run_snoc pl0 evs ev pl :
  plant_run pl0 (evs ++ [ev]) = Some pl -> exists pl', plant_run pl0 evs = Some pl' /\ plant_step pl' ev = Some pl.
Proof.
  rewrite plant_run_app. destruct (plant_run pl0 evs) as [pl'|]; [|done]. cbn.
  destruct (plant_step pl' ev) as [pl''|] eqn:Hs; [|done]. intros [= <-]. by exists pl'.
Qed.

Lemma statuses_elem s out : s ∈ statuses out -> Status s ∈ out.
Proof. unfold statuses. rewrite list_elem_of_omap. intros ([s'|] & Hin & Hs); [|done]. by injection Hs as ->. Qed.

Lemma get_status_stored pl0 evs pl raw :
  plant_ok pl0 evs pl -> get_status pl = Some raw ->
  exists mid rest pl2 s, evs = mid ++ rest /\ plant_run pl0 mid = Some pl2 /\ said pl0 mid s /\
    raw = dumps (status_json s) /\ pl_now pl < pl_now pl2 + seconds TTL_STATUS_S.
Proof.
  intros Hok. unfold get_status. destruct (pl_key pl) as [k|] eqn:Hk; [|done].
  destruct (po_key _ _ _ Hok k Hk) as (mid & rest & pl2 & s & -> & Hrun & Hsaid & ->). cbn.
  destruct (Z.ltb_spec (pl_now pl) (pl_now pl2 + seconds TTL_STATUS_S)); [|done]. intros [= <-].
  by exists mid, rest, pl2, s.
Qed.

Lemma refreshed_known pl0 evs pl feed :
  plant_ok pl0 evs pl -> refresh_feed_status (get_status pl) = Ok feed -> known pl0 evs feed.
Proof.
  intros Hok. destruct (get_status pl) as [raw|] eqn:Hget; [|intros [= <-]; right; by left].
  destruct (get_status_stored _ _ _ _ Hok Hget) as (mid & rest & pl2 & s & -> & _ & Hsaid & -> & _).
  unfold refresh_feed_status. destruct (dumps (status_json s)) eqn:Hd; [intros [= <-]; right; by left|].
  rewrite <- Hd, loads_dumps. intros [= <-]. right; right. exists s. split; [done|by apply said_app].
Qed.

Lemma plant_step_ok pl0 evs pl ev pl' :
  plant_ok pl0 evs pl -> plant_run pl0 evs = Some pl -> plant_step pl ev = Some pl' -> plant_ok pl0 (evs ++ [ev]) pl'.
Proof.
  intros Hok Hrun Hstep. assert (Hok' := Hok). destruct Hok' as [Hp Hf Hk Hc Hca].
  assert (Hf' := said_all_app _ _ [ev] _ Hf). assert (Hc' := said_all_app _ _ [ev] _ Hc).
  assert (Hca' := known_app _ _ [ev] _ Hca).
  assert (Hk' : forall k, pl_key pl = Some k -> stored pl0 (evs ++ [ev]) k) by (intros k Heq; by apply stored_app, Hk).
  destruct ev as [us|id cfg|id|id ev|n|n| |]; cbn in Hstep.
  - destruct (us <? 0); [done|]. injection Hstep as <-. by split.
  - destruct (Ingestor_new _ _ _ _) as [i|] eqn:Hi; [|done]. injection Hstep as <-.
    split; cbn; [|by rewrite app_nil_r|done..]. intros id' i'.
    destruct (decide (id = id')) as [<-|]; [|rewrite lookup_insert_ne by done; apply Hp].
    rewrite lookup_insert_eq. intros [= <-]. by apply Ingestor_new_ok in Hi as [? _].
  - injection Hstep as <-. split; cbn; [|by rewrite app_nil_r|done..]. intros id' i' Hi.
    apply lookup_delete_Some in Hi as [_ Hi]. by apply (Hp id').
  - destruct (pl_procs pl !! id) as [i|] eqn:Hi; [|done]. cbn in Hstep.
    destruct (step (pl_now pl) i ev) as [k|] eqn:Hk1; [|done]. cbn in Hstep. injection Hstep as <-. split; cbn; [| |done..].
    + intros id' i'. destruct (decide (id = id')) as [<-|]; [|rewrite lookup_insert_ne by done; apply Hp].
      rewrite lookup_insert_eq. intros [= <-].
      exact (proj1 (life_step_faithful _ _ _ _ _ _ _ (Hp id i Hi) Hk1)).
    + apply Forall_app. split; [done|]. apply Forall_forall. intros s Hs%statuses_elem.
      by exists evs, id, ev, [], pl, i, k.
  - destruct (pl_flying pl !! n) as [s|] eqn:Hn; [|done]. cbn in Hstep. injection Hstep as <-.
    assert (Hs : said pl0 evs s) by exact (proj1 (Forall_lookup _ _) Hf n s Hn).
    split; cbn; [done|by apply Forall_delete| | |done].
    + intros k [= <-]. by exists evs, [Land n], pl, s.
    + apply Forall_app. split; [done|]. repeat constructor. by apply said_app.
  - destruct (pl_flying pl !! n) as [s|] eqn:Hn; [|done]. cbn in Hstep. injection Hstep as <-.
    split; cbn; [done|by apply Forall_delete|done|by rewrite app_nil_r|done].
  - destruct (pl_channel pl) as [|s channel] eqn:Hch; [done|]. injection Hstep as <-.
    apply Forall_cons in Hc' as [Hs Hc']. split; cbn; try done. right; right. by exists s.
  - destruct (refresh_feed_status (get_status pl)) as [feed|] eqn:Hr; [|done]. injection Hstep as <-.
    split; cbn; try done. by apply known_app, (refreshed_known _ _ pl).
Qed.

Lemma plant_run_ok start evs pl : plant_run (plant_new start) evs = Some pl -> plant_ok (plant_new start) evs pl.
Proof.
  revert pl. induction evs as [|ev evs IH] using rev_ind; intros pl.
  - cbn. intros [= <-]. split; cbn; try constructor; done.
  - intros (pl' & Hrun & Hstep)%plant_run_snoc. apply (plant_step_ok _ _ pl'); [by apply IH|done|done].
Qed.

Lemma plant_run_clock evs pl pl' : plant_run pl evs = Some pl' -> pl_now pl <= pl_now pl'.
Proof.
  revert pl. induction evs as [|ev evs IH]; intros pl; cbn; [by intros [= <-]|].
  destruct (plant_step pl ev) as [pl1|] eqn:Hs; [|done]. cbn. intros Hrun%IH. etransitivity; [|exact Hrun].
  destruct ev as [us|id cfg|id|id ev|n|n| |]; cbn in Hs.
  - destruct (Z.ltb_spec us 0); [done|]. injection Hs as <-. cbn. lia.
  - destruct (Ingestor_new _ _ _ _); [|done]. by injection Hs as <-.
  - by injection Hs as <-.
  - destruct (pl_procs pl !! id); [|done]. cbn in Hs. destruct (step _ _ _); [|done]. by injection Hs as <-.
  - destruct (pl_flying pl !! n); [|done]. by injection Hs as <-.
  - destruct (pl_flying pl !! n); [|done]. by injection Hs as <-.
  - destruct (pl_channel pl); [done|]. by injection Hs as <-.
  - destruct (refresh_feed_status _); [|done]. by injection Hs as <-.
Qed.

(* ------------------------------------------------------------------ *)
(** ** What an answer is worth *)

(** The process reads a quote, or its heart beats while it leads and a session is
    giving quotes - or while it has the lease back and no session yet. *)
Definition vouches (wall : datetime) i (ev : LifeEvent (F := F)) : Prop :=
  (exists asked started q w raw petted r, i_place i = Streaming asked started q w /\
     ev = Message raw petted r /\ gives_quote i raw wall) \/
  (ev = Beat /\ is_leader (i_lease i) = true /\ (quoting i = true \/ between i = true)).

Lemma said_healthy start evs s :
  said (plant_new start) evs s -> fs_state s = "healthy"%string ->
  exists pre id ev post pl i, evs = pre ++ Life id ev :: post /\ plant_run (plant_new start) pre = Some pl /\
    pl_procs pl !! id = Some i /\ vouches (pl_now pl) i ev /\ fs_ts s = isoformat (pl_now pl).
Proof.
  intros (pre & id & ev & post & pl & i & k & -> & Hrun & Hi & Hk & Hs) Hh.
  pose proof (po_procs _ _ _ (plant_run_ok _ _ _ Hrun) id i Hi) as Hok.
  destruct (life_step_sent _ _ _ _ _ _ _ _ Hk Hs) as [Hts Hwhy]. exists pre, id, ev, post, pl, i.
  split_and!; try done. destruct (Hwhy Hh) as [(-> & Hl & Hst)|Hquote]; [right|by left]. split_and!; try done.
  destruct Hok as [Hf Hstate _]. unfold in_block, quoting, between in *. rewrite Hst in Hstate.
  destruct (i_place i) as [| | | |a b [] w| |]; auto; try done; destruct Hf; congruence.
Qed.

(** An answer that the replica is ready rests on a status it read or was told, and
    one that says healthy is not older than the threshold. *)
Lemma readyz_ready ping got cached now stale_after clients c feed :
  readyz ping got cached now stale_after clients = Ok (c, feed) -> ck_ready c = true ->
  match got with Some raw => refresh_feed_status raw = Ok feed | None => feed = cached end /\
  ping = true /\ jget_opt "state" feed = Ok (Some (JStr "healthy")) /\
  forall text t, jget_opt "ts" feed = Ok (Some (JStr text)) -> fromisoformat text = Ok t ->
    f_lt stale_after (f_ratio (now - t) MICRO) = false.
Proof.
  unfold readyz. intros (feed' & Hgot & (st & Hst & (ts & Hts & (age & Hage & [= <- <-])%bind_ok)%bind_ok)%bind_ok)%bind_ok.
  cbn. intros [[Hping Hh]%andb_true_iff Hstale]%andb_true_iff. split_and!; [|done| |].
  - destruct got; [done|]. by injection Hgot as ->.
  - rewrite Hst. do 2 f_equal. destruct st as [[| | | |text| |]|]; try done. cbn in Hh. by apply String.eqb_eq in Hh as ->.
  - intros text t Htext Ht. rewrite Htext in Hts. injection Hts as <-. rewrite Ht in Hage. injection Hage as <-.
    by apply negb_true_iff in Hstale.
Qed.

(** C16. Ready means quoting.  However processes start, die, lead, stream and fall
    silent, in whatever order their transactions reach Redis or are lost and the
    messages reach this replica, with one clock: when the replica answers that it is
    ready, Redis answered the ping, and at a moment no longer ago than the threshold
    some process read a quote, or was leading with a session that was giving quotes -
    or had the lease back without a session yet.  If the status was read from Redis,
    it was stored there less than its time to live ago, by a transaction sent before. *)
Theorem ready_means_quoting start evs pl ping got stale_after clients c feed :
  DT_MIN <= start -> plant_run (plant_new start) evs = Some pl -> pl_now pl <= DT_MAX ->
  got = None \/ got = Some (get_status pl) ->
  readyz ping got (pl_cached pl) (pl_now pl) stale_after clients = Ok (c, feed) -> ck_ready c = true ->
  ping = true /\
  exists pre id ev post pl1 i,
    evs = pre ++ Life id ev :: post /\ plant_run (plant_new start) pre = Some pl1 /\
    pl_procs pl1 !! id = Some i /\ vouches (pl_now pl1) i ev /\
    f_lt stale_after (f_ratio (pl_now pl - pl_now pl1) MICRO) = false /\
    (got = Some (get_status pl) -> exists stored_at rest pl2,
       post = stored_at ++ rest /\ plant_run (plant_new start) (pre ++ Life id ev :: stored_at) = Some pl2 /\
       pl_now pl < pl_now pl2 + seconds TTL_STATUS_S).
Proof.
  intros Hstart Hrun Hend Hgot Hready Hc.
  destruct (readyz_ready _ _ _ _ _ _ _ _ Hready Hc) as (Hfeed & Hping & Hstate & Hage). split; [done|].
  pose proof (plant_run_ok _ _ _ Hrun) as Hok.
  (* the status, and what is known of the run up to it *)
  assert (Hfrom : forall s rest sent, feed = status_json s -> evs = sent ++ rest -> said (plant_new start) sent s ->
    exists pre id ev mid pl1 i, sent = pre ++ Life id ev :: mid /\ plant_run (plant_new start) pre = Some pl1 /\
      pl_procs pl1 !! id = Some i /\ vouches (pl_now pl1) i ev /\
      f_lt stale_after (f_ratio (pl_now pl - pl_now pl1) MICRO) = false).
  { intros s rest sent -> -> Hsaid. injection Hstate as Hh.
    destruct (said_healthy _ _ _ Hsaid Hh) as (pre & id & ev & mid & pl1 & i & -> & Hrun1 & Hi & Hv & Hts).
    exists pre, id, ev, mid, pl1, i. split_and!; try done.
    apply (Hage (fs_ts s)); [done|]. rewrite Hts. apply fromisoformat_isoformat.
    rewrite <- app_assoc, plant_run_app, Hrun1 in Hrun. apply plant_run_clock in Hrun1, Hrun. cbn in *.
    unfold dt_in_range. lia. }
  destruct Hgot as [-> | ->].
  - (* the manager's cache *)
    rewrite Hfeed in *. destruct (po_cached _ _ _ Hok) as [He|[He|(s & He & Hsaid)]]; [by rewrite He in Hstate..|].
    destruct (Hfrom s [] evs) as (pre & id & ev & mid & pl1 & i & Heq & Hrest); [done|by rewrite app_nil_r|done|].
    exists pre, id, ev, mid, pl1, i. split_and!; try apply Hrest; done.
  - (* the key *)
    destruct (get_status pl) as [raw|] eqn:Hget; [|injection Hfeed as <-; done].
    destruct (get_status_stored _ _ _ _ Hok Hget) as (mid & rest & pl2 & s & -> & Hrun2 & Hsaid & -> & Httl).
    unfold refresh_feed_status in Hfeed. destruct (dumps (status_json s)) eqn:Hd; [injection Hfeed as <-; done|].
    rewrite <- Hd, loads_dumps in Hfeed. injection Hfeed as <-.
    destruct (Hfrom s rest mid) as (pre & id & ev & m & pl1 & i & -> & Hrest); [done..|].
    exists pre, id, ev, (m ++ rest), pl1, i. rewrite <- app_assoc. split_and!; try apply Hrest; try done.
    intros _. by exists m, rest, pl2.
Qed.
End Readiness.

(* ------------------------------------------------------------------ *)
(** ** A replica's answers *)

Section Examples.
#[local] Existing Instance plain64.
#[local] Existing Instance json_bits.
#[local] Existing Instance sorted_list.
#[local] Existing Instance iso_utc.
#[local] Existing Instance eastern_standard.
#[local] Existing Instance plain_text.

Definition demo_start : datetime := demo_t0.
Definition demo_plant (evs : list (PlantEvent (F := SpecFloat.spec_float))) : option (Plant (F := SpecFloat.spec_float)) :=
  plant_run write_bits (fun _ => "why"%string) (fun _ => Ok 33) (fun s => s) (plant_new demo_start) evs.
Definition demo_act (ev : LifeEvent (F := SpecFloat.spec_float)) : PlantEvent (F := SpecFloat.spec_float) := Life "a" ev.

(** A leader up to its first quote, whose transactions arrive. *)
Definition demo_quoting : list (PlantEvent (F := SpecFloat.spec_float)) :=
  Start "a" demo_settings :: (demo_act <$> (demo_leading 0).*2) ++ [Land 0; Land 0; Land 0; Pass 5_000_000].

(** It loses the lease, gives up at the next quote and has it back ten minutes later;
    its heart beats while it restores what was written meanwhile. *)
Definition demo_resuming : list (PlantEvent (F := SpecFloat.spec_float)) :=
  demo_quoting ++ (demo_act <$> [LeaseLost; Message (demo_frame 3) (at_s 21) (demo_readings 21)]) ++
  [Pass 600_000_000] ++ (demo_act <$> [Acquired; Beat]) ++ [Land 0; Pass 1_000_000].

Definition demo_answer (pl : option (Plant (F := SpecFloat.spec_float))) : option (bool * Z) :=
  match pl with
  | Some pl =>
      match readyz true (Some (get_status pl)) (pl_cached pl) (pl_now pl) (f_of_Z 60) 0 with
      | Ok (c, _) => Some (ck_ready c, status_code c)
      | Raise _ => None
      end
  | None => None
  end.

(** A replica takes traffic though no session has been open for ten minutes: what a
    leader said before it lost the lease is beaten again, with a new time, while it
    restores its state. *)
Lemma ready_without_a_feed :
  demo_answer (demo_plant demo_resuming) = Some (true, 200) /\
  match demo_plant demo_resuming with
  | Some pl => (fun i => (i_place i, i_provider i)) <$> pl_procs pl !! "a"%string = Some (Rehydrating, None)
  | None => False
  end.
Proof. by vm_compute. Qed.

Lemma ready_means_quoting_witness :
  match demo_plant demo_quoting with
  | Some pl => exists pre id ev post, demo_quoting = pre ++ Life id ev :: post /\ demo_answer (Some pl) = Some (true, 200)
  | None => False
  end.
Proof.
  assert (Hans : demo_answer (demo_plant demo_quoting) = Some (true, 200)) by (vm_compute; reflexivity).
  assert (Hnow : match demo_plant demo_quoting with Some pl => pl_now pl = demo_start + 5_000_000 | None => False end)
    by (vm_compute; reflexivity).
  destruct (demo_plant demo_quoting) as [pl|] eqn:E; [|done]. assert (Hans' := Hans). unfold demo_answer in Hans'.
  destruct (readyz _ _ _ _ _ _) as [[c feed]|] eqn:Hr; [|done]. injection Hans' as Hc _.
  destruct (ready_means_quoting write_bits (fun _ => "why"%string) (fun _ => Ok 33) (fun s => s) demo_start demo_quoting pl true (Some (get_status pl)) (f_of_Z 60) 0 c feed)
    as (_ & pre & id & ev & post & _ & _ & Heq & _); [by vm_compute|exact E|rewrite Hnow; by vm_compute|by right|exact Hr|exact Hc|].
  exists pre, id, ev, post. split; [exact Heq|exact Hans].
Defined.
End Examples.
