(* ===== verification/RecoveryLoop.v ===== *)
(** * Who runs a recovery ([_recover_history] of main.py, [_cli] of recovery.py)

    A leader's loop beside the feed and an operator's command share the tables; a run of
    either comes to its end or is cut short after some of its calls.
    [recovery_keeps_clear] says neither ever writes a minute the worker may still
    write from the tick stream. *)
From S2P Require Import Prelude PyFloat Models Database Json Redis Quota RecoveryPlan RecoveryStore RecoveryRun RecoverySteps.
From S2P Require Import Feed Config Civil.

Local Open Scope Z_scope.

(** How an attempt goes: nothing is reached; the run comes to its end; or one of its
    calls to PostgreSQL or Redis raises after [calls] of them were made, and its
    object then holds [held]: what it had learnt of the provider by then, left open
    here. *)
Inductive Outcome F := Unreached | Completes | FailsAfter (calls : nat) (held : Own F).
Arguments Unreached {F}.
Arguments Completes {F}.
Arguments FailsAfter {F} calls held.

(** What one attempt meets: when it is made, the id a run would have, how it goes, whether migration 004 is applied and the lock is
    free, and the provider, the quota and the stop flag as in a run. *)
Record Attempt F := {
  at_now : datetime;
  at_run_id : string;
  at_outcome : Outcome F;
  at_ready : bool;
  at_lock_free : bool;
  at_reply : nat -> Request -> Reply F;
  at_quota : nat -> bool;
  at_stop : nat -> bool;
}.
Arguments at_now {F} _.
Arguments at_run_id {F} _.
Arguments at_outcome {F} _.
Arguments at_ready {F} _.
Arguments at_lock_free {F} _.
Arguments at_reply {F} _.
Arguments at_quota {F} _.
Arguments at_stop {F} _.

(** The arguments of the command. *)
Record CliArgs := {
  a_since : string;
  a_until : option string;
  a_symbols : option string;
  a_apply : bool;
  a_max_requests : Z;
  a_include_settled : bool;
}.

Section Loop.
Context {F : Type} `{PyFloat F} `{SortedSet} `{!PyText F}.
Context (dumps : json F -> string) (is_open : datetime -> bool).
Context (stale_row : Store F -> string -> datetime * datetime -> option (datetime * datetime)).
Context (strip : string -> string) (hours_of : F -> timedelta).
(** The process's settings, its instance and the host's name. *)
Context (cfg : IngestorSettings F) (instance host : string).
Implicit Types (st : Recovery F) (t : Attempt F).

Definition Recovery_new (s : Store F) : Recovery F := {|
  store := s; blocked_until := None; symbol_blocked_until := ∅; calls := [] |}.

(** The tables when a program ends after so many of its calls. *)
Fixpoint cut {A} (n : nat) (p : prog F A) (s : Store F) : Store F :=
  match n, p with
  | S n, Do op k => let '(s, r) := perform dumps stale_row op s in cut n (k r) s
  | _, _ => s
  end.

(** [run_once] that ends after so many of the calls of [locked]. *)
Definition run_cut (symbols : list string) (rcfg : RecoveryConfig) (name provider_name : string)
    (reply : nat -> Request -> Reply F) (quota stop : nat -> bool) (n : nat)
    st (trigger run_id : string) (apply : bool) (window : option Window) (now : datetime)
    (ready lock_free : bool) : Store F :=
  if match blocked_until st with Some t => now <? t | None => false end then store st
  else
    match run_window_of rcfg window now with
    | None => store st
    | Some w =>
        if apply && negb ready then store st
        else if negb lock_free then store st
        else cut n (locked_steps symbols rcfg is_open name provider_name reply quota stop (own st)
          trigger run_id apply ready w now) (store st)
    end.

(* ------------------------------------------------------------------ *)
(** ** The loop beside the feed *)

(** The leader's [HistoryRecovery], with the tables, and the trigger its next run is
    recorded under. *)
Record Recoverer := { rc_recovery : Recovery F; rc_trigger : string }.
Implicit Types (rc : Recoverer).

(** A leadership starts the task anew. *)
Definition lead_anew rc : Recoverer :=
  {| rc_recovery := Recovery_new (store (rc_recovery rc)); rc_trigger := "leadership" |}.

Definition left_with (s : Store F) (o : Own F) : Recovery F := {|
  store := s; blocked_until := own_blocked o; symbol_blocked_until := own_symbols o; calls := own_calls o |}.

(** One pass of the loop.  An error postpones the next run, with what was written by
    then written; the trigger changes only after a run that came to its end. *)
Definition recover_turn rc t : Recoverer :=
  if bool_decide (recovery_mode cfg = Off) then rc
  else
    match at_outcome t with
    | Unreached => rc
    | Completes =>
        let '(st, _) := run_once dumps (symbol_list strip upper cfg) (recovery_config hours_of cfg) is_open
          instance (Config.provider cfg) (at_reply t) (at_quota t) (at_stop t) stale_row
          (rc_recovery rc) (rc_trigger rc) (at_run_id t) (bool_decide (recovery_mode cfg = Apply)) None
          (at_now t) (at_ready t) (at_lock_free t) in
        {| rc_recovery := st; rc_trigger := "periodic" |}
    | FailsAfter n o =>
        {| rc_recovery := left_with
             (run_cut (symbol_list strip upper cfg) (recovery_config hours_of cfg)
                instance (Config.provider cfg) (at_reply t) (at_quota t) (at_stop t) n
                (rc_recovery rc) (rc_trigger rc) (at_run_id t) (bool_decide (recovery_mode cfg = Apply)) None
                (at_now t) (at_ready t) (at_lock_free t)) o;
           rc_trigger := rc_trigger rc |}
    end.

(* ------------------------------------------------------------------ *)
(** ** The command *)

Definition parse_ts (value : string) : result datetime := fst <$> iso_text (replace "Z" "+00:00" value).

Definition cli_horizon : timedelta := seconds (stream_retention_s cfg + 120).

(** The minutes to examine; [None] if there are none. *)
Definition cli_window (a : CliArgs) (now : datetime) : result (option Window) :=
  match recovery_window now (days 1) cli_horizon with
  | None => Raise AssertionError
  | Some latest =>
      since ← parse_ts (a_since a);
      last ← match a_until a with
             | None | Some EmptyString => Ok (w_end latest)
             | Some until => t ← parse_ts until; Ok (Z.min (floor_minute t) (w_end latest))
             end;
      let start := floor_minute since in
      Ok (if last <? start then None else Some {| w_start := start; w_end := last |})
  end.

Definition cli_symbols (a : CliArgs) : list string :=
  match a_symbols a with
  | None | Some EmptyString => symbol_list strip upper cfg
  | Some text => split_comma text
  end.

Definition cli_config (a : CliArgs) (w : Window) : RecoveryConfig := {|
  lookback := w_end w - w_start w + MINUTE; horizon := cli_horizon;
  max_requests := a_max_requests a; days_per_request := recovery_days_per_request cfg;
  include_settled := a_include_settled a |}.

(** [_cli]: the tables afterwards, and the exit code unless it raises. *)
Definition cli (a : CliArgs) t (s : Store F) : Store F * result Z :=
  if String.eqb (database_url cfg) "" then (s, Ok 2)
  else
    match cli_window a (at_now t) with
    | Raise e => (s, Raise e)
    | Ok None => (s, Ok 2)
    | Ok (Some w) =>
        match at_outcome t with
        | Unreached => (s, Raise DatabaseError)
        | Completes =>
            let '(st, rep) := run_once dumps (cli_symbols a) (cli_config a w) is_open
              ("cli:" +:+ host) (Config.provider cfg) (at_reply t) (at_quota t) (fun _ => false) stale_row
              (Recovery_new s) "manual" (at_run_id t) (a_apply a) (Some w) (at_now t) (at_ready t) (at_lock_free t) in
            (store st, Ok (if bool_decide (rep_status rep ∈ ["dry_run"; "idle"; "succeeded"]%string) then 0 else 1))
        | FailsAfter n _ =>
            (run_cut (cli_symbols a) (cli_config a w)
               ("cli:" +:+ host) (Config.provider cfg) (at_reply t) (at_quota t) (fun _ => false) n
               (Recovery_new s) "manual" (at_run_id t) (a_apply a) (Some w) (at_now t) (at_ready t) (at_lock_free t),
             Raise DatabaseError)
        end
    end.

(* ------------------------------------------------------------------ *)
(** ** Both, over the same tables *)

Inductive RecoveryEvent := Leadership | Turn t | Command (a : CliArgs) t.

Definition set_tables rc (s : Store F) : Recoverer :=
  {| rc_recovery := set_store (rc_recovery rc) s; rc_trigger := rc_trigger rc |}.

Definition recovery_step rc (ev : RecoveryEvent) : Recoverer :=
  match ev with
  | Leadership => lead_anew rc
  | Turn t => recover_turn rc t
  | Command a t => set_tables rc (cli a t (store (rc_recovery rc))).1
  end.

Definition recovery_steps rc (evs : list RecoveryEvent) : Recoverer := fold_left recovery_step evs rc.

Definition tables rc : gmap (string * Z) (Database.Row F) := bars (store (rc_recovery rc)).

(* ------------------------------------------------------------------ *)
(** ** What they may write *)

Definition event_time (ev : RecoveryEvent) : option datetime :=
  match ev with Leadership => None | Turn t | Command _ t => Some (at_now t) end.

(** Whether the event is allowed to write, and the pairs it looks at. *)
Definition applies (ev : RecoveryEvent) : bool :=
  match ev with
  | Leadership => false
  | Turn _ => bool_decide (recovery_mode cfg = Apply)
  | Command a _ => a_apply a
  end.
Definition pairs_of (ev : RecoveryEvent) : list string :=
  match ev with Command a _ => cli_symbols a | _ => symbol_list strip upper cfg end.

(** A minute that was over, and its ticks out of the stream, before the event. *)
Definition settled_minute (ev : RecoveryEvent) (m : datetime) : Prop :=
  exists now, event_time ev = Some now /\ m + MINUTE <= now - seconds (stream_retention_s cfg + 120).

Definition event_adds (ev : RecoveryEvent) (before after : gmap (string * Z) (Database.Row F)) : Prop :=
  before ⊆ after /\
  forall symbol m row, before !! (symbol, m) = None -> after !! (symbol, m) = Some row ->
    applies ev = true /\ settled_minute ev m /\ symbol ∈ pairs_of ev /\ is_open m = true.

Lemma event_adds_same (ev : RecoveryEvent) (b : gmap (string * Z) (Database.Row F)) : event_adds ev b b.
Proof. split; [done|]. intros; congruence. Qed.

Lemma floor_minute_le (u : Z) : floor_minute u <= u.
Proof. unfold floor_minute, MINUTE. zdivmod. Qed.

Lemma recovery_window_settled now lookback horizon w :
  recovery_window now lookback horizon = Some w -> w_end w + MINUTE <= now - horizon.
Proof.
  unfold recovery_window. destruct (_ <=? _); [|done]. intros [= <-]. cbn.
  pose proof (floor_minute_le (now - horizon)). lia.
Qed.

(** Each call only adds rows, so what a run has written when it is cut short is part of
    what it writes when it is not. *)
Lemma perform_bars {R} (op : Op F R) s : bars s ⊆ bars (perform dumps stale_row op s).1.
Proof.
  destruct op; cbn; try done.
  - destruct (insert s symbol bs run_id) as [s' l] eqn:E. by apply insert_spec in E as ((? & _) & _).
  - destruct (cache_add dumps s symbol bs run_id) as [s' n] eqn:E. apply cache_add_tables in E as (Hb & _). cbn. by rewrite Hb.
  - unfold finish_run. by case_match.
Qed.

Lemma alone_bars {A} (p : prog F A) s : bars s ⊆ bars (alone dumps stale_row p s).1.
Proof.
  revert s. induction p as [a| |R op k IH]; intros s; [done..|]. cbn.
  pose proof (perform_bars op s) as Hp. destruct (perform _ _ op s) as [s1 r]. by etransitivity.
Qed.

Lemma cut_bars {A} n (p : prog F A) s : bars s ⊆ bars (cut n p s) /\ bars (cut n p s) ⊆ bars (alone dumps stale_row p s).1.
Proof.
  revert n s. induction p as [a| |R op k IH]; intros n s; destruct n as [|n]; try done.
  - split; [done|apply alone_bars].
  - cbn. pose proof (perform_bars op s) as Hp. destruct (perform _ _ op s) as [s1 r]. destruct (IH r n s1) as [H1 H2].
    split; [by etransitivity|done].
Qed.

Lemma run_cut_bars symbols rcfg name pn reply quota stop n st trigger run_id apply window now ready lock_free st' rep :
  run_once dumps symbols rcfg is_open name pn reply quota stop stale_row
    st trigger run_id apply window now ready lock_free = (st', rep) ->
  let s := run_cut symbols rcfg name pn reply quota stop n st trigger run_id apply window now ready lock_free in
  bars (store st) ⊆ bars s /\ bars s ⊆ bars (store st').
Proof.
  unfold run_once, run_cut. fold (run_window_of rcfg window now).
  destruct (match blocked_until st with Some _ => _ | None => _ end); [by intros [= <- <-]|].
  destruct (run_window_of rcfg window now) as [w|]; [|by intros [= <- <-]].
  destruct (apply && negb ready); [by intros [= <- <-]|]. destruct (negb lock_free); [by intros [= <- <-]|].
  intros Hl. pose proof (locked_alone dumps stale_row symbols rcfg is_open name pn reply quota stop
    st trigger run_id apply ready w now) as Ha. rewrite Hl in Ha.
  pose proof (cut_bars n (locked_steps symbols rcfg is_open name pn reply quota stop (own st) trigger run_id
    apply ready w now) (store st)) as Hc. by rewrite Ha in Hc.
Qed.

(** A run, cut short or not, adds what it may. *)
Lemma run_adds (ev : RecoveryEvent) symbols rcfg name pn reply quota stop n st trigger run_id apply window now ready lock_free st' rep :
  1 <= days_per_request rcfg -> NoDup symbols ->
  (forall w, window = Some w -> w_start w mod MINUTE = 0) ->
  (forall w, run_window_of rcfg window now = Some w -> w_end w + MINUTE <= now - seconds (stream_retention_s cfg + 120)) ->
  event_time ev = Some now -> applies ev = apply -> pairs_of ev = symbols ->
  run_once dumps symbols rcfg is_open name pn reply quota stop stale_row
    st trigger run_id apply window now ready lock_free = (st', rep) ->
  event_adds ev (bars (store st)) (bars (store st')) /\
  event_adds ev (bars (store st))
    (bars (run_cut symbols rcfg name pn reply quota stop n st trigger run_id apply window now ready lock_free)).
Proof.
  intros Hd Hnd Hgrid Hend Ht Hap Hpairs Hrun.
  pose proof (run_cut_bars _ _ _ _ _ _ _ n _ _ _ _ _ _ _ _ _ _ Hrun) as [Hc1 Hc2].
  apply run_once_adds in Hrun as (Hsub & Hdry & Hnew); [|done..].
  assert (Hall : event_adds ev (bars (store st)) (bars (store st'))).
  { split; [done|]. intros symbol m row Hk Hrow. destruct (Hnew _ _ _ Hk Hrow) as (Hs & Ho & (w & Hw & Hm) & _).
    split_and!.
    - rewrite Hap. destruct apply; [done|]. destruct Hdry as [Heq _]; [done|]. congruence.
    - exists now. split; [done|]. specialize (Hend w Hw). lia.
    - by rewrite Hpairs.
    - done. }
  split; [done|]. split; [done|]. intros symbol m row Hk Hrow. destruct Hall as [_ Hall].
  apply (Hall symbol m row Hk). by eapply lookup_weaken.
Qed.

Lemma recover_turn_adds rc t :
  accepted strip cfg = true -> NoDup (symbol_list strip upper cfg) ->
  event_adds (Turn t) (tables rc) (tables (recover_turn rc t)).
Proof.
  intros Hacc Hnd. unfold recover_turn, tables. case_bool_decide; [apply event_adds_same|].
  destruct (run_once dumps (symbol_list strip upper cfg) (recovery_config hours_of cfg) is_open
    instance (Config.provider cfg) (at_reply t) (at_quota t) (at_stop t) stale_row
    (rc_recovery rc) (rc_trigger rc) (at_run_id t) (bool_decide (recovery_mode cfg = Apply)) None
    (at_now t) (at_ready t) (at_lock_free t)) as [st' rep] eqn:Hrun.
  assert (Hset : forall w, run_window_of (recovery_config hours_of cfg) None (at_now t) = Some w ->
    w_end w + MINUTE <= at_now t - seconds (stream_retention_s cfg + 120))
    by (intros w Hw; by apply recovery_window_settled in Hw).
  assert (Hgrid : forall w : Window, None = Some w -> w_start w mod MINUTE = 0) by done.
  pose proof (fun n => run_adds (Turn t) _ _ _ _ _ _ _ n _ _ _ _ _ _ _ _ _ _
    (proj1 (proj2 (accepted_recovery strip hours_of cfg Hacc))) Hnd Hgrid Hset eq_refl eq_refl eq_refl Hrun) as Hadds.
  destruct (at_outcome t) as [| |n o]; [apply event_adds_same|apply (Hadds 0%nat)|apply (Hadds n)].
Qed.

Lemma cli_window_settled a now w :
  cli_window a now = Ok (Some w) -> w_end w + MINUTE <= now - cli_horizon /\ w_start w mod MINUTE = 0.
Proof.
  unfold cli_window. destruct (recovery_window _ _ _) as [latest|] eqn:Hl; [|done].
  apply recovery_window_settled in Hl. intros (since & _ & (last & Hlast & Hw)%bind_ok)%bind_ok.
  destruct (last <? floor_minute since); [done|]. injection Hw as <-. cbn. split; [|unfold floor_minute, MINUTE; zdivmod].
  assert (last <= w_end latest); [|lia].
  destruct (a_until a) as [[|c until]|]; [injection Hlast as <-; lia| |injection Hlast as <-; lia].
  apply bind_ok in Hlast as (u & _ & [= <-]). lia.
Qed.

Lemma command_adds a t s :
  accepted strip cfg = true -> NoDup (cli_symbols a) -> event_adds (Command a t) (bars s) (bars (cli a t s).1).
Proof.
  intros Hacc Hnd. unfold cli. destruct (String.eqb _ _); [apply event_adds_same|].
  destruct (cli_window a (at_now t)) as [[w|]|] eqn:Hw; [|apply event_adds_same..].
  apply cli_window_settled in Hw as [Hend Hgrid].
  destruct (run_once dumps (cli_symbols a) (cli_config a w) is_open
    ("cli:" +:+ host) (Config.provider cfg) (at_reply t) (at_quota t) (fun _ => false) stale_row
    (Recovery_new s) "manual" (at_run_id t) (a_apply a) (Some w) (at_now t) (at_ready t) (at_lock_free t))
    as [st' rep] eqn:Hrun.
  assert (Hdays : 1 <= days_per_request (cli_config a w))
    by exact (proj1 (proj2 (accepted_recovery strip hours_of cfg Hacc))).
  assert (Hgrid' : forall w', Some w = Some w' -> w_start w' mod MINUTE = 0) by (by intros ? [= <-]).
  assert (Hset : forall w', run_window_of (cli_config a w) (Some w) (at_now t) = Some w' ->
    w_end w' + MINUTE <= at_now t - seconds (stream_retention_s cfg + 120)) by (by intros ? [= <-]).
  pose proof (fun n => run_adds (Command a t) _ _ _ _ _ _ _ n _ _ _ _ _ _ _ _ _ _
    Hdays Hnd Hgrid' Hset
    eq_refl eq_refl eq_refl Hrun) as Hadds.
  destruct (at_outcome t) as [| |n o]; [apply event_adds_same|apply (Hadds 0%nat)|apply (Hadds n)].
Qed.

(** C14. Recovery keeps clear of the live path.  With settings that are accepted and
    pairs named once, whatever leaderships, passes of the loop and commands follow
    one another on the same tables, wherever an error cuts them short: no stored row
    is ever changed, and each row that is new was written by a run that was told to
    apply, for a pair it was to look at and an open minute that had ended, at the time
    of that run, the retention of the tick stream and two minutes before - so the
    worker had no tick of it left. *)
Theorem recovery_keeps_clear rc evs :
  accepted strip cfg = true -> NoDup (symbol_list strip upper cfg) ->
  (forall a t, Command a t ∈ evs -> NoDup (cli_symbols a)) ->
  tables rc ⊆ tables (recovery_steps rc evs) /\
  forall symbol m row, tables rc !! (symbol, m) = None -> tables (recovery_steps rc evs) !! (symbol, m) = Some row ->
    exists pre ev post, evs = pre ++ ev :: post /\ applies ev = true /\ settled_minute ev m /\
      symbol ∈ pairs_of ev /\ is_open m = true.
Proof.
  intros Hacc Hnd. revert rc. induction evs as [|ev evs IH]; intros rc Hcmd; [split; [done|]; cbn; intros; congruence|].
  assert (Hstep : event_adds ev (tables rc) (tables (recovery_step rc ev))).
  { destruct ev as [|t|a t]; cbn [recovery_step]; [apply event_adds_same|by apply recover_turn_adds|].
    apply command_adds; [done|by apply (Hcmd a t), list_elem_of_here]. }
  destruct (IH (recovery_step rc ev)) as [Hsub Hnew]; [intros a t Hin; apply (Hcmd a t); by apply list_elem_of_further|].
  destruct Hstep as [Hsub1 Hnew1]. split; [by etransitivity|]. intros symbol m row Hk Hrow.
  destruct (tables (recovery_step rc ev) !! (symbol, m)) as [row1|] eqn:H1.
  - exists [], ev, evs. split; [done|]. exact (Hnew1 symbol m row1 Hk H1).
  - destruct (Hnew symbol m row H1 Hrow) as (pre & ev' & post & -> & Hrest). by exists (ev :: pre), ev', post.
Qed.

(** The command takes its pairs as they are written, where the settings are brought to
    upper case: of what the adapter returns, whose bars name the pair in upper case,
    a request for another spelling takes none, and its minutes go down as ones the
    provider has nothing for. *)
Lemma spelling_finds_nothing r (bs : list (Bar F)) :
  upper (rq_symbol r) <> rq_symbol r -> Forall (fun b => bar_symbol b = upper (rq_symbol r)) bs ->
  received_bars r bs = ∅.
Proof.
  intros Hne Hall. apply map_empty. intros m. destruct (received_bars r bs !! m) as [b|] eqn:Hb; [|done].
  apply received_bars_spec in Hb as (Hin & Hsym & _). rewrite Forall_forall in Hall. specialize (Hall b Hin). congruence.
Qed.
End Loop.

(* ------------------------------------------------------------------ *)
(** ** A loop at work *)

Section Examples.
#[local] Existing Instance plain64.
#[local] Existing Instance sorted_list.
#[local] Existing Instance plain_text.
Notation F := SpecFloat.spec_float.

Definition demo_applying : IngestorSettings F := {|
  Config.provider := "tiingo"; provider_token := "s3cret"; symbols := "EURUSD";
  stream_retention_s := 900; lease_ttl_ms := 10_000; lease_renew_ms := 3_000;
  staleness_timeout_s := f_of_Z 30; backoff_base_s := f_ratio 1 2; backoff_cap_s := f_of_Z 60;
  breaker_fail_threshold := 5; breaker_reset_s := f_of_Z 30; Config.bucket_seconds := 60;
  ewma_lambda := f_ratio 97 100; recovery_mode := Apply; database_url := "postgresql://";
  recovery_interval_s := f_of_Z 900; recovery_first_delay_s := f_of_Z 60;
  recovery_lookback_h := f_of_Z 168; recovery_max_requests := 20;
  recovery_request_spacing_s := f_of_Z 2; recovery_days_per_request := 3;
  provider_requests_per_hour := 50; provider_requests_per_day := 1_000;
  recovery_reserve_per_hour := 30; recovery_reserve_per_day := 400 |}.

(** The provider has two minutes: one twenty minutes old at the attempt, and one of
    the last quarter of an hour. *)
Definition demo_attempt (minute_ : Z) (outcome : Outcome F) : Attempt F := {|
  at_now := demo_minute minute_; at_run_id := "run"; at_outcome := outcome; at_ready := true; at_lock_free := true;
  at_reply := fun _ _ => Bars (demo_bar "EURUSD" <$> [demo_minute 40; demo_minute 55]);
  at_quota := fun _ => true; at_stop := fun _ => false |}.
Definition demo_command (apply_ : bool) : CliArgs := {|
  a_since := iso_string (demo_minute 30); a_until := Some (iso_string (demo_minute 59)); a_symbols := Some "EURUSD"%string;
  a_apply := apply_; a_max_requests := 5; a_include_settled := false |}.

Definition demo_events : list (@RecoveryEvent F) := [
  Leadership; Turn (demo_attempt 60 Unreached); Command (demo_command false) (demo_attempt 60 Completes);
  Turn (demo_attempt 60 (FailsAfter 8 {| own_blocked := None; own_symbols := ∅; own_calls := [] |}));
  Turn (demo_attempt 60 Completes); Command (demo_command true) (demo_attempt 61 Completes)].

Definition demo_steps (evs : list (@RecoveryEvent F)) : Recoverer :=
  recovery_steps (fun _ => "x"%string) (fun _ => true) (fun _ _ _ => None) (fun s => s) (fun _ => hours 1)
    demo_applying "a" "host" {| rc_recovery := Recovery_new demo_store; rc_trigger := "leadership" |} evs.

(** A pass whose ninth call raises has stored the minute, leaves its run marked as
    running, and is tried again under the same trigger; the next run marks it aborted. *)
Lemma failed_pass_leaves_its_rows :
  let failed := Turn (demo_attempt 60 (FailsAfter 8 {| own_blocked := None; own_symbols := ∅; own_calls := [] |})) in
  let later := {| at_now := demo_minute 80; at_run_id := "run-2"; at_outcome := Completes; at_ready := true;
    at_lock_free := true; at_reply := at_reply (demo_attempt 80 Completes); at_quota := fun _ => true;
    at_stop := fun _ => false |} in
  let said evs id := run_status <$> runs (store (rc_recovery (demo_steps evs))) !! id in
  is_Some (tables (demo_steps [Leadership; failed]) !! ("EURUSD"%string, demo_minute 40)) /\
  rc_trigger (demo_steps [Leadership; failed]) = "leadership"%string /\
  said [Leadership; failed] "run"%string = Some "running"%string /\
  said [Leadership; failed; Turn later] "run"%string = Some "aborted"%string /\
  said [Leadership; failed; Turn later] "run-2"%string = Some "succeeded"%string.
Proof. split_and!; [apply (bool_decide_unpack _)|..]; by vm_compute. Qed.

(** The young minute is left to the worker. *)
Lemma recovery_keeps_clear_witness :
  is_Some (tables (demo_steps demo_events) !! ("EURUSD"%string, demo_minute 40)) /\
  tables (demo_steps demo_events) !! ("EURUSD"%string, demo_minute 55) = None /\
  exists pre ev post, demo_events = pre ++ ev :: post /\ settled_minute demo_applying ev (demo_minute 40).
Proof.
  assert (Hrow : bool_decide (is_Some (tables (demo_steps demo_events) !! ("EURUSD"%string, demo_minute 40))) = true)
    by (vm_compute; reflexivity).
  apply bool_decide_eq_true in Hrow. split; [exact Hrow|]. split; [by vm_compute|].
  destruct Hrow as [row Hrow].
  destruct (recovery_keeps_clear (fun _ => "x"%string) (fun _ => true) (fun _ _ _ => None) (fun s => s) (fun _ => hours 1)
    demo_applying "a" "host" {| rc_recovery := Recovery_new demo_store; rc_trigger := "leadership" |} demo_events)
    as [_ Hnew].
  - by vm_compute.
  - apply (bool_decide_unpack _). by vm_compute.
  - intros a t Hin.
    assert (Hall : Forall (fun ev => match ev with
      | Command a _ => cli_symbols (fun s => s) demo_applying a = ["EURUSD"%string] | _ => True end) demo_events)
      by repeat constructor.
    rewrite Forall_forall in Hall. pose proof (Hall _ Hin) as Ha. cbv beta iota in Ha.
    rewrite Ha. apply NoDup_singleton.
  - destruct (Hnew "EURUSD"%string (demo_minute 40) row) as (pre & ev & post & Heq & _ & Hset & _);
      [by vm_compute|exact Hrow|]. exists pre, ev, post. split; [exact Heq|exact Hset].
Defined.
End Examples.
