(* ===== verification/Leadership.v ===== *)
(** * Processes and their leases

    Every ingestor of [Ingestor.v] with its replica of [Lease.v], over the one key in
    Redis: the lease's grants and losses are the process's events, and leaving the
    block is the release.  [one_leader_speaks] says what the lease is for: who may
    send anything at all. *)
From S2P Require Import Prelude PyFloat Civil Volatility Models Buckets Ranges Baseline Seasonality.
From S2P Require Import Calendar Hysteresis Detector Supervisor Redis Json Keys Text Pipeline Wire Provider.
From S2P Require Import Rehydrate Feed Config Ingestor Lease.

Local Open Scope Z_scope.

Section Leadership.
Context `{SortedSet} {F : Type} `{PyFloat F} `{IsoFormat} `{JsonText F} `{NewYork} `{!PyText F}.
Context (repr : F -> string) (reason_text : Reason F -> string) (int_of : F -> result Z) (strip : string -> string).

(** The replicas with their key, the processes, and the wall clock when the replicas'
    clock was at 0. *)
Record Site := { s_fleet : Fleet; s_procs : gmap string (Ingestor F); s_epoch : datetime }.
Implicit Types (s : Site) (i : Ingestor F) (l : LeaderLease).

Definition wall_of s : datetime := s_epoch s + 1000 * clock (s_fleet s).

(** Time passes; a standby polls for the lease; a renewal makes its trip; a process
    takes a step, with the trip of its release in case it leaves the block; a process
    dies without a word. *)
Inductive SiteEvent :=
  | Wait (ms : Z)
  | Poll (id : string) (f : Trip)
  | RenewTrip (id : string) (f : Trip)
  | Step (id : string) (ev : LifeEvent (F := F)) (f : Trip)
  | Die (id : string).

Definition set_site s (w : Fleet) (procs : gmap string (Ingestor F)) : Site :=
  {| s_fleet := w; s_procs := procs; s_epoch := s_epoch s |}.

(** The process takes the step its lease calls for. *)
Definition told s (w : Fleet) (id : string) i (ev : LifeEvent (F := F)) : option (Site * list Output) :=
  k ← life_step repr reason_text int_of (wall_of s) i ev;
  Some (set_site s w (<[id := k.1]> (s_procs s)), k.2).

(** What a site does, and what its process sends; [None] where it cannot happen. *)
Definition site_step s (ev : SiteEvent) : option (Site * list Output) :=
  let w := s_fleet s in
  match ev with
  | Wait ms => Some (set_site s (lease_step w (Pass ms)) (s_procs s), [])
  | Poll id f =>
      i ← s_procs s !! id;
      match i_place i with
      | Standby =>
          let w := lease_step (lease_step w (Enter id)) (Acquire id f) in
          match f with
          | Answered =>
              match replicas w !! id with
              | Some l => if is_leader l then told s w id i Acquired else Some (set_site s w (s_procs s), [])
              | None => None
              end
          | _ => told s w id i RedisError
          end
      | _ => None
      end
  | RenewTrip id f =>
      i ← s_procs s !! id;
      l ← replicas w !! id;
      match l_where l, in_block i with
      | Inside true, true =>
          let w := lease_step w (Renew id f) in
          match replicas w !! id with
          | Some l => if lost l then told s w id i LeaseLost else Some (set_site s w (s_procs s), [])
          | None => None
          end
      | _, _ => None
      end
  | Step id ev f =>
      i ← s_procs s !! id;
      match ev with
      | Acquired | LeaseLost => None
      | _ =>
          k ← life_step repr reason_text int_of (wall_of s) i ev;
          let w := if in_block i && negb (in_block k.1) then lease_step w (Leave id f) else w in
          Some (set_site s w (<[id := k.1]> (s_procs s)), k.2)
      end
  | Die id => Some (set_site s (lease_step w (Crash id)) (delete id (s_procs s)), [])
  end.

Fixpoint site_run s (evs : list SiteEvent) : option Site :=
  match evs with
  | [] => Some s
  | ev :: evs => k ← site_step s ev; site_run k.1 evs
  end.

(** Processes that start, each with the replica its constructor made. *)
Definition site_starts s : Prop :=
  starts (s_fleet s) /\
  forall id i, s_procs s !! id = Some i -> exists cfg started,
    Ingestor_new strip cfg id started = Ok i /\ replicas (s_fleet s) !! id = Some (i_lease i) /\ 0 <= lease_renew_ms cfg.

(* ------------------------------------------------------------------ *)
(** ** A process is where its replica is *)

Definition tied i l : Prop :=
  is_leader l = is_leader (i_lease i) /\ lost l = lost (i_lease i) /\
  (if in_block i then exists b, l_where l = Inside b else l_where l = Outside \/ l_where l = Waiting).

Record site_ok s : Prop := {
  so_life : forall id i, s_procs s !! id = Some i -> life_ok i;
  so_tied : forall id i, s_procs s !! id = Some i -> (forall e, i_place i <> Gone e) ->
    exists l, replicas (s_fleet s) !! id = Some l /\ tied i l;
}.

(* ------------------------------------------------------------------ *)
(** ** The process's own steps keep the flag *)

Lemma leave_block_lost i e wall : lost (i_lease (leave_block i e wall).1) = lost (i_lease i).
Proof. unfold leave_block. by destruct (lost (i_lease i)) eqn:Hl; cbn; rewrite ?Hl. Qed.

Lemma left_lost i e wall pre :
  lost (i_lease (let '(k, out) := leave_block i e wall in (k, pre ++ out)).1) = lost (i_lease i).
Proof. pose proof (leave_block_lost i e wall) as Hl. by destruct (leave_block i e wall). Qed.

Lemma end_session_lost i asked started r f wall :
  lost (i_lease (end_session i asked started r f wall).1) = lost (i_lease i).
Proof.
  unfold end_session. destruct f as [[d|d| |ra|e]|]; cbn [publish]; [by rewrite left_lost| | | |by rewrite leave_block_lost|].
  1-3: destruct (leader_turn _ _) as [[l ?]|e]; [done|by rewrite left_lost].
  destruct (leader_turn _ _) as [[l ?]|e]; [|by rewrite leave_block_lost].
  destruct (stopping _); [by rewrite leave_block_lost|done].
Qed.

Lemma open_session_lost i asked started o entered r wall :
  lost (i_lease (open_session i asked started o entered r wall).1) = lost (i_lease i).
Proof.
  unfold open_session. destruct (build i) as [[p|f]|e]; [|apply end_session_lost..].
  destruct (connect p o); [done|apply end_session_lost].
Qed.

Lemma on_tick_lost i asked started q w t petted r wall :
  lost (i_lease (on_tick repr reason_text int_of i asked started q w t petted r wall).1) = lost (i_lease i).
Proof.
  unfold on_tick. destruct (handle _ _ _ _ _ _) as [h|e]; [|apply end_session_lost].
  set (j := with_pipeline i (h_pipeline h)). set (k := (if q then (j, []) else publish j "healthy" "" wall)).
  assert (Hk : lost (i_lease k.1) = lost (i_lease i)) by (unfold k; by destruct q). destruct k as [k out].
  destruct (stopping k); [|exact Hk]. pose proof (end_session_lost k asked started r None wall) as He.
  destruct (end_session k asked started r None wall). cbn in *. congruence.
Qed.

Lemma on_message_lost i asked started q w p raw petted r wall :
  lost (i_lease (on_message repr reason_text int_of i asked started q w p raw petted r wall).1) = lost (i_lease i).
Proof.
  unfold on_message. destruct (parse_frame _ _ _) as [p' [t| |f]]; [by rewrite on_tick_lost|done|apply end_session_lost].
Qed.

Lemma ask_lost i asked started wall : lost (i_lease (ask i asked started wall).1) = lost (i_lease i).
Proof.
  unfold ask. destruct (stopping i); [apply leave_block_lost|]. by destruct (allows_attempt _ _) as [b []].
Qed.

Abbreviation step := (life_step repr reason_text int_of).

Definition of_lease (ev : LifeEvent (F := F)) : bool := match ev with Acquired | LeaseLost => true | _ => false end.

Lemma step_lost wall i ev k : of_lease ev = false -> step wall i ev = Some k -> lost (i_lease k.1) = lost (i_lease i).
Proof.
  intros Hev Hstep. unfold life_step in Hstep.
  destruct (i_place i) as [| | |asked started|asked started q w| |e] eqn:Hp; [| | | | | |done].
  all: destruct ev; try discriminate Hstep; try discriminate Hev.
  all: try (destruct (i_shutdown i); [done|]; apply (inj Some) in Hstep as <-; unfold beat, heartbeat; by destruct (is_leader _)).
  all: try (destruct (i_provider i) as [p|]; [|done]).
  all: apply (inj Some) in Hstep as <-; try done.
  all: rewrite ?leave_block_lost, ?end_session_lost, ?open_session_lost, ?on_message_lost, ?ask_lost; try done.
  - destruct (rehydrate _ _ _ _ _ _) as [[p|?]|e]; [done|apply leave_block_lost..].
  - unfold on_check. by destruct (watchdog_check _ _ _ _) as [? []].
Qed.

(** Outside the block a process stays there until it is granted the lease. *)
Lemma step_outside wall i ev k :
  ev <> Acquired -> in_block i = false -> step wall i ev = Some k -> in_block k.1 = false.
Proof.
  intros Hev Hin Hstep. unfold life_step, in_block in *.
  destruct (i_place i) as [| | | | | |e] eqn:Hp; try done. destruct ev; try done.
  - destruct (i_shutdown i); [done|]. apply (inj Some) in Hstep as <-. unfold beat, heartbeat.
    destruct (is_leader _); cbn; by rewrite Hp.
  - by apply (inj Some) in Hstep as <-.
  - by apply (inj Some) in Hstep as <-.
Qed.

(** Its flags are those of the lease it has not left. *)
Lemma step_flags wall i ev k :
  life_ok i -> of_lease ev = false -> step wall i ev = Some k ->
  lost (i_lease k.1) = lost (i_lease i) /\
  (in_block k.1 = true -> is_leader (i_lease k.1) = is_leader (i_lease i)) /\
  (in_block k.1 = false -> is_leader (i_lease k.1) = false).
Proof.
  intros Hok Hev Hstep. pose proof (step_lost _ _ _ _ Hev Hstep) as Hlost.
  destruct (life_step_faithful _ _ _ _ _ _ _ Hok Hstep) as ([Hf' _ _] & _). split; [done|]. split.
  - intros Hin. rewrite Hin in Hf'. destruct Hok as [Hf _ _]. destruct (in_block i) eqn:Hi.
    + destruct Hf as [-> _], Hf' as [-> _]. by rewrite Hlost.
    + rewrite (step_outside _ _ _ _ (fun He => ltac:(by rewrite He in Hev)) Hi Hstep) in Hin. done.
  - intros Hin. rewrite Hin in Hf'. apply Hf'.
Qed.

(* ------------------------------------------------------------------ *)
(** ** The tie holds *)

Lemma replicas_other w ev id id' :
  actor ev = Some id -> id <> id' -> replicas (lease_step w ev) !! id' = replicas w !! id'.
Proof.
  intros Ha Hne. destruct ev; try done; injection Ha as ->; cbn; destruct (replicas w !! id) as [l|]; try done.
  all: unfold act; destruct (l_where l) as [| |[]|]; try done; cbn; by rewrite lookup_insert_ne.
Qed.

Lemma enter_at w id l :
  replicas w !! id = Some l -> l_where l = Outside \/ l_where l = Waiting ->
  exists l', replicas (lease_step w (Enter id)) !! id = Some l' /\ l_where l' = Waiting /\
    is_leader l' = is_leader l /\ lost l' = lost l.
Proof.
  intros Hl Hw. cbn. rewrite Hl. unfold act. destruct Hw as [-> | Hw].
  - cbn. rewrite lookup_insert_eq. by eexists.
  - rewrite Hw. by exists l.
Qed.

Lemma acquire_at w id l f :
  replicas w !! id = Some l -> l_where l = Waiting -> is_leader l = false ->
  exists l', replicas (lease_step w (Acquire id f)) !! id = Some l' /\
    (if is_leader l' then lost l' = false /\ l_where l' = Inside true
     else lost l' = lost l /\ (l_where l' = Outside \/ l_where l' = Waiting)).
Proof.
  intros Hl Hw Hlead. cbn. rewrite Hl. unfold act. rewrite Hw. unfold acquire. destruct (set_nx _ _ _ _) as [k ok].
  cbn. rewrite lookup_insert_eq. eexists. split; [done|]. destruct f; cbn; rewrite ?Hlead; auto.
  destruct ok; cbn; rewrite ?Hlead; auto.
Qed.

Lemma renew_at w id l f :
  replicas w !! id = Some l -> l_where l = Inside true ->
  exists l', replicas (lease_step w (Renew id f)) !! id = Some l' /\
    (l' = l \/ (is_leader l' = false /\ lost l' = true /\ l_where l' = Inside false)).
Proof.
  intros Hl Hw. cbn. rewrite Hl. unfold act. rewrite Hw. unfold renew. destruct (renew_script _ _ _ _) as [k ok].
  cbn. rewrite lookup_insert_eq. eexists. split; [done|]. destruct f, ok; auto.
Qed.

Lemma leave_at w id l b f :
  replicas w !! id = Some l -> l_where l = Inside b ->
  replicas (lease_step w (Leave id f)) !! id = Some (set_lease l false (lost l) Outside).
Proof. intros Hl Hw. cbn. rewrite Hl. unfold act. rewrite Hw. destruct b; cbn; by rewrite lookup_insert_eq. Qed.

Lemma set_site_ok s w id i :
  site_ok s -> life_ok i ->
  ((forall e, i_place i <> Gone e) -> exists l, replicas w !! id = Some l /\ tied i l) ->
  (forall id', id <> id' -> replicas w !! id' = replicas (s_fleet s) !! id') ->
  site_ok (set_site s w (<[id := i]> (s_procs s))).
Proof.
  intros [Hlife Htied] Hok Hid Hother. split; cbn; intros id' i'.
  - intros [[_ <-]|[_ Hi]]%lookup_insert_Some; [done|by apply (Hlife id')].
  - intros [[<- <-]|[Hne Hi]]%lookup_insert_Some; [done|]. rewrite Hother by done. by apply Htied.
Qed.

Lemma set_fleet_ok s w id i l :
  site_ok s -> s_procs s !! id = Some i -> replicas w !! id = Some l -> tied i l ->
  (forall id', id <> id' -> replicas w !! id' = replicas (s_fleet s) !! id') ->
  site_ok (set_site s w (s_procs s)).
Proof.
  intros [Hlife Htied] Hi Hl Ht Hother. split; cbn; [done|]. intros id' i' Hi' Hg.
  destruct (decide (id = id')) as [<-|Hne]; [|rewrite Hother by done; by apply Htied].
  rewrite Hi in Hi'. injection Hi' as <-. by exists l.
Qed.

(** What [tied] comes to once a step of the process has been taken. *)
Lemma tied_step wall i ev k l :
  life_ok i -> of_lease ev = false -> step wall i ev = Some k -> tied i l ->
  (in_block k.1 = in_block i -> tied k.1 l) /\
  (in_block i = true -> in_block k.1 = false -> tied k.1 (set_lease l false (lost l) Outside)).
Proof.
  intros Hok Hev Hstep (Hl & Hlost & Hw). destruct (step_flags _ _ _ _ Hok Hev Hstep) as (Hlost' & Hin & Hout).
  split.
  - intros Heq. split_and!; [|congruence|by rewrite Heq]. destruct (in_block k.1) eqn:Hk; [by rewrite Hin|].
    rewrite Hout by done. rewrite Hl. destruct Hok as [Hf _ _]. rewrite <- Heq in Hf. apply Hf.
  - intros Hi Hk. split_and!; cbn; [by rewrite Hout|congruence|rewrite Hk; by left].
Qed.

Lemma standby_out i : i_place i = Standby -> in_block i = false /\ (forall e, i_place i <> Gone e).
Proof. unfold in_block. by intros ->. Qed.

Lemma told_ok s w id i l ev k :
  site_ok s -> s_procs s !! id = Some i -> replicas w !! id = Some l ->
  (forall id', id <> id' -> replicas w !! id' = replicas (s_fleet s) !! id') ->
  (forall k, step (wall_of s) i ev = Some k -> (forall e, i_place k.1 <> Gone e) -> tied k.1 l) ->
  told s w id i ev = Some k -> site_ok k.1.
Proof.
  intros Hok Hi Hl Hother Htied. unfold told. destruct (step (wall_of s) i ev) as [k'|] eqn:Hstep; [|done].
  cbn. intros [= <-]. cbn. apply set_site_ok; [done| |by exists l; auto|done].
  exact (proj1 (life_step_faithful _ _ _ _ _ _ _ (so_life _ Hok id i Hi) Hstep)).
Qed.

Lemma poll_ok s id f k : site_ok s -> site_step s (Poll id f) = Some k -> site_ok k.1.
Proof.
  intros Hok. cbn [site_step]. destruct (s_procs s !! id) as [i|] eqn:Hi; [|done]. cbn [mbind option_bind].
  destruct (i_place i) eqn:Hp; try done. destruct (standby_out i Hp) as [Hout Hgone].
  destruct (so_tied _ Hok id i Hi Hgone) as (l & Hl & Hlead & Hlost & Hw). rewrite Hout in Hw.
  pose proof (so_life _ Hok id i Hi) as Hlife. assert (Hli : is_leader (i_lease i) = false).
  { destruct Hlife as [Hf _ _]. rewrite Hout in Hf. apply Hf. }
  destruct (enter_at _ _ _ Hl Hw) as (l1 & Hl1 & Hw1 & Hlead1 & Hlost1).
  destruct (acquire_at _ _ _ f Hl1 Hw1) as (l2 & Hl2 & Hcase); [congruence|].
  set (w2 := lease_step (lease_step (s_fleet s) (Enter id)) (Acquire id f)) in *.
  assert (Hother : forall id', id <> id' -> replicas w2 !! id' = replicas (s_fleet s) !! id').
  { intros id' Hne. unfold w2. rewrite (replicas_other _ (Acquire id f) id), (replicas_other _ (Enter id) id); done. }
  destruct f.
  - rewrite Hl2. destruct (is_leader l2) eqn:Hl2lead.
    + apply (told_ok s w2 id i l2); try done. intros k' Hk' _. unfold life_step in Hk'. rewrite Hp in Hk'.
      apply (inj Some) in Hk' as <-. destruct Hcase as [Hlo Hwh]. split_and!; cbn; [done|done|by exists true].
    + intros [= <-]. destruct Hcase as [Hlo Hwh]. apply (set_fleet_ok s w2 id i l2); try done.
      split_and!; [congruence|congruence|by rewrite Hout].
  - apply (told_ok s w2 id i l2); try done. intros k' Hk' Hg. unfold life_step in Hk'. rewrite Hp in Hk'.
    apply (inj Some) in Hk' as <-. by destruct (Hg RedisFailed).
  - apply (told_ok s w2 id i l2); try done. intros k' Hk' Hg. unfold life_step in Hk'. rewrite Hp in Hk'.
    apply (inj Some) in Hk' as <-. by destruct (Hg RedisFailed).
Qed.

(** The process in whose block the renewal task runs hears that the lease is lost. *)
Lemma lost_step i wall k :
  in_block i = true -> step wall i LeaseLost = Some k ->
  k.1 = with_flags i (set_lease (i_lease i) false true (Inside false)) (i_shutdown i).
Proof.
  unfold in_block, life_step. destruct (i_place i); try done.
  all: intros _; destruct (is_leader _); [|done]; by intros Hk%(inj Some); rewrite <- Hk.
Qed.

Lemma renew_trip_ok s id f k : site_ok s -> site_step s (RenewTrip id f) = Some k -> site_ok k.1.
Proof.
  intros Hok. cbn [site_step]. destruct (s_procs s !! id) as [i|] eqn:Hi; [|done]. cbn [mbind option_bind].
  destruct (replicas (s_fleet s) !! id) as [l|] eqn:Hl; [|done]. cbn [mbind option_bind].
  destruct (l_where l) as [| |[]|] eqn:Hw; try done.
  destruct (renew_at _ _ _ f Hl Hw) as (l' & Hl' & Hcase). rewrite Hl'.
  set (w2 := lease_step (s_fleet s) (Renew id f)) in *.
  assert (Hother : forall id', id <> id' -> replicas w2 !! id' = replicas (s_fleet s) !! id').
  { intros id' Hne. unfold w2. by rewrite (replicas_other _ (Renew id f) id). }
  destruct (in_block i) eqn:Hin; [|done].
  assert (Hgone : forall e, i_place i <> Gone e) by (intros e Hp; unfold in_block in Hin; by rewrite Hp in Hin).
  destruct (so_tied _ Hok id i Hi Hgone) as (l0 & Hl0 & Hlead & Hlost & _). rewrite Hl in Hl0. injection Hl0 as <-.
  destruct Hcase as [->|(Hl'lead & Hl'lost & Hl'w)].
  - destruct (lost l) eqn:Hll.
    + apply (told_ok s w2 id i l); try done. intros k' Hk' _. rewrite (lost_step _ _ _ Hin Hk').
      pose proof (so_life _ Hok id i Hi) as [Hf _ _]. rewrite Hin, <- Hlost in Hf.
      split_and!; cbn; [by rewrite Hlead, (proj1 Hf)|done|].
      change (in_block (with_flags i _ _)) with (in_block i). rewrite Hin. by exists true.
    + intros [= <-]. apply (set_fleet_ok s w2 id i l); try done. split_and!; [done|congruence|rewrite Hin; by exists true].
  - rewrite Hl'lost. apply (told_ok s w2 id i l'); try done. intros k' Hk' _. rewrite (lost_step _ _ _ Hin Hk').
    split_and!; cbn; [done|done|]. change (in_block (with_flags i _ _)) with (in_block i). rewrite Hin. by exists false.
Qed.

Lemma process_step_ok s id ev f k : site_ok s -> site_step s (Step id ev f) = Some k -> site_ok k.1.
Proof.
  intros Hok. cbn [site_step]. destruct (s_procs s !! id) as [i|] eqn:Hi; [|done]. cbn [mbind option_bind].
  intros Hk. assert (Hev : of_lease ev = false) by (by destruct ev).
  assert (Hk' : exists k', step (wall_of s) i ev = Some k' /\
    k = (set_site s (if in_block i && negb (in_block k'.1) then lease_step (s_fleet s) (Leave id f) else s_fleet s)
           (<[id := k'.1]> (s_procs s)), k'.2)).
  { destruct ev; try discriminate Hev; destruct (step _ _ _) as [k'|] eqn:Hs; try discriminate Hk;
      exists k'; (split; [done|by apply (inj Some) in Hk]). }
  destruct Hk' as (k' & Hs & ->). clear Hk. cbn [fst].
  pose proof (so_life _ Hok id i Hi) as Hlife.
  assert (Hgone : forall e, i_place i <> Gone e) by (intros e Hp; unfold life_step in Hs; by rewrite Hp in Hs).
  destruct (so_tied _ Hok id i Hi Hgone) as (l & Hl & Htied).
  destruct (tied_step _ _ _ _ _ Hlife Hev Hs Htied) as [Hsame Hleft].
  apply set_site_ok; [done|exact (proj1 (life_step_faithful _ _ _ _ _ _ _ Hlife Hs))| |].
  - intros _. destruct (in_block i) eqn:Hin; cbn [andb].
    + destruct (in_block k'.1) eqn:Hin'; cbn [negb]; [exists l; auto|].
      destruct Htied as (_ & _ & Hw). rewrite Hin in Hw. destruct Hw as [b Hw]. rewrite (leave_at _ _ _ b f Hl Hw). eauto.
    + exists l. split; [done|]. apply Hsame. apply (step_outside _ _ _ _ (fun He => ltac:(by rewrite He in Hev)) Hin Hs).
  - intros id' Hne. destruct (in_block i && _); [|done]. by rewrite (replicas_other _ (Leave id f) id).
Qed.

Lemma site_step_ok s ev k : site_ok s -> site_step s ev = Some k -> site_ok k.1.
Proof.
  intros Hok. destruct ev as [ms|id f|id f|id ev f|id].
  - intros [= <-]. destruct Hok as [Hlife Htied]. by split.
  - by apply poll_ok.
  - by apply renew_trip_ok.
  - by apply process_step_ok.
  - intros Hk. apply (inj Some) in Hk as <-. destruct Hok as [Hlife Htied].
    split; cbn [fst s_fleet s_procs set_site]; intros id' i' [Hne Hi]%lookup_delete_Some.
    + by apply (Hlife id').
    + intros Hg. destruct (Htied id' i' Hi Hg) as (l & Hl & Ht). exists l. by rewrite (replicas_other _ (Crash id) id).
Qed.

(** A step of the site is steps of the fleet, or none. *)
Lemma site_step_inv T s ev k :
  0 <= T -> lease_inv T (s_fleet s) -> site_step s ev = Some k -> lease_inv T (s_fleet k.1).
Proof.
  intros HT Hinv. assert (Hls : forall w e, lease_inv T w -> lease_inv T (lease_step w e)) by (intros; by apply lease_step_inv).
  assert (Htold : forall w id i e k, lease_inv T w -> told s w id i e = Some k -> lease_inv T (s_fleet k.1)).
  { intros w id i e k' Hw. unfold told. destruct (step _ _ _); [|done]. intros Hk. by apply (inj Some) in Hk as <-. }
  destruct ev as [ms|id f|id f|id ev f|id]; cbn [site_step].
  - intros Hk. apply (inj Some) in Hk as <-. by apply Hls.
  - destruct (s_procs s !! id) as [i|]; [|done]. cbn [mbind option_bind]. destruct (i_place i); try done.
    destruct f; [|by apply Htold; auto..]. destruct (replicas _ !! id) as [l|]; [|done].
    destruct (is_leader l); [by apply Htold; auto|]. intros Hk. apply (inj Some) in Hk as <-. by repeat apply Hls.
  - destruct (s_procs s !! id) as [i|]; [|done]. cbn [mbind option_bind].
    destruct (replicas (s_fleet s) !! id) as [l|]; [|done]. cbn [mbind option_bind].
    destruct (l_where l) as [| |[]|], (in_block i); try done. destruct (replicas _ !! id) as [l'|]; [|done].
    destruct (lost l'); [by apply Htold; auto|]. intros Hk. apply (inj Some) in Hk as <-. by repeat apply Hls.
  - destruct (s_procs s !! id) as [i|]; [|done]. cbn [mbind option_bind].
    destruct ev; try done; (destruct (step _ _ _) as [k'|]; [|done]); intros Hk; apply (inj Some) in Hk as <-;
      cbn [fst s_fleet set_site]; destruct (in_block i && _); auto.
  - intros Hk. apply (inj Some) in Hk as <-. by apply Hls.
Qed.

Lemma site_run_inv T s evs s' :
  0 <= T -> site_ok s -> lease_inv T (s_fleet s) -> site_run s evs = Some s' ->
  site_ok s' /\ lease_inv T (s_fleet s').
Proof.
  intros HT. revert s. induction evs as [|ev evs IH]; intros s Hok Hinv; cbn [site_run]; [by intros [= <-]|].
  destruct (site_step s ev) as [k|] eqn:Hs; [|done]. cbn [mbind option_bind].
  apply IH; [by apply (site_step_ok s ev)|by apply (site_step_inv T s ev)].
Qed.

Lemma site_starts_ok s : site_starts s -> site_ok s.
Proof.
  intros [_ Hprocs]. split; intros id i Hi; destruct (Hprocs id i Hi) as (cfg & started & Hnew & Hl & _);
    destruct (Ingestor_new_ok _ _ _ _ _ Hnew) as [Hok Hp]; [done|].
  intros _. exists (i_lease i). split; [done|]. unfold Ingestor_new in Hnew.
  apply bind_ok in Hnew as (p & _ & (l & Hnew & [= <-])%bind_ok). unfold LeaderLease_new in Hnew.
  destruct (_ <=? _); [done|]. injection Hnew as <-. split_and!; [done|done|by left].
Qed.

(** The process of [id] believes it leads, on a grant younger than the time to live. *)
Definition assured s (id : string) : Prop :=
  exists i, s_procs s !! id = Some i /\ is_leader (i_lease i) = true /\ certain (s_fleet s) id.

(** C8. One process speaks.  However processes come and go, stall, lose trips to Redis
    or die, each with its replica of the lease: only a process inside its block sends
    anything, and one that believes it leads is where its replica is; of those whose
    grant is younger than the time to live there is at most one, and Redis holds the
    key for it.  A process that was told its lease is lost handles at most the one
    tick that is next, and is outside its block after it. *)
Theorem one_leader_speaks s0 evs s :
  site_starts s0 -> site_run s0 evs = Some s ->
  (forall id ev f s' out, site_step s (Step id ev f) = Some (s', out) -> out <> [] ->
     exists i l, s_procs s !! id = Some i /\ in_block i = true /\
       replicas (s_fleet s) !! id = Some l /\ (exists b, l_where l = Inside b) /\
       is_leader l = is_leader (i_lease i) /\ is_leader (i_lease i) = negb (lost (i_lease i))) /\
  (forall id, assured s id -> holder <$> live (clock (s_fleet s)) (lease_key (s_fleet s)) = Some id) /\
  (forall id id', assured s id -> assured s id' -> id = id') /\
  (forall id ev f s' out cs i, s_procs s !! id = Some i -> lost (i_lease i) = true ->
     site_step s (Step id ev f) = Some (s', out) -> Transaction cs ∈ out ->
     exists i', s_procs s' !! id = Some i' /\ in_block i' = false).
Proof.
  intros Hstart Hrun. assert (Hstart' := Hstart). destruct Hstart' as [Hfleet _].
  destruct (ttl_bound (s_fleet s0)) as (T & HT & Hbound).
  destruct (site_run_inv T s0 evs s) as [Hok Hinv]; [done|by apply site_starts_ok|by apply starts_inv|done|].
  assert (Hsplit : forall id ev f s' out, site_step s (Step id ev f) = Some (s', out) ->
    exists i k, s_procs s !! id = Some i /\ step (wall_of s) i ev = Some k /\ of_lease ev = false /\ out = k.2 /\
      s_procs s' !! id = Some k.1).
  { intros id ev f s' out. cbn [site_step]. destruct (s_procs s !! id) as [i|]; [|done]. cbn [mbind option_bind].
    intros Hk. assert (Hev : of_lease ev = false) by (by destruct ev). exists i.
    destruct ev; try discriminate Hev; destruct (step _ _ _) as [k|]; try discriminate Hk; exists k;
      cbn [mbind option_bind] in Hk; apply (inj Some) in Hk; injection Hk as <- <-;
      (split_and!; try done); cbn; apply lookup_insert_eq. }
  split; [|split; [|split]].
  - intros id ev f s' out Hstep Hne. destruct (Hsplit _ _ _ _ _ Hstep) as (i & k & Hi & Hk & _ & -> & _).
    pose proof (so_life _ Hok id i Hi) as Hlife.
    destruct (in_block i) eqn:Hin; [|by rewrite (outside_silent _ _ _ _ _ _ _ Hlife Hin Hk) in Hne].
    assert (Hgone : forall e, i_place i <> Gone e) by (intros e Hp; unfold in_block in Hin; by rewrite Hp in Hin).
    destruct (so_tied _ Hok id i Hi Hgone) as (l & Hl & Hlead & Hlost & Hw). rewrite Hin in Hw.
    exists i, l. split_and!; try done. destruct Hlife as [Hf _ _]. rewrite Hin in Hf. apply Hf.
  - intros id (i & _ & _ & Hc). by apply (certain_holds T).
  - intros id id' (i & _ & _ & Hc) (i' & _ & _ & Hc'). apply (certain_holds T) in Hc, Hc'; [|done..]. congruence.
  - intros id ev f s' out cs i Hi Hl Hstep Hcs. destruct (Hsplit _ _ _ _ _ Hstep) as (i0 & k & Hi0 & Hk & _ & -> & Hi').
    rewrite Hi in Hi0. injection Hi0 as <-. exists k.1. split; [done|].
    eapply tick_is_last; [|exact Hk|exact Hcs]. unfold stopping. rewrite Hl. apply orb_true_r.
Qed.
End Leadership.

(* ------------------------------------------------------------------ *)
(** ** Two processes *)

Section Examples.
#[local] Existing Instance plain64.
#[local] Existing Instance json_bits.
#[local] Existing Instance sorted_list.
#[local] Existing Instance iso_utc.
#[local] Existing Instance eastern_standard.
#[local] Existing Instance plain_text.
Notation F := SpecFloat.spec_float.

Definition demo_process (id : string) : result (Ingestor F) := Ingestor_new (fun s => s) demo_settings id demo_t0.

Definition site_of (i j : Ingestor F) : Site (F := F) := {|
  s_fleet := {| clock := 0; lease_key := None;
                replicas := <["a"%string := i_lease i]> {["b"%string := i_lease j]}; granted := ∅ |};
  s_procs := <["a"%string := i]> {["b"%string := j]}; s_epoch := demo_t0 |}.

(** [a] leads and stalls for longer than the time to live; [b], refused at first, is
    granted the lease meanwhile. *)
Definition demo_overlap_site : list (SiteEvent (F := F)) := [
  Poll "a" Answered; Poll "b" Answered; Wait 3000; RenewTrip "a" Answered;
  Step "a" (Rehydrated ∅ ∅ ∅ None []) Answered; Wait 11_000; Poll "b" Answered]%string.

Definition demo_site (evs : list (SiteEvent (F := F))) : option (Site (F := F)) :=
  match demo_process "a", demo_process "b" with
  | Ok i, Ok j => site_run write_bits (fun _ => "why"%string) (fun _ => Ok 33) (site_of i j) evs
  | _, _ => None
  end.

(** Who leads by their own lights, and who Redis holds the key for. *)
Definition site_view (s : option (Site (F := F))) : option (list (option bool) * option string) :=
  match s with
  | Some s => Some ((fun id => (fun i => is_leader (i_lease i)) <$> s_procs s !! id) <$> ["a"; "b"]%string,
                    holder <$> live (clock (s_fleet s)) (lease_key (s_fleet s)))
  | None => None
  end.

Lemma demo_process_new id : exists i, demo_process id = Ok i /\ Ingestor_new (fun s => s) demo_settings id demo_t0 = Ok i /\
  LeaderLease_new id 10_000 3_000 = Ok (i_lease i).
Proof.
  assert (Hret : is_ok (demo_process id) = true) by (vm_compute; reflexivity).
  destruct (demo_process id) as [i|] eqn:E; [|discriminate Hret]. exists i. split_and!; [done|exact E|].
  unfold demo_process, Ingestor_new in E. apply bind_ok in E as (p & _ & (l & Hl & [= <-])%bind_ok). exact Hl.
Qed.

Lemma site_of_starts i j :
  demo_process "a" = Ok i -> demo_process "b" = Ok j -> site_starts (fun s => s) (site_of i j).
Proof.
  intros Hi Hj. destruct (demo_process_new "a") as (i' & Hi' & Hnew & Hl). destruct (demo_process_new "b") as (j' & Hj' & Hnew' & Hl').
  rewrite Hi in Hi'. injection Hi' as <-. rewrite Hj in Hj'. injection Hj' as <-. split; [split_and!; [done|done|]|].
  - intros id l. cbn [site_of s_fleet replicas].
    intros [[<- <-]|[_ [<- <-]%lookup_singleton_Some]]%lookup_insert_Some; exists 10_000, 3_000; by split.
  - intros id k. cbn [site_of s_fleet s_procs replicas].
    intros [[<- <-]|[Hne [<- <-]%lookup_singleton_Some]]%lookup_insert_Some; exists demo_settings, demo_t0;
      (split_and!; [done| |done]); cbn; [by rewrite lookup_insert_eq|by rewrite lookup_insert_ne, lookup_singleton_eq].
Qed.

(** Both believe they lead, and only [b] is assured. *)
Lemma one_leader_speaks_witness :
  exists s, demo_site demo_overlap_site = Some s /\
    site_view (Some s) = Some ([Some true; Some true], Some "b"%string) /\
    (assured s "a" -> False).
Proof.
  assert (Hview : site_view (demo_site demo_overlap_site) = Some ([Some true; Some true], Some "b"%string))
    by (vm_compute; reflexivity).
  destruct (demo_site demo_overlap_site) as [s|] eqn:Hrun; [|discriminate Hview]. exists s. split; [reflexivity|].
  split; [exact Hview|]. unfold demo_site in Hrun.
  destruct (demo_process "a") as [i|] eqn:Hi; [|discriminate Hrun]. destruct (demo_process "b") as [j|] eqn:Hj; [|discriminate Hrun].
  destruct (one_leader_speaks _ _ _ (fun s => s) _ _ _ (site_of_starts i j Hi Hj) Hrun) as (_ & Hholds & _).
  intros Ha%Hholds. unfold site_view in Hview. rewrite Ha in Hview. discriminate Hview.
Defined.
End Examples.
