(* ===== verification/Worker.v ===== *)
(** * The worker process ([fx_worker/main.py])

    Two tasks in one task group: the tick persister, which consumes only while it
    holds a lease, and the alert persister.  A step is one turn of a task - a trip to
    Redis or to the database and what follows it up to the next - a signal, or the
    end of the lease.  The trips are those of [Persister.v] and [Alerts.v]; what this
    file adds are the two functions [run_forever], the lease's block, the flags of
    [stop] and what a task group does. *)
From S2P Require Import Prelude PyFloat Binary64 Civil Models Buckets Database Streams.
From S2P Require Import Persister ExactlyOnce Alerts Lease.
From Stdlib Require Import SpecFloat.

Local Open Scope Z_scope.

(* ------------------------------------------------------------------ *)
(** ** Settings and start *)

(** [WorkerSettings], its numbers in the units of their names; nothing is validated. *)
Record WorkerSettings := {
  flush_max_rows : Z;
  flush_max_ms : Z;
  claim_idle_ms : Z;
  worker_bucket_seconds : Z;
}.

Definition WorkerSettings_default : WorkerSettings := {|
  flush_max_rows := 500; flush_max_ms := 2000; claim_idle_ms := 60000; worker_bucket_seconds := 60 |}.

(** What [db.connect()] does: return, raise an [OSError], raise anything else. *)
Inductive Connection := Connected | ConnectOSError | ConnectError (e : exn).

(** [for attempt in range(30)]: how many attempts there were. *)
Fixpoint connect_loop (left_ attempt : nat) (answers : nat -> Connection) : result nat :=
  match left_ with
  | O => Raise RuntimeError
  | S more =>
      match answers attempt with
      | Connected => Ok (S attempt)
      | ConnectOSError => connect_loop more (S attempt) answers
      | ConnectError e => Raise e
      end
  end.
Definition connect : (nat -> Connection) -> result nat := connect_loop 30 0.

(** The first answer that is no [OSError] decides. *)
Lemma connect_loop_first left_ k attempt answers :
  (forall i, (i < k)%nat -> answers (attempt + i)%nat = ConnectOSError) ->
  connect_loop left_ attempt answers =
    if decide (k < left_)%nat then connect_loop (left_ - k) (attempt + k) answers else Raise RuntimeError.
Proof.
  revert k attempt. induction left_ as [|m IH]; intros k attempt Hall; [by rewrite decide_False by lia|].
  destruct k as [|k]; [by rewrite decide_True, Nat.sub_0_r, Nat.add_0_r by lia|]. cbn.
  pose proof (Hall 0%nat ltac:(lia)) as H0. rewrite Nat.add_0_r in H0. rewrite H0.
  rewrite (IH k (S attempt)) by (intros i Hi; rewrite Nat.add_succ_l, <- Nat.add_succ_r; apply Hall; lia).
  rewrite Nat.add_succ_l, <- Nat.add_succ_r. repeat case_decide; done || lia.
Qed.

(** [backoff = min(backoff * 2, 30.0)], in seconds. *)
Definition backed_off (s : Z) : Z := Z.min (s * 2) 30.

(* ------------------------------------------------------------------ *)
(** ** The two tasks *)

(** What leaves a task or a block: an exception [run_forever] waits out ([RedisError]
    or [OSError]), any other, a cancellation. *)
Inductive Fault := Transient | Fatal | Cancelled.

(** Where the tick persister is: in [hold], asking for the lease; in [ensure_group];
    in a trip of [run] - of the phase its world is in; in the flush after a read; in
    the flush after the loop; in the [finally] of [hold], waiting for the renewal
    task it cancelled, then for the release, with what it carries outward; in the
    sleep between two attempts; over. *)
Inductive BarsAt :=
  | Holding
  | Grouping
  | Running
  | Flushing
  | LastFlush
  | Unwinding (e : option Fault)
  | Releasing (e : option Fault)
  | BarsSleep
  | BarsOver (e : option Fault).

Inductive AlertsAt := AlertsGrouping | AlertsRunning | AlertsSleep | AlertsOver (e : option Fault).

(** What a turn is answered: whether Redis answers at all, what kind of exception is
    raised if one is, whether the lease was granted, what fails in the commit, which
    entries have been idle, and what the clock says about flush and sweep. *)
Record Reply := {
  answered : bool;
  transient : bool;
  granted_ : bool;
  flush_fault : FlushFault;
  write_fault : WriteFault;
  idle : stream_id -> bool;
  flush_due : bool;
  sweep_due : bool;
}.

(** A trip that is executed and not heard of. *)
Definition unheard : Reply := {|
  answered := true; transient := true; granted_ := false; flush_fault := AckFailed; write_fault := AckLost;
  idle := fun _ => false; flush_due := false; sweep_due := false |}.

Definition kind (r : Reply) : Fault := if transient r then Transient else Fatal.

Section Worker.
Context {F : Type} `{PyFloat F} `{IsoFormat} `{ConsumerGroup}.
Context (float_of : string -> result F) (int_of : string -> result Z) (instrument : string -> bool).
Context (bucket_seconds : Z) (max_rows batch_size : nat).
Notation worker_step := (Persister.worker_step float_of bucket_seconds max_rows).
Notation alert_step := (Alerts.alert_step float_of int_of instrument batch_size).

Record Bars := {
  b_world : World F;
  b_at : BarsAt;
  b_lease : LeaderLease;
  b_stopping : bool;
  b_backoff : Z;
}.
Record AlertTask := {
  t_world : AlertWorld F;
  t_at : AlertsAt;
  t_stopping : bool;
  t_backoff : Z;
}.
Implicit Types (b : Bars) (a : AlertTask) (r : Reply) (w : World F).

Definition set_bars b (w : World F) (at_ : BarsAt) (l : LeaderLease) : Bars := {|
  b_world := w; b_at := at_; b_lease := l; b_stopping := b_stopping b; b_backoff := b_backoff b |}.
Definition bars_to b (at_ : BarsAt) : Bars := set_bars b (b_world b) at_ (b_lease b).

(* ------------------------------------------------------------------ *)
(** *** [run_forever(persister, lease)] *)

(** The head of [while not persister._stopping]. *)
Definition again b : Bars := bars_to b (if b_stopping b then BarsOver None else Holding).

(** [_is_leader = False], and on to [_release]. *)
Definition let_go b (e : option Fault) : Bars :=
  set_bars b (b_world b) (Releasing e) (set_lease (b_lease b) false (lost (b_lease b)) (l_where (b_lease b))).

(** The block of [hold] is left; awaiting a renewal task that has ended takes no time. *)
Definition leave_block b (e : option Fault) : Bars :=
  let b := set_bars b (worker_step (b_world b) Die) (b_at b) (b_lease b) in
  match l_where (b_lease b) with
  | Inside true => bars_to b (Unwinding e)
  | _ => let_go b e
  end.

(** The head of the loop of [run]. *)
Definition run_head b : Bars :=
  if b_stopping b then bars_to b LastFlush
  else if lost (b_lease b) then leave_block b None
  else bars_to b Running.

(** [if time.monotonic() - claim_check > CLAIM_SWEEP_INTERVAL_S] *)
Definition maybe_sweep r b : Bars :=
  if sweep_due r then set_bars b (worker_step (b_world b) Persister.Sweep) Running (b_lease b) else run_head b.

(** The trip a task in [run] waits for, as an event of [Persister.v]. *)
Definition trip b r : Event F :=
  let f := flush_fault r in
  match b_at b with
  | Flushing | LastFlush => Flush f
  | _ =>
      match phase (b_world b) with
      | Sweeping _ =>
          if answered r then SweepTrip (idle r) (Some f)
          else if transient r then SweepTrip (idle r) None else Die
      | Stopped => Die
      | Draining => if answered r then Drain f else Die
      | Claiming _ => if answered r then Claim f else Die
      | Steady => if answered r then Read else Die
      end
  end.

(** One turn inside [run]. *)
Definition run_turn r b : Bars :=
  let w := worker_step (b_world b) (trip b r) in
  let b' := set_bars b w (b_at b) (b_lease b) in
  match phase w with
  | Stopped => leave_block b' (Some (kind r))
  | Steady =>
      match b_at b, phase (b_world b) with
      | Flushing, _ => maybe_sweep r b'
      | LastFlush, _ => leave_block b' None
      | _, Steady => if flush_due r then bars_to b' Flushing else maybe_sweep r b'
      | _, _ => run_head b'
      end
  | _ => b'
  end.

Definition bars_turn r b : Bars :=
  match b_at b with
  | Holding =>
      if answered r then
        if granted_ r then set_bars b (b_world b) Grouping (set_lease (b_lease b) true false (Inside true)) else b
      else if transient r then bars_to b BarsSleep else bars_to b (BarsOver (Some Fatal))
  | Grouping =>
      if answered r then
        set_bars b (worker_step (b_world b) (Start (consumer (b_world b)) (proc (b_world b)))) Running (b_lease b)
      else leave_block b (Some (kind r))
  | Running | Flushing | LastFlush => run_turn r b
  | Unwinding e => let_go b e
  | Releasing e =>
      let b := set_bars b (b_world b) (b_at b) (set_lease (b_lease b) false (lost (b_lease b)) Outside) in
      match e with
      | None => again b
      | Some Transient => bars_to b BarsSleep
      | Some e => bars_to b (BarsOver (Some e))
      end
  | BarsSleep =>
      again {| b_world := b_world b; b_at := b_at b; b_lease := b_lease b; b_stopping := b_stopping b;
               b_backoff := backed_off (b_backoff b) |}
  | BarsOver _ => b
  end.

(** A cancellation at the await the task is in; [made]: whether the trip it was in
    is nevertheless executed.  In the [finally] of [hold] the cancellation of the
    task and that of the renewal task are one to [suppress(CancelledError)]. *)
Definition bars_cancel (made : bool) b : Bars :=
  match b_at b with
  | Holding | BarsSleep => bars_to b (BarsOver (Some Cancelled))
  | Grouping => leave_block b (Some Cancelled)
  | Running | Flushing | LastFlush =>
      let w := if made then worker_step (b_world b) (trip b unheard) else b_world b in
      leave_block (set_bars b w (b_at b) (b_lease b)) (Some Cancelled)
  | Unwinding _ => b
  | Releasing _ =>
      set_bars b (b_world b) (BarsOver (Some Cancelled)) (set_lease (b_lease b) false (lost (b_lease b)) Outside)
  | BarsOver _ => b
  end.

(** [_renew_loop] ends without a renewal. *)
Definition renewal_fails b : Bars :=
  match b_at b, l_where (b_lease b) with
  | (Grouping | Running | Flushing | LastFlush), Inside true =>
      set_bars b (b_world b) (b_at b) (set_lease (b_lease b) false true (Inside false))
  | _, _ => b
  end.

(* ------------------------------------------------------------------ *)
(** *** [run_forever(alert_persister)] *)

Definition set_alerts a (w : AlertWorld F) (at_ : AlertsAt) : AlertTask :=
  {| t_world := w; t_at := at_; t_stopping := t_stopping a; t_backoff := t_backoff a |}.

(** An exception leaves [run]. *)
Definition alerts_raise a (e : Fault) : AlertTask :=
  set_alerts a (alert_step (t_world a) Alerts.Crash)
    (match e with Transient => AlertsSleep | _ => AlertsOver (Some e) end).

Definition alerts_head a : AlertTask :=
  if t_stopping a then set_alerts a (alert_step (t_world a) Alerts.Crash) (AlertsOver None) else a.

(** The trip [run] waits for; the sweep suppresses what Redis raises. *)
Definition alert_trip a r : AlertEvent :=
  match a_phase (t_world a) with
  | Claims sweep _ =>
      if answered r then ClaimTrip (idle r) (write_fault r)
      else if sweep && transient r then SweepUnanswered else Alerts.Crash
  | Drains => if answered r then DrainTrip (write_fault r) else Alerts.Crash
  | Serves => if answered r then ReadTrip (write_fault r) else Alerts.Crash
  | Idle => Alerts.Crash
  end.

Definition alert_turn_in r a : AlertTask :=
  let a' := set_alerts a (alert_step (t_world a) (alert_trip a r)) (t_at a) in
  match a_phase (t_world a') with
  | Idle => alerts_raise a' (kind r)
  | Serves =>
      match a_phase (t_world a) with
      | Serves => if sweep_due r then set_alerts a' (alert_step (t_world a') Alerts.Sweep) (t_at a) else alerts_head a'
      | _ => alerts_head a'
      end
  | _ => a'
  end.

Definition alerts_turn r a : AlertTask :=
  match t_at a with
  | AlertsGrouping =>
      if answered r then set_alerts a (alert_step (t_world a) (Boot (a_consumer (t_world a)))) AlertsRunning
      else alerts_raise a (kind r)
  | AlertsRunning => alert_turn_in r a
  | AlertsSleep =>
      {| t_world := t_world a; t_at := AlertsGrouping; t_stopping := t_stopping a;
         t_backoff := backed_off (t_backoff a) |}
  | AlertsOver _ => a
  end.

Definition alerts_cancel (made : bool) a : AlertTask :=
  match t_at a with
  | AlertsOver _ => a
  | AlertsRunning =>
      let w := if made then alert_step (t_world a) (alert_trip a unheard) else t_world a in
      set_alerts a (alert_step w Alerts.Crash) (AlertsOver (Some Cancelled))
  | _ => set_alerts a (t_world a) (AlertsOver (Some Cancelled))
  end.

(* ------------------------------------------------------------------ *)
(** *** [main] *)

Record Worker := {
  w_bars : Bars;
  w_alerts : AlertTask;
  (** the group has cancelled its tasks *)
  w_aborted : bool;
}.
Implicit Types (p : Worker).

Definition Worker_new (w : World F) (aw : AlertWorld F) (l : LeaderLease) : Worker := {|
  w_bars := {| b_world := w; b_at := Holding; b_lease := l; b_stopping := false; b_backoff := 1 |};
  w_alerts := {| t_world := aw; t_at := AlertsGrouping; t_stopping := false; t_backoff := 1 |};
  w_aborted := false |}.

Definition bars_over b : option (option Fault) := match b_at b with BarsOver e => Some e | _ => None end.
Definition alerts_over a : option (option Fault) := match t_at a with AlertsOver e => Some e | _ => None end.

(** A task that raised; one that was cancelled did not. *)
Definition failed (over : option (option Fault)) : bool :=
  match over with Some (Some Transient) | Some (Some Fatal) => true | _ => false end.

(** The task group: the first failure cancels the other task, once. *)
Definition group_reacts (made : bool) p : Worker :=
  if negb (w_aborted p) && (failed (bars_over (w_bars p)) || failed (alerts_over (w_alerts p))) then
    {| w_bars := bars_cancel made (w_bars p); w_alerts := alerts_cancel made (w_alerts p); w_aborted := true |}
  else p.

(** [stop_all]: a leader sees the flag, anyone else is cancelled. *)
Definition stop_all (made : bool) p : Worker :=
  let b := w_bars p in
  let a := w_alerts p in
  let b := {| b_world := b_world b; b_at := b_at b; b_lease := b_lease b; b_stopping := true; b_backoff := b_backoff b |} in
  {| w_bars := if is_leader (b_lease b) then b else bars_cancel made b;
     w_alerts := {| t_world := t_world a; t_at := t_at a; t_stopping := true; t_backoff := t_backoff a |};
     w_aborted := w_aborted p |}.

(** [made]: see [bars_cancel]. *)
Inductive WorkerEvent :=
  | Signal (made : bool)
  | RenewalFails
  | BarsTurn (r : Reply) (made : bool)
  | AlertsTurn (r : Reply) (made : bool)
  (** what the ingestor appends to the two streams *)
  | TickArrives (e : Entry)
  | AlertArrives (e : Entry).

Definition with_bars p b : Worker := {| w_bars := b; w_alerts := w_alerts p; w_aborted := w_aborted p |}.
Definition with_alerts p a : Worker := {| w_bars := w_bars p; w_alerts := a; w_aborted := w_aborted p |}.

Definition process_step p (ev : WorkerEvent) : Worker :=
  match ev with
  | Signal made => stop_all made p
  | RenewalFails => with_bars p (renewal_fails (w_bars p))
  | BarsTurn r made => group_reacts made (with_bars p (bars_turn r (w_bars p)))
  | AlertsTurn r made => group_reacts made (with_alerts p (alerts_turn r (w_alerts p)))
  | TickArrives e =>
      with_bars p (set_bars (w_bars p) (worker_step (b_world (w_bars p)) (Produce e)) (b_at (w_bars p)) (b_lease (w_bars p)))
  | AlertArrives e =>
      with_alerts p (set_alerts (w_alerts p) (alert_step (t_world (w_alerts p)) (Emit e)) (t_at (w_alerts p)))
  end.

Definition process_run p (evs : list WorkerEvent) : Worker := fold_left process_step evs p.

(** [main] returns, or raises what the group raises; [None]: it is running. *)
Definition worker_exit p : option (list Fault) :=
  match bars_over (w_bars p), alerts_over (w_alerts p) with
  | Some e, Some e' =>
      Some (List.filter (fun e => match e with Cancelled => false | _ => true end) (opt_list e ++ opt_list e'))
  | _, _ => None
  end.

(* ------------------------------------------------------------------ *)
(** ** Where the lease stands *)

(** Within the block the flags are those of the renewal task. *)
Definition inside b : Prop :=
  exists renewing, l_where (b_lease b) = Inside renewing /\ is_leader (b_lease b) = renewing /\
    lost (b_lease b) = negb renewing.

Definition bars_ok b : Prop :=
  match b_at b with
  | Holding | BarsSleep | BarsOver _ => is_leader (b_lease b) = false /\ phase (b_world b) = Stopped
  | Grouping => inside b /\ phase (b_world b) = Stopped
  | Running => inside b /\ phase (b_world b) <> Stopped
  | Flushing | LastFlush => inside b /\ phase (b_world b) = Steady
  | Unwinding _ => is_leader (b_lease b) = true /\ phase (b_world b) = Stopped
  | Releasing _ => is_leader (b_lease b) = false /\ phase (b_world b) = Stopped
  end.

Lemma die_stops w : phase (worker_step w Die) = Stopped.
Proof. unfold Persister.worker_step. by destruct (phase w). Qed.

Lemma leave_block_ok b e : inside b -> bars_ok (leave_block b e).
Proof.
  intros (re & Hw & Hl & _). unfold leave_block, bars_ok. cbn. rewrite Hw. destruct re; cbn; rewrite ?Hl; split;
    done || apply die_stops.
Qed.

Lemma leave_block_at b e : exists b', leave_block b e = b' /\
  (b_at b' = Unwinding e \/ b_at b' = Releasing e) /\ b_stopping b' = b_stopping b.
Proof. eexists. split; [done|]. unfold leave_block. cbn. destruct (l_where _) as [| |[]|]; cbn; auto. Qed.

Lemma run_head_ok b : inside b -> phase (b_world b) = Steady -> bars_ok (run_head b).
Proof.
  intros Hin Hph. unfold run_head. destruct (b_stopping b); [done|].
  destruct (lost (b_lease b)); [by apply leave_block_ok|]. unfold bars_ok. cbn. by rewrite Hph.
Qed.

Lemma maybe_sweep_ok r b : inside b -> phase (b_world b) = Steady -> bars_ok (maybe_sweep r b).
Proof.
  intros Hin Hph. unfold maybe_sweep. destruct (sweep_due r); [|by apply run_head_ok].
  unfold bars_ok, Persister.worker_step. cbn. by rewrite Hph.
Qed.

(** A flush between two trips leads back to the loop or out of [run]. *)
Lemma flush_phase w f : phase w = Steady ->
  phase (worker_step w (Flush f)) = Steady \/ phase (worker_step w (Flush f)) = Stopped.
Proof.
  intros Hph. unfold Persister.worker_step, flush_to. rewrite Hph. destruct (flush _ _ _ _) as [[[? ?] ?] [?|?]]; auto.
Qed.

Lemma run_turn_ok r b : bars_ok b -> b_at b = Running \/ b_at b = Flushing \/ b_at b = LastFlush -> bars_ok (run_turn r b).
Proof.
  intros Hok Hat. assert (Hin : inside b) by (unfold bars_ok in Hok; destruct Hat as [Hat|[Hat|Hat]]; rewrite Hat in Hok; by apply Hok).
  unfold run_turn. set (w := worker_step (b_world b) (trip b r)). set (b' := set_bars b w (b_at b) (b_lease b)).
  assert (Hin' : inside b') by done.
  assert (Hfl : b_at b <> Running -> phase w = Steady \/ phase w = Stopped).
  { intros Hne. subst w. unfold trip. destruct Hat as [Hat|[Hat|Hat]]; [done|..]; rewrite Hat;
      apply flush_phase; unfold bars_ok in Hok; rewrite Hat in Hok; by apply Hok. }
  destruct (phase w) eqn:Hph; [by apply leave_block_ok| | | |];
    [destruct Hat as [Hat|Hat]; [|destruct Hfl; [by destruct Hat as [->| ->]|done..]];
     unfold bars_ok; cbn; rewrite Hat, Hph; done..| |
     destruct Hat as [Hat|Hat]; [|destruct Hfl; [by destruct Hat as [->| ->]|done..]];
     unfold bars_ok; cbn; rewrite Hat, Hph; done].
  destruct Hat as [Hat|[Hat|Hat]]; rewrite Hat.
  - destruct (phase (b_world b)); try by apply run_head_ok.
    destruct (flush_due r); [done|by apply maybe_sweep_ok].
  - by apply maybe_sweep_ok.
  - by apply leave_block_ok.
Qed.

Lemma bars_turn_ok r b : bars_ok b -> bars_ok (bars_turn r b).
Proof.
  intros Hok. unfold bars_turn.
  destruct (b_at b) eqn:Hat; try (apply run_turn_ok; [done|rewrite Hat; auto]); unfold bars_ok in Hok; rewrite Hat in Hok;
    destruct Hok as [Hl Hph].
  - destruct (answered r), (granted_ r), (transient r); unfold bars_ok; cbn; rewrite ?Hat; (split; [|done]); try done;
      by eexists.
  - destruct (answered r); [|by apply leave_block_ok]. unfold bars_ok. cbn. split; [done|].
    unfold Persister.worker_step. by rewrite Hph.
  - unfold bars_ok. done.
  - destruct e as [[]|]; unfold again, bars_ok; cbn; try done. by destruct (b_stopping b).
  - unfold again, bars_ok. cbn. by destruct (b_stopping b).
  - unfold bars_ok. by rewrite Hat.
Qed.

Lemma bars_cancel_ok made b : bars_ok b -> bars_ok (bars_cancel made b).
Proof.
  intros Hok. unfold bars_cancel. destruct (b_at b) eqn:Hat; unfold bars_ok in Hok; rewrite Hat in Hok;
    destruct Hok as [Hl Hph]; try done; try by apply leave_block_ok.
  all: unfold bars_ok; by rewrite Hat.
Qed.

Lemma renewal_fails_ok b : bars_ok b -> bars_ok (renewal_fails b).
Proof.
  intros Hok. unfold renewal_fails. unfold bars_ok in *.
  destruct (b_at b) eqn:Hat; rewrite ?Hat; try done;
    (destruct (l_where (b_lease b)) as [| |[]|] eqn:Hw; rewrite ?Hat; try done; cbn; rewrite ?Hat);
    (split; [by eexists|]); by apply Hok.
Qed.

(* ------------------------------------------------------------------ *)
(** ** Both tasks or none *)

(** What the tick persister carries outward. *)
Definition carried b : option Fault :=
  match b_at b with Unwinding e | Releasing e | BarsOver e => e | _ => None end.

Lemma leave_block_carries b e :
  carried (leave_block b e) = e /\ bars_over (leave_block b e) = None /\ b_stopping (leave_block b e) = b_stopping b.
Proof. unfold leave_block. cbn. by destruct (l_where _) as [| |[]|]. Qed.

Lemma run_head_carries b :
  (carried b = None) -> bars_over b = None ->
  carried (run_head b) = None /\ bars_over (run_head b) = None /\ b_stopping (run_head b) = b_stopping b.
Proof.
  intros Hc Ho. unfold run_head. destruct (b_stopping b) eqn:Hs; [done|].
  destruct (lost _); [|done]. destruct (leave_block_carries b None) as (-> & -> & ->). done.
Qed.

Lemma maybe_sweep_carries r b :
  carried b = None -> bars_over b = None ->
  carried (maybe_sweep r b) = None /\ bars_over (maybe_sweep r b) = None /\ b_stopping (maybe_sweep r b) = b_stopping b.
Proof. intros Hc Ho. unfold maybe_sweep. destruct (sweep_due r); [done|]. by apply run_head_carries. Qed.

Lemma run_turn_carries r b :
  b_at b = Running \/ b_at b = Flushing \/ b_at b = LastFlush ->
  carried (run_turn r b) <> Some Cancelled /\ bars_over (run_turn r b) = None /\ b_stopping (run_turn r b) = b_stopping b.
Proof.
  intros Hat. unfold run_turn. set (w := worker_step (b_world b) (trip b r)). set (b' := set_bars b w (b_at b) (b_lease b)).
  assert (Hb : carried b' = None /\ bars_over b' = None)
    by (unfold carried, bars_over; cbn; by destruct Hat as [->|[->| ->]]). destruct Hb as [Hc Ho].
  assert (Hlight : forall c : Bars, carried c = None /\ bars_over c = None /\ b_stopping c = b_stopping b' ->
    carried c <> Some Cancelled /\ bars_over c = None /\ b_stopping c = b_stopping b).
  { intros c (-> & -> & ->). done. }
  destruct (phase w); try by apply Hlight.
  - destruct (leave_block_carries b' (Some (kind r))) as (-> & -> & ->). split; [|done].
    unfold kind. by destruct (transient r).
  - destruct Hat as [Hat|[Hat|Hat]]; rewrite Hat; [destruct (phase (b_world b)); try by apply Hlight, run_head_carries| |].
    + destruct (flush_due r); [by apply Hlight|by apply Hlight, maybe_sweep_carries].
    + by apply Hlight, maybe_sweep_carries.
    + apply Hlight, leave_block_carries.
Qed.

(** A turn does not make a cancellation, and ends the task without a failure only
    after a stop. *)
Lemma bars_turn_carries r b :
  (carried (bars_turn r b) = Some Cancelled -> carried b = Some Cancelled) /\
  (bars_over (bars_turn r b) = Some None -> bars_over b = Some None \/ b_stopping b = true) /\
  b_stopping (bars_turn r b) = b_stopping b.
Proof.
  unfold bars_turn. destruct (b_at b) eqn:Hat;
    try (destruct (run_turn_carries r b) as (Hc & Ho & Hs); [rewrite Hat; auto|]; by rewrite Ho, Hs).
  - destruct (answered r), (granted_ r), (transient r); unfold carried, bars_over; cbn; rewrite ?Hat; done.
  - destruct (answered r); [done|]. destruct (leave_block_carries b (Some (kind r))) as (-> & -> & ->).
    unfold kind. by destruct (transient r).
  - unfold carried, bars_over. cbn. rewrite Hat. naive_solver.
  - unfold carried, bars_over, again. rewrite Hat. destruct e as [[]|]; cbn; try naive_solver.
    destruct (b_stopping b) eqn:E; cbn; naive_solver.
  - unfold carried, bars_over, again. rewrite Hat. cbn. destruct (b_stopping b) eqn:E; cbn; naive_solver.
  - auto.
Qed.

Lemma alerts_turn_over r a :
  (alerts_over (alerts_turn r a) = Some (Some Cancelled) -> alerts_over a = Some (Some Cancelled)) /\
  (alerts_over (alerts_turn r a) = Some None -> alerts_over a = Some None \/ t_stopping a = true) /\
  t_stopping (alerts_turn r a) = t_stopping a.
Proof.
  set (quiet := fun c : AlertTask => alerts_over c <> Some (Some Cancelled) /\
    (alerts_over c = Some None -> t_stopping a = true) /\ t_stopping c = t_stopping a).
  assert (Hquiet : forall c, quiet c ->
    (alerts_over c = Some (Some Cancelled) -> alerts_over a = Some (Some Cancelled)) /\
    (alerts_over c = Some None -> alerts_over a = Some None \/ t_stopping a = true) /\ t_stopping c = t_stopping a).
  { intros c (H1' & H2 & H3). split; [done|]. split; [auto|done]. }
  assert (Hraise : forall c, t_stopping c = t_stopping a -> quiet (alerts_raise c (kind r))).
  { intros c Hs. unfold quiet, alerts_raise, kind. by destruct (transient r). }
  assert (Hhead : forall c, t_at c = AlertsRunning -> t_stopping c = t_stopping a -> quiet (alerts_head c)).
  { intros c Hat Hs. unfold quiet, alerts_head, alerts_over. rewrite Hs. destruct (t_stopping a); cbn; by rewrite ?Hat. }
  unfold alerts_turn. destruct (t_at a) eqn:Hat; [destruct (answered r); [done|by apply Hquiet, Hraise]| |done|auto].
  apply Hquiet. unfold alert_turn_in. set (a' := set_alerts a _ (t_at a)).
  assert (Ha : quiet a') by (unfold quiet, alerts_over; cbn; by rewrite Hat).
  destruct (a_phase (t_world a')); [by apply Hraise|exact Ha..|].
  destruct (a_phase (t_world a)); try by apply Hhead.
  destruct (sweep_due r); [exact Ha|by apply Hhead].
Qed.

(** What a cancellation leaves: a task that is over, or about to be. *)
Definition ending b : Prop :=
  is_Some (bars_over b) \/ b_at b = Unwinding (Some Cancelled) \/ b_at b = Releasing (Some Cancelled).

Lemma ending_turn r b : ending b -> ending (bars_turn r b).
Proof.
  unfold ending, bars_turn, bars_over. intros [Ho|[Hat|Hat]]; [|rewrite Hat; cbn; auto..].
  destruct (b_at b) eqn:Hat; try by destruct Ho. left. by rewrite Hat.
Qed.

Lemma ending_two_turns r1 r2 b : ending b -> is_Some (bars_over (bars_turn r2 (bars_turn r1 b))).
Proof.
  unfold ending, bars_turn, bars_over. intros [Ho|[Hat|Hat]]; [|rewrite Hat; by eexists..].
  destruct (b_at b) eqn:Hat; try by destruct Ho. rewrite Hat. rewrite Hat. by eexists.
Qed.

Lemma cancel_ending made b : (forall e, b_at b <> Unwinding e) -> ending (bars_cancel made b).
Proof.
  intros Hne. assert (Hleave : forall c, ending (leave_block c (Some Cancelled))).
  { intros c. destruct (leave_block_at c (Some Cancelled)) as (c' & -> & [Hat|Hat] & _); unfold ending; auto. }
  unfold bars_cancel. destruct (b_at b) eqn:Hat; try apply Hleave; try (by destruct (Hne e)).
  all: left; unfold bars_over; cbn; rewrite ?Hat; by eexists.
Qed.

Lemma ending_cancel made b : ending b -> ending (bars_cancel made b).
Proof.
  intros Hend. destruct (b_at b) eqn:Hat; try (apply cancel_ending; intros e'; by rewrite Hat).
  unfold bars_cancel. by rewrite Hat.
Qed.

Definition stop_requested p : bool := b_stopping (w_bars p).

Definition whole p : Prop :=
  t_stopping (w_alerts p) = stop_requested p /\
  (w_aborted p = false ->
   failed (bars_over (w_bars p)) = false /\ failed (alerts_over (w_alerts p)) = false /\
   (stop_requested p = false ->
    bars_over (w_bars p) = None /\ alerts_over (w_alerts p) = None /\ carried (w_bars p) <> Some Cancelled)) /\
  (w_aborted p = true ->
   ending (w_bars p) /\ is_Some (alerts_over (w_alerts p)) /\
   failed (bars_over (w_bars p)) || failed (alerts_over (w_alerts p)) = true).

(** No cancellation finds the tick persister where it would be lost. *)
Fixpoint heard p (evs : list WorkerEvent) : Prop :=
  match evs with
  | [] => True
  | ev :: evs =>
      (w_aborted p = false -> w_aborted (process_step p ev) = true -> forall e, b_at (w_bars p) <> Unwinding e) /\
      heard (process_step p ev) evs
  end.

Lemma over_cases (o : option (option Fault)) : o <> Some None -> o <> Some (Some Cancelled) -> failed o = false -> o = None.
Proof. destruct o as [[[]|]|]; done. Qed.

Lemma alerts_cancel_over made a : is_Some (alerts_over (alerts_cancel made a)) /\
  t_stopping (alerts_cancel made a) = t_stopping a /\
  (failed (alerts_over a) = true -> alerts_over (alerts_cancel made a) = alerts_over a).
Proof. unfold alerts_cancel, alerts_over. destruct (t_at a) eqn:Hat; cbn; rewrite ?Hat; split_and!; try done; by eexists. Qed.

Lemma bars_cancel_stop made b : b_stopping (bars_cancel made b) = b_stopping b /\
  (failed (bars_over b) = true -> bars_cancel made b = b).
Proof.
  unfold bars_cancel, bars_over. destruct (b_at b) eqn:Hat; try done.
  all: by rewrite (proj2 (proj2 (leave_block_carries _ _))).
Qed.

(** What the group makes of a turn. *)
Lemma group_reacts_whole made p :
  t_stopping (w_alerts p) = stop_requested p ->
  (w_aborted p = false -> stop_requested p = false ->
   bars_over (w_bars p) <> Some None /\ alerts_over (w_alerts p) <> Some None /\
   carried (w_bars p) <> Some Cancelled /\ alerts_over (w_alerts p) <> Some (Some Cancelled)) ->
  (w_aborted p = true -> whole p) ->
  (w_aborted p = false -> w_aborted (group_reacts made p) = true -> forall e, b_at (w_bars p) <> Unwinding e) ->
  whole (group_reacts made p).
Proof.
  intros Hst Hcalm Hab Hne. unfold group_reacts in *. destruct (w_aborted p) eqn:Ha; [by apply Hab|]. cbn [negb andb] in *.
  destruct (failed (bars_over (w_bars p)) || failed (alerts_over (w_alerts p))) eqn:Hf.
  - destruct (alerts_cancel_over made (w_alerts p)) as (Ho & Hs & Hfa), (bars_cancel_stop made (w_bars p)) as [Hs' Hfb].
    unfold whole, stop_requested in *. cbn. rewrite Hs, Hs'. split_and!; [done..|]. intros _.
    split_and!; [by apply cancel_ending, Hne|done|].
    apply orb_true_iff in Hf as [Hf|Hf]; apply orb_true_iff; [left; by rewrite (Hfb Hf)|right; by rewrite (Hfa Hf)].
  - apply orb_false_iff in Hf as [Hfb Hfa]. unfold whole. rewrite Ha. split_and!; [done| |done]. intros _.
    split_and!; [done..|]. intros Hstop. destruct (Hcalm eq_refl Hstop) as (Hb & Hal & Hc & Hal').
    assert (Hc' : bars_over (w_bars p) <> Some (Some Cancelled)).
    { intros Heq. apply Hc. unfold bars_over, carried in *. by destruct (b_at (w_bars p)); simplify_eq. }
    split_and!; [by apply over_cases..|done].
Qed.

(** What depends on where the tasks are only. *)
Lemma whole_same p b a :
  b_at b = b_at (w_bars p) -> b_stopping b = b_stopping (w_bars p) ->
  t_at a = t_at (w_alerts p) -> t_stopping a = t_stopping (w_alerts p) ->
  whole p -> whole {| w_bars := b; w_alerts := a; w_aborted := w_aborted p |}.
Proof.
  intros Hb Hbs Ha Has. unfold whole, stop_requested, ending, bars_over, alerts_over, carried. cbn.
  by rewrite Hb, Hbs, Ha, Has.
Qed.

Lemma renewal_fails_same b : b_at (renewal_fails b) = b_at b /\ b_stopping (renewal_fails b) = b_stopping b.
Proof. unfold renewal_fails. destruct (b_at b) eqn:Hat; try done; by destruct (l_where _) as [| |[]|]. Qed.

Lemma stop_all_whole made p : whole p -> whole (stop_all made p).
Proof.
  intros (Hst & Hrun & Hab). unfold stop_all.
  set (b := {| b_world := _; b_at := _; b_lease := _; b_stopping := true; b_backoff := _ |}).
  assert (Hb : forall b', (b' = b \/ b' = bars_cancel made b) -> b_stopping b' = true /\
    (failed (bars_over b) = false -> failed (bars_over b') = false) /\
    (failed (bars_over b) = true -> b' = b) /\ (ending b -> ending b')).
  { intros b' [->| ->]; [done|]. destruct (bars_cancel_stop made b) as [Hs Hf].
    split_and!; [done| |done|apply ending_cancel]. intros Hnf. unfold bars_cancel.
    destruct (b_at b) eqn:Hat; try done; try by rewrite (proj1 (proj2 (leave_block_carries _ _))). }
  specialize (Hb (if is_leader (b_lease b) then b else bars_cancel made b)).
  set (b' := if is_leader (b_lease b) then b else bars_cancel made b) in *.
  destruct Hb as (Hs & Hnf & Hf & Hend); [subst b'; destruct (is_leader _); auto|]. clearbody b'.
  unfold whole, stop_requested. cbn. split_and!; [by rewrite Hs| |].
  - intros Hna. destruct (Hrun Hna) as (Hfb & Hfa & _). split_and!; [by apply Hnf|done|]. intros Hno. by rewrite Hs in Hno.
  - intros Ha. destruct (Hab Ha) as (He & Ho & Hor). split_and!; [by apply Hend|done|].
    apply orb_true_iff in Hor as [Hor|Hor]; apply orb_true_iff; [left|by right]. by rewrite (Hf Hor).
Qed.

Lemma process_step_whole p ev :
  whole p -> (w_aborted p = false -> w_aborted (process_step p ev) = true -> forall e, b_at (w_bars p) <> Unwinding e) ->
  whole (process_step p ev).
Proof.
  intros Hw Hne. pose proof Hw as (Hst & Hrun & Hab). destruct ev as [made| |r made|r made|e|e]; cbn [process_step] in *.
  - by apply stop_all_whole.
  - destruct (renewal_fails_same (w_bars p)). by apply whole_same.
  - destruct (bars_turn_carries r (w_bars p)) as (Hc & Ho & Hs). apply group_reacts_whole; cbn.
    + unfold stop_requested in *. cbn. by rewrite Hs.
    + intros Hna Hstop. unfold stop_requested in Hstop. cbn in Hstop. rewrite Hs in Hstop.
      destruct (Hrun Hna) as (_ & _ & Halive). destruct (Halive Hstop) as (Hb & Hal & Hca). rewrite Hal.
      split_and!; [|done|by auto|done]. intros [Hbad|Hbad]%Ho; [by rewrite Hb in Hbad|by rewrite Hbad in Hstop].
    + intros Ha. destruct (Hab Ha) as (He & Hal & Hor). unfold whole, stop_requested in *. cbn. rewrite Ha, Hs.
      split_and!; [done|done|]. intros _. split_and!; [by apply ending_turn|done|].
      apply orb_true_iff in Hor as [Hor|Hor]; apply orb_true_iff; [left|by right].
      unfold bars_over in *. unfold bars_turn. destruct (b_at (w_bars p)) eqn:Hat; try done. by rewrite Hat.
    + intros Hna Hab'. destruct (Hrun Hna) as (_ & Hfa & _). unfold group_reacts in Hab'. cbn in Hab'.
      rewrite Hna, Hfa, orb_false_r in Hab'. cbn in Hab'.
      destruct (failed (bars_over (bars_turn r (w_bars p)))) eqn:Hf; [|cbn in Hab'; congruence].
      intros e Hat. unfold bars_over in Hf. by rewrite Hat in Hf.
  - destruct (alerts_turn_over r (w_alerts p)) as (Hc & Ho & Hs). apply group_reacts_whole; cbn; [by rewrite Hs| | |done].
    + intros Hna Hstop. unfold stop_requested in Hstop, Hst. cbn in Hstop.
      destruct (Hrun Hna) as (_ & _ & Halive). destruct (Halive Hstop) as (Hb & Hal & Hca). rewrite Hb.
      split_and!; [done| |done|]; [intros [Hbad|Hbad]%Ho; congruence|intros Hbad%Hc; congruence].
    + intros Ha. destruct (Hab Ha) as (He & [o Hal] & Hor). unfold whole, stop_requested in *. cbn. rewrite Ha, Hs.
      assert (Hstay : alerts_over (alerts_turn r (w_alerts p)) = alerts_over (w_alerts p))
        by (unfold alerts_over, alerts_turn in *; by destruct (t_at (w_alerts p)) eqn:Hat; rewrite ?Hat).
      rewrite Hstay. split_and!; [done|done|]. intros _. by split_and!.
  - by apply whole_same.
  - by apply whole_same.
Qed.

(** C10. A worker does not persist half of its data: while no stop was asked for, both
    persisters are alive, or one has failed and then the other is cancelled, its
    process being over after at most two more turns of the tick persister - the
    lease's two awaits - with the failure among what it raises.  The exception is a
    cancellation that meets the tick persister while it awaits its renewal task. *)
Theorem worker_is_whole w aw l evs :
  heard (Worker_new w aw l) evs ->
  let p := process_run (Worker_new w aw l) evs in
  (w_aborted p = false -> stop_requested p = false ->
   bars_over (w_bars p) = None /\ alerts_over (w_alerts p) = None) /\
  (w_aborted p = true ->
   forall r1 r2, exists es, worker_exit (with_bars p (bars_turn r2 (bars_turn r1 (w_bars p)))) = Some es /\ es <> []).
Proof.
  intros Hheard p. assert (Hw : whole p).
  { assert (Hnew : whole (Worker_new w aw l)) by (split_and!; done).
    subst p. revert Hnew Hheard. generalize (Worker_new w aw l) as p0.
    induction evs as [|ev evs IH]; intros p0 Hnew; [done|]. intros [Hne Hh]. cbn.
    apply IH; [by apply process_step_whole|done]. }
  destruct Hw as (Hst & Hrun & Hab). split.
  - intros Hna Hstop. destruct (Hrun Hna) as (_ & _ & Halive). by destruct (Halive Hstop) as (? & ? & _).
  - intros Ha r1 r2. destruct (Hab Ha) as (He & [o Ho] & Hor).
    destruct (ending_two_turns r1 r2 _ He) as [o' Ho']. unfold worker_exit. cbn. rewrite Ho', Ho. eexists. split; [done|].
    intros Hnil. apply orb_true_iff in Hor as [Hor|Hor].
    + assert (Hsame : bars_turn r2 (bars_turn r1 (w_bars p)) = w_bars p).
      { unfold bars_over in Hor. destruct (b_at (w_bars p)) eqn:Hat; try done. unfold bars_turn. by rewrite Hat, Hat. }
      rewrite Hsame in Ho'. rewrite Ho' in Hor. by destruct o' as [[]|].
    + rewrite Ho in Hor. destruct o' as [[]|], o as [[]|]; done.
Qed.

(* ------------------------------------------------------------------ *)
(** ** Stopping *)

(** The turns a tick persister that was asked to stop can still take. *)
Definition turns_left b : nat :=
  match b_at b with
  | BarsSleep => 1
  | Releasing _ => 2
  | Unwinding _ => 3
  | LastFlush => 4
  | Flushing => 6
  | Running =>
      match phase (b_world b) with
      | Steady => 7
      | Sweeping _ => 5
      | _ => startup_left (b_world b) + 4
      end
  | Holding | Grouping | BarsOver _ => 0
  end.

(** In its block, or past it for good. *)
Definition entered b : Prop := match b_at b with Holding | Grouping => False | _ => True end.
Definition stops b : Prop := b_stopping b = true /\ bars_ok b /\ entered b.

Lemma leave_block_entered b e : entered (leave_block b e).
Proof. unfold entered. destruct (leave_block_at b e) as (b' & -> & [->| ->] & _); done. Qed.

Lemma run_head_entered b : entered (run_head b).
Proof. unfold run_head. destruct (b_stopping b); [done|]. destruct (lost (b_lease b)); [apply leave_block_entered|done]. Qed.

Lemma maybe_sweep_entered r b : entered (maybe_sweep r b).
Proof. unfold maybe_sweep. destruct (sweep_due r); [done|apply run_head_entered]. Qed.

Lemma run_turn_entered r b : entered b -> entered (run_turn r b).
Proof.
  intros Hb. unfold run_turn. set (b' := set_bars b _ (b_at b) (b_lease b)).
  destruct (phase _); try exact Hb; [apply leave_block_entered|].
  destruct (b_at b); try apply maybe_sweep_entered; try apply leave_block_entered;
    (destruct (phase _); try apply run_head_entered; destruct (flush_due r); [done|apply maybe_sweep_entered]).
Qed.

Lemma leave_block_left b e : (turns_left (leave_block b e) <= 3)%nat.
Proof. unfold leave_block, turns_left. cbn. destruct (l_where _) as [| |[]|]; cbn; lia. Qed.

Lemma run_head_left b : b_stopping b = true -> turns_left (run_head b) = 4%nat.
Proof. intros Hs. unfold run_head. by rewrite Hs. Qed.

Lemma maybe_sweep_left r b : b_stopping b = true -> phase (b_world b) = Steady -> (turns_left (maybe_sweep r b) <= 5)%nat.
Proof.
  intros Hs Hph. unfold maybe_sweep. destruct (sweep_due r); [|rewrite run_head_left by done; lia].
  unfold turns_left, Persister.worker_step. cbn. by rewrite Hph.
Qed.

(** The books of [ExactlyOnce.v] say how long a start can still take. *)
Section Books.
Context `{!PyFloatOrder F} (T0 : gmap key (Core F)) (es : list Entry).
Context (Hrows : (0 < max_rows)%nat) (Hlog : log_ok float_of bucket_seconds T0 es).
Notation worker_inv := (worker_inv float_of bucket_seconds T0 max_rows es).

Lemma quiet_step w ev : produced ev = [] -> start_ok w ev -> worker_inv w -> worker_inv (worker_step w ev).
Proof.
  intros Hp Hs Hinv. rewrite <- (app_nil_r es), <- Hp. apply step_inv; try done. by rewrite Hp, app_nil_r.
Qed.

Lemma leave_block_inv b e : worker_inv (b_world b) -> worker_inv (b_world (leave_block b e)).
Proof.
  intros Hinv. assert (Hd : worker_inv (worker_step (b_world b) Die)) by (by apply quiet_step).
  unfold leave_block. cbn. by destruct (l_where _) as [| |[]|].
Qed.

Lemma run_head_inv b : worker_inv (b_world b) -> worker_inv (b_world (run_head b)).
Proof. intros Hinv. unfold run_head. destruct (b_stopping b), (lost (b_lease b)); try done. by apply leave_block_inv. Qed.

Lemma maybe_sweep_inv r b : worker_inv (b_world b) -> worker_inv (b_world (maybe_sweep r b)).
Proof.
  intros Hinv. unfold maybe_sweep. destruct (sweep_due r); [by apply quiet_step|by apply run_head_inv].
Qed.

Lemma trip_start_ok b r : (forall id, idle r id = false) -> start_ok (b_world b) (trip b r) /\ produced (trip b r) = [].
Proof.
  intros Hidle. unfold trip, start_ok.
  destruct (b_at b), (phase (b_world b)), (answered r), (transient r); cbn; split; try done;
    (apply Forall_forall; intros; apply Hidle).
Qed.

Lemma run_turn_inv r b : (forall id, idle r id = false) -> worker_inv (b_world b) -> worker_inv (b_world (run_turn r b)).
Proof.
  intros Hidle Hinv. destruct (trip_start_ok b r Hidle) as [Hs Hp]. pose proof (quiet_step _ _ Hp Hs Hinv) as Hw.
  unfold run_turn. set (w := worker_step (b_world b) (trip b r)) in *. destruct (phase w); try done; [by apply leave_block_inv|].
  assert (Hh : worker_inv (b_world (run_head (set_bars b w (b_at b) (b_lease b))))) by (by apply run_head_inv).
  assert (Hm : worker_inv (b_world (maybe_sweep r (set_bars b w (b_at b) (b_lease b))))) by (by apply maybe_sweep_inv).
  destruct (b_at b); try (by apply leave_block_inv); try exact Hm;
    (destruct (phase (b_world b)); try exact Hh; destruct (flush_due r); [exact Hw|exact Hm]).
Qed.

(** A trip of a task in [run] brings it nearer to its end. *)
Lemma trip_left r b :
  (forall id, idle r id = false) -> worker_inv (b_world b) -> b_at b = Running -> phase (b_world b) <> Stopped ->
  let w := worker_step (b_world b) (trip b r) in
  match phase w with
  | Stopped => True
  | Steady => (5 <= turns_left b)%nat
  | _ => (startup_left w + 4 < turns_left b)%nat /\ forall c, phase w <> Sweeping c
  end.
Proof.
  intros Hidle Hinv Hat Hph. unfold turns_left, trip. rewrite Hat.
  destruct (phase (b_world b)) as [| |cur| |cur] eqn:Hp; [done| | | |].
  - destruct (answered r); [|by rewrite die_stops].
    destruct (step_drain _ _ _ _ Hrows es (b_world b) (flush_fault r) Hlog Hinv Hp) as (_ & Hlt & Hcl). cbv zeta in *.
    unfold started_clean in Hcl. destruct (phase (worker_step _ _)); [done|split; [lia|done]..|lia|done].
  - destruct (answered r); [|by rewrite die_stops].
    destruct (step_claim _ _ _ _ Hrows es (b_world b) (flush_fault r) cur Hlog Hinv Hp) as (_ & Hlt & Hcl). cbv zeta in *.
    unfold started_clean in Hcl. destruct (phase (worker_step _ _)); [done|split; [lia|done]..|lia|done].
  - destruct (answered r); [|by rewrite die_stops]. unfold Persister.worker_step, read_new, take_in. rewrite Hp. cbn.
    destruct (xreadgroup_new _ _ _) as [g new]. destruct (ingest_all _ _ _ _) as [p [?|?]]; cbn; rewrite ?Hp; lia || done.
  - destruct (answered r).
    + unfold Persister.worker_step, sweep_abandoned. rewrite Hp. cbn.
      pose proof (xautoclaim_idle_spec (idle r) (consumer (b_world b)) cur max_rows (grp (b_world b))) as Hspec.
      destruct (xautoclaim_idle _ _ _ _ _) as [g [next [|e l]]]; cbn; [lia|]. destruct Hspec as (_ & Hall & _).
      apply Forall_cons in Hall as [He _]. by rewrite Hidle in He.
    + destruct (transient r); [|by rewrite die_stops]. unfold Persister.worker_step. rewrite Hp. cbn. lia.
Qed.

Lemma run_turn_left r b :
  (forall id, idle r id = false) -> worker_inv (b_world b) -> bars_ok b -> b_stopping b = true ->
  b_at b = Running \/ b_at b = Flushing \/ b_at b = LastFlush -> (turns_left (run_turn r b) < turns_left b)%nat.
Proof.
  intros Hidle Hinv Hok Hs Hat. unfold run_turn. set (w := worker_step (b_world b) (trip b r)).
  set (b' := set_bars b w (b_at b) (b_lease b)). pose proof (leave_block_left b') as Hleave.
  destruct Hat as [Hat|Hat].
  - unfold bars_ok in Hok. rewrite Hat in Hok. destruct Hok as [_ Hph].
    pose proof (trip_left r b Hidle Hinv Hat Hph) as Ht. cbv zeta in Ht. fold w in Ht. rewrite Hat.
    assert (H4 : (4 <= turns_left b)%nat) by (unfold turns_left; rewrite Hat; destruct (phase (b_world b)); lia).
    destruct (phase w) eqn:Hw.
    + specialize (Hleave (Some (kind r))). lia.
    + unfold turns_left at 1. cbn. rewrite Hat, Hw. lia.
    + unfold turns_left at 1. cbn. rewrite Hat, Hw. lia.
    + pose proof (run_head_left b' Hs). pose proof (maybe_sweep_left r b' Hs Hw).
      destruct (phase (b_world b)) eqn:Hp; try lia. unfold turns_left at 2. rewrite Hat, Hp.
      destruct (flush_due r); [unfold turns_left; cbn; lia|lia].
    + destruct Ht as [_ Hne]. by destruct (Hne cursor).
  - assert (Hst : phase (b_world b) = Steady)
      by (unfold bars_ok in Hok; destruct Hat as [Hat|Hat]; rewrite Hat in Hok; by apply Hok).
    assert (Hw : phase w = Steady \/ phase w = Stopped).
    { subst w. unfold trip. destruct Hat as [Hat|Hat]; rewrite Hat; by apply flush_phase. }
    assert (H4 : (4 <= turns_left b)%nat) by (unfold turns_left; destruct Hat as [Hat|Hat]; rewrite Hat; lia).
    destruct Hw as [Hw|Hw]; rewrite Hw; [|specialize (Hleave (Some (kind r))); lia].
    destruct Hat as [Hat|Hat]; rewrite Hat; [|specialize (Hleave None); lia].
    pose proof (maybe_sweep_left r b' Hs Hw). unfold turns_left at 2. rewrite Hat. lia.
Qed.

Lemma stops_turn r b :
  (forall id, idle r id = false) -> worker_inv (b_world b) -> stops b -> bars_over b = None ->
  worker_inv (b_world (bars_turn r b)) /\ stops (bars_turn r b) /\ (turns_left (bars_turn r b) < turns_left b)%nat.
Proof.
  intros Hidle Hinv (Hs & Hok & He) Ho.
  destruct (bars_turn_carries r b) as (_ & _ & Hs'). rewrite Hs in Hs'. pose proof (bars_turn_ok r b Hok) as Hok'.
  unfold stops. rewrite Hs'. enough (worker_inv (b_world (bars_turn r b)) /\ entered (bars_turn r b) /\
    (turns_left (bars_turn r b) < turns_left b)%nat) by (by destruct_and!).
  unfold bars_turn, bars_over in *. destruct (b_at b) eqn:Hat; try (by unfold entered in He; rewrite Hat in He); try done.
  1-3: split_and!; [by apply run_turn_inv|by apply run_turn_entered|apply run_turn_left; rewrite ?Hat; auto].
  - unfold turns_left. rewrite Hat. cbn. split_and!; [done..|lia].
  - unfold turns_left, again, entered. rewrite Hat. destruct e as [[]|]; cbn; rewrite ?Hs; cbn; (split_and!; [done..|lia]).
  - unfold turns_left, again, entered. rewrite Hat. cbn. rewrite Hs. cbn. split_and!; [done..|lia].
Qed.

Lemma renewal_stops b : stops b -> stops (renewal_fails b) /\ turns_left (renewal_fails b) = turns_left b /\
  b_world (renewal_fails b) = b_world b.
Proof.
  intros (Hs & Hok & He). destruct (renewal_fails_same b) as [Hat Hs']. pose proof (renewal_fails_ok b Hok).
  assert (Hw : b_world (renewal_fails b) = b_world b)
    by (unfold renewal_fails; destruct (b_at b), (l_where (b_lease b)) as [| |[]|]; done).
  unfold stops, entered, turns_left. rewrite Hat, Hs', Hw. done.
Qed.

(** Turns of a task, and the end of its lease among them. *)
Definition bars_event b (ev : option Reply) : Bars :=
  match ev with Some r => bars_turn r b | None => renewal_fails b end.

Lemma stops_in_time evs : forall b,
  Forall (fun r => forall id, idle r id = false) (omap (fun ev => ev) evs) ->
  worker_inv (b_world b) -> stops b -> (turns_left b <= length (omap (fun ev => ev) evs))%nat ->
  is_Some (bars_over (fold_left bars_event evs b)).
Proof.
  induction evs as [|[r|] evs IH]; intros b Hall Hinv Hst Hle; cbn in *.
  - destruct Hst as (_ & _ & He). unfold entered, turns_left, bars_over in *. destruct (b_at b); try done; try lia.
    destruct (phase (b_world b)); lia.
  - apply Forall_cons in Hall as [Hr Hall]. destruct (bars_over b) as [o|] eqn:Ho.
    + clear IH. assert (Hb : bars_turn r b = b) by (unfold bars_turn, bars_over in *; by destruct (b_at b)).
      rewrite Hb. clear Hall Hle Hr Hb. revert Ho. clear. revert b. induction evs as [|ev evs IH]; intros b Ho; [by eexists|].
      cbn. apply IH. unfold bars_event, bars_turn, renewal_fails, bars_over in *. destruct ev, (b_at b) eqn:Hat; try done;
        by rewrite Hat.
    + destruct (stops_turn r b Hr Hinv Hst Ho) as (Hinv' & Hst' & Hlt). apply IH; [done..|lia].
  - destruct (renewal_stops b Hst) as (Hst' & Hleft & Hw). apply IH; [done|by rewrite Hw|done|by rewrite Hleft].
Qed.
End Books.

(** C38. Asked to stop, the tick persister stops: one that is inside its block with the
    flag set, after an [orderly] history (well-formed entries, its own pending ones found
    first at each start) and with no sweep finding an idle entry of another worker, is
    over after as many more turns as there are pending entries and seven, whichever
    trips to Redis, the database and the lease fail, and having flushed what it holds if
    none does.  Without these conditions it may go on: the drain of a start looks at no
    flag, and one of malformed entries never ends
    ([ExactlyOnce.malformed_drain_never_ends]).  The alert persister promises less still
    ([stop_ignored_without_redis]). *)
Theorem stop_ends_bars `{!PyFloatOrder F} w0 evs0 b evs :
  orderly float_of bucket_seconds max_rows w0 evs0 ->
  b_world b = Persister.worker_run float_of bucket_seconds max_rows w0 evs0 -> stops b ->
  Forall (fun r => forall id, idle r id = false) (omap (fun ev => ev) evs) ->
  (length (pending (grp (b_world b))) + 7 <= length (omap (fun ev => ev) evs))%nat ->
  is_Some (bars_over (fold_left bars_event evs b)).
Proof.
  intros Hord Hw Hst Hidle Hlen. pose proof (orderly_books _ _ _ _ _ Hord) as Hinv. rewrite <- Hw in Hinv.
  destruct Hord as (Hrows & _ & _ & _ & Hlog & _). eapply stops_in_time; try done.
  unfold turns_left, startup_left. destruct (b_at b); try lia. destruct (phase (b_world b)); lia.
Qed.

(** With Redis gone, the alert persister tries again for ever, asked to stop or not. *)
Lemma stop_ignored_without_redis a rs :
  t_at a = AlertsGrouping \/ t_at a = AlertsSleep ->
  Forall (fun r => answered r = false /\ transient r = true) rs ->
  alerts_over (fold_left (fun a r => alerts_turn r a) rs a) = None.
Proof.
  intros Hat Hrs. revert a Hat. induction Hrs as [|r rs [Hr Ht] _ IH]; intros a Hat.
  - unfold alerts_over. cbn. by destruct Hat as [-> | ->].
  - cbn [fold_left]. apply IH. unfold alerts_turn. destruct Hat as [Hat|Hat]; rewrite Hat; [|by left].
    rewrite Hr. unfold alerts_raise, kind. rewrite Ht. by right.
Qed.

(* ------------------------------------------------------------------ *)
(** ** The process as a client of its streams *)

(** A later world of the same persister, by steps that append nothing. *)
Definition feeds w w' : Prop :=
  exists evs, w' = Persister.worker_run float_of bucket_seconds max_rows w evs /\ stream evs = [].

Lemma feeds_refl w : feeds w w.
Proof. by exists []. Qed.

Lemma feeds_step w w' ev : produced ev = [] -> feeds w w' -> feeds w (worker_step w' ev).
Proof.
  intros Hp (evs & -> & Hs). exists (evs ++ [ev]). unfold Persister.worker_run. rewrite fold_left_app.
  split; [done|]. unfold stream in *. rewrite bind_app, Hs. cbn. by rewrite app_nil_r.
Qed.

Lemma trip_produces b r : produced (trip b r) = [].
Proof. unfold trip. by destruct (b_at b), (phase (b_world b)), (answered r), (transient r). Qed.

Lemma leave_block_feeds w b e : feeds w (b_world b) -> feeds w (b_world (leave_block b e)).
Proof.
  intros Hf. pose proof (feeds_step w _ Die eq_refl Hf) as Hd. unfold leave_block. cbn.
  by destruct (l_where _) as [| |[]|].
Qed.

Lemma run_head_feeds w b : feeds w (b_world b) -> feeds w (b_world (run_head b)).
Proof.
  intros Hf. unfold run_head. destruct (b_stopping b); [done|]. destruct (lost (b_lease b)); [by apply leave_block_feeds|done].
Qed.

Lemma maybe_sweep_feeds w r b : feeds w (b_world b) -> feeds w (b_world (maybe_sweep r b)).
Proof. intros Hf. unfold maybe_sweep. destruct (sweep_due r); [by apply feeds_step|by apply run_head_feeds]. Qed.

Lemma bars_turn_feeds r b : feeds (b_world b) (b_world (bars_turn r b)).
Proof.
  pose proof (feeds_refl (b_world b)) as H1'. unfold bars_turn.
  assert (Hrun : feeds (b_world b) (b_world (run_turn r b))).
  { pose proof (feeds_step _ _ _ (trip_produces b r) H1') as Hw. unfold run_turn.
    set (w := worker_step (b_world b) (trip b r)) in *. destruct (phase w); try done; [by apply leave_block_feeds|].
    destruct (b_at b); try (by apply maybe_sweep_feeds); try (by apply leave_block_feeds);
      (destruct (phase (b_world b)); try (by apply run_head_feeds); destruct (flush_due r); [done|by apply maybe_sweep_feeds]). }
  destruct (b_at b); try done.
  - destruct (answered r), (granted_ r), (transient r); done.
  - destruct (answered r); [by apply feeds_step|by apply leave_block_feeds].
  - by destruct e as [[]|].
Qed.

Lemma bars_cancel_feeds made b : feeds (b_world b) (b_world (bars_cancel made b)).
Proof.
  pose proof (feeds_refl (b_world b)) as H1'. unfold bars_cancel. destruct (b_at b); try done.
  1: by apply leave_block_feeds.
  all: apply leave_block_feeds; destruct made; [apply feeds_step; [apply trip_produces|done]|done].
Qed.

(** The same for the alert persister. *)
Definition alert_feeds (w w' : AlertWorld F) : Prop :=
  exists evs, w' = Alerts.alert_run float_of int_of instrument batch_size w evs /\ alert_stream evs = [].

Lemma alert_feeds_refl (w : AlertWorld F) : alert_feeds w w.
Proof. by exists []. Qed.

Lemma alert_feeds_step (w w' : AlertWorld F) ev : emitted ev = [] -> alert_feeds w w' -> alert_feeds w (alert_step w' ev).
Proof.
  intros Hp (evs & -> & Hs). exists (evs ++ [ev]). unfold Alerts.alert_run. rewrite fold_left_app.
  split; [done|]. unfold alert_stream in *. rewrite bind_app, Hs. cbn. by rewrite app_nil_r.
Qed.

Lemma alert_trip_emits a r : emitted (alert_trip a r) = [].
Proof. unfold alert_trip. by destruct (a_phase (t_world a)) as [| |[]|], (answered r), (transient r). Qed.

Lemma alerts_head_feeds (w : AlertWorld F) a : alert_feeds w (t_world a) -> alert_feeds w (t_world (alerts_head a)).
Proof. intros Hf. unfold alerts_head. destruct (t_stopping a); [by apply alert_feeds_step|done]. Qed.

Lemma alerts_turn_feeds r a : alert_feeds (t_world a) (t_world (alerts_turn r a)).
Proof.
  pose proof (alert_feeds_refl (t_world a)) as H1'. unfold alerts_turn. destruct (t_at a) eqn:Hat; try done.
  - destruct (answered r); by apply alert_feeds_step.
  - unfold alert_turn_in. pose proof (alert_feeds_step _ _ _ (alert_trip_emits a r) H1') as Hw.
    set (w := alert_step (t_world a) (alert_trip a r)) in *. cbn [t_world set_alerts].
    destruct (a_phase w); try done; [by apply alert_feeds_step|].
    destruct (a_phase (t_world a)); try by apply alerts_head_feeds.
    destruct (sweep_due r); [by apply alert_feeds_step|by apply alerts_head_feeds].
Qed.

Lemma alerts_cancel_feeds made a : alert_feeds (t_world a) (t_world (alerts_cancel made a)).
Proof.
  pose proof (alert_feeds_refl (t_world a)) as H1'. unfold alerts_cancel. destruct (t_at a); try done.
  apply alert_feeds_step; [done|]. destruct made; [|done]. apply alert_feeds_step; [apply alert_trip_emits|done].
Qed.

Definition ticks_of (evs : list WorkerEvent) : list Entry :=
  evs ≫= fun ev => match ev with TickArrives e => [e] | _ => [] end.
Definition alerts_of (evs : list WorkerEvent) : list Entry :=
  evs ≫= fun ev => match ev with AlertArrives e => [e] | _ => [] end.

Lemma feeds_trans w w' w'' : feeds w w' -> feeds w' w'' -> feeds w w''.
Proof.
  intros (e1 & -> & H1') (e2 & -> & H2'). exists (e1 ++ e2). unfold Persister.worker_run, stream in *.
  by rewrite fold_left_app, bind_app, H1', H2'.
Qed.
Lemma alert_feeds_trans (w w' w'' : AlertWorld F) : alert_feeds w w' -> alert_feeds w' w'' -> alert_feeds w w''.
Proof.
  intros (e1 & -> & H1') (e2 & -> & H2'). exists (e1 ++ e2). unfold Alerts.alert_run, alert_stream in *.
  by rewrite fold_left_app, bind_app, H1', H2'.
Qed.

Lemma group_reacts_feeds made p :
  feeds (b_world (w_bars p)) (b_world (w_bars (group_reacts made p))) /\
  alert_feeds (t_world (w_alerts p)) (t_world (w_alerts (group_reacts made p))).
Proof.
  unfold group_reacts. destruct (_ && _); [split; [apply bars_cancel_feeds|apply alerts_cancel_feeds]|].
  split; [apply feeds_refl|apply alert_feeds_refl].
Qed.

Lemma process_step_feeds p ev :
  (exists bevs, b_world (w_bars (process_step p ev)) = Persister.worker_run float_of bucket_seconds max_rows (b_world (w_bars p)) bevs /\
     stream bevs = ticks_of [ev]) /\
  (exists aevs, t_world (w_alerts (process_step p ev)) = Alerts.alert_run float_of int_of instrument batch_size (t_world (w_alerts p)) aevs /\
     alert_stream aevs = alerts_of [ev]).
Proof.
  destruct ev as [made| |r made|r made|e|e]; cbn [process_step].
  - split; [|apply alert_feeds_refl]. unfold stop_all. cbn. destruct (is_leader _); [apply feeds_refl|].
    set (b := {| b_world := _; b_at := _; b_lease := _; b_stopping := true; b_backoff := _ |}).
    exact (bars_cancel_feeds made b).
  - split; [|apply alert_feeds_refl]. cbn. unfold renewal_fails.
    destruct (b_at (w_bars p)), (l_where (b_lease (w_bars p))) as [| |[]|]; apply feeds_refl.
  - destruct (group_reacts_feeds made (with_bars p (bars_turn r (w_bars p)))) as [Hb Ha]. split; [|exact Ha].
    exact (feeds_trans _ _ _ (bars_turn_feeds r (w_bars p)) Hb).
  - destruct (group_reacts_feeds made (with_alerts p (alerts_turn r (w_alerts p)))) as [Hb Ha]. split; [exact Hb|].
    exact (alert_feeds_trans _ _ _ (alerts_turn_feeds r (w_alerts p)) Ha).
  - split; [by exists [Produce e]|apply alert_feeds_refl].
  - split; [apply feeds_refl|by exists [Emit e]].
Qed.

(** The process drives its two persisters as the theorems on them allow: what it
    does to the stream of ticks and to [bars_1m] is a history of [Persister.v], what
    it does to the stream of alerts and to [alert_events] one of [Alerts.v], over
    the entries that arrived. *)
Theorem worker_drives_persisters p evs :
  (exists bevs, b_world (w_bars (process_run p evs)) =
       Persister.worker_run float_of bucket_seconds max_rows (b_world (w_bars p)) bevs /\ stream bevs = ticks_of evs) /\
  (exists aevs, t_world (w_alerts (process_run p evs)) =
       Alerts.alert_run float_of int_of instrument batch_size (t_world (w_alerts p)) aevs /\ alert_stream aevs = alerts_of evs).
Proof.
  revert p. induction evs as [|ev evs IH]; intros p; [split; by exists []|].
  destruct (process_step_feeds p ev) as [(b1 & Hb1 & Hs1) (a1 & Ha1 & Ht1)].
  destruct (IH (process_step p ev)) as [(b2 & Hb2 & Hs2) (a2 & Ha2 & Ht2)]. split.
  - exists (b1 ++ b2). cbn [process_run fold_left]. unfold process_run in Hb2. rewrite Hb2, Hb1.
    unfold Persister.worker_run, stream, ticks_of in *. rewrite fold_left_app, bind_app, Hs1, Hs2. cbn.
    by rewrite app_nil_r.
  - exists (a1 ++ a2). cbn [process_run fold_left]. unfold process_run in Ha2. rewrite Ha2, Ha1.
    unfold Alerts.alert_run, alert_stream, alerts_of in *. rewrite fold_left_app, bind_app, Ht1, Ht2. cbn.
    by rewrite app_nil_r.
Qed.
End Worker.

(* ------------------------------------------------------------------ *)
(** ** Examples *)

Section Examples.
#[local] Existing Instance plain64.
#[local] Existing Instance iso_utc.
#[local] Existing Instance list_group.
#[local] Instance demo_float_order : @PyFloatOrder spec_float plain64 := binary64_order _ _ _.

Definition demo_worker_lease : LeaderLease := {|
  ttl_ms := 10000; renew_ms := 3000; instance_id := "w1"; is_leader := false; lost := false; l_where := Outside |}.

(** All goes well; and the exceptions that a turn may meet. *)
Definition well : Reply := {|
  answered := true; transient := true; granted_ := true; flush_fault := FlushOk; write_fault := Written;
  idle := fun _ => false; flush_due := true; sweep_due := false |}.
Definition broken (kind_transient : bool) : Reply := {|
  answered := false; transient := kind_transient; granted_ := false; flush_fault := CommitFailed;
  write_fault := Refused; idle := fun _ => false; flush_due := false; sweep_due := false |}.
Definition refusing : Reply := {|
  answered := true; transient := false; granted_ := true; flush_fault := CommitFailed; write_fault := Written;
  idle := fun _ => false; flush_due := true; sweep_due := false |}.

Definition demo_worker : Worker (F := spec_float) :=
  Worker_new (demo_world Persister_new) demo_alerts demo_worker_lease.
Notation demo_process_run := (process_run demo_float demo_int_of (fun _ => true) 60 2 10).
Notation bars_ok_turn := (BarsTurn well false).
Notation alerts_ok_turn := (AlertsTurn well false).

Definition demo_refused : Entry := {|
  e_id := (6, 0);
  e_fields := <["threshold_value" := "3"]> (e_fields (demo_alert 6 "2" "" "stressed" "normal")) |}%string.

(** A bar is written, then an alert that the table refuses ends the other task and
    takes this one with it: the two do not have blast radii of their own. *)
Definition demo_poisoned : list WorkerEvent := [
  bars_ok_turn; bars_ok_turn; bars_ok_turn; bars_ok_turn; alerts_ok_turn; alerts_ok_turn; alerts_ok_turn;
  TickArrives (demo_tick 5000 "3"); bars_ok_turn; bars_ok_turn;
  AlertArrives demo_refused; AlertsTurn refusing false]%string.

Lemma poisoned_alert_ends_both :
  let p := demo_process_run demo_worker (demo_poisoned ++ [bars_ok_turn; bars_ok_turn]) in
  worker_exit p = Some [Fatal] /\ length (waiting (a_grp (t_world (w_alerts p))) ++ (pending (a_grp (t_world (w_alerts p)))).*1) = 1%nat.
Proof. vm_compute. repeat split. Qed.

Lemma worker_is_whole_witness :
  let p := demo_process_run demo_worker demo_poisoned in
  w_aborted p = true /\ (r_tick_count <$> table (b_world (w_bars p)) !! ("EURUSD"%string, 0)) = Some 1 /\
  forall r1 r2, exists es, worker_exit (with_bars p
    (bars_turn demo_float 60 2 r2 (bars_turn demo_float 60 2 r1 (w_bars p)))) = Some es /\ es <> [].
Proof.
  split; [vm_compute; reflexivity|]. split; [vm_compute; reflexivity|].
  apply (worker_is_whole demo_float demo_int_of (fun _ => true) 60 2 10
    (demo_world Persister_new) demo_alerts demo_worker_lease demo_poisoned); [|vm_compute; reflexivity].
  vm_compute. repeat split; intros; discriminate.
Defined.

(** The alert persister fails while the tick persister, its lease given up after a
    failed read, awaits its renewal task: the group's one cancellation is taken for
    the task's, and the tick persister goes on alone. *)
Definition demo_unheard : list WorkerEvent := [
  bars_ok_turn; bars_ok_turn; bars_ok_turn; bars_ok_turn; alerts_ok_turn; alerts_ok_turn; alerts_ok_turn;
  BarsTurn (broken true) false; AlertArrives demo_refused; AlertsTurn refusing false;
  bars_ok_turn; bars_ok_turn; bars_ok_turn; bars_ok_turn; bars_ok_turn; bars_ok_turn; bars_ok_turn;
  TickArrives (demo_tick 5000 "3"); bars_ok_turn; bars_ok_turn]%string.

Lemma cancellation_unheard :
  let p := demo_process_run demo_worker demo_unheard in
  w_aborted p = true /\ worker_exit p = None /\ bars_over (w_bars p) = None /\ is_leader (b_lease (w_bars p)) = true /\
  (r_tick_count <$> table (b_world (w_bars p)) !! ("EURUSD"%string, 0)) = Some 1.
Proof. vm_compute. repeat split. Qed.

(** Asked to stop, and deposed before the loop looks: it flushes although another
    worker may replay the same entries. *)
Definition demo_deposed_stop : list WorkerEvent := [
  bars_ok_turn; bars_ok_turn; bars_ok_turn; bars_ok_turn; TickArrives (demo_tick 5000 "3"); Signal false; RenewalFails;
  BarsTurn {| answered := true; transient := true; granted_ := false; flush_fault := FlushOk; write_fault := Written;
              idle := fun _ => false; flush_due := false; sweep_due := false |} false;
  bars_ok_turn]%string.

Lemma deposed_worker_flushes :
  let p := demo_process_run demo_worker demo_deposed_stop in
  lost (b_lease (w_bars p)) = true /\
  (r_tick_count <$> table (b_world (w_bars p)) !! ("EURUSD"%string, 0)) = Some 1.
Proof. vm_compute. repeat split. Qed.

(** A restarted persister, with two entries of its last life pending, is told to
    stop while it drains them; the database is down. *)
Definition demo_stopping : Bars (F := spec_float) := {|
  b_world := worker_run demo_float 60 2 (demo_world Persister_new) demo_restart;
  b_at := Running; b_lease := set_lease demo_worker_lease true false (Inside true);
  b_stopping := true; b_backoff := 1 |}.

Lemma stop_ends_bars_witness :
  phase (b_world demo_stopping) = Draining /\ length (pending (grp (b_world demo_stopping))) = 2%nat /\
  is_Some (bars_over (fold_left (bars_event demo_float 60 2) (None :: replicate 9 (Some refusing)) demo_stopping)).
Proof.
  split; [vm_compute; reflexivity|]. split; [vm_compute; reflexivity|].
  apply (stop_ends_bars demo_float 60 2 (demo_world Persister_new) demo_restart); [exact demo_restart_orderly|done| | |].
  - split; [done|]. split; [|done]. split; [by exists true|]. by vm_compute.
  - cbn [omap list_omap]. change (omap _ _) with (replicate 9 refusing). by apply Forall_replicate.
  - vm_compute. lia.
Defined.

(** A connection refused for as long as the loop lasts, and one that answers that it
    is not ready yet, which is no [OSError]. *)
Lemma connect_gives_up answers :
  (forall i, (i < 30)%nat -> answers i = ConnectOSError) -> connect answers = Raise RuntimeError.
Proof. intros Hall. unfold connect. rewrite (connect_loop_first 30 30 0) by (intros; by apply Hall). done. Qed.

Lemma connect_not_retried answers k e :
  (k < 30)%nat -> (forall i, (i < k)%nat -> answers i = ConnectOSError) -> answers k = ConnectError e ->
  connect answers = Raise e.
Proof.
  intros Hk Hall He. unfold connect. rewrite (connect_loop_first 30 k 0), decide_True by done.
  destruct (30 - k)%nat eqn:E; [lia|]. cbn. by rewrite He.
Qed.

(** Flushes are more frequent than what counts as idle, by default; no validator says so. *)
Lemma default_flush_is_frequent : flush_max_ms WorkerSettings_default < claim_idle_ms WorkerSettings_default.
Proof. done. Qed.
End Examples.
