(* ===== verification/Subscription.v ===== *)
(** * One subscription per replica ([fx_api/ws/manager.py]: [start], [_router], [stop])

    A replica of the API holds one connection to Redis that is subscribed to four
    patterns; the router reads it and hands every message to [dispatch] of
    [Fanout.v].  A step is one message published, one read, one loss of the
    connection, one of the two ways back, or what sessions do meanwhile.
    [replica_relays] says which messages the sessions see. *)
From S2P Require Import Prelude PyFloat Json Keys Text Readiness Fanout.
From Stdlib Require Import Ascii.
From stdpp Require Import pretty.

Local Open Scope Z_scope.

(* ------------------------------------------------------------------ *)
(** ** Patterns *)

(** Redis's match, for patterns whose only wildcard is the star. *)
Fixpoint glob (p : string) : string -> bool :=
  match p with
  | EmptyString => fun s => match s with EmptyString => true | _ => false end
  | String c p' =>
      if Ascii.eqb c "*"%char then
        fix star s := glob p' s || match s with EmptyString => false | String _ s' => star s' end
      else fun s => match s with String c' s' => Ascii.eqb c c' && glob p' s' | EmptyString => false end
  end.

(** What [start] subscribes to. *)
Definition patterns : list string :=
  [channel_tick "*"; channel_vol "*"; channel_alert "*"; channel_status].

(** Redis delivers a message once for every pattern it matches. *)
Definition copies (channel : string) : nat := length (List.filter (fun p => glob p channel) patterns).

Fixpoint star_free (p : string) : bool :=
  match p with EmptyString => true | String c p => negb (Ascii.eqb c "*"%char) && star_free p end.

Lemma glob_literal p s : star_free p = true -> glob p s = String.eqb p s.
Proof.
  revert s. induction p as [|c p IH]; intros [|c' s] Hp; try done; cbn in Hp;
    apply andb_true_iff in Hp as [Hc%negb_true_iff Hp]; cbn; rewrite Hc; [done|].
  rewrite IH by done. by destruct (Ascii.eqb c c').
Qed.

Lemma glob_prefix p s : star_free p = true -> glob (p +:+ "*") s = String.prefix p s.
Proof.
  revert s. induction p as [|c p IH]; intros s Hp.
  - assert (glob "*" s = true) as Hs by (induction s as [|c s IHs]; [done|exact IHs]).
    change ("" +:+ "*") with "*"%string. rewrite Hs. by destruct s.
  - cbn in Hp. apply andb_true_iff in Hp as [Hc%negb_true_iff Hp]. change (String c p +:+ "*") with (String c (p +:+ "*")).
    cbn [glob]. rewrite Hc. destruct s as [|c' s]; [done|]. cbn [String.prefix]. rewrite IH by done.
    destruct (Ascii.ascii_dec c c') as [->|Hne]; [by rewrite Ascii.eqb_refl|].
    by apply Ascii.eqb_neq in Hne as ->.
Qed.

Lemma prefix_rest p s : String.prefix p s = true -> exists rest, s = p +:+ rest.
Proof.
  revert s. induction p as [|c p IH]; intros s Hp; [by exists s|]. destruct s as [|c' s]; [done|]. cbn in Hp.
  destruct (Ascii.ascii_dec c c') as [->|]; [|done]. apply IH in Hp as [rest ->]. by exists rest.
Qed.

Definition bit (b : bool) : nat := if b then 1 else 0.

Lemma copies_alt channel :
  copies channel = (bit (String.prefix "ch:tick:" channel) + bit (String.prefix "ch:vol:" channel) +
    bit (String.prefix "ch:alerts:" channel) + bit (String.eqb "ch:status" channel))%nat.
Proof.
  unfold copies, patterns, channel_tick, channel_vol, channel_alert, channel_status.
  rewrite <- (glob_prefix "ch:tick:"), <- (glob_prefix "ch:vol:"), <- (glob_prefix "ch:alerts:"),
    <- (glob_literal "ch:status") by done.
  cbn [List.filter].
  destruct (glob ("ch:tick:" +:+ "*") channel), (glob ("ch:vol:" +:+ "*") channel),
    (glob ("ch:alerts:" +:+ "*") channel), (glob "ch:status" channel); done.
Qed.

(** The channels of the pairs and of the feed. *)
Definition ours (channel : string) : bool :=
  String.prefix (channel_tick "") channel || String.prefix (channel_vol "") channel ||
  String.prefix (channel_alert "") channel || String.eqb channel_status channel.

(** The four patterns do not overlap: what is published on one of them is delivered
    once, and anything else not at all. *)
Lemma copies_once channel : copies channel = bit (ours channel).
Proof.
  rewrite copies_alt. unfold ours.
  change (channel_tick "") with "ch:tick:"%string. change (channel_vol "") with "ch:vol:"%string.
  change (channel_alert "") with "ch:alerts:"%string. change channel_status with "ch:status"%string.
  destruct (String.prefix "ch:tick:" channel) eqn:H1; [apply prefix_rest in H1 as [r ->]; by destruct r|].
  destruct (String.prefix "ch:vol:" channel) eqn:H2; [apply prefix_rest in H2 as [r ->]; by destruct r|].
  destruct (String.prefix "ch:alerts:" channel) eqn:H3; [apply prefix_rest in H3 as [r ->]; by destruct r|].
  by destruct (String.eqb "ch:status" channel).
Qed.

(** What the ingestor publishes on. *)
Definition ingestor_channels (symbol : string) : list string :=
  [channel_tick symbol; channel_vol symbol; channel_alert symbol; channel_status].

Lemma ingestor_channels_ours symbol channel : channel ∈ ingestor_channels symbol -> ours channel = true.
Proof.
  intros Hc. enough (copies channel = 1%nat) as Ho by (rewrite copies_once in Ho; by destruct (ours channel)).
  unfold ingestor_channels, channel_tick, channel_vol, channel_alert, channel_status in Hc.
  rewrite !elem_of_cons, elem_of_nil in Hc.
  destruct Hc as [->|[->|[->|[->|[]]]]]; rewrite copies_alt; by destruct symbol.
Qed.

(* ------------------------------------------------------------------ *)
(** ** A replica *)

Section Subscription.
Context {F : Type} `{JsonText F}.
Context (upper : string -> string) (show : json F -> string).
Notation manager_run := (manager_run upper show).
Notation dispatch := (dispatch upper show).

(** [with contextlib.suppress(Exception): await self.refresh_feed_status()], given
    what [GET] returns; [None]: it raises. *)
Definition refresh (raw : option (option string)) (m : ConnectionManager (F := F)) : ConnectionManager :=
  match raw with
  | None => m
  | Some raw =>
      match refresh_feed_status raw with
      | Ok j => {| m_clients := m_clients m; feed_status := j |}
      | Raise _ => m
      end
  end.

(** The router: not started; in [listen]; in the sleep after a connection that
    [listen] gave up; cancelled. *)
Inductive RouterAt := Unstarted | Listening | Pausing | Cancelled.

(** [r_link]: the messages delivered on the connection and not read, or no
    connection. *)
Record Replica := {
  r_manager : ConnectionManager (F := F);
  r_link : option (list (string * string));
  r_router : RouterAt;
}.
Implicit Types (r : Replica) (m : ConnectionManager (F := F)).

Definition Replica_new : Replica := {|
  r_manager := {| m_clients := ∅; feed_status := unread |};
  r_link := None; r_router := Unstarted |}.

(** [start]: what the status key holds, if Redis answers. *)
Definition start (raw : option (option string)) r : Replica := {|
  r_manager := refresh raw (r_manager r); r_link := Some []; r_router := Listening |}.

(** [stop]: the router is cancelled, the connection closed, every session closed. *)
Definition stop r : Replica := {|
  r_manager := set_clients (r_manager r) (close_session <$> m_clients (r_manager r));
  r_link := None; r_router := match r_router r with Unstarted => Unstarted | _ => Cancelled end |}.

(** A message reaches the connections that are subscribed when it is published. *)
Definition deliver (channel raw : string) (link : option (list (string * string))) : option (list (string * string)) :=
  (fun queue => queue ++ replicate (copies channel) (channel, raw)) <$> link.
#[global] Arguments deliver : simpl never.

Inductive ReplicaEvent :=
  | Start (raw : option (option string))
  | Stop
  | Published (channel raw : string)
  (** the router takes the next message *)
  | Hears (now : Z)
  (** the connection breaks: what was not read is lost; [given_up]: beyond the
      client's own retries, so that [listen] raises *)
  | Cut (given_up : bool)
  (** the client has connected and subscribed again *)
  | Back
  (** the pause of a second is over *)
  | Wakes
  (** sessions come, go and do what their tasks do *)
  | Sessions (ev : ManagerEvent (F := F)).

Definition is_message (ev : ManagerEvent (F := F)) : bool := match ev with Message _ _ _ => true | _ => false end.

(** [None] where the event cannot happen. *)
Definition replica_step r (ev : ReplicaEvent) : option Replica :=
  match ev, r_router r, r_link r with
  | Start raw, Unstarted, _ => Some (start raw r)
  | Stop, _, _ => Some (stop r)
  | Published channel raw, _, _ =>
      Some {| r_manager := r_manager r; r_link := deliver channel raw (r_link r); r_router := r_router r |}
  | Hears now, Listening, Some ((channel, raw) :: queue) =>
      Some {| r_manager := (dispatch now channel raw (r_manager r)).1; r_link := Some queue; r_router := Listening |}
  | Cut given_up, Listening, Some _ =>
      Some {| r_manager := r_manager r; r_link := None; r_router := if given_up then Pausing else Listening |}
  | Cut true, Listening, None => Some {| r_manager := r_manager r; r_link := None; r_router := Pausing |}
  | Back, Listening, None => Some {| r_manager := r_manager r; r_link := Some []; r_router := Listening |}
  | Wakes, Pausing, _ => Some {| r_manager := r_manager r; r_link := r_link r; r_router := Listening |}
  | Sessions ev, _, _ =>
      if is_message ev then None
      else Some {| r_manager := manager_step upper show (r_manager r) ev; r_link := r_link r; r_router := r_router r |}
  | _, _, _ => None
  end.

Fixpoint replica_run r (evs : list ReplicaEvent) : option Replica :=
  match evs with
  | [] => Some r
  | ev :: evs => r ← replica_step r ev; replica_run r evs
  end.

(* ------------------------------------------------------------------ *)
(** ** What the sessions see *)

Definition unread_messages r : list (string * string) := default [] (r_link r).
Definition published (evs : list ReplicaEvent) : list (string * string) :=
  evs ≫= fun ev => match ev with Published channel raw => if ours channel then [(channel, raw)] else [] | _ => [] end.
Definition messages (ops : list (ManagerEvent (F := F))) : list (string * string) :=
  ops ≫= fun op => match op with Message _ channel raw => [(channel, raw)] | _ => [] end.
Definition session_ops (evs : list ReplicaEvent) : list (ManagerEvent (F := F)) :=
  evs ≫= fun ev => match ev with Sessions op => [op] | _ => [] end.
Definition alive r : Prop := r_router r = Listening \/ r_router r = Pausing.
Definition is_cut (ev : ReplicaEvent) : bool := match ev with Cut _ => true | _ => false end.

Lemma deliver_once channel raw queue :
  deliver channel raw (Some queue) = Some (queue ++ if ours channel then [(channel, raw)] else []).
Proof. unfold deliver. rewrite copies_once. by destruct (ours channel). Qed.

(** One step as operations of the manager. *)
Lemma replica_step_relays r ev r' :
  alive r -> ev <> Stop -> replica_step r ev = Some r' ->
  alive r' /\ exists ops,
    r_manager r' = manager_run (r_manager r) ops /\
    List.filter (fun op => negb (is_message op)) ops = session_ops [ev] /\
    messages ops ++ unread_messages r' `sublist_of` unread_messages r ++ published [ev] /\
    (is_cut ev = false -> is_Some (r_link r) ->
     is_Some (r_link r') /\ messages ops ++ unread_messages r' = unread_messages r ++ published [ev]).
Proof.
  intros Hal Hstop Hstep. destruct r as [m link router]. unfold alive, unread_messages in *. cbn in Hal.
  destruct ev as [raw| |channel raw|now|given_up| | |op]; cbn in Hstep.
  - destruct Hal as [->| ->]; done.
  - done.
  - injection Hstep as <-. split; [done|]. exists []. destruct link as [q|]; [rewrite deliver_once|]; cbn; rewrite app_nil_r.
    + by split_and!.
    + split_and!; [done|done|apply sublist_nil_l|by intros _ [? ?]].
  - destruct router; try done. destruct link as [[|[channel raw] q]|]; try done. injection Hstep as <-. cbn.
    split; [by left|]. exists [Message now channel raw]. cbn. rewrite app_nil_r. by split_and!.
  - assert (Hcut : unread_messages r' = [] /\ r_manager r' = m /\ (r_router r' = Listening \/ r_router r' = Pausing)).
    { destruct router, link, given_up; try done; injection Hstep as <-; cbn; auto. }
    destruct Hcut as (Hu & Hm & Hr). split; [done|]. exists []. unfold unread_messages in Hu. rewrite Hu, Hm. cbn.
    split_and!; try done. apply sublist_nil_l.
  - destruct router, link; try done. injection Hstep as <-. cbn. split; [by left|]. exists []. cbn.
    split_and!; done.
  - destruct router; try done. injection Hstep as <-. cbn. split; [by left|]. exists []. cbn. rewrite app_nil_r. done.
  - destruct (is_message op) eqn:Hop; [done|]. injection Hstep as <-. cbn. split; [done|]. exists [op].
    destruct op; try done; cbn; rewrite app_nil_r; by split_and!.
Qed.

(** The way back to the channel. *)
Definition way_back r : list ReplicaEvent :=
  match r_router r with Pausing => [Wakes] | _ => [] end ++ match r_link r with None => [Back] | _ => [] end.

Lemma hears_all now m (queue : list (string * string)) :
  replica_run {| r_manager := m; r_link := Some queue; r_router := Listening |} (replicate (length queue) (Hears now)) =
  Some {| r_manager := manager_run m ((fun cr => Message now cr.1 cr.2) <$> queue); r_link := Some []; r_router := Listening |}.
Proof. revert m. induction queue as [|[channel raw] queue IH]; intros m; [done|]. cbn. apply IH. Qed.

(** C24. A replica is the manager of [Fanout.v], fed in order with the messages published
    on the channels of the pairs and of the feed, each of them once: none twice, none
    from another channel, and none missing between two breaks of the connection,
    whatever a message does to [dispatch] and whatever sessions do meanwhile.  The
    router outlives every break: its way back is at most a pause and a new connection,
    and then every message on a channel the ingestor publishes on comes through. *)
Theorem replica_relays r evs r' :
  alive r -> Stop ∉ evs -> replica_run r evs = Some r' ->
  (exists ops, r_manager r' = manager_run (r_manager r) ops /\
     List.filter (fun op => negb (is_message op)) ops = session_ops evs /\
     messages ops ++ unread_messages r' `sublist_of` unread_messages r ++ published evs /\
     (Forall (fun ev => is_cut ev = false) evs -> is_Some (r_link r) ->
      messages ops ++ unread_messages r' = unread_messages r ++ published evs)) /\
  forall now symbol channel raw, channel ∈ ingestor_channels symbol ->
    let seen := unread_messages r' ++ [(channel, raw)] in
    replica_run r' (way_back r' ++ Published channel raw :: replicate (length seen) (Hears now)) =
    Some {| r_manager := manager_run (r_manager r') ((fun cr => Message now cr.1 cr.2) <$> seen);
            r_link := Some []; r_router := Listening |}.
Proof.
  intros Hal Hns Hrun.
  assert (Hall : alive r' /\ exists ops, r_manager r' = manager_run (r_manager r) ops /\
     List.filter (fun op => negb (is_message op)) ops = session_ops evs /\
     messages ops ++ unread_messages r' `sublist_of` unread_messages r ++ published evs /\
     (Forall (fun ev => is_cut ev = false) evs -> is_Some (r_link r) ->
      messages ops ++ unread_messages r' = unread_messages r ++ published evs)).
  { revert r Hal Hrun. induction evs as [|ev evs IH]; intros r Hal Hrun.
    - injection Hrun as <-. split; [done|]. exists []. cbn. by rewrite app_nil_r.
    - cbn in Hrun. destruct (replica_step r ev) as [r1|] eqn:Hstep; [|done]. cbn in Hrun.
      apply not_elem_of_cons in Hns as [Hne Hns].
      destruct (replica_step_relays r ev r1 Hal (not_eq_sym Hne) Hstep) as (Hal1 & o1 & Hm1 & Hf1 & Hs1 & Heq1).
      destruct (IH Hns r1 Hal1 Hrun) as (Hal' & o2 & Hm2 & Hf2 & Hs2 & Heq2). split; [done|].
      exists (o1 ++ o2). unfold messages, session_ops, published, Fanout.manager_run in *.
      rewrite List.filter_app, !bind_app, fold_left_app, <- Hm1, Hf1, Hf2. cbn in Hs1, Heq1. cbn.
      rewrite app_nil_r in *. split_and!; [done|done| |].
      + rewrite <- app_assoc. rewrite (app_assoc (unread_messages r)). etrans; [by apply sublist_app; [reflexivity|exact Hs2]|].
        rewrite app_assoc. by apply sublist_app.
      + intros [Hc Hcs]%Forall_cons Hl. destruct (Heq1 Hc Hl) as [Hl1 He1].
        rewrite <- app_assoc, (Heq2 Hcs Hl1), !app_assoc. by rewrite He1. }
  destruct Hall as [Hal' Hops]. split; [exact Hops|]. intros now symbol channel raw Hc%ingestor_channels_ours seen.
  assert (Hgo : forall queue, unread_messages r' = queue ->
    replica_run {| r_manager := r_manager r'; r_link := Some queue; r_router := Listening |}
      (Published channel raw :: replicate (length seen) (Hears now)) =
    Some {| r_manager := manager_run (r_manager r') ((fun cr => Message now cr.1 cr.2) <$> seen);
            r_link := Some []; r_router := Listening |}).
  { intros queue Hq.
    assert (Hd : deliver channel raw (Some queue) = Some seen) by (rewrite deliver_once, Hc; subst seen; by rewrite Hq).
    change (replica_run {| r_manager := r_manager r'; r_link := deliver channel raw (Some queue); r_router := Listening |}
      (replicate (length seen) (Hears now)) =
      Some {| r_manager := manager_run (r_manager r') ((fun cr => Message now cr.1 cr.2) <$> seen);
              r_link := Some []; r_router := Listening |}).
    rewrite Hd. apply hears_all. }
  destruct r' as [m link router]. unfold way_back, unread_messages in *. destruct Hal' as [Hr|Hr]; cbn in Hr; subst router;
    (destruct link as [q|]; [exact (Hgo q eq_refl)|exact (Hgo [] eq_refl)]).
Qed.

(** [stop] closes every session; a closed session takes nothing any more. *)
Lemma stop_closes r r' id s :
  replica_step r Stop = Some r' -> m_clients (r_manager r') !! id = Some s ->
  cs_closed s = true /\ forall now key v, offer now key v s = s.
Proof.
  intros Hstop Hs. cbn in Hstop. injection Hstop as <-. cbn in Hs. rewrite lookup_fmap in Hs.
  destruct (m_clients (r_manager r) !! id) as [s0|]; [|done]. injection Hs as <-. split; [done|]. intros now key v.
  unfold offer. done.
Qed.
End Subscription.

(* ------------------------------------------------------------------ *)
(** ** Examples *)

Section Examples.
#[local] Existing Instance json_bits.
Notation F := SpecFloat.spec_float.
Notation demo_replica_run := (replica_run demo_upper demo_show).

Definition demo_text (n : Z) : string := dumps (JObj (demo_alert_payload n) : json F).

(** A replica that was started while Redis did not answer the status. *)
Definition demo_replica : Replica (F := F) := start None Replica_new.

(** A browser watches EURUSD; an alert; a break that outlasts the client's retries,
    with a second alert in it; the way back, and a third. *)
Definition demo_outage : list (ReplicaEvent (F := F)) := [
  Sessions (Register "c" demo_session); Published (channel_alert "EURUSD") (demo_text 1); Hears 0;
  Sessions (Own "c" Drain); Cut true; Published (channel_alert "EURUSD") (demo_text 2); Wakes; Back]%string.

(** What the browser is owed, from an outcome of [demo_replica_run]. *)
Definition demo_owed (r : option (Replica (F := F))) : option (nat * bool) :=
  r ← r; s ← m_clients (r_manager r) !! "c"%string; Some (length (cs_pending s), cs_closed s).

(** The second alert is not shown and nothing says that it was missed: the session is
    open, its queue empty, and the browser is not asked to subscribe again. *)
Lemma alert_missed_in_outage :
  demo_owed (demo_replica_run demo_replica (take 3 demo_outage)) = Some (1%nat, false) /\
  demo_owed (demo_replica_run demo_replica demo_outage) = Some (0%nat, false).
Proof. split; vm_compute; reflexivity. Qed.

Lemma replica_relays_witness :
  exists r', demo_replica_run demo_replica demo_outage = Some r' /\
  (exists ops, r_manager r' = manager_run demo_upper demo_show (r_manager demo_replica) ops /\
     messages ops ++ unread_messages r' `sublist_of` published demo_outage) /\
  exists r'', demo_replica_run demo_replica
    (demo_outage ++ [Published (channel_alert "EURUSD") (demo_text 3); Hears 7]%string) = Some r''.
Proof.
  destruct (demo_replica_run demo_replica demo_outage) as [r'|] eqn:Hrun;
    [|apply (f_equal demo_owed) in Hrun; vm_compute in Hrun; discriminate Hrun].
  exists r'. split; [reflexivity|].
  destruct (replica_relays demo_upper demo_show demo_replica demo_outage r') as [(ops & Hm & _ & Hs & _) Hback].
  - left. reflexivity.
  - unfold demo_outage. rewrite !not_elem_of_cons. repeat (split; [discriminate|]). apply not_elem_of_nil.
  - exact Hrun.
  - split; [exists ops; split; [exact Hm|exact Hs]|].
    destruct (demo_replica_run demo_replica (demo_outage ++ _)) as [r''|] eqn:Hrun''; [by exists r''|].
    apply (f_equal demo_owed) in Hrun''. vm_compute in Hrun''. discriminate Hrun''.
Defined.
End Examples.
